(** * The reactivity core of Vue 2.6.10: Dep, Watcher, scheduler, Observer

    A shallow embedding of
      - src/core/observer/watcher.js   (Watcher: get, addDep, cleanupDeps,
                                        update, run),
      - src/core/observer/scheduler.js (queueWatcher, flushSchedulerQueue,
                                        resetSchedulerState),
      - src/core/observer/index.js     (observe, Observer, defineReactive,
                                        reactiveSetter, set),
    and of the parts of src/core/observer/dep.js and src/core/util they call.

    JavaScript objects are references.  A Dep is named by its [id], a Watcher
    by its [id]; the mutable records they point to live in finite maps of
    the state, so that two places holding the same Dep or Watcher see the
    same record. *)

From stdpp Require Import gmap list strings sorting pretty.

(** ** JavaScript values *)

(** Numbers are the integers together with NaN; an object or array is a
    reference into the heap. *)
Inductive Value : Type :=
| VUndefined
| VNull
| VBool (b : bool)
| VNum (z : Z)
| VNaN
| VStr (s : string)
| VObj (a : nat).

Global Instance Value_eq_dec : EqDecision Value.
Proof. solve_decision. Defined.

(** [a === b] *)
Definition strict_eq (a b : Value) : bool :=
  match a, b with
  | VUndefined, VUndefined => true
  | VNull, VNull => true
  | VBool x, VBool y => bool_decide (x = y)
  | VNum x, VNum y => bool_decide (x = y)
  | VNaN, _ | _, VNaN => false
  | VStr x, VStr y => bool_decide (x = y)
  | VObj x, VObj y => bool_decide (x = y)
  | _, _ => false
  end.

(** Modelled from the spec: [isObject] of src/core/util (shared/util.js is
    not among the sources).  "the value is a primitive (not an
    object/array)": [obj !== null && typeof obj === 'object']. *)
Definition isObject (v : Value) : bool :=
  match v with VObj _ => true | _ => false end.

(** How a call ends: it returns, or it throws a value. *)
Inductive Completion : Type :=
| Normal
| Throws (e : Value).

(** Where [handleError] was called from (its [info] argument). *)
Inductive ErrSite : Type := InGetter | InCallback.

Global Instance ErrSite_eq_dec : EqDecision ErrSite.
Proof. solve_decision. Defined.

(** What an observer of the running system sees, in order. *)
Inductive Event : Type :=
| EvRun (w : nat)                      (* the flush loop calls watcher.run() *)
| EvCall (w : nat) (v old : Value)     (* this.cb.call(this.vm, value, oldValue) *)
| EvError (e : Value) (w : nat) (s : ErrSite)   (* handleError(e, vm, info) *)
| EvWarn (w : nat)                     (* warn('You may have an infinite update loop ...') *)
| EvHooks (q : list nat).              (* callUpdatedHooks(updatedQueue) *)

Global Instance Event_eq_dec : EqDecision Event.
Proof. solve_decision. Defined.

(** process.env.NODE_ENV and config.async *)
Record Config : Type := mkConfig { production : bool; async : bool }.

(** scheduler.js, line 15 *)
Definition MAX_UPDATE_COUNT : nat := 100.

Section Core.

(** The reactive data as user code sees it.  User code (a getter, a
    callback, a hook) meets the core at two points only: reading a reactive
    property calls [dep.depend()], writing one calls [dep.notify()]. *)
Context {W : Type}.
Variable cfg : Config.

(** One evaluation of [this.getter.call(vm, vm)]: the Deps whose [depend()]
    the property getters call, in order, and how the call ends ([inl v]:
    returns [v]; [inr e]: throws [e] after the reads). *)
Record Eval : Type := mkEval { reads : list nat; outcome : Value + Value }.

(** User code that writes: each action changes the data and calls
    [notify()] on the Deps of the properties it assigned, then goes on. *)
Inductive Script : Type :=
| Done
| Throw (e : Value)
| Act (a : W → W * list nat) (k : W → Script).

(** watcher.js, class Watcher.  [this.id] is the key of the record in
    [watchers]; [this.deps]/[this.newDeps] hold Deps (by id),
    [this.depIds]/[this.newDepIds] their ids. *)
Record Watcher : Type := mkWatcher {
  deep : bool;
  user : bool;
  lazy : bool;
  sync : bool;
  before : option Script;
  dirty : bool;
  active : bool;
  deps : list nat;
  newDeps : list nat;
  depIds : gset nat;
  newDepIds : gset nat;
  getter : W → Eval;
  cb : Value → Value → Script;
  value : Value
}.

(** scheduler.js, lines 17-23.  [has] holds the ids [i] with
    [has[i] != null]; [ticks] counts the [nextTick(flushSchedulerQueue)]
    callbacks handed to the host and not yet run. *)
Record Sched : Type := mkSched {
  queue : list nat;
  has : gset nat;
  circular : gmap nat nat;
  waiting : bool;
  flushing : bool;
  index : nat;
  ticks : nat
}.

Record State : Type := mkState {
  world : W;
  subs : gmap nat (list nat);          (* dep.subs of every Dep *)
  watchers : gmap nat Watcher;
  targetStack : list (option nat);     (* Dep.target is its top *)
  sched : Sched;
  log : list Event
}.

Definition Proc : Type := State → option (State * Completion).

(** *** Field updates *)

Definition with_world (x : W) (st : State) : State :=
  mkState x (subs st) (watchers st) (targetStack st) (sched st) (log st).
Definition with_subs (x : gmap nat (list nat)) (st : State) : State :=
  mkState (world st) x (watchers st) (targetStack st) (sched st) (log st).
Definition with_watchers (x : gmap nat Watcher) (st : State) : State :=
  mkState (world st) (subs st) x (targetStack st) (sched st) (log st).
Definition with_targetStack (x : list (option nat)) (st : State) : State :=
  mkState (world st) (subs st) (watchers st) x (sched st) (log st).
Definition with_sched (x : Sched) (st : State) : State :=
  mkState (world st) (subs st) (watchers st) (targetStack st) x (log st).
Definition emit (e : Event) (st : State) : State :=
  mkState (world st) (subs st) (watchers st) (targetStack st) (sched st)
          (log st ++ [e]).

Definition set_watcher (i : nat) (w : Watcher) (st : State) : State :=
  with_watchers (<[i := w]> (watchers st)) st.

Definition with_tracking (ds nds : list nat) (ids nids : gset nat)
    (w : Watcher) : Watcher :=
  mkWatcher (deep w) (user w) (lazy w) (sync w) (before w) (dirty w)
            (active w) ds nds ids nids (getter w) (cb w) (value w).
Definition with_dirty (b : bool) (w : Watcher) : Watcher :=
  mkWatcher (deep w) (user w) (lazy w) (sync w) (before w) b
            (active w) (deps w) (newDeps w) (depIds w) (newDepIds w)
            (getter w) (cb w) (value w).
Definition with_value (v : Value) (w : Watcher) : Watcher :=
  mkWatcher (deep w) (user w) (lazy w) (sync w) (before w) (dirty w)
            (active w) (deps w) (newDeps w) (depIds w) (newDepIds w)
            (getter w) (cb w) v.

Definition with_queue (q : list nat) (s : Sched) : Sched :=
  mkSched q (has s) (circular s) (waiting s) (flushing s) (index s) (ticks s).
Definition with_has (h : gset nat) (s : Sched) : Sched :=
  mkSched (queue s) h (circular s) (waiting s) (flushing s) (index s) (ticks s).
Definition with_circular (c : gmap nat nat) (s : Sched) : Sched :=
  mkSched (queue s) (has s) c (waiting s) (flushing s) (index s) (ticks s).
Definition with_waiting (b : bool) (s : Sched) : Sched :=
  mkSched (queue s) (has s) (circular s) b (flushing s) (index s) (ticks s).
Definition with_flushing (b : bool) (s : Sched) : Sched :=
  mkSched (queue s) (has s) (circular s) (waiting s) b (index s) (ticks s).
Definition with_index (i : nat) (s : Sched) : Sched :=
  mkSched (queue s) (has s) (circular s) (waiting s) (flushing s) i (ticks s).

(** *** dep.js *)

Definition subs_of (st : State) (d : nat) : list nat :=
  default [] (subs st !! d).

(** Modelled from the spec: [Dep.addSub] of src/core/observer/dep.js, which
    is not among the sources.  "subscribe(node) adds a node if not already
    present". *)
Definition addSub (d w : nat) (st : State) : State :=
  if decide (w ∈ subs_of st d) then st
  else with_subs (<[d := subs_of st d ++ [w]]> (subs st)) st.

(** Modelled from the spec: [Dep.removeSub] of dep.js.  "unsubscribe(node)
    removes it". *)
Definition removeSub (d w : nat) (st : State) : State :=
  with_subs (<[d := filter (λ x, x ≠ w) (subs_of st d)]> (subs st)) st.

(** Modelled from the spec: [pushTarget] of dep.js.  "push(node) makes node
    the active target for all depend() calls until pop() restores the
    previous top (or none)". *)
Definition pushTarget (t : option nat) (st : State) : State :=
  with_targetStack (t :: targetStack st) st.

(** Modelled from the spec: [popTarget] of dep.js. *)
Definition popTarget (st : State) : State :=
  with_targetStack (tail (targetStack st)) st.

(** [Dep.target] *)
Definition target (st : State) : option nat :=
  match targetStack st with
  | t :: _ => t
  | [] => None
  end.

(** Modelled from the spec: [handleError] of src/core/util/error.js, which is
    not among the sources.  "routes the error to the shared error-reporting
    path (logged, not rethrown ...)". *)
Definition handleError (e : Value) (w : nat) (s : ErrSite) (st : State) : State :=
  emit (EvError e w s) st.

(** *** watcher.js: dependency collection *)

(** Watcher.addDep, lines 210-219 *)
Definition addDep (i d : nat) (st : State) : State :=
  match watchers st !! i with
  | None => st
  | Some w =>
      if decide (d ∈ newDepIds w) then st
      else
        let w' := with_tracking (deps w) (newDeps w ++ [d]) (depIds w)
                                ({[d]} ∪ newDepIds w) w in
        let st' := set_watcher i w' st in
        if decide (d ∈ depIds w) then st' else addSub d i st'
  end.

(** Modelled from the spec: [Dep.depend] of dep.js.  "if a current
    computation exists, registers mutual interest". *)
Definition depend (d : nat) (st : State) : State :=
  match target st with
  | Some t => addDep t d st
  | None => st
  end.

(** Watcher.cleanupDeps, lines 224-250.  The loop [while (i--)] walks
    [this.deps] from its last element to its first. *)
Definition cleanupDeps (i : nat) (st : State) : State :=
  match watchers st !! i with
  | None => st
  | Some w =>
      let st1 :=
        foldl (λ s d, if decide (d ∈ newDepIds w) then s else removeSub d i s)
              st (reverse (deps w)) in
      set_watcher i (with_tracking (newDeps w) [] (newDepIds w) ∅ w) st1
  end.

(** src/core/observer/traverse.js.  [traverse(val)] returns at once unless
    [val] is an object or array; otherwise it reads every nested property,
    and what reaches the core is the [depend()] calls of their getters,
    [deep_reads]. *)
Variable deep_reads : nat → W → list nat.

Definition traverse (v : Value) (st : State) : State :=
  match v with
  | VObj a => foldl (λ s d, depend d s) st (deep_reads a (world st))
  | _ => st
  end.

(** Watcher.get, lines 150-204.  The result is [inl value] when [get]
    returns and [inr e] when it rethrows [e]; either way the [finally]
    block has run. *)
Definition get (i : nat) (st : State) : option (State * (Value + Value)) :=
  let st0 := pushTarget (Some i) st in
  match watchers st0 !! i with
  | None => None
  | Some w =>
      let ev := getter w (world st0) in
      let st1 := foldl (λ s d, depend d s) st0 (reads ev) in
      let '(val, st2, rethrow) :=
        match outcome ev with
        | inl v => (v, st1, None)
        | inr e =>
            if user w then (VUndefined, handleError e i InGetter st1, None)
            else (VUndefined, st1, Some e)
        end in
      let st3 := if deep w then traverse val st2 else st2 in
      let st4 := popTarget st3 in
      let st5 := cleanupDeps i st4 in
      Some (st5, match rethrow with None => inl val | Some e => inr e end)
  end.

(** *** Running user code *)

Fixpoint for_each {A : Type} (f : A → Proc) (l : list A) : Proc :=
  λ st,
    match l with
    | [] => Some (st, Normal)
    | x :: l' =>
        match f x st with
        | Some (st', Normal) => for_each f l' st'
        | r => r
        end
    end.

(** Modelled from the spec: [Dep.notify] of dep.js.  "notify() invokes
    onInvalidate on a snapshot of the current subscriber list, in list
    order". *)
Definition notify_with (update : nat → Proc) (d : nat) : Proc :=
  λ st, for_each update (subs_of st d) st.

Fixpoint script_with (notify : nat → Proc) (s : Script) : Proc :=
  λ st,
    match s with
    | Done => Some (st, Normal)
    | Throw e => Some (st, Throws e)
    | Act a k =>
        let '(x, ds) := a (world st) in
        match for_each notify ds (with_world x st) with
        | Some (st', Normal) => script_with notify (k (world st')) st'
        | r => r
        end
    end.

(** *** watcher.js: update and run *)

(** Watcher.update, lines 257-275 *)
Definition update_with (run queueWatcher : nat → Proc) (i : nat) : Proc :=
  λ st,
    match watchers st !! i with
    | None => None
    | Some w =>
        if lazy w then Some (set_watcher i (with_dirty true w) st, Normal)
        else if sync w then run i st
        else queueWatcher i st
    end.

(** Watcher.run, lines 282-314 *)
Definition run_with (script : Script → Proc) (i : nat) : Proc :=
  λ st,
    match watchers st !! i with
    | None => None
    | Some w0 =>
        if active w0 then
          match get i st with
          | None => None
          | Some (st1, inr e) => Some (st1, Throws e)
          | Some (st1, inl v) =>
              match watchers st1 !! i with
              | None => None
              | Some w =>
                  if negb (strict_eq v (value w)) || isObject v || deep w then
                    let oldValue := value w in
                    let st2 := set_watcher i (with_value v w) st1 in
                    let st3 := emit (EvCall i v oldValue) st2 in
                    if user w then
                      match script (cb w v oldValue) st3 with
                      | Some (st4, Throws e) =>
                          Some (handleError e i InCallback st4, Normal)
                      | r => r
                      end
                    else script (cb w v oldValue) st3
                  else Some (st1, Normal)
              end
          end
        else Some (st, Normal)
    end.

(** *** scheduler.js *)

(** resetSchedulerState, lines 29-40 *)
Definition resetSchedulerState (st : State) : State :=
  let s := sched st in
  with_sched
    (mkSched [] ∅ (if production cfg then circular s else ∅)
             false false 0 (ticks s)) st.

(** The scan of queueWatcher, lines 213-217: [i1] is [i + 1], the result is
    the position [i + 1] handed to [splice]. *)
Fixpoint splice_pos (q : list nat) (idx id : nat) (i1 : nat) : nat :=
  match i1 with
  | 0 => 0
  | S i =>
      match q !! i with
      | Some x =>
          if bool_decide (idx < i) && bool_decide (id < x)
          then splice_pos q idx id i
          else S i
      | None => S i
      end
  end.

(** [queue.splice(p, 0, x)] *)
Definition splice (p : nat) (x : nat) (q : list nat) : list nat :=
  take p q ++ x :: drop p q.

(** Modelled from the spec: [nextTick] of src/core/util/next-tick.js, which
    is not among the sources.  "schedules a flush via the host's
    microtask-equivalent callback". *)
Definition nextTick (st : State) : State :=
  let s := sched st in
  with_sched (mkSched (queue s) (has s) (circular s) (waiting s)
                      (flushing s) (index s) (S (ticks s))) st.

(** queueWatcher, lines 201-233 *)
Definition queueWatcher_with (flush : Proc) (i : nat) : Proc :=
  λ st,
    let s := sched st in
    if decide (i ∈ has s) then Some (st, Normal)
    else
      let s1 := with_has ({[i]} ∪ has s) s in
      let s2 :=
        if flushing s1 then
          with_queue
            (splice (splice_pos (queue s1) (index s1) i (length (queue s1)))
                    i (queue s1)) s1
        else with_queue (queue s1 ++ [i]) s1 in
      if waiting s2 then Some (with_sched s2 st, Normal)
      else
        let st3 := with_sched (with_waiting true s2) st in
        if negb (production cfg) && negb (async cfg) then flush st3
        else Some (nextTick st3, Normal).

(** [has[id] = null], line 114 *)
Definition clear_has (i : nat) (st : State) : State :=
  with_sched (with_has (has (sched st) ∖ {[i]}) (sched st)) st.

(** [index++], line 108 *)
Definition next_index (st : State) : State :=
  with_sched (with_index (S (index (sched st))) (sched st)) st.

(** [circular[id] = (circular[id] || 0) + 1], line 126 *)
Definition count_circular (i : nat) (st : State) : State :=
  with_sched
    (with_circular
       (<[i := default 0 (circular (sched st) !! i) + 1]> (circular (sched st)))
       (sched st)) st.

(** The loop of flushSchedulerQueue, lines 108-141; one unit of [n] per
    iteration.  [None]: the iterations allowed were not enough. *)
Fixpoint drain (run : nat → Proc) (script : Script → Proc) (n : nat) : Proc :=
  λ st,
    match n with
    | 0 => None
    | S n' =>
        match queue (sched st) !! index (sched st) with
        | None => Some (st, Normal)
        | Some i =>
            match watchers st !! i with
            | None => None
            | Some w =>
                match
                  match before w with
                  | Some b => script b st
                  | None => Some (st, Normal)
                  end
                with
                | Some (st1, Normal) =>
                    match run i (emit (EvRun i) (clear_has i st1)) with
                    | Some (st3, Normal) =>
                        if negb (production cfg)
                           && bool_decide (i ∈ has (sched st3)) then
                          if bool_decide
                               (MAX_UPDATE_COUNT
                                < default 0 (circular (sched st3) !! i) + 1)
                          then Some (emit (EvWarn i) (count_circular i st3), Normal)
                          else drain run script n' (next_index (count_circular i st3))
                        else drain run script n' (next_index st3)
                    | r => r
                    end
                | r => r
                end
            end
        end
    end.

(** flushSchedulerQueue, lines 82-161.  The time stamp is not modelled;
    [activatedChildren] and the hooks belong to instance/lifecycle.js, which
    is not among the sources: the call of [callUpdatedHooks] on the copy of
    the queue is recorded as an event. *)
Definition flushSchedulerQueue_with
    (run : nat → Proc) (script : Script → Proc) (n : nat) : Proc :=
  λ st,
    let s := sched st in
    let s1 := with_index 0 (with_queue (merge_sort le (queue s))
                                       (with_flushing true s)) in
    match drain run script n (with_sched s1 st) with
    | Some (st', Normal) =>
        let updatedQueue := queue (sched st') in
        Some (emit (EvHooks updatedQueue) (resetSchedulerState st'), Normal)
    | r => r
    end.

(** *** Tying the calls together

    [Watcher.run] calls user code, whose writes call [Dep.notify], which
    calls [Watcher.update], which calls [Watcher.run] or [queueWatcher],
    which may call [flushSchedulerQueue], which calls [Watcher.run].
    [fuel] bounds the depth of these calls and the iterations of a flush
    loop. *)
Record Procs : Type := mkProcs { p_run : nat → Proc; p_flush : Proc }.

Definition script_of (p : Procs) : Script → Proc :=
  script_with
    (notify_with (update_with (p_run p) (queueWatcher_with (p_flush p)))).

Fixpoint procs (fuel : nat) : Procs :=
  match fuel with
  | 0 => mkProcs (λ _ _, None) (λ _, None)
  | S f =>
      let lower := procs f in
      mkProcs (run_with (script_of lower))
              (flushSchedulerQueue_with (p_run lower) (script_of lower) (S f))
  end.

Definition run (fuel : nat) : nat → Proc := p_run (procs fuel).
Definition flushSchedulerQueue (fuel : nat) : Proc := p_flush (procs fuel).
Definition queueWatcher (fuel : nat) : nat → Proc :=
  queueWatcher_with (flushSchedulerQueue fuel).
Definition update (fuel : nat) : nat → Proc :=
  update_with (run fuel) (queueWatcher fuel).
Definition notify (fuel : nat) : nat → Proc := notify_with (update fuel).
Definition script (fuel : nat) : Script → Proc := script_of (procs fuel).

End Core.

(** ** Specification vocabulary for the core *)

Section CoreSpec.
Context {W : Type} (deep_reads : nat → W → list nat).
Local Abbreviation State := (@State W).
Local Abbreviation Watcher := (@Watcher W).
Implicit Types (st : State) (w : Watcher).

Definition occ (i : nat) (l : list nat) : nat := length (filter (λ x, x = i) l).

Definition others (i : nat) (l : list nat) : list nat := filter (λ x, x ≠ i) l.

(** The part of the state a dependency collection of watcher [i] leaves
    alone. *)
Record frame (i : nat) (st st' : State) : Prop := mkFrame {
  frame_world : world st' = world st;
  frame_sched : sched st' = sched st;
  frame_watchers : ∀ j, j ≠ i → watchers st' !! j = watchers st !! j;
  frame_subs : ∀ d, others i (subs_of st' d) = others i (subs_of st d)
}.

(** Subscription and dependency set agree: the state of a watcher between
    two evaluations. *)
Definition consistent (st : State) (i : nat) : Prop :=
  ∃ w, watchers st !! i = Some w ∧
       newDeps w = [] ∧ newDepIds w = ∅ ∧
       NoDup (deps w) ∧ depIds w = list_to_set (deps w) ∧
       ∀ d, occ i (subs_of st d) = if decide (d ∈ deps w) then 1 else 0.

(** The Deps of a sequence of reads, each once, in the order of their first
    read. *)
Definition uniq (l : list nat) : list nat :=
  foldl (λ acc d, if decide (d ∈ acc) then acc else acc ++ [d]) [] l.

(** The state of watcher [i] while it evaluates, having read [seen]. *)
Definition collecting (w0 : Watcher) (i : nat) (seen : list nat) (st : State) : Prop :=
  ∃ w, watchers st !! i = Some w ∧
       deps w = deps w0 ∧ depIds w = depIds w0 ∧
       deep w = deep w0 ∧ user w = user w0 ∧ getter w = getter w0 ∧
       value w = value w0 ∧ cb w = cb w0 ∧ active w = active w0 ∧
       newDeps w = uniq seen ∧ newDepIds w = list_to_set (newDeps w) ∧
       ∀ d, occ i (subs_of st d) =
            if decide (d ∈ deps w0 ∨ d ∈ newDeps w) then 1 else 0.

(** The state of watcher [i] while it evaluates, having read [seen],
    whatever its subscriptions were before: [sub0] holds of the Deps that
    had it among their subscribers when the evaluation began. *)
Definition gathering (w0 : Watcher) (sub0 : nat → Prop) (i : nat)
    (seen : list nat) (st : State) : Prop :=
  ∃ w, watchers st !! i = Some w ∧
       deps w = deps w0 ∧ depIds w = depIds w0 ∧
       newDeps w = uniq seen ∧ newDepIds w = list_to_set (newDeps w) ∧
       ∀ d, i ∈ subs_of st d ↔ sub0 d ∨ (d ∉ deps w0 ∧ d ∈ newDeps w).

(** What one evaluation of watcher [w] reads in the data [x]: the reads of
    its getter, then for a deep watcher those of [traverse(value)]. *)
Definition reads_of (w : Watcher) (x : W) : list nat :=
  reads (getter w x) ++
  (if deep w then
     match outcome (getter w x) with
     | inl (VObj a) => deep_reads a x
     | _ => []
     end
   else []).

(** The fields of a watcher that dependency collection never writes. *)
Definition same_code (w w' : Watcher) : Prop :=
  deep w' = deep w ∧ user w' = user w ∧ lazy w' = lazy w ∧ sync w' = sync w ∧
  before w' = before w ∧ active w' = active w ∧ getter w' = getter w ∧
  cb w' = cb w.

Definition same_codes (m m' : gmap nat Watcher) : Prop :=
  ∀ j, match m !! j, m' !! j with
       | Some w, Some w' => same_code w w'
       | None, None => True
       | _, _ => False
       end.

(** What dependency collection leaves alone: everything but [subs] and the
    tracking fields of the watchers. *)
Record tracking_only (st st' : State) : Prop := mkTrackingOnly {
  to_world : world st' = world st;
  to_sched : sched st' = sched st;
  to_log : log st' = log st;
  to_stack : targetStack st' = targetStack st;
  to_codes : same_codes (watchers st) (watchers st');
  to_values : ∀ j, value <$> watchers st' !! j = value <$> watchers st !! j
}.

(** How [get] ends, from the getter's outcome. *)
Definition get_result (w : Watcher) (x : W) : Value + Value :=
  match outcome (getter w x) with
  | inl v => inl v
  | inr e => if user w then inl VUndefined else inr e
  end.

Definition get_errors (i : nat) (w : Watcher) (x : W) : list Event :=
  match outcome (getter w x) with
  | inl v => []
  | inr e => if user w then [EvError e i InGetter] else []
  end.

End CoreSpec.

(** ** Specification vocabulary for the scheduler *)

(** The watchers the flush loop ran, in order. *)
Definition runs_of (l : list Event) : list nat :=
  omap (λ e, match e with EvRun i => Some i | _ => None end) l.

(** The watchers a runaway-update diagnostic was emitted for, in order. *)
Definition warns_of (l : list Event) : list nat :=
  omap (λ e, match e with EvWarn i => Some i | _ => None end) l.

(** One [queueWatcher] during a flush: a watcher that is not in [has] is
    marked and spliced in behind the cursor. *)
Inductive enq_step : Sched → Sched → Prop :=
| enq_step_intro s i p :
    i ∉ has s → index s < p → p ≤ length (queue s) →
    enq_step s (with_queue (splice p i (queue s)) (with_has ({[i]} ∪ has s) s)).


Section SchedSpec.
Context {W : Type} (cfg : Config).
Local Abbreviation State := (@State W).
Local Abbreviation Watcher := (@Watcher W).
Local Abbreviation Script := (@Script W).
Local Abbreviation Proc := (@Proc W).
Implicit Types (st : State) (w : Watcher).

(** A call made while a flush is under way changes the scheduler by
    enqueueing only, and runs no queued watcher itself. *)
Definition enqueue_only (p : Proc) : Prop :=
  ∀ st st' c,
    waiting (sched st) = true → flushing (sched st) = true →
    index (sched st) < length (queue (sched st)) →
    p st = Some (st', c) →
    rtc enq_step (sched st) (sched st') ∧
    runs_of (log st') = runs_of (log st) ∧
    warns_of (log st') = warns_of (log st).

(** User code that changes data without notifying any Dep and without
    throwing. *)
Inductive silent : Script → Prop :=
| silent_Done : silent Done
| silent_Act a k :
    (∀ x, (a x).2 = []) → (∀ x, silent (k x)) → silent (Act a k).

(** A watcher whose run leaves the scheduler alone. *)
Definition quiet (w : Watcher) : Prop :=
  before w = None ∧
  (∀ v old, silent (cb w v old)) ∧
  (user w = true ∨ ∀ x, ∃ v, outcome (getter w x) = inl v).

(** The entries of [q] from position [a] up to, not including, [b]. *)
Definition segment (a b : nat) (q : list nat) : list nat := drop a (take b q).

(** What holds each time the flush loop, started in [st0], tests its
    condition. *)
Record loop_inv (st0 st : State) : Prop := mkLoopInv {
  li_waiting : waiting (sched st) = true;
  li_flushing : flushing (sched st) = true;
  li_index : index (sched st0) ≤ index (sched st);
  li_prefix : take (index (sched st0)) (queue (sched st))
              = take (index (sched st0)) (queue (sched st0));
  li_runs : runs_of (log st)
            = runs_of (log st0)
              ++ segment (index (sched st0)) (index (sched st)) (queue (sched st));
  li_warns : warns_of (log st) = warns_of (log st0);
  li_bound : ∀ id, default 0 (circular (sched st) !! id) ≤ MAX_UPDATE_COUNT
}.

(** What holds when the flush loop, started in [st0], is left. *)
Definition loop_post (st0 st' : State) (c : Completion) : Prop :=
  waiting (sched st') = true ∧ flushing (sched st') = true ∧
  index (sched st0) ≤ index (sched st') ∧
  take (index (sched st0)) (queue (sched st'))
    = take (index (sched st0)) (queue (sched st0)) ∧
  match c with
  | Normal =>
      (queue (sched st') !! index (sched st') = None ∧
       runs_of (log st')
         = runs_of (log st0)
           ++ segment (index (sched st0)) (index (sched st')) (queue (sched st')) ∧
       warns_of (log st') = warns_of (log st0) ∧
       ∀ id, default 0 (circular (sched st') !! id) ≤ MAX_UPDATE_COUNT)
      ∨
      (production cfg = false ∧
       ∃ i, queue (sched st') !! index (sched st') = Some i ∧
            i ∈ has (sched st') ∧
            i ∈ drop (S (index (sched st'))) (queue (sched st')) ∧
            circular (sched st') !! i = Some (S MAX_UPDATE_COUNT) ∧
            runs_of (log st')
              = runs_of (log st0)
                ++ segment (index (sched st0)) (S (index (sched st')))
                           (queue (sched st')) ∧
            warns_of (log st') = warns_of (log st0) ++ [i] ∧
            last (log st') = Some (EvWarn i))
  | Throws e =>
      ∃ k, (k = index (sched st') ∨ k = S (index (sched st'))) ∧
           runs_of (log st')
             = runs_of (log st0) ++ segment (index (sched st0)) k (queue (sched st'))
  end.

(** Whether [run] calls the callback: the test of watcher.js, lines
    289-296, on the new value [v]. *)
Definition fires (w : Watcher) (v : Value) : bool :=
  negb (strict_eq v (value w)) || isObject v || deep w.

(** The value [get] hands to [run] when it does not rethrow. *)
Definition got (w : Watcher) (x : W) : Value :=
  match outcome (getter w x) with
  | inl v => v
  | inr _ => VUndefined
  end.

(** User code that assigns a reactive property once for every [f] of [fs]:
    each assignment changes the data by [f] and notifies the property's
    Dep [d]. *)
Fixpoint writes_script (d : nat) (fs : list (W → W)) : Script :=
  match fs with
  | [] => Done
  | f :: fs' => Act (λ x, (f x, [d])) (λ _, writes_script d fs')
  end.



(** The state in which the loop of a flush of [st] is entered. *)
Definition flush_start (st : State) : State :=
  with_sched
    (with_index 0 (with_queue (merge_sort le (queue (sched st)))
                              (with_flushing true (sched st)))) st.

(** A call only appends to the log. *)
Definition log_grows (p : Proc) : Prop :=
  ∀ st st' c, p st = Some (st', c) → log st `prefix_of` log st'.

End SchedSpec.

(** ** watcher.js: construction, lazy evaluation and teardown; the getter of
    a computed property *)

Section Lifecycle.
Context {W : Type} (cfg : Config) (deep_reads : nat → W → list nat).
Local Abbreviation State := (@State W).
Local Abbreviation Watcher := (@Watcher W).
Local Abbreviation Script := (@Script W).
Local Abbreviation Eval := (@Eval).
Implicit Types (st : State) (w : Watcher).

Definition with_active (b : bool) (w : Watcher) : Watcher :=
  mkWatcher (deep w) (user w) (lazy w) (sync w) (before w) (dirty w)
            b (deps w) (newDeps w) (depIds w) (newDepIds w)
            (getter w) (cb w) (value w).

(** The [options] argument of the constructor. *)
Record Options : Type := mkOptions {
  o_deep : bool;
  o_user : bool;
  o_lazy : bool;
  o_sync : bool;
  o_before : option Script
}.

(** The constructor of Watcher, lines 85-144, for [expOrFn] a function.
    [uid] is the counter of line 19; the watcher made has the id [S uid],
    which is the counter afterwards and the first component of the result.
    [vm._watcher] and [vm._watchers] belong to the component instance, which
    is not part of the state.  The constructor throws what the first [get]
    rethrows. *)
Definition newWatcher (uid : nat) (getter : W → Eval)
    (cb : Value → Value → Script) (options : option Options) (st : State)
    : option (nat * State * Completion) :=
  let id := S uid in
  let w :=
    match options with
    | Some o =>
        mkWatcher (o_deep o) (o_user o) (o_lazy o) (o_sync o) (o_before o)
                  (o_lazy o) true [] [] ∅ ∅ getter cb VUndefined
    | None =>
        mkWatcher false false false false None false true [] [] ∅ ∅
                  getter cb VUndefined
    end in
  let st0 := set_watcher id w st in
  if lazy w then Some (id, st0, Normal)
  else
    match get deep_reads id st0 with
    | None => None
    | Some (st1, inr e) => Some (id, st1, Throws e)
    | Some (st1, inl v) =>
        match watchers st1 !! id with
        | None => None
        | Some w1 => Some (id, set_watcher id (with_value v w1) st1, Normal)
        end
    end.

(** Watcher.evaluate, lines 321-324 *)
Definition evaluate (i : nat) : @Proc W :=
  λ st,
    match get deep_reads i st with
    | None => None
    | Some (st1, inr e) => Some (st1, Throws e)
    | Some (st1, inl v) =>
        match watchers st1 !! i with
        | None => None
        | Some w =>
            Some (set_watcher i (with_dirty false (with_value v w)) st1, Normal)
        end
    end.

(** Watcher.depend, lines 336-351: [this.deps[i].depend()] from the last
    Dep to the first. *)
Definition watcher_depend (i : nat) (st : State) : State :=
  match watchers st !! i with
  | None => st
  | Some w => foldl (λ s d, depend d s) st (reverse (deps w))
  end.

(** Watcher.teardown, lines 357-372.  [remove(this.vm._watchers, this)]
    concerns the component instance. *)
Definition teardown (i : nat) (st : State) : State :=
  match watchers st !! i with
  | None => st
  | Some w =>
      if active w then
        let st1 := foldl (λ s d, removeSub d i s) st (reverse (deps w)) in
        set_watcher i (with_active false w) st1
      else st
  end.

(** instance/state.js, createComputedGetter, lines 396-449: the getter
    installed for a computed property.  [watcher] is
    [this._computedWatchers && this._computedWatchers[key]]; the result is
    [inl] the value returned or [inr] the value thrown. *)
Definition computedGetter (watcher : option nat) (st : State)
    : option (State * (Value + Value)) :=
  match watcher with
  | None => Some (st, inl VUndefined)
  | Some i =>
      match watchers st !! i with
      | None => None
      | Some w =>
          match if dirty w then evaluate i st else Some (st, Normal) with
          | None => None
          | Some (st1, Throws e) => Some (st1, inr e)
          | Some (st1, Normal) =>
              let st2 := match target st1 with
                         | Some _ => watcher_depend i st1
                         | None => st1
                         end in
              match watchers st2 !! i with
              | None => None
              | Some w2 => Some (st2, inl (value w2))
              end
          end
      end
  end.

(** instance/state.js, Vue.prototype.$watch, lines 588-614, for [cb] a
    function and [expOrFn] a function: the watcher is a user watcher; with
    [options.immediate] the callback is called at once with the value as its
    only argument, and what it throws goes to [handleError].  The function
    returned calls [teardown] on the watcher made. *)
Definition watch (fuel uid : nat) (getter : W → Eval)
    (cb : Value → Value → Script)
    (options : option Options) (immediate : bool) (st : State)
    : option (nat * State * Completion) :=
  let o := match options with
           | Some o => mkOptions (o_deep o) true (o_lazy o) (o_sync o) (o_before o)
           | None => mkOptions false true false false None
           end in
  match newWatcher uid getter cb (Some o) st with
  | None => None
  | Some (id, st1, Throws e) => Some (id, st1, Throws e)
  | Some (id, st1, Normal) =>
      if immediate then
        match watchers st1 !! id with
        | None => None
        | Some w =>
            match script cfg deep_reads fuel (cb (value w) VUndefined)
                         (emit (EvCall id (value w) VUndefined) st1) with
            | None => None
            | Some (st2, Throws e) => Some (id, handleError e id InCallback st2, Normal)
            | Some (st2, Normal) => Some (id, st2, Normal)
            end
        end
      else Some (id, st1, Normal)
  end.

(** Watcher ids and subscribers are numbers the counter has passed. *)
Definition numbered (uid : nat) (st : State) : Prop :=
  (∀ j, is_Some (watchers st !! j) → j ≤ uid) ∧
  (∀ d j, j ∈ subs_of st d → j ≤ uid).

End Lifecycle.

(** ** Specification vocabulary for runaway updates *)

Section RunawaySpec.
Context {W : Type} (deep_reads : nat → W → list nat).

(** A watcher "whose reaction re-invalidates itself unconditionally": it
    depends on Dep [d], and its callback assigns the property of [d] by [f]
    whatever the values it is called with; the value it watches is one for
    which [run] calls the callback after every such assignment. *)
Record restless (d : nat) (f : W → W) (w : @Watcher W) : Prop := mkRestless {
  rl_lazy : lazy w = false;
  rl_sync : sync w = false;
  rl_active : active w = true;
  rl_before : before w = None;
  rl_returns : ∀ x, outcome (getter w x) = inl (got w x);
  rl_reads : ∀ x, d ∈ reads_of deep_reads w x;
  rl_cb : ∀ v old, cb w v old = writes_script d [f];
  rl_fires : ∀ x, fires (with_value (got w x) w) (got w (f x)) = true
}.

(** The loop of a flush started in [st0], whose sorted queue is the
    restless watcher [i] followed by [rest], when it tests its condition
    for the [k]-th time. *)
Record spinning (i d : nat) (f : W → W) (w : @Watcher W) (rest : list nat)
    (st0 : @State W) (k : nat) (st : @State W) : Prop := mkSpinning {
  sp_world : world st = Nat.iter k f (world st0);
  sp_queue : queue (sched st) = replicate (S k) i ++ rest;
  sp_index : index (sched st) = k;
  sp_waiting : waiting (sched st) = true;
  sp_flushing : flushing (sched st) = true;
  sp_ticks : ticks (sched st) = ticks (sched st0);
  sp_watcher : ∃ w', watchers st !! i = Some w' ∧ same_code w w' ∧
                     value w' = match k with
                                | 0 => value w
                                | S k' => got w (Nat.iter k' f (world st0))
                                end;
  sp_consistent : consistent st i;
  sp_subs : subs_of st d = [i];
  sp_runs : runs_of (log st) = runs_of (log st0) ++ replicate k i;
  sp_warns : warns_of (log st) = warns_of (log st0)
}.

End RunawaySpec.

(** ** observer/index.js: Observer, observe, defineReactive, set *)

Module Observer.

(** A key that [isValidArrayIndex] accepts is [KIdx n]; any other key is a
    property name. *)
Inductive Key : Type :=
| KIdx (n : nat)
| KStr (s : string).

(** A getter or setter function.  [reactiveGetter] and [reactiveSetter] are
    closures: what they capture and never assign ([getter], [setter],
    [shallow], [customSetter]) is part of the function; what they assign
    ([val], [childOb]) lives in the cell the closure shares with its
    twin. *)
Inductive GetFn : Type :=
| UserGet (f : nat)
| ReactiveGet (cell : nat) (getter : option GetFn).

Inductive SetFn : Type :=
| UserSet (f : nat)
| ReactiveSet (cell : nat) (getter : option GetFn) (setter : option SetFn)
              (shallow customSetter : bool).

(** A property descriptor; data properties are writable. *)
Inductive Property : Type :=
| Data (v : Value) (enumerable configurable : bool)
| Accessor (g : option GetFn) (s : option SetFn) (enumerable configurable : bool).

Inductive Kind : Type := KPlain | KArray | KVNode | KOther.

Global Instance Kind_eq_dec : EqDecision Kind.
Proof. solve_decision. Defined.

(** An object: its own named properties in the order of [Object.keys],
    its elements when it is an array, [__ob__], and whether the array
    methods of array.js have been put in front of its prototype.  A plain
    object inherits from Object.prototype directly, an array from
    Array.prototype. *)
Record Obj : Type := mkObj {
  kind : Kind;
  isVue : bool;
  extensible : bool;
  props : list (string * Property);
  items : list Value;
  ob : option nat;
  patched : bool
}.

(** class Observer, lines 55-114 *)
Record ObRec : Type := mkObRec { ob_value : nat; ob_dep : nat; vmCount : nat }.

(** The variables [dep], [val] and [childOb] of one call of
    [defineReactive]. *)
Record Cell : Type := mkCell { c_dep : nat; c_val : Value; c_childOb : option nat }.

Inductive Warning : Type := WarnSetTarget | WarnSetRoot.

Inductive OEvent : Type :=
| ENotify (d : nat)          (* dep.notify() *)
| EDepend (d : nat)          (* dep.depend() with Dep.target set *)
| ECustomSetter (c : nat)    (* customSetter() *)
| EWarn (m : Warning).       (* warn(...) *)

(** [tracking]: whether [Dep.target] is set; [next_*]: the ids the next
    Dep, closure and Observer get. *)
Record Heap : Type := mkHeap {
  objs : gmap nat Obj;
  cells : gmap nat Cell;
  observers : gmap nat ObRec;
  next_dep : nat;
  next_cell : nat;
  next_ob : nat;
  shouldObserve : bool;
  tracking : bool;
  events : list OEvent
}.

Definition with_objs (x : gmap nat Obj) (h : Heap) : Heap :=
  mkHeap x (cells h) (observers h) (next_dep h) (next_cell h) (next_ob h)
         (shouldObserve h) (tracking h) (events h).
Definition with_cells (x : gmap nat Cell) (h : Heap) : Heap :=
  mkHeap (objs h) x (observers h) (next_dep h) (next_cell h) (next_ob h)
         (shouldObserve h) (tracking h) (events h).
Definition with_observers (x : gmap nat ObRec) (h : Heap) : Heap :=
  mkHeap (objs h) (cells h) x (next_dep h) (next_cell h) (next_ob h)
         (shouldObserve h) (tracking h) (events h).
Definition emit (e : OEvent) (h : Heap) : Heap :=
  mkHeap (objs h) (cells h) (observers h) (next_dep h) (next_cell h) (next_ob h)
         (shouldObserve h) (tracking h) (events h ++ [e]).

(** [new Dep()]: the Dep's id ([uid++] in dep.js) *)
Definition new_dep (h : Heap) : Heap * nat :=
  (mkHeap (objs h) (cells h) (observers h) (S (next_dep h)) (next_cell h)
          (next_ob h) (shouldObserve h) (tracking h) (events h),
   next_dep h).

Definition new_cell (c : Cell) (h : Heap) : Heap * nat :=
  (mkHeap (objs h) (<[next_cell h := c]> (cells h)) (observers h) (next_dep h)
          (S (next_cell h)) (next_ob h) (shouldObserve h) (tracking h) (events h),
   next_cell h).

Definition new_observer (r : ObRec) (h : Heap) : Heap * nat :=
  (mkHeap (objs h) (cells h) (<[next_ob h := r]> (observers h)) (next_dep h)
          (next_cell h) (S (next_ob h)) (shouldObserve h) (tracking h) (events h),
   next_ob h).

Definition set_obj (a : nat) (o : Obj) (h : Heap) : Heap :=
  with_objs (<[a := o]> (objs h)) h.

Definition with_props (ps : list (string * Property)) (o : Obj) : Obj :=
  mkObj (kind o) (isVue o) (extensible o) ps (items o) (ob o) (patched o).
Definition with_items (vs : list Value) (o : Obj) : Obj :=
  mkObj (kind o) (isVue o) (extensible o) (props o) vs (ob o) (patched o).
Definition with_ob (b : option nat) (p : bool) (o : Obj) : Obj :=
  mkObj (kind o) (isVue o) (extensible o) (props o) (items o) b p.

(** Own property lookup. *)
Fixpoint get_prop (k : string) (ps : list (string * Property)) : option Property :=
  match ps with
  | [] => None
  | (k', p) :: ps' => if decide (k' = k) then Some p else get_prop k ps'
  end.

(** The array index a property name stands for, if it is one: the decimal
    numeral, without leading zeros, of a number below 2^32 - 1. *)
Fixpoint digits_value (s : string) (acc : N) : option N :=
  match s with
  | EmptyString => Some acc
  | String c rest =>
      let n := Ascii.N_of_ascii c in
      if (48 <=? n)%N && (n <=? 57)%N
      then digits_value rest (acc * 10 + (n - 48))%N
      else None
  end.

Definition array_index (k : string) : option N :=
  match digits_value k 0 with
  | Some n =>
      if bool_decide (pretty n = k) && (n <? 2 ^ 32 - 1)%N then Some n else None
  | None => None
  end.

(** Property definition.  The properties are kept in the order in which
    [Object.keys] and [for ... in] list them: the array indices in ascending
    order, then the other names in the order of their creation.  An own
    property is replaced where it stands; a new array index goes before the
    first name that is no array index or is a greater one; any other new
    name goes last. *)
Fixpoint replace_prop (k : string) (p : Property) (ps : list (string * Property))
    : list (string * Property) :=
  match ps with
  | [] => []
  | (k', p') :: ps' =>
      if decide (k' = k) then (k, p) :: ps' else (k', p') :: replace_prop k p ps'
  end.

Fixpoint add_index (n : N) (k : string) (p : Property)
    (ps : list (string * Property)) : list (string * Property) :=
  match ps with
  | [] => [(k, p)]
  | (k', p') :: ps' =>
      match array_index k' with
      | Some m =>
          if (m <? n)%N then (k', p') :: add_index n k p ps' else (k, p) :: ps
      | None => (k, p) :: ps
      end
  end.

Definition put_prop (k : string) (p : Property) (ps : list (string * Property))
    : list (string * Property) :=
  match get_prop k ps with
  | Some _ => replace_prop k p ps
  | None =>
      match array_index k with
      | Some n => add_index n k p ps
      | None => ps ++ [(k, p)]
      end
  end.

Definition is_enumerable (p : Property) : bool :=
  match p with Data _ e _ => e | Accessor _ _ e _ => e end.
Definition is_configurable (p : Property) : bool :=
  match p with Data _ _ c => c | Accessor _ _ _ c => c end.

(** [Object.keys(obj)] *)
Definition keys (o : Obj) : list string :=
  (filter (λ kp, is_enumerable kp.2 = true) (props o)).*1.

(** Modelled from the spec: [Dep.depend] and [Dep.notify] of dep.js, which
    is not among the sources.  What they do to the subscribers is the
    core's; here the calls are recorded. *)
Definition dep_depend (d : nat) (h : Heap) : Heap :=
  if tracking h then emit (EDepend d) h else h.
Definition dep_notify (d : nat) (h : Heap) : Heap := emit (ENotify d) h.

Definition dep_of_ob (id : nat) (h : Heap) : option nat :=
  ob_dep <$> observers h !! id.

(** [e && e.__ob__ && e.__ob__.dep.depend()] *)
Definition depend_on_ob_of (v : Value) (h : Heap) : Heap :=
  match v with
  | VObj a =>
      match objs h !! a with
      | Some o =>
          match ob o with
          | Some id =>
              match dep_of_ob id h with
              | Some d => dep_depend d h
              | None => h
              end
          | None => h
          end
      | None => h
      end
  | _ => h
  end.

Definition array_items (v : Value) (h : Heap) : option (list Value) :=
  match v with
  | VObj a =>
      match objs h !! a with
      | Some o => if decide (kind o = KArray) then Some (items o) else None
      | None => None
      end
  | _ => None
  end.

(** dependArray, lines 428-437.  An array nested in itself sends the
    JavaScript function into unbounded recursion; [None] when [fuel] levels
    of nesting were not enough. *)
Fixpoint dependArray (fuel : nat) (vs : list Value) (h : Heap) : option Heap :=
  match fuel with
  | 0 => None
  | S f =>
      foldl (λ acc e,
               match acc with
               | None => None
               | Some h1 =>
                   let h2 := depend_on_ob_of e h1 in
                   match array_items e h2 with
                   | Some vs' => dependArray f vs' h2
                   | None => Some h2
                   end
               end) (Some h) vs
  end.

Section Code.

Variable cfg : Config.
(** [isServerRendering()] *)
Variable ssr : bool.
(** What the getters and setters user code put on its objects return and
    do.  A getter of the user's is taken to compute its value from the heap
    and to change nothing; where a statement about reading depends on this,
    it is stated for heaps without such getters. *)
Variable getter_sem : nat → Heap → Value.
Variable setter_sem : nat → Value → Heap → Heap.

(** Calling a getter; for [reactiveGetter], lines 224-268. *)
Fixpoint call_get (fuel : nat) (g : GetFn) (h : Heap) : option (Heap * Value) :=
  match g with
  | UserGet f => Some (h, getter_sem f h)
  | ReactiveGet c getter =>
      match cells h !! c with
      | None => None
      | Some cell =>
          match
            match getter with
            | Some g' => call_get fuel g' h
            | None => Some (h, c_val cell)
            end
          with
          | None => None
          | Some (h1, value) =>
              if tracking h1 then
                let h2 := dep_depend (c_dep cell) h1 in
                match c_childOb cell with
                | Some id =>
                    let h3 := match dep_of_ob id h2 with
                              | Some d => dep_depend d h2
                              | None => h2
                              end in
                    match array_items value h3 with
                    | Some vs =>
                        match dependArray fuel vs h3 with
                        | Some h4 => Some (h4, value)
                        | None => None
                        end
                    | None => Some (h3, value)
                    end
                | None => Some (h2, value)
                end
              else Some (h1, value)
          end
      end
  end.

(** [obj[key]] on own properties *)
Definition read_prop (fuel : nat) (a : nat) (k : string) (h : Heap)
    : option (Heap * Value) :=
  match objs h !! a with
  | None => None
  | Some o =>
      match get_prop k (props o) with
      | Some (Data v _ _) => Some (h, v)
      | Some (Accessor (Some g) _ _ _) => call_get fuel g h
      | Some (Accessor None _ _ _) => Some (h, VUndefined)
      | None => Some (h, VUndefined)
      end
  end.

(** The loops of [walk] and [observeArray]. *)
Fixpoint each {A : Type} (f : A → Heap → option Heap) (l : list A) (h : Heap)
    : option Heap :=
  match l with
  | [] => Some h
  | x :: l' =>
      match f x h with
      | Some h' => each f l' h'
      | None => None
      end
  end.

(** defineReactive, lines 189-314, up to the accessors it installs.
    [val]: the third argument, [None] when the call has two arguments.
    [observe]: the function of that name. *)
Definition defineReactive_with
    (observe : Value → Heap → option (Heap * option nat)) (fuel : nat)
    (a : nat) (k : string) (val : option Value) (customSetter shallow : bool)
    (h : Heap) : option Heap :=
  let '(h0, dep) := new_dep h in
  match objs h0 !! a with
  | None => None
  | Some o =>
      let property := get_prop k (props o) in
      if match property with
         | Some p => negb (is_configurable p)
         | None => false
         end
      then Some h0
      else
        let getter := match property with
                      | Some (Accessor g _ _ _) => g
                      | _ => None
                      end in
        let setter := match property with
                      | Some (Accessor _ s _ _) => s
                      | _ => None
                      end in
        match
          match val with
          | Some v => Some (h0, v)
          | None =>
              match getter, setter with
              | Some _, None => Some (h0, VUndefined)
              | _, _ => read_prop fuel a k h0
              end
          end
        with
        | None => None
        | Some (h1, v) =>
            match if shallow then Some (h1, None) else observe v h1 with
            | None => None
            | Some (h2, childOb) =>
                let '(h3, c) := new_cell (mkCell dep v childOb) h2 in
                match objs h3 !! a with
                | None => None
                | Some o3 =>
                    Some (set_obj a
                            (with_props
                               (put_prop k
                                  (Accessor (Some (ReactiveGet c getter))
                                     (Some (ReactiveSet c getter setter shallow
                                              customSetter))
                                     true true)
                                  (props o3)) o3) h3)
                end
            end
        end
  end.

(** observe, lines 153-178, and the constructor of Observer with [walk] and
    [observeArray], lines 60-113.  [None]: [fuel] levels of nested objects
    were not enough. *)
Fixpoint observe (fuel : nat) (v : Value) (asRootData : bool) (h : Heap)
    : option (Heap * option nat) :=
  match v with
  | VObj a =>
      match objs h !! a with
      | None => None
      | Some o =>
          if decide (kind o = KVNode) then Some (h, None)
          else
            match
              match ob o with
              | Some id => Some (h, Some id)
              | None =>
                  if shouldObserve h && negb ssr
                     && (bool_decide (kind o = KArray) || bool_decide (kind o = KPlain))
                     && extensible o && negb (isVue o)
                  then
                    match fuel with
                    | 0 => None
                    | S f =>
                        (* new Observer(value) *)
                        let '(h1, dep) := new_dep h in
                        let '(h2, id) := new_observer (mkObRec a dep 0) h1 in
                        let arr := bool_decide (kind o = KArray) in
                        let h3 := set_obj a (with_ob (Some id) arr o) h2 in
                        match
                          if arr then
                            each (λ x h', fst <$> observe f x false h') (items o) h3
                          else
                            each (λ k h',
                                    defineReactive_with
                                      (λ x h'', observe f x false h'') f
                                      a k None false false h')
                                 (keys o) h3
                        with
                        | Some h4 => Some (h4, Some id)
                        | None => None
                        end
                    end
                  else Some (h, None)
              end
            with
            | None => None
            | Some (h', Some id) =>
                if asRootData then
                  match observers h' !! id with
                  | Some r =>
                      Some (with_observers
                              (<[id := mkObRec (ob_value r) (ob_dep r)
                                               (S (vmCount r))]> (observers h')) h',
                            Some id)
                  | None => None
                  end
                else Some (h', Some id)
            | Some (h', None) => Some (h', None)
            end
      end
  | _ => Some (h, None)
  end.

Definition defineReactive (fuel : nat) :=
  defineReactive_with (λ x h, observe fuel x false h) fuel.

Definition is_nan (v : Value) : bool :=
  match v with VNaN => true | _ => false end.

Definition set_cell (c : nat) (cell : Cell) (h : Heap) : Heap :=
  with_cells (<[c := cell]> (cells h)) h.

(** Calling a setter; for [reactiveSetter], lines 269-312. *)
Fixpoint call_set (fuel : nat) (s : SetFn) (newVal : Value) (h : Heap)
    : option Heap :=
  match s with
  | UserSet f => Some (setter_sem f newVal h)
  | ReactiveSet c getter setter shallow customSetter =>
      match cells h !! c with
      | None => None
      | Some cell =>
          match
            match getter with
            | Some g => call_get fuel g h
            | None => Some (h, c_val cell)
            end
          with
          | None => None
          | Some (h1, value) =>
              if strict_eq newVal value || (is_nan newVal && is_nan value)
              then Some h1
              else
                let h2 := if negb (production cfg) && customSetter
                          then emit (ECustomSetter c) h1 else h1 in
                match getter, setter with
                | Some _, None => Some h2
                | _, _ =>
                    match
                      match setter with
                      | Some s' => call_set fuel s' newVal h2
                      | None =>
                          match cells h2 !! c with
                          | Some cell2 =>
                              Some (set_cell c (mkCell (c_dep cell2) newVal
                                                       (c_childOb cell2)) h2)
                          | None => None
                          end
                      end
                    with
                    | None => None
                    | Some h3 =>
                        match
                          if shallow then Some (h3, None)
                          else observe fuel newVal false h3
                        with
                        | None => None
                        | Some (h4, childOb) =>
                            match cells h4 !! c with
                            | Some cell4 =>
                                Some (dep_notify (c_dep cell)
                                        (set_cell c (mkCell (c_dep cell4) (c_val cell4)
                                                            childOb) h4))
                            | None => None
                            end
                        end
                    end
                end
          end
      end
  end.

(** The names [key in Object.prototype] holds for. *)
Definition in_Object_prototype (k : string) : bool :=
  bool_decide (k ∈ ["constructor"; "__defineGetter__"; "__defineSetter__";
                    "hasOwnProperty"; "__lookupGetter__"; "__lookupSetter__";
                    "isPrototypeOf"; "propertyIsEnumerable"; "toString";
                    "valueOf"; "__proto__"; "toLocaleString"]%string).

Definition key_name (k : Key) : string :=
  match k with
  | KIdx n => pretty n
  | KStr s => s
  end.

(** [key in target], for an object that inherits from Object.prototype
    directly or, as an array, through the array methods.  [__ob__] is an
    own property of an object that carries an Observer. *)
Definition key_in (k : Key) (o : Obj) : bool :=
  match k with
  | KIdx n =>
      if decide (kind o = KArray) then bool_decide (n < length (items o))
      else bool_decide (is_Some (get_prop (pretty n) (props o)))
  | KStr s =>
      bool_decide (is_Some (get_prop s (props o))) || in_Object_prototype s
      || (bool_decide (s = "__ob__") && bool_decide (is_Some (ob o)))
  end.

(** Keys an assignment of which is outside the model: [__ob__], which the
    model keeps apart from the named properties and which holds an Observer
    or nothing, and [__proto__], the accessor of Object.prototype whose
    setter replaces the prototype. *)
Definition unmodelled_key (k : Key) : bool :=
  match k with
  | KIdx _ => false
  | KStr s => bool_decide (s = "__ob__") || bool_decide (s = "__proto__")
  end.

Definition TypeError : Value := VStr "TypeError".
Definition RangeError : Value := VStr "RangeError".

(** [target[key] = val] in strict mode, on own properties. *)
Definition assign (fuel : nat) (a : nat) (k : string) (val : Value) (h : Heap)
    : option (Heap * Completion) :=
  match objs h !! a with
  | None => None
  | Some o =>
      match get_prop k (props o) with
      | Some (Data _ e c) =>
          Some (set_obj a (with_props (put_prop k (Data val e c) (props o)) o) h,
                Normal)
      | Some (Accessor _ (Some s) _ _) =>
          match call_set fuel s val h with
          | Some h' => Some (h', Normal)
          | None => None
          end
      | Some (Accessor _ None _ _) => Some (h, Throws TypeError)
      | None =>
          if extensible o
          then Some (set_obj a (with_props (put_prop k (Data val true true) (props o)) o) h,
                     Normal)
          else Some (h, Throws TypeError)
      end
  end.

(** [target.length = Math.max(target.length, key); target.splice(key, 1,
    val)] on the elements; a hole reads as [undefined]. *)
Definition splice_in (n : nat) (val : Value) (vs : list Value) : list Value :=
  if decide (n < length vs) then <[n := val]> vs
  else vs ++ replicate (n - length vs) VUndefined ++ [val].

(** Names an array answers [key in target] for without owning them as
    named properties: [length] and the names of Array.prototype, as far as
    ECMAScript 2023 goes; assigning them is outside the model. *)
Definition in_Array_prototype (k : string) : bool :=
  bool_decide (k ∈ ["length"; "at"; "concat"; "copyWithin"; "entries"; "every";
                    "fill"; "filter"; "find"; "findIndex"; "findLast";
                    "findLastIndex"; "flat"; "flatMap"; "forEach"; "includes";
                    "indexOf"; "join"; "keys"; "lastIndexOf"; "map"; "pop";
                    "push"; "reduce"; "reduceRight"; "reverse"; "shift";
                    "slice"; "some"; "sort"; "splice"; "toReversed"; "toSorted";
                    "toSpliced"; "unshift"; "values"; "with"]%string).

(** [ob && ob.vmCount] *)
Definition is_root (b : option nat) (h : Heap) : bool :=
  match b with
  | Some id =>
      match observers h !! id with
      | Some r => negb (bool_decide (vmCount r = 0))
      | None => false
      end
  | None => false
  end.

(** set, lines 322-379.  The result is the heap and [inl] the value
    returned or [inr] the value thrown.  On an array with an index as key:
    [target.length = Math.max(target.length, key)] throws a RangeError for a
    key of 2^32 or more; [target.splice(key, 1, val)] replaces an element
    there is, and adds one behind the last unless the array is not
    extensible, where it throws a TypeError.  [None]: a key that is not
    modelled, the key 2^32-1, a key behind the length of an array that is
    not extensible (which leaves the array with holes), an array of 2^32
    elements or more, or not enough [fuel]. *)
Definition set (fuel : nat) (target : Value) (key : Key) (val : Value) (h : Heap)
    : option (Heap * (Value + Value)) :=
  match target with
  | VObj a =>
      match objs h !! a with
      | None => None
      | Some o =>
          if unmodelled_key key then None
          else if bool_decide (kind o = KArray)
             && match key with KIdx _ => true | KStr _ => false end
          then
            (* target.splice(key, 1, val): the method of array.js once the
               array is observed, the native one before *)
            let n := match key with KIdx n => n | KStr _ => 0 end in
            if bool_decide (2 ^ 32 ≤ Z.of_nat n)%Z then Some (h, inr RangeError)
            else if bool_decide (Z.of_nat n = 2 ^ 32 - 1)%Z
                    || bool_decide (2 ^ 32 ≤ Z.of_nat (length (items o)))%Z then None
            else if bool_decide (n < length (items o)) || extensible o then
              let h1 := set_obj a (with_items (splice_in n val (items o)) o) h in
              if patched o then
                match ob o with
                | Some id =>
                    match observe fuel val false h1 with
                    | Some (h2, _) =>
                        match dep_of_ob id h2 with
                        | Some d => Some (dep_notify d h2, inl val)
                        | None => None
                        end
                    | None => None
                    end
                | None => Some (h1, inr TypeError)
                end
              else Some (h1, inl val)
            else if bool_decide (n = length (items o)) then Some (h, inr TypeError)
            else None
          else if bool_decide (kind o = KArray) && in_Array_prototype (key_name key)
          then None
          else if key_in key o && negb (in_Object_prototype (key_name key)) then
            match assign fuel a (key_name key) val h with
            | Some (h', Normal) => Some (h', inl val)
            | Some (h', Throws e) => Some (h', inr e)
            | None => None
            end
          else if isVue o || is_root (ob o) h then
            Some (if production cfg then h else emit (EWarn WarnSetRoot) h, inl val)
          else
            match ob o with
            | None =>
                match assign fuel a (key_name key) val h with
                | Some (h', Normal) => Some (h', inl val)
                | Some (h', Throws e) => Some (h', inr e)
                | None => None
                end
            | Some id =>
                match observers h !! id with
                | None => None
                | Some r =>
                    match objs h !! ob_value r with
                    | None => None
                    | Some o' =>
                        if negb (extensible o')
                           && bool_decide (get_prop (key_name key) (props o') = None)
                        then Some ((new_dep h).1, inr TypeError)
                        else
                          match defineReactive fuel (ob_value r) (key_name key)
                                               (Some val) false false h with
                          | Some h' => Some (dep_notify (ob_dep r) h', inl val)
                          | None => None
                          end
                    end
                end
            end
      end
  | _ =>
      (* undefined, null or a primitive: the warning, then [key in target]
         throws *)
      Some (if production cfg then h else emit (EWarn WarnSetTarget) h,
            inr TypeError)
  end.

End Code.

(** *** Specification vocabulary *)

(** Objects stay, keep their kind and, once they carry an Observer, keep
    it. *)
Definition ext (h h' : Heap) : Prop :=
  ∀ a o, objs h !! a = Some o →
    ∃ o', objs h' !! a = Some o' ∧ kind o' = kind o ∧
          ∀ id, ob o = Some id → ob o' = Some id.





End Observer.

(** ** observer/array.js, and [del] and [toggleObserving] of
    observer/index.js *)

Module ObserverOps.
Import Observer.

(** The two warnings of [del]. *)
Inductive DelWarning : Type := WarnDelTarget | WarnDelRoot.

(** The methods array.js patches, with their arguments.  [splice] is called
    with at least a start. *)
Inductive Method : Type :=
| MPush (args : list Value)
| MPop
| MShift
| MUnshift (args : list Value)
| MSplice (start : Z) (deleteCount : option Z) (items : list Value)
| MSort
| MReverse.

(** What a method returns: a value, a new array (given by its elements), or
    the array it was called on. *)
Inductive Result : Type :=
| RValue (v : Value)
| RArray (vs : list Value)
| RThis.

(** toggleObserving, lines 37-39 *)
Definition toggleObserving (value : bool) (h : Heap) : Heap :=
  mkHeap (objs h) (cells h) (observers h) (next_dep h) (next_cell h) (next_ob h)
         value (tracking h) (events h).

(** [delete obj[key]] on own properties *)
Definition remove_prop (k : string) (ps : list (string * Property))
    : list (string * Property) :=
  filter (λ kp, kp.1 ≠ k) ps.

(** What a step does that only reads: nothing but calls of [dep.depend()],
    and none of them unless [Dep.target] is set. *)
Definition reads_only (h h' : Heap) : Prop :=
  objs h' = objs h ∧ cells h' = cells h ∧ observers h' = observers h ∧
  next_dep h' = next_dep h ∧ next_cell h' = next_cell h ∧
  next_ob h' = next_ob h ∧ shouldObserve h' = shouldObserve h ∧
  tracking h' = tracking h ∧
  ∃ ds, events h' = events h ++ (EDepend <$> ds) ∧
        (tracking h = false → ds = []).

(** What a step does to the events that makes Deps, closures and Observers
    but notifies nobody. *)
Definition depends_only (h h' : Heap) : Prop :=
  tracking h' = tracking h ∧
  ∃ ds, events h' = events h ++ (EDepend <$> ds) ∧
        (tracking h = false → ds = []).

(** A getter through which no function of the user's is called: the
    [reactiveGetter] of a data property, or one that wraps such a getter. *)
Fixpoint reactive_only (g : GetFn) : bool :=
  match g with
  | UserGet _ => false
  | ReactiveGet _ None => true
  | ReactiveGet _ (Some g') => reactive_only g'
  end.

(** No object of the heap has a property with a getter of the user's. *)
Definition no_user_getters (h : Heap) : Prop :=
  ∀ a o k g s e c,
    objs h !! a = Some o →
    get_prop k (props o) = Some (Accessor (Some g) s e c) →
    reactive_only g = true.

(** The accessor [defineReactive] installs over a data property, with the
    closure variables at [c]. *)
Definition reactive_accessor (c : nat) : Property :=
  Accessor (Some (ReactiveGet c None))
           (Some (ReactiveSet c None None false false)) true true.

(** The properties of an object after [walk], when the closure variables
    of the first are at [c0]. *)
Definition reactive_props (c0 : nat) (ps : list (string * Property))
    : list (string * Property) :=
  imap (λ i kp, (kp.1, reactive_accessor (c0 + i))) ps.

(** A data property that is enumerable and configurable and holds a
    primitive value. *)
Definition plain_data (kp : string * Property) : Prop :=
  ∃ v, kp.2 = Data v true true ∧ isObject v = false.

Section Code.

Variable cfg : Config.
Variable ssr : bool.
Variable getter_sem : nat → Heap → Value.
Variable setter_sem : nat → Value → Heap → Heap.
(** What the native [sort] makes of the elements, for the comparison
    function it is called with. *)
Variable sort_sem : list Value → list Value.

(** The start and the number of elements removed of
    [Array.prototype.splice] on [len] elements. *)
Definition splice_start (len : nat) (start : Z) : nat :=
  Z.to_nat (if (start <? 0)%Z then Z.max (Z.of_nat len + start) 0
            else Z.min start (Z.of_nat len)).

Definition splice_count (len from : nat) (deleteCount : option Z) : nat :=
  match deleteCount with
  | None => len - from
  | Some d => Z.to_nat (Z.min (Z.max d 0) (Z.of_nat (len - from)))
  end.

(** The methods of [Array.prototype] on the elements of an array that is
    extensible or not: the elements afterwards and [inl] the result or
    [inr] what the method throws.  A hole counts as [undefined].  On an
    array that is not extensible a method throws a TypeError where it would
    write behind the last element: [push] and [unshift] of at least one
    argument before they change anything, [splice] with more items than it
    removes before it changes anything when there are elements to move, and
    after it has overwritten the removed ones when there are none. *)
Definition native (ext : bool) (m : Method) (vs : list Value)
    : list Value * (Result + Value) :=
  match m with
  | MPush args =>
      if ext || bool_decide (length args = 0)
      then (vs ++ args, inl (RValue (VNum (Z.of_nat (length (vs ++ args))))))
      else (vs, inr TypeError)
  | MPop =>
      match last vs with
      | Some x => (removelast vs, inl (RValue x))
      | None => (vs, inl (RValue VUndefined))
      end
  | MShift =>
      match vs with
      | x :: vs' => (vs', inl (RValue x))
      | [] => (vs, inl (RValue VUndefined))
      end
  | MUnshift args =>
      if ext || bool_decide (length args = 0)
      then (args ++ vs, inl (RValue (VNum (Z.of_nat (length (args ++ vs))))))
      else (vs, inr TypeError)
  | MSplice start deleteCount items =>
      let from := splice_start (length vs) start in
      let n := splice_count (length vs) from deleteCount in
      if ext || bool_decide (length items ≤ n)
      then (take from vs ++ items ++ drop (from + n) vs,
            inl (RArray (take n (drop from vs))))
      else if bool_decide (from + n < length vs) then (vs, inr TypeError)
      else (take from vs ++ take n items, inr TypeError)
  | MSort => (sort_sem vs, inl RThis)
  | MReverse => (reverse vs, inl RThis)
  end.

(** [inserted] of the mutator, array.js lines 37-47 *)
Definition inserted (m : Method) : option (list Value) :=
  match m with
  | MPush args | MUnshift args => Some args
  | MSplice _ _ items => Some items
  | _ => None
  end.

(** [Observer.observeArray], index.js lines 109-113 *)
Definition observeArray (fuel : nat) (xs : list Value) (h : Heap) : option Heap :=
  each (λ x h', fst <$> observe ssr getter_sem fuel x false h') xs h.

(** [target.method(...args)] on an array: the mutator of array.js, lines
    34-54, when the array methods stand in front of the array's prototype,
    the native method otherwise.  The result is [inl] what the call returns
    or [inr] what it throws: what the native method throws, before the
    mutator observes or notifies; and a TypeError for an array that lost its
    [__ob__], which the mutator reads [observeArray] or [dep] from.
    [None]: an array of 2^32 elements or more, which there is not. *)
Definition callMethod (fuel : nat) (a : nat) (m : Method) (h : Heap)
    : option (Heap * (Result + Value)) :=
  match objs h !! a with
  | None => None
  | Some o =>
      if decide (kind o = KArray) then
        let '(vs, res) := native (extensible o) m (items o) in
        if bool_decide (2 ^ 32 ≤ Z.of_nat (length vs))%Z then None
        else
          let h1 := set_obj a (with_items vs o) h in
          match res with
          | inr e => Some (h1, inr e)
          | inl result =>
              if patched o then
                match ob o with
                | None => Some (h1, inr TypeError)
                | Some id =>
                    match
                      match inserted m with
                      | Some xs => observeArray fuel xs h1
                      | None => Some h1
                      end
                    with
                    | None => None
                    | Some h2 =>
                        match dep_of_ob id h2 with
                        | Some d => Some (dep_notify d h2, inl result)
                        | None => None
                        end
                    end
                end
              else Some (h1, inl result)
          end
      else None
  end.

(** [target.length = Math.max(target.length, key)], index.js line 345 *)
Definition extend_length (n : nat) (vs : list Value) : list Value :=
  vs ++ replicate (n - length vs) VUndefined.

(** del, lines 384-421.  The result is the heap, how the call ends and the
    warning given.  [None]: a string as target with an index as key, where
    what [hasOwn] answers depends on the string's length in UTF-16 code
    units. *)
Definition del (fuel : nat) (target : Value) (key : Key) (h : Heap)
    : option (Heap * Completion * option DelWarning) :=
  let warned := if production cfg then None else Some WarnDelTarget in
  match target with
  | VObj a =>
      match objs h !! a with
      | None => None
      | Some o =>
          match key, bool_decide (kind o = KArray) with
          | KIdx n, true =>
              (* target.splice(key, 1) *)
              match callMethod fuel a (MSplice (Z.of_nat n) (Some 1%Z) []) h with
              | Some (h', inl _) => Some (h', Normal, None)
              | Some (h', inr e) => Some (h', Throws e, None)
              | None => None
              end
          | _, _ =>
              if isVue o || is_root (ob o) h then
                Some (h, Normal, if production cfg then None else Some WarnDelRoot)
              else
                let k := key_name key in
                match
                  if decide (k = "__ob__") then
                    match ob o with
                    | Some _ => Some (inl (with_ob None (patched o) o))
                    | None => None
                    end
                  else if bool_decide (kind o = KArray) && bool_decide (k = "length")
                  then Some (inr TypeError)
                  else
                    match get_prop k (props o) with
                    | None => None
                    | Some p =>
                        if is_configurable p
                        then Some (inl (with_props (remove_prop k (props o)) o))
                        else Some (inr TypeError)
                    end
                with
                | None => Some (h, Normal, None)           (* !hasOwn(target, key) *)
                | Some (inr e) => Some (h, Throws e, None) (* delete throws *)
                | Some (inl o') =>
                    let h1 := set_obj a o' h in
                    match ob o with
                    | None => Some (h1, Normal, None)
                    | Some id =>
                        match dep_of_ob id h1 with
                        | Some d => Some (dep_notify d h1, Normal, None)
                        | None => None
                        end
                    end
                end
          end
      end
  | VUndefined | VNull => Some (h, Throws TypeError, warned)
  | VStr s =>
      match key with
      | KIdx _ => None
      | KStr k =>
          if decide (k = "length") then Some (h, Throws TypeError, warned)
          else Some (h, Normal, warned)
      end
  | _ => Some (h, Normal, warned)
  end.

(** *** observer/traverse.js *)

(** [Object.isFrozen(val)].  Data properties are writable in this model, and
    so are the elements and the length of an array and [__ob__]: an object
    is frozen when it is not extensible and owns nothing but accessors that
    are not configurable. *)
Definition isFrozen (o : Obj) : bool :=
  negb (extensible o)
  && negb (bool_decide (kind o = KArray))
  && bool_decide (ob o = None)
  && forallb (λ kp, match kp.2 with
                    | Data _ _ _ => false
                    | Accessor _ _ _ c => negb c
                    end) (props o).

(** The loops [while (i--) _traverse(..., seen)]. *)
Fixpoint each_seen {A : Type}
    (f : A → gset nat → Heap → option (Heap * gset nat))
    (l : list A) (seen : gset nat) (h : Heap) : option (Heap * gset nat) :=
  match l with
  | [] => Some (h, seen)
  | x :: l' =>
      match f x seen h with
      | Some (h', seen') => each_seen f l' seen' h'
      | None => None
      end
  end.

(** _traverse, lines 20-48.  [seen] holds the Dep ids of the Observers
    met.  [None]: [fuel] levels of nesting were not enough, as for an
    object without Observer that is nested in itself. *)
Fixpoint _traverse (fuel : nat) (val : Value) (seen : gset nat) (h : Heap)
    : option (Heap * gset nat) :=
  match val with
  | VObj a =>
      match fuel with
      | 0 => None
      | S f =>
          match objs h !! a with
          | None => None
          | Some o =>
              if isFrozen o || bool_decide (kind o = KVNode) then Some (h, seen)
              else
                let children (seen' : gset nat) :=
                  if decide (kind o = KArray) then
                    each_seen (λ x s h', _traverse f x s h')
                              (reverse (items o)) seen' h
                  else
                    each_seen (λ k s h',
                                 match read_prop getter_sem f a k h' with
                                 | Some (h'', v) => _traverse f v s h''
                                 | None => None
                                 end)
                              (reverse (keys o)) seen' h in
                match ob o with
                | Some id =>
                    match dep_of_ob id h with
                    | Some d =>
                        if decide (d ∈ seen) then Some (h, seen)
                        else children ({[d]} ∪ seen)
                    | None => None
                    end
                | None => children seen
                end
          end
      end
  | _ => Some (h, seen)
  end.

(** traverse, lines 14-17; [seenObjects] is empty between two calls. *)
Definition traverse (fuel : nat) (val : Value) (h : Heap) : option Heap :=
  fst <$> _traverse fuel val ∅ h.

(** *** util/lang.js: parsePath *)

(** A character of a path is a UTF-16 code unit below 256.  The characters
    [bailRE] lets pass: those of [unicodeRegExp] - of which [a-z], [A-Z],
    [\u00B7], [\u00C0-\u00D6], [\u00D8-\u00F6] and the start of
    [\u00F8-\u037D] lie below 256 - and [.], [$], [_] and the digits. *)
Definition path_char (c : Ascii.ascii) : bool :=
  let n := Ascii.nat_of_ascii c in
  (97 <=? n) && (n <=? 122) || (65 <=? n) && (n <=? 90)
  || (n =? 183) || (192 <=? n) && (n <=? 214) || (216 <=? n) && (n <=? 246)
  || (248 <=? n)
  || (n =? 46) || (n =? 36) || (n =? 95) || (48 <=? n) && (n <=? 57).

(** [bailRE.test(path)] *)
Fixpoint bail (path : string) : bool :=
  match path with
  | EmptyString => false
  | String c rest => negb (path_char c) || bail rest
  end.

(** The character [.] *)
Definition dot : Ascii.ascii := Ascii.ascii_of_nat 46.

(** [path.split('.')] *)
Fixpoint split_dots (path : string) : list string :=
  match path with
  | EmptyString => [EmptyString]
  | String c rest =>
      if decide (c = dot) then EmptyString :: split_dots rest
      else match split_dots rest with
           | seg :: segs => String c seg :: segs
           | [] => [String c EmptyString]
           end
  end.

(** [!obj] *)
Definition falsy (v : Value) : bool :=
  match v with
  | VUndefined | VNull | VNaN => true
  | VBool b => negb b
  | VNum z => bool_decide (z = 0%Z)
  | VStr s => bool_decide (s = EmptyString)
  | VObj _ => false
  end.

(** The index a canonical numeric string below [len] stands for. *)
Definition index_of (k : string) (len : nat) : option nat :=
  snd <$> list_find (λ n, pretty n = k) (seq 0 len).

(** The names of Number.prototype and of String.prototype that
    Object.prototype does not have as well, as far as ECMAScript 2023 and
    its annex B go. *)
Definition in_Number_prototype (k : string) : bool :=
  bool_decide (k ∈ ["toExponential"; "toFixed"; "toPrecision"]%string).

Definition in_String_prototype (k : string) : bool :=
  bool_decide (k ∈ ["at"; "charAt"; "charCodeAt"; "codePointAt"; "concat";
                    "endsWith"; "includes"; "indexOf"; "isWellFormed";
                    "lastIndexOf"; "localeCompare"; "match"; "matchAll";
                    "normalize"; "padEnd"; "padStart"; "repeat"; "replace";
                    "replaceAll"; "search"; "slice"; "split"; "startsWith";
                    "substring"; "toLocaleLowerCase"; "toLocaleUpperCase";
                    "toLowerCase"; "toUpperCase"; "toWellFormed"; "trim";
                    "trimEnd"; "trimStart"; "substr"; "anchor"; "big"; "blink";
                    "bold"; "fixed"; "fontcolor"; "fontsize"; "italics"; "link";
                    "small"; "strike"; "sub"; "sup"; "trimLeft";
                    "trimRight"]%string).

(** [obj[key]] for an object: an element of an array, the array's length,
    an own property through [read_prop], [undefined] for a key that neither
    the object nor its prototypes have.  [None] for [__ob__] and for what
    comes from a prototype, whose values are not values of this model: the
    names of Object.prototype and Array.prototype, and every name a VNode
    or an object of another kind does not own. *)
Definition read_member (fuel : nat) (a : nat) (k : string) (h : Heap)
    : option (Heap * Value) :=
  match objs h !! a with
  | None => None
  | Some o =>
      if decide (k = "__ob__") then None
      else
        match if decide (kind o = KArray) then index_of k (length (items o))
              else None with
        | Some n => Some (h, default VUndefined (items o !! n))
        | None =>
            if bool_decide (kind o = KArray) && bool_decide (k = "length")
            then Some (h, VNum (Z.of_nat (length (items o))))
            else
              match get_prop k (props o) with
              | Some _ => read_prop getter_sem fuel a k h
              | None =>
                  if in_Object_prototype k
                     || bool_decide (kind o = KArray) && in_Array_prototype k
                     || bool_decide (kind o = KVNode)
                     || bool_decide (kind o = KOther)
                  then None
                  else Some (h, VUndefined)
              end
        end
  end.

(** [obj[key]] for a number, a boolean or a string that is not falsy:
    [undefined] for a key the prototypes do not have.  [None] for what
    comes from a prototype, and for the length and the indices of a string,
    which count UTF-16 code units. *)
Definition read_primitive (v : Value) (k : string) : option Value :=
  match v with
  | VNum _ =>
      if in_Object_prototype k || in_Number_prototype k then None
      else Some VUndefined
  | VBool _ => if in_Object_prototype k then None else Some VUndefined
  | VStr _ =>
      if in_Object_prototype k || in_String_prototype k
         || bool_decide (k = "length") || bool_decide (is_Some (array_index k))
      then None
      else Some VUndefined
  | _ => None
  end.

(** The function [parsePath] returns, lines 85-91, on the segments left. *)
Fixpoint walk_path (fuel : nat) (segments : list string) (obj : Value) (h : Heap)
    : option (Heap * Value) :=
  match segments with
  | [] => Some (h, obj)
  | seg :: rest =>
      if falsy obj then Some (h, VUndefined)
      else
        match obj with
        | VObj a =>
            match read_member fuel a seg h with
            | Some (h', v) => walk_path fuel rest v h'
            | None => None
            end
        | _ =>
            match read_primitive obj seg with
            | Some v => walk_path fuel rest v h
            | None => None
            end
        end
  end.

(** parsePath, lines 79-92: no function for a path [bailRE] matches. *)
Definition parsePath (fuel : nat) (path : string)
    : option (Value → Heap → option (Heap * Value)) :=
  if bail path then None
  else Some (walk_path fuel (split_dots path)).

End Code.

End ObserverOps.

(** ** Concrete systems *)

Module Examples.

(** The data: two reactive fields [a] (Dep 1) and [b] (Dep 2) holding
    numbers. *)
Definition Data : Type := nat * nat.

Definition prod_cfg : Config := mkConfig true true.
Definition dev_cfg : Config := mkConfig false true.
Definition no_deep : nat → Data → list nat := λ _ _, [].

Definition read_a : Data → @Eval := λ x, mkEval [1] (inl (VNum (Z.of_nat x.1))).
Definition read_b : Data → @Eval := λ x, mkEval [2] (inl (VNum (Z.of_nat x.2))).

(** A user watcher on [a] whose callback does nothing. *)
Definition reader : @Watcher Data :=
  mkWatcher false true false false None false true [1] [] {[1]} ∅
            read_a (λ _ _, Done) (VNum 0).

(** A user watcher on [b] whose callback does nothing. *)
Definition idle : @Watcher Data :=
  mkWatcher false true false false None false true [2] [] {[2]} ∅
            read_b (λ _ _, Done) (VNum 0).

(** A user watcher on [b] whose callback assigns [a]. *)
Definition writer : @Watcher Data :=
  mkWatcher false true false false None false true [2] [] {[2]} ∅
            read_b (λ _ _, Act (λ x, ((S x.1, x.2), [1])) (λ _, Done)) (VNum 0).

(** A user watcher on [a] whose callback assigns [a] again as long as it is
    below [limit]. *)
Definition looping (limit : nat) : @Watcher Data :=
  mkWatcher false true false false None false true [1] [] {[1]} ∅
            read_a
            (λ _ _, Act (λ x, if x.1 <? limit then ((S x.1, x.2), [1]) else (x, []))
                        (λ _, Done))
            (VNum 0).

(** Both fields were assigned 1; watcher 1 on [a] and watcher 2 on [b] are
    queued and a flush has been requested. *)
Definition queued (w1 w2 : @Watcher Data) : @State Data :=
  mkState (1, 1) {[1 := [1]; 2 := [2]]} {[1 := w1; 2 := w2]} []
          (mkSched [1; 2] {[1; 2]} ∅ true false 0 1) [].

(** A watcher that has not evaluated yet: [read_twice] reads [a], [b] and
    [a] again. *)
Definition read_twice : Data → @Eval :=
  λ x, mkEval [1; 2; 1] (inl (VNum (Z.of_nat (x.1 + x.2)))).
Definition throwing : Data → @Eval :=
  λ x, mkEval [1] (inr (VStr "boom")).

Definition fresh (user : bool) (getter : Data → @Eval)
    (cb : Value → Value → @Script Data) : @Watcher Data :=
  mkWatcher false user false false None false true [] [] ∅ ∅ getter cb VUndefined.

Definition idle_sched : Sched := mkSched [] ∅ ∅ false false 0 0.

(** A user watcher on [a] whose callback assigns 5 to [b], a field nobody
    watches. *)
Definition recording : @Watcher Data :=
  fresh true read_a (λ _ _, Act (λ x, ((x.1, 5), [])) (λ _, Done)).

Definition lone (w : @Watcher Data) : @State Data :=
  mkState (1, 1) ∅ {[7 := w]} [] idle_sched [].

(** Watcher 7 has evaluated [read_a] and is subscribed to Dep 1. *)
Definition subscriber : @Watcher Data :=
  mkWatcher false true false false None false true [1] [] {[1]} ∅
            read_a (λ _ _, Done) (VNum 1).

Definition subscribed : @State Data :=
  mkState (1, 1) {[1 := [7]]} {[7 := subscriber]} [] idle_sched [].

(** Watcher 7 evaluated before and read Dep 3 only; its getter now reads
    [a], [b] and [a] again. *)
Definition stale : @Watcher Data :=
  mkWatcher false true false false None false true [3] [] {[3]} ∅
            read_twice (λ _ _, Done) (VNum 0).

Definition resubscribing : @State Data :=
  mkState (1, 1) {[3 := [7]]} {[7 := stale]} [] idle_sched [].

(** A flush of the two queued watchers, the first of which assigns its own
    field again 150 times. *)
Definition runaway_start : @State Data := queued (looping 151) idle.

Definition runaway_end (cfg : Config) : @State Data :=
  match flushSchedulerQueue cfg no_deep 400 runaway_start with
  | Some (st, _) => st
  | None => runaway_start
  end.

(** A user watcher on [a] whose callback assigns [a] again, one more each
    time, and the flush of it and of watcher 2 behind it. *)
Definition one_more : Data → Data := λ x, (S x.1, x.2).

Definition insatiable : @Watcher Data :=
  mkWatcher false true false false None false true [1] [] {[1]} ∅
            read_a (λ _ _, writes_script 1 [one_more]) (VNum 0).

Definition endless_start : @State Data := queued insatiable idle.

(** A flush of watcher 1 on [a] and watcher 2, whose callback assigns
    [a]. *)
Definition reentrant_start : @State Data := queued reader writer.

Definition reentrant_end : @State Data :=
  match flushSchedulerQueue dev_cfg no_deep 10 reentrant_start with
  | Some (st, _) => st
  | None => reentrant_start
  end.

(** A flush at the moment the callback of watcher 2 has assigned [a]: the
    cursor is on watcher 2, watcher 1 has run and left [has]. *)
Definition mid_flush : @State Data :=
  mkState (2, 1) {[1 := [1]; 2 := [2]]} {[1 := reader; 2 := writer]} []
          (mkSched [1; 2] ∅ ∅ true true 1 1) [EvRun 1; EvRun 2].

(** A flush whose cursor is on watcher 3: watcher 5 has run and left
    [has], watchers 4 and 7 wait behind the cursor. *)
Definition busy_flush : @State Data :=
  mkState (2, 1) {[1 := [5]; 2 := [3; 4; 7]]}
          {[3 := idle; 4 := idle; 5 := reader; 7 := idle]} []
          (mkSched [5; 3; 4; 7] {[4; 7]} ∅ true true 1 1) [EvRun 5; EvRun 3].

(** Watchers 2 and 1 were queued in this order. *)
Definition unsorted : @State Data :=
  mkState (1, 1) {[1 := [1]; 2 := [2]]} {[1 := reader; 2 := idle]} []
          (mkSched [2; 1] {[1; 2]} ∅ true false 0 1) [].

(** Three assignments to [a]. *)
Definition three_writes : list (Data → Data) :=
  [λ x, (2, x.2); λ x, (3, x.2); λ x, (4, x.2)].

(** A watcher that is not a user watcher and whose getter throws. *)
Definition broken : @Watcher Data := fresh false throwing (λ _ _, Done).

End Examples.

Module ObserverExamples.
Import Observer.

(** Every user getter returns 1; user setters do nothing. *)
Definition const_getter : nat → Heap → Value := λ _ _, VNum 1.
Definition no_setter : nat → Value → Heap → Heap := λ _ _ h, h.

Definition heap_of (o : Obj) : Heap :=
  mkHeap {[0 := o]} ∅ ∅ 0 0 0 true false [].

Definition observed (h : Heap) : Heap :=
  match observe false const_getter 5 (VObj 0) false h with
  | Some (h', _) => h'
  | None => h
  end.

(** [{ a: 1 }] *)
Definition counter_obj : Obj :=
  mkObj KPlain false true [("a", Data (VNum 1) true true)] [] None false.
Definition counter : Heap := heap_of counter_obj.

(** [Object.preventExtensions({ a: 1 })] *)
Definition closed_counter_obj : Obj :=
  mkObj KPlain false false [("a", Data (VNum 1) true true)] [] None false.
Definition closed_counter : Heap := heap_of closed_counter_obj.

(** The closure variables of its field [a] once it is observed. *)
Definition counter_cell : Cell := mkCell 1 (VNum 1) None.
Definition counter_set : SetFn := ReactiveSet 0 None None false false.


End ObserverExamples.

Module LifecycleExamples.
Import Examples.

(** [config.async] switched off, outside production. *)
Definition sync_cfg : Config := mkConfig false false.

(** The assignment [a = n]. *)
Definition write_a (n : nat) : Data → Data := λ x, (n, x.2).

Definition still : Value → Value → @Script Data := λ _ _, Done.

(** The watcher of a computed property over [a], not evaluated yet. *)
Definition cached : @Watcher Data :=
  mkWatcher false false true false None true true [] [] ∅ ∅
            read_a still VUndefined.

(** The same watcher once it has been evaluated. *)
Definition memo : @Watcher Data :=
  mkWatcher false false true false None false true [1] [] {[1]} ∅
            read_a still (VNum 1).

Definition memoized : @State Data :=
  mkState (1, 1) {[1 := [7]]} {[7 := memo]} [] idle_sched [].

(** Watcher 8 on [b], about to evaluate, beside the computed property's
    watcher 7. *)
Definition nested : @State Data :=
  mkState (1, 1) ∅ {[7 := cached; 8 := fresh false read_b still]} []
          idle_sched [].

(** Watcher 8 evaluates and has read [b]; the computed property's watcher
    7 has not been evaluated yet. *)
Definition reading : @State Data := depend 2 (pushTarget (Some 8) nested).



Definition plain_options : @Options Data := mkOptions false false false false None.

(** A flush of watcher 1, whose getter throws and which is not a user
    watcher, and of watcher 2 behind it. *)
Definition failing_start : @State Data :=
  mkState (1, 1) {[2 := [2]]} {[1 := broken; 2 := idle]} []
          (mkSched [1; 2] {[1; 2]} ∅ true false 0 1) [].

Definition failing_end : @State Data :=
  match flushSchedulerQueue dev_cfg no_deep 10 failing_start with
  | Some (st, _) => st
  | None => failing_start
  end.

End LifecycleExamples.

Module ObserverOpsExamples.
Import Observer ObserverOps ObserverExamples.

Definition no_sort : list Value → list Value := λ vs, vs.

(** The heap with [Dep.target] set. *)
Definition tracked (h : Heap) : Heap :=
  mkHeap (objs h) (cells h) (observers h) (next_dep h) (next_cell h) (next_ob h)
         (shouldObserve h) true (events h).

(** [{ x: 1, y: 2 }] *)
Definition point_obj : Obj :=
  mkObj KPlain false true
        [("x", Data (VNum 1) true true); ("y", Data (VNum 2) true true)]
        [] None false.
Definition point : Heap := heap_of point_obj.

Definition watched_point : Heap := tracked (observed point).

(** The Observer of the object at address 0, the first one made. *)
Definition first_observer : ObRec := mkObRec 0 0 0.

Definition observed_point_obj : Obj :=
  mkObj KPlain false true (reactive_props 0 (props point_obj)) [] (Some 0) false.

Definition observed_counter_obj : Obj :=
  mkObj KPlain false true (reactive_props 0 (props counter_obj)) [] (Some 0) false.

(** [{ a: 1 }] at address 0 and [{ b: 2 }] at address 1; the first is
    observed. *)
Definition inner_obj : Obj :=
  mkObj KPlain false true [("b", Data (VNum 2) true true)] [] None false.
Definition pair : Heap :=
  mkHeap {[0 := counter_obj; 1 := inner_obj]} ∅ ∅ 0 0 0 true false [].

(** [{ aaa: { bbb: 1 } }]: the outer object at address 0, the inner one
    at address 1. *)
Definition nested_obj : Obj :=
  mkObj KPlain false true [("aaa", Data (VObj 1) true true)] [] None false.
Definition nested_inner_obj : Obj :=
  mkObj KPlain false true [("bbb", Data (VNum 1) true true)] [] None false.
Definition nested_heap : Heap :=
  mkHeap {[0 := nested_obj; 1 := nested_inner_obj]} ∅ ∅ 0 0 0 true false [].

(** [Object.preventExtensions([1, 2])], observed before. *)
Definition closed_numbers_obj : Obj :=
  mkObj KArray false false [] [VNum 1; VNum 2] (Some 0) true.
Definition closed_numbers : Heap :=
  mkHeap {[0 := closed_numbers_obj]} ∅ {[0 := mkObRec 0 0 0]} 1 0 1 true false [].

(** [{ get x () { return 1 }, set x (v) { } }]; the setter stores
    nothing. *)
Definition accessor_obj : Obj :=
  mkObj KPlain false true
        [("x", Accessor (Some (UserGet 0)) (Some (UserSet 0)) true true)]
        [] None false.
Definition accessor_heap : Heap := heap_of accessor_obj.
Definition accessor_set : SetFn :=
  ReactiveSet 0 (Some (UserGet 0)) (Some (UserSet 0)) false false.

(** [[1, 2]] and the empty array *)
Definition numbers_obj : Obj :=
  mkObj KArray false true [] [VNum 1; VNum 2] None false.
Definition numbers : Heap := heap_of numbers_obj.
Definition observed_numbers_obj : Obj :=
  mkObj KArray false true [] [VNum 1; VNum 2] (Some 0) true.

Definition nothing_obj : Obj := mkObj KArray false true [] [] None false.
Definition nothing : Heap := heap_of nothing_obj.
Definition observed_nothing_obj : Obj :=
  mkObj KArray false true [] [] (Some 0) true.

End ObserverOpsExamples.

(** ** Lists of ids *)

Lemma occ_app i l1 l2 : occ i (l1 ++ l2) = occ i l1 + occ i l2.
Proof. unfold occ. by rewrite filter_app, length_app. Qed.

Lemma occ_singleton i : occ i [i] = 1.
Proof. unfold occ. rewrite filter_cons. by rewrite decide_True. Qed.

Lemma occ_zero i l : occ i l = 0 ↔ i ∉ l.
Proof.
  unfold occ. induction l as [|x l IH]; simpl.
  - split; [intros _; apply not_elem_of_nil | done].
  - rewrite filter_cons. case_decide as Hx; simpl.
    + subst. split; [done | intros H; exfalso; apply H; left].
    + rewrite IH, not_elem_of_cons. naive_solver.
Qed.

Lemma occ_removed i l : occ i (filter (λ x, x ≠ i) l) = 0.
Proof. apply occ_zero. rewrite list_elem_of_filter. naive_solver. Qed.

Lemma others_idem i l : others i (others i l) = others i l.
Proof.
  unfold others. induction l as [|x l IH]; [done|].
  rewrite filter_cons. case_decide; [|done].
  rewrite filter_cons. case_decide; [|done]. by rewrite IH.
Qed.

Lemma others_snoc i l : others i (l ++ [i]) = others i l.
Proof.
  unfold others. rewrite filter_app, filter_cons. case_decide; [done|].
  by rewrite filter_nil, app_nil_r.
Qed.

Lemma uniq_snoc l d :
  uniq (l ++ [d]) = if decide (d ∈ uniq l) then uniq l else uniq l ++ [d].
Proof. unfold uniq. by rewrite foldl_app. Qed.

Lemma elem_of_uniq l d : d ∈ uniq l ↔ d ∈ l.
Proof.
  induction l as [|x l IH] using rev_ind; [done|].
  rewrite uniq_snoc, elem_of_app, list_elem_of_singleton.
  case_decide as Hx; [|rewrite elem_of_app, list_elem_of_singleton]; naive_solver.
Qed.

Lemma NoDup_uniq l : NoDup (uniq l).
Proof.
  induction l as [|x l IH] using rev_ind; [constructor|].
  rewrite uniq_snoc. case_decide; [done|].
  apply NoDup_app. split; [done|]. split; [|apply NoDup_singleton].
  by intros y Hy ->%list_elem_of_singleton.
Qed.

Lemma occ_others i l : occ i (others i l) = 0.
Proof. apply occ_removed. Qed.

Lemma occ_NoDup d l : NoDup l → d ∈ l → occ d l = 1.
Proof.
  induction 1 as [|x l Hx Hnd IH]; [by intros ?%elem_of_nil|].
  unfold occ in *. rewrite filter_cons. intros [->|Hin]%elem_of_cons.
  - rewrite decide_True by done. simpl. f_equal. by apply occ_zero.
  - rewrite decide_False; [by apply IH|]. by intros ->.
Qed.

Lemma others_absent i l : i ∉ l → others i l = l.
Proof.
  unfold others. induction l as [|a l IH]; intros Hi; [done|].
  apply not_elem_of_cons in Hi as [Hia Hil].
  rewrite filter_cons_True by done. by rewrite IH.
Qed.


Lemma uniq_NoDup l : NoDup l → uniq l = l.
Proof.
  induction l as [|a l IH] using rev_ind; [done|].
  intros Hnd. apply NoDup_app in Hnd as (Hl & Hdisj & _).
  rewrite uniq_snoc, IH by done.
  rewrite decide_False; [done|]. intros Hin. apply (Hdisj a Hin). by left.
Qed.

(** ** Dependency collection: Watcher.get, addDep, cleanupDeps *)

Section TrackingTheory.
Context {W : Type} (deep_reads : nat → W → list nat).
Local Abbreviation State := (@State W).
Local Abbreviation Watcher := (@Watcher W).
Implicit Types (st : State) (w : Watcher) (m : gmap nat Watcher).

Lemma frame_refl i st : frame i st st.
Proof. by split. Qed.

Lemma frame_trans i st1 st2 st3 : frame i st1 st2 → frame i st2 st3 → frame i st1 st3.
Proof.
  intros [a1 a2 a3 a4] [b1 b2 b3 b4]. split.
  - by rewrite b1.
  - by rewrite b2.
  - intros j Hj. by rewrite b3, a3.
  - intros d. by rewrite b4.
Qed.

Lemma subs_of_addSub d i st d' :
  subs_of (addSub d i st) d' =
  if decide (d' = d) then
    if decide (i ∈ subs_of st d) then subs_of st d else subs_of st d ++ [i]
  else subs_of st d'.
Proof.
  unfold addSub. repeat case_decide; subst; try done; unfold subs_of; simpl.
  - by rewrite lookup_insert_eq.
  - by rewrite lookup_insert_ne.
Qed.

Lemma subs_of_removeSub d i st d' :
  subs_of (removeSub d i st) d' =
  if decide (d' = d) then others i (subs_of st d) else subs_of st d'.
Proof.
  unfold removeSub. case_decide; subst; unfold subs_of at 1; simpl.
  - by rewrite lookup_insert_eq.
  - by rewrite lookup_insert_ne.
Qed.

Lemma frame_addSub d i st : frame i st (addSub d i st).
Proof.
  split; try (unfold addSub; by case_decide).
  intros d'. rewrite subs_of_addSub. repeat case_decide; subst; try done.
  apply others_snoc.
Qed.

Lemma frame_removeSub d i st : frame i st (removeSub d i st).
Proof.
  split; try done.
  intros d'. rewrite subs_of_removeSub. case_decide; subst; try done.
  apply others_idem.
Qed.

Lemma frame_set_watcher i w st : frame i st (set_watcher i w st).
Proof.
  split; try done. intros j Hj. simpl. by rewrite lookup_insert_ne.
Qed.

Lemma collecting_addDep w0 i seen d st :
  depIds w0 = list_to_set (deps w0) →
  collecting w0 i seen st →
  collecting w0 i (seen ++ [d]) (addDep i d st) ∧ frame i st (addDep i d st)
  ∧ targetStack (addDep i d st) = targetStack st ∧ log (addDep i d st) = log st.
Proof.
  intros Hids (w & Hw & Hd & Hi & Hdeep & Huser & Hget & Hval & Hcb & Hact
                 & Hnd & Hnids & Hocc).
  unfold addDep. rewrite Hw. case_decide as Hin.
  - split; [|split; [apply frame_refl | done]].
    exists w. repeat (split; [done|]). split; [|done].
    rewrite uniq_snoc, <-Hnd. rewrite Hnids, elem_of_list_to_set in Hin.
    by rewrite decide_True.
  - assert (d ∉ newDeps w) as Hnin by (by rewrite Hnids, elem_of_list_to_set in Hin).
    set (w' := with_tracking _ _ _ _ w).
    assert (collecting w0 i (seen ++ [d])
              (if decide (d ∈ depIds w) then set_watcher i w' st
               else addSub d i (set_watcher i w' st))) as Hc.
    { exists w'. split.
      { case_decide; [|unfold addSub; case_decide]; simpl; by rewrite lookup_insert_eq. }
      repeat (split; [done|]). simpl.
      split. { rewrite uniq_snoc, <-Hnd. by rewrite decide_False. }
      split. { rewrite list_to_set_app_L, Hnids. simpl. set_solver. }
      intros d'.
      assert (∀ st1 x, subs_of (set_watcher i w' st1) x = subs_of st1 x) as Hsw by done.
      case_decide as Hdep.
      - rewrite Hsw, Hocc. rewrite Hi, Hids, elem_of_list_to_set in Hdep.
        repeat case_decide; try done; exfalso;
          rewrite elem_of_app, list_elem_of_singleton in *; naive_solver.
      - rewrite subs_of_addSub, !Hsw. rewrite Hi, Hids, elem_of_list_to_set in Hdep.
        destruct (decide (d' = d)) as [->|Hne].
        + assert (occ i (subs_of st d) = 0) as Hz.
          { rewrite Hocc. case_decide; [naive_solver | done]. }
          pose proof Hz as Hz'. apply occ_zero in Hz'.
          rewrite decide_False by done.
          rewrite occ_app, Hz, occ_singleton.
          rewrite decide_True; [done|]. right.
          rewrite elem_of_app, list_elem_of_singleton. by right.
        + rewrite Hocc. repeat case_decide; try done; exfalso;
            rewrite elem_of_app, list_elem_of_singleton in *; naive_solver. }
    split; [exact Hc|]. split.
    + case_decide; [apply frame_set_watcher|].
      eapply frame_trans; [apply frame_set_watcher | apply frame_addSub].
    + case_decide; [done|]. unfold addSub. by case_decide.
Qed.

Lemma collecting_reads w0 i R : ∀ seen st,
  depIds w0 = list_to_set (deps w0) →
  target st = Some i →
  collecting w0 i seen st →
  let st' := foldl (λ s d, depend d s) st R in
  collecting w0 i (seen ++ R) st' ∧ frame i st st'
  ∧ targetStack st' = targetStack st ∧ log st' = log st.
Proof.
  induction R as [|d R IH]; intros seen st Hids Ht Hc; simpl.
  - rewrite app_nil_r. split; [done|]. split; [apply frame_refl | done].
  - assert (depend d st = addDep i d st) as -> by (unfold depend; by rewrite Ht).
    destruct (collecting_addDep w0 i seen d st Hids Hc) as (Hc1 & Hf1 & Hts1 & Hl1).
    assert (target (addDep i d st) = Some i) as Ht1.
    { unfold target in *. by rewrite Hts1. }
    destruct (IH (seen ++ [d]) (addDep i d st) Hids Ht1 Hc1) as (Hc2 & Hf2 & Hts2 & Hl2).
    rewrite <-app_assoc in Hc2. split; [done|].
    split; [eapply frame_trans; eassumption|]. split; congruence.
Qed.

Lemma subs_of_cleanup i (keep : gset nat) L : ∀ st d,
  subs_of (foldl (λ s d, if decide (d ∈ keep) then s else removeSub d i s) st L) d =
  if decide (d ∈ L ∧ d ∉ keep) then others i (subs_of st d) else subs_of st d.
Proof.
  induction L as [|x L IH]; intros st d; cbn [foldl].
  - rewrite decide_False; [done|]. rewrite elem_of_nil. tauto.
  - rewrite IH. destruct (decide (x ∈ keep)) as [Hk|Hk].
    + repeat case_decide; try done; exfalso; set_solver.
    + rewrite subs_of_removeSub.
      destruct (decide (d = x)) as [->|Hne].
      * rewrite others_idem. rewrite (decide_True (P := x ∈ x :: L ∧ x ∉ keep)).
        -- by case_decide.
        -- split; [left | done].
      * repeat case_decide; try done; exfalso; set_solver.
Qed.

Lemma cleanup_fold_frame i (keep : gset nat) L : ∀ st,
  let st' := foldl (λ s d, if decide (d ∈ keep) then s else removeSub d i s) st L in
  frame i st st' ∧ watchers st' = watchers st ∧
  targetStack st' = targetStack st ∧ log st' = log st.
Proof.
  induction L as [|x L IH]; intros st; simpl.
  - split; [apply frame_refl | done].
  - case_decide; [apply IH|].
    destruct (IH (removeSub x i st)) as (Hf & Hw & Ht & Hl).
    split; [|done]. eapply frame_trans; [apply frame_removeSub | done].
Qed.

Lemma cleanupDeps_spec w0 i seen st :
  collecting w0 i seen st →
  let st' := cleanupDeps i st in
  (∃ w', watchers st' !! i = Some w' ∧
         deps w' = uniq seen ∧ newDeps w' = [] ∧
         depIds w' = list_to_set (deps w') ∧ newDepIds w' = ∅ ∧
         deep w' = deep w0 ∧ user w' = user w0 ∧ getter w' = getter w0 ∧
         value w' = value w0 ∧ cb w' = cb w0 ∧ active w' = active w0 ∧
         ∀ d, occ i (subs_of st' d) = if decide (d ∈ deps w') then 1 else 0)
  ∧ frame i st st' ∧ targetStack st' = targetStack st ∧ log st' = log st.
Proof.
  intros (w & Hw & Hd & Hi & Hdeep & Huser & Hget & Hval & Hcb & Hact
            & Hnd & Hnids & Hocc).
  unfold cleanupDeps. rewrite Hw. cbv zeta.
  set (st1 := foldl _ st _).
  destruct (cleanup_fold_frame i (newDepIds w) (reverse (deps w)) st)
    as (Hf & Hws & Hts & Hl). fold st1 in Hf, Hws, Hts, Hl.
  split; [|split; [|done]].
  - eexists. split; [simpl; by rewrite lookup_insert_eq|]. simpl.
    repeat (split; [done|]).
    intros d.
    assert (subs_of (set_watcher i (with_tracking (newDeps w) [] (newDepIds w) ∅ w) st1) d
            = subs_of st1 d) as -> by done.
    unfold st1. rewrite subs_of_cleanup.
    destruct (decide (d ∈ reverse (deps w) ∧ d ∉ newDepIds w)) as [[H1 H2]|Hrm].
    + rewrite occ_others. rewrite decide_False; [done|].
      intros Hx. apply H2. rewrite Hnids. by apply elem_of_list_to_set.
    + rewrite Hocc, <-Hd.
      destruct (decide (d ∈ newDeps w)) as [Hy|Hn].
      * by rewrite decide_True by (by right).
      * rewrite decide_False; [done|]. intros [Hz|Hz]; [|done].
        apply Hrm. split; [by apply elem_of_reverse|].
        by rewrite Hnids, elem_of_list_to_set.
  - eapply frame_trans; [exact Hf | apply frame_set_watcher].
Qed.

Lemma consistent_collecting st i w :
  watchers st !! i = Some w → consistent st i →
  collecting w i [] st ∧ depIds w = list_to_set (deps w).
Proof.
  intros Hw (w1 & Hw1 & Hn & Hni & Hnd & Hids & Hocc).
  rewrite Hw in Hw1. injection Hw1 as <-.
  split; [|done]. exists w. split_and!; try done.
  - by rewrite Hn, Hni.
  - intros d. rewrite Hocc, Hn.
    repeat case_decide; try done; exfalso; set_solver.
Qed.

Lemma collecting_ext w0 i seen st st' :
  watchers st' = watchers st → subs st' = subs st →
  collecting w0 i seen st → collecting w0 i seen st'.
Proof.
  intros Hw Hs (w & H1 & H2). exists w. rewrite Hw. split; [done|].
  unfold subs_of. rewrite Hs. exact H2.
Qed.

Lemma frame_ext i st st' :
  world st' = world st → sched st' = sched st →
  watchers st' = watchers st → subs st' = subs st → frame i st st'.
Proof.
  intros H1 H2 H3 H4. split; try done.
  - intros j _. by rewrite H3.
  - intros d. unfold subs_of. by rewrite H4.
Qed.

Lemma traverse_collecting w0 i seen v st :
  depIds w0 = list_to_set (deps w0) →
  target st = Some i →
  collecting w0 i seen st →
  let st' := traverse deep_reads v st in
  collecting w0 i
    (seen ++ match v with VObj a => deep_reads a (world st) | _ => [] end) st'
  ∧ frame i st st' ∧ targetStack st' = targetStack st ∧ log st' = log st.
Proof.
  intros Hids Ht Hc. destruct v; simpl; rewrite ?app_nil_r;
    try (split; [done|]; split; [apply frame_refl | done]).
  by apply collecting_reads.
Qed.

(** After the getter and, for a deep watcher, [traverse] have run, the
    [finally] block of [get] pops the target and reconciles. *)
Lemma get_finish w0 i seen st ts :
  collecting w0 i seen st →
  targetStack st = Some i :: ts →
  let st' := cleanupDeps i (popTarget st) in
  (∃ w', watchers st' !! i = Some w' ∧
         deps w' = uniq seen ∧ newDeps w' = [] ∧
         depIds w' = list_to_set (deps w') ∧ newDepIds w' = ∅ ∧
         deep w' = deep w0 ∧ user w' = user w0 ∧ getter w' = getter w0 ∧
         value w' = value w0 ∧ cb w' = cb w0 ∧ active w' = active w0 ∧
         ∀ d, occ i (subs_of st' d) = if decide (d ∈ deps w') then 1 else 0)
  ∧ frame i st st' ∧ targetStack st' = ts ∧ log st' = log st.
Proof.
  intros Hc Hts.
  assert (collecting w0 i seen (popTarget st)) as Hc' by (by eapply collecting_ext).
  destruct (cleanupDeps_spec w0 i seen (popTarget st) Hc') as (H1 & H2 & H3 & H4).
  split; [exact H1|]. split.
  - eapply frame_trans; [|exact H2]. by apply frame_ext.
  - rewrite H3, H4. simpl. by rewrite Hts.
Qed.

(** One evaluation rebuilds the dependency set from what was read, and
    brings the subscriber lists in line with it. *)
Lemma get_collects i w st :
  watchers st !! i = Some w →
  consistent st i →
  ∃ st' r w',
    get deep_reads i st = Some (st', r) ∧
    watchers st' !! i = Some w' ∧
    deps w' = uniq (reads_of deep_reads w (world st)) ∧
    (∀ d, d ∈ reads_of deep_reads w (world st) →
          d ∈ deps w' ∧ occ d (deps w') = 1 ∧ occ i (subs_of st' d) = 1) ∧
    (∀ d, d ∈ deps w → d ∉ reads_of deep_reads w (world st) → i ∉ subs_of st' d) ∧
    newDeps w' = [] ∧ newDepIds w' = ∅ ∧
    depIds w' = list_to_set (deps w') ∧
    consistent st' i ∧
    frame i st st' ∧ targetStack st' = targetStack st.
Proof.
  intros Hw Hcons.
  destruct (consistent_collecting st i w Hw Hcons) as [Hc0 Hids].
  set (st0 := pushTarget (Some i) st).
  assert (collecting w i [] st0) as Hc by (by eapply collecting_ext).
  assert (target st0 = Some i) as Ht0 by done.
  destruct (collecting_reads w i (reads (getter w (world st))) [] st0 Hids Ht0 Hc)
    as (Hc1 & Hf1 & Hts1 & Hl1). simpl in Hc1.
  set (st1 := foldl (λ s d, depend d s) st0 (reads (getter w (world st)))) in *.
  assert (∃ st3 r, 
    get deep_reads i st = Some (cleanupDeps i (popTarget st3), r) ∧
    collecting w i (reads_of deep_reads w (world st)) st3 ∧
    targetStack st3 = Some i :: targetStack st ∧ frame i st st3) as (st3 & r & Hget & Hc3 & Hts3 & Hf3).
  { assert (frame i st st0) as Hf0 by (by apply frame_ext).
    assert (targetStack st1 = Some i :: targetStack st) as Hts1' by (by rewrite Hts1).
    assert (world st1 = world st) as Hw1 by (by destruct Hf1).
    assert (target st1 = Some i) as Ht1 by (unfold target; by rewrite Hts1).
    unfold get. fold st0. change (watchers st0) with (watchers st). rewrite Hw.
    change (world st0) with (world st). fold st1. unfold reads_of.
    destruct (outcome (getter w (world st))) as [v|e].
    - destruct (deep w).
      + destruct (traverse_collecting w i _ v st1 Hids Ht1 Hc1) as (Hc2 & Hf2 & Hts2 & Hl2).
        eexists _, _. split; [reflexivity|]. rewrite Hw1 in Hc2.
        split; [done|]. split; [by rewrite Hts2|].
        eapply frame_trans; [exact Hf0|]. eapply frame_trans; eassumption.
      + eexists _, _. split; [reflexivity|]. rewrite app_nil_r.
        split; [done|]. split; [done|]. eapply frame_trans; eassumption.
    - destruct (user w).
      + assert (collecting w i (reads (getter w (world st)))
                  (handleError e i InGetter st1)) as Hc2 by (by eapply collecting_ext).
        destruct (deep w); simpl; eexists _, _; (split; [reflexivity|]);
          rewrite app_nil_r; (split; [done|]); (split; [done|]);
          (eapply frame_trans; [exact Hf0|]); (eapply frame_trans; [exact Hf1|]);
          by apply frame_ext.
      + destruct (deep w); simpl; eexists _, _; (split; [reflexivity|]);
          rewrite app_nil_r; (split; [done|]); (split; [done|]);
          eapply frame_trans; eassumption. }
  destruct (get_finish w i _ st3 _ Hc3 Hts3) as ((w' & Hw' & Hd' & Hn' & Hi' & Hni' & _ & _ & _ & _ & _ & _ & Hocc') & Hf & Hts & Hl).
  exists (cleanupDeps i (popTarget st3)), r, w'.
  split; [done|]. split; [done|]. split; [done|].
  split.
  { intros d Hd. assert (d ∈ deps w') as Hin by (by rewrite Hd', elem_of_uniq).
    split; [done|]. split.
    - apply occ_NoDup; [|done]. rewrite Hd'. apply NoDup_uniq.
    - rewrite Hocc'. by rewrite decide_True. }
  split.
  { intros d _ Hnr. apply occ_zero. rewrite Hocc'.
    rewrite decide_False; [done|]. by rewrite Hd', elem_of_uniq. }
  split; [done|]. split; [done|]. split; [done|].
  split.
  { exists w'. split_and!; try done. rewrite Hd'. apply NoDup_uniq. }
  split; [|done]. eapply frame_trans; eassumption.
Qed.

Lemma same_code_refl w : same_code w w.
Proof. by repeat split. Qed.

Lemma same_code_trans w1 w2 w3 : same_code w1 w2 → same_code w2 w3 → same_code w1 w3.
Proof. unfold same_code. intros H1 H2. destruct_and!. split_and!; congruence. Qed.

Lemma same_codes_refl m : same_codes m m.
Proof. intros j. destruct (m !! j); [apply same_code_refl | done]. Qed.

Lemma same_codes_trans (m1 m2 m3 : gmap nat Watcher) : same_codes m1 m2 → same_codes m2 m3 → same_codes m1 m3.
Proof.
  intros H1 H2 j. specialize (H1 j). specialize (H2 j).
  destruct (m1 !! j), (m2 !! j), (m3 !! j); try done. by eapply same_code_trans.
Qed.

Lemma same_codes_insert m i w w' :
  m !! i = Some w → same_code w w' → same_codes m (<[i := w']> m).
Proof.
  intros Hi Hc j. destruct (decide (j = i)) as [->|Hne].
  - by rewrite Hi, lookup_insert_eq.
  - rewrite lookup_insert_ne by done. destruct (m !! j); [apply same_code_refl | done].
Qed.

Lemma tracking_only_refl st : tracking_only st st.
Proof. split; try done. apply same_codes_refl. Qed.

Lemma tracking_only_trans st1 st2 st3 :
  tracking_only st1 st2 → tracking_only st2 st3 → tracking_only st1 st3.
Proof.
  intros [a1 a2 a3 a4 a5 a6] [b1 b2 b3 b4 b5 b6]. split.
  1-4: congruence.
  - by eapply same_codes_trans.
  - intros j. by rewrite b6.
Qed.

Lemma tracking_only_subs x st : tracking_only st (with_subs x st).
Proof. split; try done. apply same_codes_refl. Qed.

Lemma tracking_only_addSub d i st : tracking_only st (addSub d i st).
Proof. unfold addSub. case_decide; [apply tracking_only_refl | apply tracking_only_subs]. Qed.

Lemma tracking_only_removeSub d i st : tracking_only st (removeSub d i st).
Proof. apply tracking_only_subs. Qed.

Lemma tracking_only_set_watcher i w ds nds ids nids st :
  watchers st !! i = Some w →
  tracking_only st (set_watcher i (with_tracking ds nds ids nids w) st).
Proof.
  intros Hw. split; try done.
  - simpl. by apply (same_codes_insert _ i w).
  - intros j. simpl. destruct (decide (j = i)) as [->|Hne].
    + by rewrite lookup_insert_eq, Hw.
    + by rewrite lookup_insert_ne.
Qed.

Lemma tracking_only_addDep i d st : tracking_only st (addDep i d st).
Proof.
  unfold addDep. destruct (watchers st !! i) as [w|] eqn:Hw; [|apply tracking_only_refl].
  case_decide; [apply tracking_only_refl|].
  case_decide.
  - by apply tracking_only_set_watcher.
  - eapply tracking_only_trans; [by apply tracking_only_set_watcher|].
    apply tracking_only_addSub.
Qed.

Lemma tracking_only_depend d st : tracking_only st (depend d st).
Proof.
  unfold depend. destruct (target st); [apply tracking_only_addDep | apply tracking_only_refl].
Qed.

Lemma tracking_only_foldl {A} (f : State → A → State) l :
  (∀ st x, tracking_only st (f st x)) →
  ∀ st, tracking_only st (foldl f st l).
Proof.
  intros Hf. induction l as [|x l IH]; intros st; simpl.
  - apply tracking_only_refl.
  - eapply tracking_only_trans; [apply Hf | apply IH].
Qed.

Lemma foldl_watchers {A} (f : State → A → State) l :
  (∀ st x, watchers (f st x) = watchers st) →
  ∀ st, watchers (foldl f st l) = watchers st.
Proof.
  intros Hf. induction l as [|x l IH]; intros st; simpl; [done|].
  by rewrite IH, Hf.
Qed.

Lemma tracking_only_cleanupDeps i st : tracking_only st (cleanupDeps i st).
Proof.
  unfold cleanupDeps. destruct (watchers st !! i) as [w|] eqn:Hw; [|apply tracking_only_refl].
  cbv zeta. set (st1 := foldl _ st _).
  assert (tracking_only st st1) as H1.
  { apply tracking_only_foldl. intros s x. case_decide;
      [apply tracking_only_refl | apply tracking_only_removeSub]. }
  assert (watchers st1 = watchers st) as Hws.
  { apply foldl_watchers. intros s x. by case_decide. }
  eapply tracking_only_trans; [exact H1|].
  apply tracking_only_set_watcher. by rewrite Hws.
Qed.

Lemma tracking_only_traverse v st : tracking_only st (traverse deep_reads v st).
Proof.
  destruct v; try apply tracking_only_refl. simpl.
  apply tracking_only_foldl. intros. apply tracking_only_depend.
Qed.

(** [get] always returns or rethrows, and touches nothing but the
    subscriptions, the tracking fields and the error channel. *)
Lemma get_inert i w st :
  watchers st !! i = Some w →
  ∃ st',
    get deep_reads i st = Some (st', get_result w (world st)) ∧
    world st' = world st ∧ sched st' = sched st ∧
    targetStack st' = targetStack st ∧
    log st' = log st ++ get_errors i w (world st) ∧
    same_codes (watchers st) (watchers st') ∧
    ∀ j, value <$> watchers st' !! j = value <$> watchers st !! j.
Proof.
  intros Hw. unfold get, get_result, get_errors.
  change (watchers (pushTarget (Some i) st)) with (watchers st). rewrite Hw.
  change (world (pushTarget (Some i) st)) with (world st).
  set (st1 := foldl _ _ _).
  assert (tracking_only (pushTarget (Some i) st) st1) as H1.
  { apply tracking_only_foldl. intros. apply tracking_only_depend. }
  assert (∀ st2 val,
            world st2 = world st1 → sched st2 = sched st1 →
            targetStack st2 = targetStack st1 → watchers st2 = watchers st1 →
            let st5 := cleanupDeps i (popTarget (if deep w then traverse deep_reads val st2 else st2)) in
            world st5 = world st ∧ sched st5 = sched st ∧
            targetStack st5 = targetStack st ∧ log st5 = log st2 ∧
            same_codes (watchers st) (watchers st5) ∧
            ∀ j, value <$> watchers st5 !! j = value <$> watchers st !! j) as Hfin.
  { intros st2 val E1 E2 E3 E4. cbv zeta.
    set (st3 := if deep w then _ else _).
    assert (tracking_only st2 st3) as H3.
    { unfold st3. destruct (deep w); [apply tracking_only_traverse | apply tracking_only_refl]. }
    pose proof (tracking_only_cleanupDeps i (popTarget st3)) as H5.
    destruct H5 as [a1 a2 a3 a4 a5 a6]. destruct H1 as [b1 b2 b3 b4 b5 b6].
    destruct H3 as [c1 c2 c3 c4 c5 c6].
    split_and!.
    - rewrite a1. simpl. by rewrite c1, E1, b1.
    - rewrite a2. simpl. by rewrite c2, E2, b2.
    - rewrite a4. simpl. by rewrite c4, E3, b4.
    - rewrite a3. simpl. by rewrite c3.
    - eapply same_codes_trans; [exact b5|]. rewrite <-E4.
      eapply same_codes_trans; [exact c5 | exact a5].
    - intros j. rewrite a6. simpl. by rewrite c6, E4, b6. }
  destruct (outcome (getter w (world st))) as [v|e]; [|destruct (user w)].
  - destruct (Hfin st1 v) as (F1 & F2 & F3 & F4 & F5 & F6); try done.
    eexists. split; [reflexivity|]. split_and!; try done.
    rewrite F4, app_nil_r. by destruct H1.
  - destruct (Hfin (handleError e i InGetter st1) VUndefined)
      as (F1 & F2 & F3 & F4 & F5 & F6); try done.
    eexists. split; [reflexivity|]. split_and!; try done.
    rewrite F4. simpl. f_equal. by destruct H1.
  - destruct (Hfin st1 VUndefined) as (F1 & F2 & F3 & F4 & F5 & F6); try done.
    eexists. split; [reflexivity|]. split_and!; try done.
    rewrite F4, app_nil_r. by destruct H1.
Qed.

(** *** Evaluation from any subscriptions *)

Lemma gathering_ext w0 sub0 i seen st st' :
  watchers st' = watchers st → subs st' = subs st →
  gathering w0 sub0 i seen st → gathering w0 sub0 i seen st'.
Proof.
  intros Hw Hs (w & H1 & H2). exists w. rewrite Hw. split; [done|].
  unfold subs_of. rewrite Hs. exact H2.
Qed.

Lemma gathering_addDep w0 sub0 i seen d st :
  depIds w0 = list_to_set (deps w0) →
  gathering w0 sub0 i seen st →
  gathering w0 sub0 i (seen ++ [d]) (addDep i d st)
  ∧ targetStack (addDep i d st) = targetStack st
  ∧ world (addDep i d st) = world st ∧ log (addDep i d st) = log st.
Proof.
  intros Hids (w & Hw & Hd & Hi & Hnd & Hnids & Hsub).
  unfold addDep. rewrite Hw. case_decide as Hin.
  - split; [|done]. exists w. split_and!; try done.
    rewrite uniq_snoc, <-Hnd. rewrite Hnids, elem_of_list_to_set in Hin.
    by rewrite decide_True.
  - assert (d ∉ newDeps w) as Hnin by (by rewrite Hnids, elem_of_list_to_set in Hin).
    set (w' := with_tracking _ _ _ _ w).
    assert (∀ st1 x, subs_of (set_watcher i w' st1) x = subs_of st1 x) as Hsw by done.
    split.
    + exists w'. split.
      { case_decide; [|unfold addSub; case_decide]; simpl; by rewrite lookup_insert_eq. }
      split; [done|]. split; [done|].
      split. { simpl. rewrite uniq_snoc, <-Hnd. by rewrite decide_False. }
      split. { simpl. rewrite list_to_set_app_L, Hnids. simpl. set_solver. }
      intros d'. simpl. case_decide as Hdep.
      * rewrite Hsw, Hsub. rewrite Hi, Hids, elem_of_list_to_set in Hdep.
        rewrite elem_of_app, list_elem_of_singleton. naive_solver.
      * rewrite subs_of_addSub, !Hsw.
        rewrite Hi, Hids, elem_of_list_to_set in Hdep.
        destruct (decide (d' = d)) as [->|Hne].
        -- split; [intros _|intros _].
           ++ right. split; [done|]. rewrite elem_of_app, list_elem_of_singleton.
              by right.
           ++ case_decide; [done|]. rewrite elem_of_app, list_elem_of_singleton.
              by right.
        -- rewrite Hsub, elem_of_app, list_elem_of_singleton. naive_solver.
    + case_decide; [done|]. unfold addSub. by case_decide.
Qed.

Lemma gathering_reads w0 sub0 i R : ∀ seen st,
  depIds w0 = list_to_set (deps w0) →
  target st = Some i →
  gathering w0 sub0 i seen st →
  let st' := foldl (λ s d, depend d s) st R in
  gathering w0 sub0 i (seen ++ R) st'
  ∧ targetStack st' = targetStack st ∧ world st' = world st ∧ log st' = log st.
Proof.
  induction R as [|d R IH]; intros seen st Hids Ht Hc; simpl.
  - by rewrite app_nil_r.
  - assert (depend d st = addDep i d st) as -> by (unfold depend; by rewrite Ht).
    destruct (gathering_addDep w0 sub0 i seen d st Hids Hc) as (Hc1 & Hts1 & Hw1 & Hl1).
    assert (target (addDep i d st) = Some i) as Ht1.
    { unfold target in *. by rewrite Hts1. }
    destruct (IH (seen ++ [d]) (addDep i d st) Hids Ht1 Hc1) as (Hc2 & Hts2 & Hw2 & Hl2).
    rewrite <-app_assoc in Hc2. split; [done|]. split_and!; congruence.
Qed.

Lemma not_in_others i l : i ∉ others i l.
Proof. unfold others. rewrite list_elem_of_filter. naive_solver. Qed.

Lemma gathering_cleanup w0 sub0 i seen st :
  depIds w0 = list_to_set (deps w0) →
  gathering w0 sub0 i seen st →
  let st' := cleanupDeps i st in
  (∃ w', watchers st' !! i = Some w' ∧
         deps w' = uniq seen ∧ newDeps w' = [] ∧
         depIds w' = list_to_set (deps w') ∧ newDepIds w' = ∅)
  ∧ (∀ d, i ∈ subs_of st' d ↔
          (d ∈ seen ∧ d ∉ deps w0) ∨ (sub0 d ∧ (d ∈ seen ∨ d ∉ deps w0)))
  ∧ targetStack st' = targetStack st.
Proof.
  intros Hids (w & Hw & Hd & Hi & Hnd & Hnids & Hsub).
  unfold cleanupDeps. rewrite Hw. cbv zeta.
  set (st1 := foldl _ st _).
  destruct (cleanup_fold_frame i (newDepIds w) (reverse (deps w)) st)
    as (_ & Hws & Hts & _). fold st1 in Hws, Hts.
  split; [|split; [|done]].
  - eexists. split; [simpl; by rewrite lookup_insert_eq|]. simpl.
    split_and!; done.
  - intros d.
    assert (subs_of (set_watcher i (with_tracking (newDeps w) [] (newDepIds w) ∅ w) st1) d
            = subs_of st1 d) as -> by done.
    unfold st1. rewrite subs_of_cleanup.
    assert (d ∈ newDepIds w ↔ d ∈ seen) as Hseen
      by (by rewrite Hnids, elem_of_list_to_set, Hnd, elem_of_uniq).
    assert (d ∈ newDeps w ↔ d ∈ seen) as Hseen' by (by rewrite Hnd, elem_of_uniq).
    destruct (decide (d ∈ reverse (deps w) ∧ d ∉ newDepIds w)) as [[H1 H2]|Hrm].
    + rewrite elem_of_reverse, Hd in H1. rewrite Hseen in H2.
      split; [intros Hin; by apply not_in_others in Hin | naive_solver].
    + rewrite Hsub, Hseen'.
      assert (d ∈ deps w0 → d ∈ seen) as Hkeep.
      { intros Hin. destruct (decide (d ∈ seen)) as [|Hn]; [done|].
        exfalso. apply Hrm. split; [by rewrite elem_of_reverse, Hd | by rewrite Hseen]. }
      destruct (decide (d ∈ deps w0)); naive_solver.
Qed.

(** One evaluation of a watcher, whatever its subscriptions: it is
    subscribed afterwards to the Deps it read that were not in its
    dependency set, and keeps the subscriptions it had to the Deps it read
    again and to those outside its dependency set. *)
Lemma get_subscriptions i w st :
  watchers st !! i = Some w →
  newDeps w = [] → newDepIds w = ∅ → depIds w = list_to_set (deps w) →
  ∃ st' w',
    get deep_reads i st = Some (st', get_result w (world st)) ∧
    watchers st' !! i = Some w' ∧
    deps w' = uniq (reads_of deep_reads w (world st)) ∧
    newDeps w' = [] ∧ newDepIds w' = ∅ ∧
    depIds w' = list_to_set (deps w') ∧
    (∀ d, i ∈ subs_of st' d ↔
          (d ∈ reads_of deep_reads w (world st) ∧ d ∉ deps w)
          ∨ (i ∈ subs_of st d ∧ (d ∈ reads_of deep_reads w (world st) ∨ d ∉ deps w))) ∧
    targetStack st' = targetStack st.
Proof.
  intros Hw Hn Hni Hids.
  set (sub0 := λ d, i ∈ subs_of st d).
  set (st0 := pushTarget (Some i) st).
  assert (gathering w sub0 i [] st0) as Hc.
  { exists w. split; [done|]. split_and!; try done.
    - by rewrite Hn, Hni.
    - intros d. rewrite Hn. change (subs_of st0 d) with (subs_of st d).
      unfold sub0. rewrite elem_of_nil. naive_solver. }
  assert (target st0 = Some i) as Ht0 by done.
  destruct (gathering_reads w sub0 i (reads (getter w (world st))) [] st0 Hids Ht0 Hc)
    as (Hc1 & Hts1 & Hw1 & _). simpl in Hc1.
  set (st1 := foldl (λ s d, depend d s) st0 (reads (getter w (world st)))) in *.
  assert (target st1 = Some i) as Ht1 by (unfold target; by rewrite Hts1).
  assert (∃ st3,
    get deep_reads i st = Some (cleanupDeps i (popTarget st3), get_result w (world st)) ∧
    gathering w sub0 i (reads_of deep_reads w (world st)) st3 ∧
    targetStack st3 = Some i :: targetStack st) as (st3 & Hget & Hc3 & Hts3).
  { unfold get. fold st0. change (watchers st0) with (watchers st). rewrite Hw.
    change (world st0) with (world st). fold st1. unfold reads_of, get_result.
    destruct (outcome (getter w (world st))) as [v|e].
    - destruct (deep w).
      + eexists. split; [reflexivity|].
        destruct v; simpl; rewrite ?app_nil_r; try (split; [done|]; by rewrite Hts1).
        rewrite Hw1. change (world st0) with (world st).
        destruct (gathering_reads w sub0 i (deep_reads a (world st)) _ st1 Hids Ht1 Hc1)
          as (Hc2 & Hts2 & _).
        split; [exact Hc2|]. by rewrite Hts2, Hts1.
      + eexists. split; [reflexivity|]. rewrite app_nil_r.
        split; [done|]. by rewrite Hts1.
    - destruct (user w).
      + assert (gathering w sub0 i (reads (getter w (world st)))
                  (handleError e i InGetter st1)) as Hc2 by (by eapply gathering_ext).
        destruct (deep w); simpl; eexists; (split; [reflexivity|]);
          rewrite app_nil_r; (split; [done|]); exact Hts1.
      + destruct (deep w); simpl; eexists; (split; [reflexivity|]);
          rewrite app_nil_r; (split; [done|]); exact Hts1. }
  assert (gathering w sub0 i (reads_of deep_reads w (world st)) (popTarget st3))
    as Hc4 by (by eapply gathering_ext).
  destruct (gathering_cleanup w sub0 i _ (popTarget st3) Hids Hc4)
    as ((w' & Hw' & Hd' & Hn' & Hi' & Hni') & Hsub & Hts).
  exists (cleanupDeps i (popTarget st3)), w'.
  split; [exact Hget|]. split_and!; try done.
  rewrite Hts. simpl. by rewrite Hts3.
Qed.

(** C1, as the code has it.  An evaluation ([Watcher.get]) of a watcher
    between two evaluations - [newDeps] empty, [depIds] the ids of [deps] -
    returns, and rebuilds the dependency set from what was read: every Dep
    read is in it exactly once, the buffer filled during the evaluation has
    become [deps], and [newDeps] and [newDepIds] are empty.  The
    subscriptions follow the old dependency set: the watcher is subscribed
    to a Dep read that was not in the set, unsubscribed from a Dep of the
    set that was not read, and for a Dep of the set that was read again, or
    one that is neither, a subscription is left as it was.  So, when the
    subscriptions agreed with the dependency set before - the watcher
    subscribed exactly to the Deps in [deps], once to each, as it is from
    the constructor on until [teardown] -, they are reconciled: every Dep
    read has the watcher exactly once among its subscribers, a Dep
    subscribed to before and not read now has it no longer, and
    subscriptions and dependency set agree again.  But when the watcher had
    lost its subscriptions, as after [teardown], a Dep of the old set that
    is read again is in the new set and does not have the watcher among its
    subscribers. *)
Theorem get_reconciles_subscriptions i w st :
  watchers st !! i = Some w →
  newDeps w = [] → newDepIds w = ∅ → depIds w = list_to_set (deps w) →
  ∃ st' w',
    get deep_reads i st = Some (st', get_result w (world st)) ∧
    watchers st' !! i = Some w' ∧
    deps w' = uniq (reads_of deep_reads w (world st)) ∧
    (∀ d, d ∈ reads_of deep_reads w (world st) →
          d ∈ deps w' ∧ occ d (deps w') = 1) ∧
    newDeps w' = [] ∧ newDepIds w' = ∅ ∧
    depIds w' = list_to_set (deps w') ∧
    targetStack st' = targetStack st ∧
    (∀ d, i ∈ subs_of st' d ↔
          (d ∈ reads_of deep_reads w (world st) ∧ d ∉ deps w)
          ∨ (i ∈ subs_of st d
             ∧ (d ∈ reads_of deep_reads w (world st) ∨ d ∉ deps w))) ∧
    (consistent st i →
     (∀ d, d ∈ reads_of deep_reads w (world st) → occ i (subs_of st' d) = 1) ∧
     (∀ d, d ∈ deps w → d ∉ reads_of deep_reads w (world st) → i ∉ subs_of st' d) ∧
     consistent st' i ∧ frame i st st') ∧
    ((∀ d, i ∉ subs_of st d) →
     ∀ d, d ∈ deps w → d ∈ reads_of deep_reads w (world st) →
          d ∈ deps w' ∧ i ∉ subs_of st' d).
Proof.
  intros Hw Hn Hni Hids.
  destruct (get_subscriptions i w st Hw Hn Hni Hids)
    as (st' & w' & Hget & Hw' & Hd' & Hn' & Hni' & Hids' & Hsub & Hts).
  exists st', w'. split_and!; try done.
  - intros d Hd. assert (d ∈ deps w') as Hin by (by rewrite Hd', elem_of_uniq).
    split; [done|]. apply occ_NoDup; [|done]. rewrite Hd'. apply NoDup_uniq.
  - intros Hcons.
    destruct (get_collects i w st Hw Hcons)
      as (st2 & r & w2 & Hget2 & Hw2 & _ & Hread & Hgone & _ & _ & _ & Hc2 & Hf2 & _).
    rewrite Hget in Hget2. injection Hget2 as <- _.
    split_and!; try done. intros d Hd. by apply Hread.
  - intros Hnone d Hold Hread. split; [by rewrite Hd', elem_of_uniq|].
    rewrite Hsub. intros [[_ Hnew]|[Hwas _]]; [done | by apply (Hnone d)].
Qed.

End TrackingTheory.

(** ** The scheduler: queueWatcher and flushSchedulerQueue *)

Section SchedTheory.
Context {W : Type} (cfg : Config) (deep_reads : nat → W → list nat).
Local Abbreviation State := (@State W).
Local Abbreviation Watcher := (@Watcher W).
Local Abbreviation Script := (@Script W).
Local Abbreviation Proc := (@Proc W).
Implicit Types (st : State) (w : Watcher) (s : Sched).

Lemma runs_of_app l1 l2 : runs_of (l1 ++ l2) = runs_of l1 ++ runs_of l2.
Proof. apply omap_app. Qed.

Lemma warns_of_app l1 l2 : warns_of (l1 ++ l2) = warns_of l1 ++ warns_of l2.
Proof. apply omap_app. Qed.

Lemma splice_length p x q : length (splice p x q) = S (length q).
Proof.
  unfold splice. rewrite length_app. simpl.
  rewrite <-(take_drop p q) at 3. rewrite length_app. lia.
Qed.

Lemma enq_step_fields s s' :
  enq_step s s' →
  waiting s' = waiting s ∧ flushing s' = flushing s ∧ index s' = index s ∧
  circular s' = circular s ∧ ticks s' = ticks s ∧
  length (queue s') = S (length (queue s)) ∧ has s ⊆ has s' ∧
  take (S (index s)) (queue s') = take (S (index s)) (queue s).
Proof.
  intros [s0 i p Hi Hp Hl]. simpl. split_and!; try done.
  - apply splice_length.
  - set_solver.
  - unfold splice. rewrite take_app_le by (rewrite length_take; lia).
    rewrite take_take. f_equal. lia.
Qed.

Lemma enqueues_fields s s' :
  rtc enq_step s s' →
  waiting s' = waiting s ∧ flushing s' = flushing s ∧ index s' = index s ∧
  circular s' = circular s ∧ ticks s' = ticks s ∧
  length (queue s) ≤ length (queue s') ∧ has s ⊆ has s' ∧
  take (S (index s)) (queue s') = take (S (index s)) (queue s).
Proof.
  induction 1 as [s|s1 s2 s3 H12 H23 IH].
  - split_and!; done.
  - apply enq_step_fields in H12.
    destruct H12 as (a1 & a2 & a3 & a4 & a5 & a6 & a7 & a8).
    destruct IH as (b1 & b2 & b3 & b4 & b5 & b6 & b7 & b8).
    split_and!; [congruence..| lia | set_solver |].
    rewrite a3 in b8. congruence.
Qed.

Lemma enqueue_only_ret st0 c0 : enqueue_only (λ st, Some (st, c0) : option (State * Completion)).
Proof. intros st st' c _ _ _ [= <- <-]. split; [apply rtc_refl | done]. Qed.

(** Two calls in sequence. *)
Lemma enqueue_only_bind (p : Proc) (k : Completion → Proc) :
  enqueue_only p → (∀ c, enqueue_only (k c)) →
  enqueue_only (λ st, match p st with
                      | Some (st', c) => k c st'
                      | None => None
                      end).
Proof.
  intros Hp Hk st st' c Hw Hf Hi Hrun.
  destruct (p st) as [[st1 c1]|] eqn:E; [|done].
  destruct (Hp st st1 c1 Hw Hf Hi E) as (R1 & L1 & W1).
  destruct (enqueues_fields _ _ R1) as (F1 & F2 & F3 & _ & _ & F6 & _).
  destruct (Hk c1 st1 st' c) as (R2 & L2 & W2); try congruence.
  { rewrite F3. lia. }
  split; [by etrans|]. split; congruence.
Qed.

Lemma enqueue_only_ext (p q : Proc) :
  (∀ st, p st = q st) → enqueue_only p → enqueue_only q.
Proof. intros E Hp st st' c ????. apply (Hp st st' c); try done. by rewrite E. Qed.

Lemma enqueue_only_for_each {A} (f : A → Proc) l :
  (∀ x, enqueue_only (f x)) → enqueue_only (for_each f l).
Proof.
  intros Hf. induction l as [|x l IH].
  - intros st st' c _ _ _ [= <- <-]. split; [apply rtc_refl | done].
  - eapply enqueue_only_ext;
      [|apply (enqueue_only_bind (f x)
                 (λ c, match c with Normal => for_each f l | Throws e => λ st, Some (st, Throws e) end))].
    + intros st. simpl. destruct (f x st) as [[st1 [|e]]|]; done.
    + apply Hf.
    + intros [|e]; [apply IH|].
      intros st st' c _ _ _ [= <- <-]. split; [apply rtc_refl | done].
Qed.

Lemma enqueue_only_notify (upd : nat → Proc) d :
  (∀ i, enqueue_only (upd i)) → enqueue_only (notify_with upd d).
Proof.
  intros Hu st st' c. unfold notify_with. by apply enqueue_only_for_each.
Qed.

Lemma enqueue_only_script (ntf : nat → Proc) (sc : Script) :
  (∀ d, enqueue_only (ntf d)) → enqueue_only (script_with ntf sc).
Proof.
  intros Hn. induction sc as [|e|a k IH].
  - intros st st' c _ _ _ [= <- <-]. split; [apply rtc_refl | done].
  - intros st st' c _ _ _ [= <- <-]. split; [apply rtc_refl | done].
  - intros st st' c Hw Hf Hi. simpl. destruct (a (world st)) as [x ds] eqn:Ea.
    destruct (for_each ntf ds (with_world x st)) as [[st1 c1]|] eqn:E; [|done].
    destruct (enqueue_only_for_each ntf ds Hn (with_world x st) st1 c1) as (R1 & L1 & W1);
      try done.
    destruct (enqueues_fields _ _ R1) as (F1 & F2 & F3 & _ & _ & F6 & _).
    simpl in *. destruct c1 as [|e].
    + intros Hrun. destruct (IH (world st1) st1 st' c) as (R2 & L2 & W2); try congruence.
      { rewrite F3. lia. }
      split; [by etrans|]. split; congruence.
    + intros [= <- <-]. done.
Qed.

Lemma splice_pos_bounds q idx id : ∀ n,
  n ≤ length q → idx < n → idx < splice_pos q idx id n ≤ n.
Proof.
  induction n as [|n IH]; intros Hn Hi; [lia|]. simpl.
  destruct (q !! n) as [x|] eqn:E; [|lia].
  destruct (bool_decide (idx < n) && bool_decide (id < x)) eqn:B; [|lia].
  apply andb_prop in B as [B1 B2]. apply bool_decide_eq_true in B1.
  specialize (IH ltac:(lia) B1). lia.
Qed.

(** During a flush [waiting] is set, so [queueWatcher] never starts a
    flush: it is a no-op or one splice behind the cursor. *)
Lemma enqueue_only_queueWatcher (flush : Proc) i :
  enqueue_only (queueWatcher_with cfg flush i).
Proof.
  intros st st' c Hw Hf Hi. unfold queueWatcher_with.
  case_decide as Hin.
  - intros [= <- <-]. split; [apply rtc_refl | done].
  - cbv zeta. simpl. rewrite Hf. simpl. rewrite Hw.
    intros [= <- <-]. simpl. split; [|done].
    apply rtc_once.
    pose proof (splice_pos_bounds (queue (sched st)) (index (sched st)) i
                  (length (queue (sched st))) ltac:(lia) Hi) as [B1 B2].
    exact (enq_step_intro (sched st) i _ Hin B1 B2).
Qed.

Lemma enqueue_only_update (rn qw : nat → Proc) i :
  enqueue_only (rn i) → enqueue_only (qw i) → enqueue_only (update_with rn qw i).
Proof.
  intros Hr Hq st st' c Hw Hf Hi. unfold update_with.
  destruct (watchers st !! i) as [w|]; [|done].
  destruct (lazy w).
  - intros [= <- <-]. split; [apply rtc_refl | done].
  - destruct (sync w); [by apply Hr | by apply Hq].
Qed.

Lemma runs_of_errors i w x : runs_of (get_errors i w x) = [] ∧ warns_of (get_errors i w x) = [].
Proof. unfold get_errors. destruct (outcome _); [done|]. by destruct (user w). Qed.

Lemma enqueue_only_run (scr : Script → Proc) i :
  (∀ sc, enqueue_only (scr sc)) → enqueue_only (run_with deep_reads scr i).
Proof.
  intros Hs st st' c Hw Hf Hi. unfold run_with.
  destruct (watchers st !! i) as [w0|] eqn:Ew; [|done].
  destruct (active w0); [|intros [= <- <-]; split; [apply rtc_refl | done]].
  destruct (get_inert deep_reads i w0 st Ew) as (st1 & Hg & G1 & G2 & G3 & G4 & G5 & G6).
  rewrite Hg.
  assert (runs_of (log st1) = runs_of (log st) ∧ warns_of (log st1) = warns_of (log st))
    as [L1 W1].
  { rewrite G4, runs_of_app, warns_of_app.
    destruct (runs_of_errors i w0 (world st)) as [-> ->]. by rewrite !app_nil_r. }
  destruct (get_result w0 (world st)) as [v|e].
  2:{ intros [= <- <-]. rewrite G2. split; [apply rtc_refl | done]. }
  destruct (watchers st1 !! i) as [w|] eqn:Ew1; [|done].
  destruct (negb (strict_eq v (value w)) || isObject v || deep w).
  2:{ intros [= <- <-]. rewrite G2. split; [apply rtc_refl | done]. }
  set (st3 := emit _ _).
  assert (sched st3 = sched st) as S3 by (simpl; done).
  assert (runs_of (log st3) = runs_of (log st) ∧ warns_of (log st3) = warns_of (log st))
    as [L3 W3].
  { unfold st3. simpl. rewrite runs_of_app, warns_of_app. simpl.
    rewrite !app_nil_r. done. }
  assert (∀ st4 c4, scr (cb w v (value w)) st3 = Some (st4, c4) →
            rtc enq_step (sched st) (sched st4) ∧
            runs_of (log st4) = runs_of (log st) ∧ warns_of (log st4) = warns_of (log st))
    as Hcb.
  { intros st4 c4 E. destruct (Hs (cb w v (value w)) st3 st4 c4) as (R & L & Wn);
      try (rewrite S3; done); try done.
    rewrite S3 in R. split; [done|]. split; congruence. }
  destruct (user w).
  - destruct (scr (cb w v (value w)) st3) as [[st4 [|e]]|] eqn:E; [| |done].
    + intros [= <- <-]. by apply (Hcb st4 Normal).
    + intros [= <- <-]. destruct (Hcb st4 (Throws e) eq_refl) as (R & L & Wn).
      simpl. rewrite runs_of_app, warns_of_app. simpl. rewrite !app_nil_r. done.
  - intros E. by apply (Hcb st' c).
Qed.

(** Nothing the flush loop calls runs a queued watcher or moves the
    cursor. *)
Lemma procs_enqueue_only fuel :
  (∀ i, enqueue_only (run cfg deep_reads fuel i)) ∧
  (∀ sc, enqueue_only (script cfg deep_reads fuel sc)).
Proof.
  induction fuel as [|f [IHr IHs]].
  - split.
    + intros i st st' c _ _ _ E. done.
    + intros sc. unfold script, script_of. apply enqueue_only_script.
      intros d. apply enqueue_only_notify. intros i. apply enqueue_only_update.
      * intros st st' c _ _ _ E. done.
      * apply enqueue_only_queueWatcher.
  - assert (∀ sc : Script, enqueue_only (script_of cfg (procs cfg deep_reads f) sc)) as Hlow.
    { exact IHs. }
    split.
    + intros i. unfold run. simpl. by apply enqueue_only_run.
    + intros sc. unfold script, script_of. apply enqueue_only_script.
      intros d. apply enqueue_only_notify. intros i. apply enqueue_only_update.
      * simpl. by apply enqueue_only_run.
      * apply enqueue_only_queueWatcher.
Qed.

(** The proof rule of the flush loop: [I] holds whenever the loop tests its
    condition, [Q] whenever it is left. *)
Lemma drain_rule (rn : nat → Proc) (scr : Script → Proc)
    (I : State → Prop) (Q : State → Completion → Prop) :
  (∀ st, I st → queue (sched st) !! index (sched st) = None → Q st Normal) →
  (∀ st i w st1 c1,
     I st → queue (sched st) !! index (sched st) = Some i →
     watchers st !! i = Some w →
     match before w with Some b => scr b st | None => Some (st, Normal) end
       = Some (st1, c1) →
     match c1 with
     | Throws e => Q st1 (Throws e)
     | Normal =>
         ∀ st3 c3, rn i (emit (EvRun i) (clear_has i st1)) = Some (st3, c3) →
           match c3 with
           | Throws e => Q st3 (Throws e)
           | Normal =>
               if negb (production cfg) && bool_decide (i ∈ has (sched st3)) then
                 if bool_decide (MAX_UPDATE_COUNT < default 0 (circular (sched st3) !! i) + 1)
                 then Q (emit (EvWarn i) (count_circular i st3)) Normal
                 else I (next_index (count_circular i st3))
               else I (next_index st3)
           end
     end) →
  ∀ n st st' c, I st → drain cfg rn scr n st = Some (st', c) → Q st' c.
Proof.
  intros Hexit Hstep. induction n as [|n IH]; intros st st' c HI; [done|].
  simpl. destruct (queue (sched st) !! index (sched st)) as [i|] eqn:Ei.
  2:{ intros [= <- <-]. by apply Hexit. }
  destruct (watchers st !! i) as [w|] eqn:Ew; [|done].
  destruct (match before w with Some b => scr b st | None => Some (st, Normal) end)
    as [[st1 c1]|] eqn:Eb; [|done].
  specialize (Hstep st i w st1 c1 HI Ei Ew Eb).
  destruct c1 as [|e]; [|by intros [= <- <-]].
  destruct (rn i (emit (EvRun i) (clear_has i st1))) as [[st3 c3]|] eqn:Er; [|done].
  specialize (Hstep st3 c3 eq_refl).
  destruct c3 as [|e]; [|by intros [= <- <-]].
  destruct (negb (production cfg) && bool_decide (i ∈ has (sched st3))).
  - destruct (bool_decide (MAX_UPDATE_COUNT < default 0 (circular (sched st3) !! i) + 1)).
    + by intros [= <- <-].
    + apply IH. exact Hstep.
  - apply IH. exact Hstep.
Qed.


Lemma enqueues_take s s' k :
  rtc enq_step s s' → k ≤ S (index s) → take k (queue s') = take k (queue s).
Proof.
  intros H Hk. destruct (enqueues_fields _ _ H) as (_ & _ & _ & _ & _ & _ & _ & Ht).
  rewrite <-(Nat.min_l k (S (index s))) by done.
  by rewrite <-!take_take, Ht.
Qed.

Lemma enqueues_lookup s s' i :
  rtc enq_step s s' → queue s !! index s = Some i → queue s' !! index s = Some i.
Proof.
  intros H Hi.
  rewrite <-(lookup_take_lt _ (S (index s))) by lia.
  rewrite (enqueues_take s s') by done.
  by rewrite lookup_take_lt by lia.
Qed.

Lemma enqueues_segment s s' a b :
  rtc enq_step s s' → b ≤ S (index s) →
  segment a b (queue s') = segment a b (queue s).
Proof. intros H Hb. unfold segment. by rewrite (enqueues_take s s'). Qed.

Lemma segment_snoc a b q i :
  a ≤ b → q !! b = Some i → segment a (S b) q = segment a b q ++ [i].
Proof.
  intros Hab Hi. unfold segment. rewrite (take_S_r _ _ i) by done.
  rewrite drop_app_le; [done|]. rewrite length_take.
  apply lookup_lt_Some in Hi. lia.
Qed.

Lemma enq_step_new_has s s' x :
  enq_step s s' → x ∈ has s' → x ∉ has s → x ∈ drop (S (index s)) (queue s').
Proof.
  intros [s0 i p Hi Hp Hl] Hx Hn. simpl in *.
  assert (x = i) as -> by set_solver.
  unfold splice. rewrite drop_app_le by (rewrite length_take; lia).
  apply elem_of_app. right. left.
Qed.

Lemma enq_step_drop_mono s s' x :
  enq_step s s' → x ∈ drop (S (index s)) (queue s) → x ∈ drop (S (index s)) (queue s').
Proof.
  intros [s0 i p Hi Hp Hl] Hx. simpl in *.
  unfold splice. rewrite drop_app_le by (rewrite length_take; lia).
  rewrite <-(take_drop p (queue s0)) in Hx.
  rewrite drop_app_le in Hx by (rewrite length_take; lia).
  apply elem_of_app in Hx as [Hx|Hx]; apply elem_of_app; [by left|].
  right. by right.
Qed.

Lemma enqueues_new_has s s' x :
  rtc enq_step s s' → x ∈ has s' → x ∉ has s → x ∈ drop (S (index s)) (queue s').
Proof.
  induction 1 as [s|s1 s2 s3 H12 H23 IH]; [done|].
  intros Hx Hn.
  destruct (enq_step_fields _ _ H12) as (_ & _ & Hidx & _).
  destruct (decide (x ∈ has s2)) as [Hin|Hnin].
  - pose proof (enq_step_new_has _ _ x H12 Hin Hn) as Hd.
    clear IH. rewrite <-Hidx. revert Hd. rewrite <-Hidx.
    clear Hx Hn Hin H12 Hidx. induction H23 as [s|sa sb sc Hab Hbc IH2]; [done|].
    intros Hd. destruct (enq_step_fields _ _ Hab) as (_ & _ & Hidx & _).
    rewrite <-Hidx. apply IH2. rewrite Hidx. by eapply enq_step_drop_mono.
  - rewrite <-Hidx. by apply IH.
Qed.

Lemma last_emit e st : last (log (emit e st)) = Some e.
Proof. simpl. by rewrite last_snoc. Qed.

(** The flush loop runs the queue entries one by one from the cursor on;
    it is left when the cursor passes the end, on an exception, or - outside
    production - when the entry just run is found queued again for the
    101st time. *)
Lemma drain_trace (rn : nat → Proc) (scr : Script → Proc) n st0 st' c :
  (∀ i, enqueue_only (rn i)) → (∀ sc, enqueue_only (scr sc)) →
  waiting (sched st0) = true → flushing (sched st0) = true →
  (∀ id, default 0 (circular (sched st0) !! id) ≤ MAX_UPDATE_COUNT) →
  drain cfg rn scr n st0 = Some (st', c) →
  loop_post cfg st0 st' c.
Proof.
  intros Hrn Hscr Hw0 Hf0 Hb0.
  apply (drain_rule rn scr (loop_inv st0) (loop_post cfg st0)).
  - (* the cursor is past the end *)
    intros st [] Hnone. unfold loop_post. split_and!; try done. by left.
  - (* one iteration *)
    intros st i w st1 c1 [I1 I2 I3 I4 I5 I6 I7] Hi Hw Hbefore.
    assert (index (sched st) < length (queue (sched st))) as Hlt
      by (by eapply lookup_lt_Some).
    assert (rtc enq_step (sched st) (sched st1) ∧
            runs_of (log st1) = runs_of (log st) ∧
            warns_of (log st1) = warns_of (log st)) as (R1 & L1 & W1).
    { destruct (before w) as [b|].
      - by apply (Hscr b st st1 c1).
      - injection Hbefore as <- <-. split; [apply rtc_refl | done]. }
    destruct (enqueues_fields _ _ R1) as (F1 & F2 & F3 & F4 & F5 & F6 & F7 & F8).
    assert (segment (index (sched st0)) (index (sched st)) (queue (sched st1))
            = segment (index (sched st0)) (index (sched st)) (queue (sched st))) as Hseg1
      by (apply enqueues_segment; [done | lia]).
    assert (take (index (sched st0)) (queue (sched st1))
            = take (index (sched st0)) (queue (sched st0))) as Hpre1.
    { rewrite (enqueues_take _ _ _ R1) by lia. done. }
    destruct c1 as [|e].
    2:{ unfold loop_post. split_and!; try congruence.
        exists (index (sched st1)). split; [by left|].
        rewrite L1, I5, F3. by rewrite Hseg1. }
    intros st3 c3 Hrun.
    set (st2 := emit (EvRun i) (clear_has i st1)) in *.
    assert (queue (sched st1) !! index (sched st) = Some i) as Hi1
      by (by eapply enqueues_lookup).
    assert (runs_of (log st2)
            = runs_of (log st0)
              ++ segment (index (sched st0)) (S (index (sched st))) (queue (sched st1)))
      as L2.
    { unfold st2. simpl. rewrite runs_of_app, L1, I5. simpl.
      rewrite (segment_snoc _ _ _ i) by done. by rewrite Hseg1, <-app_assoc. }
    destruct (Hrn i st2 st3 c3) as (R3 & L3 & W3); try done.
    { simpl. congruence. } { simpl. congruence. } { simpl. lia. }
    change (sched st2) with (with_has (has (sched st1) ∖ {[i]}) (sched st1)) in R3.
    destruct (enqueues_fields _ _ R3) as (G1 & G2 & G3 & G4 & G5 & G6 & G7 & G8).
    simpl in G1, G2, G3, G4, G5, G6, G7, G8.
    assert (segment (index (sched st0)) (S (index (sched st))) (queue (sched st3))
            = segment (index (sched st0)) (S (index (sched st))) (queue (sched st1)))
      as Hseg3.
    { rewrite (enqueues_segment _ _ _ _ R3); [done | simpl; lia]. }
    assert (take (index (sched st0)) (queue (sched st3))
            = take (index (sched st0)) (queue (sched st0))) as Hpre3.
    { rewrite (enqueues_take _ _ _ R3) by (simpl; lia). done. }
    assert (queue (sched st3) !! index (sched st) = Some i) as Hi3.
    { rewrite <-F3. apply (enqueues_lookup _ _ _ R3). simpl. by rewrite F3. }
    assert (warns_of (log st3) = warns_of (log st0)) as W3'.
    { rewrite W3. unfold st2. simpl. rewrite warns_of_app. simpl.
      rewrite app_nil_r. congruence. }
    destruct c3 as [|e].
    2:{ unfold loop_post. split_and!; try congruence; try lia.
        exists (S (index (sched st3))). split; [by right|].
        rewrite L3, L2, G3, F3. by rewrite Hseg3. }
    destruct (negb (production cfg) && bool_decide (i ∈ has (sched st3))) eqn:Hchk.
    + apply andb_prop in Hchk as [Hdev Hin]. apply bool_decide_eq_true in Hin.
      apply negb_true_iff in Hdev.
      destruct (bool_decide (MAX_UPDATE_COUNT < default 0 (circular (sched st3) !! i) + 1))
        eqn:Hmax.
      * (* the runaway check fires *)
        apply bool_decide_eq_true in Hmax.
        unfold loop_post. simpl. split_and!; try congruence; try lia.
        right. split; [done|]. exists i. rewrite G3, F3.
        split_and!; try done.
        -- rewrite <-F3. 
           apply (enqueues_new_has _ _ i R3); [done|]. simpl. set_solver.
        -- rewrite lookup_insert_eq. f_equal.
           specialize (I7 i). rewrite <-F4, <-G4 in I7. lia.
        -- rewrite runs_of_app. simpl. rewrite app_nil_r.
           rewrite L3, L2. by rewrite Hseg3.
        -- rewrite warns_of_app. simpl. by rewrite W3'.
        -- by rewrite last_snoc.
      * (* counted, and on to the next entry *)
        apply bool_decide_eq_false in Hmax.
        split; simpl; try congruence; try lia.
        intros id. destruct (decide (id = i)) as [->|Hne].
        -- rewrite lookup_insert_eq. simpl. lia.
        -- rewrite lookup_insert_ne by done. rewrite G4, F4. apply I7.
    + split; simpl; try congruence; try lia.
      intros id. rewrite G4, F4. apply I7.
  - (* the loop is entered *)
    split; try done. unfold segment.
    rewrite drop_ge by (rewrite length_take; lia). by rewrite app_nil_r.
Qed.

(** *** Watchers that leave the scheduler alone *)

Lemma script_silent (ntf : nat → Proc) (sc : Script) st :
  silent sc → ∃ x, script_with ntf sc st = Some (with_world x st, Normal).
Proof.
  intros Hs. revert st. induction Hs as [|a k Ha Hk IH]; intros st.
  - exists (world st). by destruct st.
  - simpl. specialize (Ha (world st)). destruct (a (world st)) as [x ds].
    simpl in Ha. subst ds. simpl.
    destruct (IH x (with_world x st)) as [y Hy]. exists y.
    simpl in Hy. by rewrite Hy.
Qed.

Lemma quiet_get_result w x : quiet w → get_result w x = inl (got w x).
Proof.
  intros (_ & _ & Hq). unfold get_result, got.
  destruct (outcome (getter w x)) as [v|e] eqn:E; [done|].
  destruct Hq as [->|Hq]; [done|]. destruct (Hq x) as [v Hv]. congruence.
Qed.

(** One run of a quiet watcher: it evaluates, and calls the callback when
    [fires] says so; the scheduler is left as it was. *)
Lemma run_quiet (ntf : nat → Proc) i w st :
  watchers st !! i = Some w → quiet w →
  ∃ st',
    run_with deep_reads (script_with ntf) i st = Some (st', Normal) ∧
    sched st' = sched st ∧
    same_codes (watchers st) (watchers st') ∧
    log st' = log st ++
              (if active w then
                 get_errors i w (world st) ++
                 (if fires w (got w (world st))
                  then [EvCall i (got w (world st)) (value w)] else [])
               else []) ∧
    value <$> watchers st' !! i =
      Some (if active w && fires w (got w (world st))
            then got w (world st) else value w).
Proof.
  intros Hw Hq. unfold run_with. rewrite Hw.
  destruct (active w) eqn:Hact.
  2:{ exists st. split_and!; try done.
      - apply same_codes_refl.
      - by rewrite app_nil_r.
      - by rewrite Hw. }
  destruct (get_inert deep_reads i w st Hw) as (st1 & Hg & G1 & G2 & G3 & G4 & G5 & G6).
  rewrite Hg, (quiet_get_result w _ Hq).
  pose proof (G6 i) as Hv. rewrite Hw in Hv. simpl in Hv.
  destruct (watchers st1 !! i) as [w1|] eqn:Hw1; [|done].
  simpl in Hv. injection Hv as Hv.
  pose proof (G5 i) as Hc. rewrite Hw, Hw1 in Hc.
  destruct Hc as (C1 & C2 & C3 & C4 & C5 & C6 & C7 & C8).
  unfold fires. rewrite Hv, C1. simpl.
  destruct (negb (strict_eq (got w (world st)) (value w))
            || isObject (got w (world st)) || deep w) eqn:Hfire.
  2:{ exists st1. split_and!; try done.
      - by rewrite G4, app_nil_r.
      - rewrite Hw1. simpl. by rewrite Hv. }
  set (st3 := emit _ _).
  destruct Hq as (Q1 & Q2 & Q3).
  destruct (script_silent ntf (cb w1 (got w (world st)) (value w)) st3) as [x Hx].
  { rewrite C8. apply Q2. }
  assert (same_codes (watchers st) (watchers (with_world x st3))) as Hcodes.
  { eapply same_codes_trans; [exact G5|]. simpl.
    apply (same_codes_insert _ i w1); [done|]. by repeat split. }
  exists (with_world x st3). rewrite Hx.
  split. { by destruct (user w1). }
  split_and!; try done.
  - simpl. by rewrite G4, <-app_assoc.
  - simpl. by rewrite lookup_insert_eq.
Qed.

(** The flush loop over quiet watchers runs each entry from the cursor to
    the end of the queue once, in queue order, and stops. *)
Lemma drain_quiet (ntf : nat → Proc) (scr : Script → Proc) : ∀ rest n st,
  drop (index (sched st)) (queue (sched st)) = rest →
  (∀ x, x ∈ rest → ∃ w, watchers st !! x = Some w ∧ quiet w) →
  length rest < n →
  ∃ st',
    drain cfg (run_with deep_reads (script_with ntf)) scr n st = Some (st', Normal) ∧
    queue (sched st') = queue (sched st) ∧
    index (sched st') = length (queue (sched st)) `max` index (sched st) ∧
    has (sched st') = has (sched st) ∖ list_to_set rest ∧
    circular (sched st') = circular (sched st) ∧
    waiting (sched st') = waiting (sched st) ∧
    flushing (sched st') = flushing (sched st) ∧
    ticks (sched st') = ticks (sched st) ∧
    runs_of (log st') = runs_of (log st) ++ rest ∧
    warns_of (log st') = warns_of (log st) ∧
    same_codes (watchers st) (watchers st').
Proof.
  induction rest as [|i rest IH]; intros n st Hrest Hq Hn.
  - destruct n as [|n]; [simpl in Hn; lia|]. simpl.
    assert (queue (sched st) !! index (sched st) = None) as ->.
    { apply lookup_ge_None. apply drop_nil_inv in Hrest. lia. }
    exists st. split_and!; try done.
    + apply drop_nil_inv in Hrest. lia.
    + simpl. set_solver.
    + by rewrite app_nil_r.
    + apply same_codes_refl.
  - destruct n as [|n]; [simpl in Hn; lia|]. simpl.
    assert (queue (sched st) !! index (sched st) = Some i) as Hi.
    { rewrite <-(Nat.add_0_r (index (sched st))), <-lookup_drop, Hrest. done. }
    rewrite Hi. destruct (Hq i) as (w & Hw & Hqw); [left|].
    rewrite Hw. destruct Hqw as (Hb & Hqw2). rewrite Hb.
    destruct (run_quiet ntf i w (emit (EvRun i) (clear_has i st)))
      as (st3 & Hrun & R1 & R2 & R3 & R4); [done | by split |].
    rewrite Hrun.
    assert (bool_decide (i ∈ has (sched st3)) = false) as ->.
    { apply bool_decide_eq_false. rewrite R1. simpl. set_solver. }
    rewrite andb_false_r.
    destruct (IH n (next_index st3)) as (st' & Hd & D1 & D2 & D3 & D4 & D5 & D6 & D7 & D8 & D9 & D10).
    { change (drop (S (index (sched st3))) (queue (sched st3)) = rest).
      rewrite R1. change (drop (S (index (sched st))) (queue (sched st)) = rest).
      by rewrite <-Nat.add_1_r, <-drop_drop, Hrest. }
    { intros x Hx. destruct (Hq x) as (wx & Hwx & Hqx); [by right|].
      simpl. specialize (R2 x). simpl in R2. rewrite Hwx in R2.
      destruct (watchers st3 !! x) as [wx'|]; [|done].
      exists wx'. split; [done|].
      destruct R2 as (C1 & C2 & C3 & C4 & C5 & C6 & C7 & C8).
      destruct Hqx as (Q1 & Q2 & Q3). unfold quiet. rewrite C5, C8, C2, C7. done. }
    { simpl in Hn. lia. }
    exists st'. rewrite Hd. simpl in *. rewrite R1 in *. simpl in *.
    apply lookup_lt_Some in Hi.
    split_and!; try done.
    + lia.
    + rewrite D3. set_solver.
    + rewrite D8, R3, !runs_of_app. simpl.
      assert (runs_of (if active w then get_errors i w (world st) ++
                 (if fires w (got w (world st)) then [EvCall i (got w (world st)) (value w)] else [])
               else []) = []) as ->.
      { destruct (active w); [|done]. rewrite runs_of_app.
        destruct (runs_of_errors i w (world st)) as [-> _].
        by destruct (fires w _). }
      by rewrite app_nil_r, <-app_assoc.
    + rewrite D9, R3, !warns_of_app. simpl.
      assert (warns_of (if active w then get_errors i w (world st) ++
                 (if fires w (got w (world st)) then [EvCall i (got w (world st)) (value w)] else [])
               else []) = []) as ->.
      { destruct (active w); [|done]. rewrite warns_of_app.
        destruct (runs_of_errors i w (world st)) as [_ ->].
        by destruct (fires w _). }
      by rewrite !app_nil_r.
    + eapply same_codes_trans; [|exact D10]. exact R2.
Qed.

(** *** Order of the runs *)










(** *** A whole flush *)

Lemma flush_unfold f st :
  flushSchedulerQueue cfg deep_reads (S f) st
  = flushSchedulerQueue_with cfg (run cfg deep_reads f) (script cfg deep_reads f) (S f) st.
Proof. done. Qed.

Lemma run_unfold f i st :
  run cfg deep_reads (S f) i st
  = run_with deep_reads
      (script_with
         (notify_with
            (update_with (run cfg deep_reads f)
               (queueWatcher_with cfg (flushSchedulerQueue cfg deep_reads f))))) i st.
Proof. done. Qed.

Lemma script_unfold fuel sc st :
  script cfg deep_reads fuel sc st
  = script_with (notify cfg deep_reads fuel) sc st.
Proof. done. Qed.

Lemma flush_with_start rn scr n st :
  flushSchedulerQueue_with cfg rn scr n st
  = match drain cfg rn scr n (flush_start st) with
    | Some (st', Normal) =>
        Some (emit (EvHooks (queue (sched st'))) (resetSchedulerState cfg st'), Normal)
    | r => r
    end.
Proof. done. Qed.

Lemma runs_of_flush_end (sd : State) :
  runs_of (log (emit (EvHooks (queue (sched sd))) (resetSchedulerState cfg sd)))
  = runs_of (log sd).
Proof. simpl. rewrite runs_of_app. simpl. by rewrite app_nil_r. Qed.




(** The states a flush can return in.  Outside production, a flush that
    returns either ran every queue entry, none of them found queued again
    more than [MAX_UPDATE_COUNT] times after its own run and no diagnostic
    emitted, or was left at the entry that was found queued again for the
    101st time, after one diagnostic for that watcher, the entries behind
    the cursor - that watcher among them - not run.  In production the
    check is not made: a flush that returns ran every entry without a
    diagnostic. *)
Lemma flush_return_states fuel st st' :
  waiting (sched st) = true →
  (∀ id, default 0 (circular (sched st) !! id) ≤ MAX_UPDATE_COUNT) →
  flushSchedulerQueue cfg deep_reads fuel st = Some (st', Normal) →
  ∃ sd,
    st' = emit (EvHooks (queue (sched sd))) (resetSchedulerState cfg sd) ∧
    ((queue (sched sd) !! index (sched sd) = None ∧
      runs_of (log sd) = runs_of (log st) ++ queue (sched sd) ∧
      warns_of (log sd) = warns_of (log st) ∧
      ∀ id, default 0 (circular (sched sd) !! id) ≤ MAX_UPDATE_COUNT)
     ∨
     (production cfg = false ∧
      ∃ i, queue (sched sd) !! index (sched sd) = Some i ∧
           i ∈ drop (S (index (sched sd))) (queue (sched sd)) ∧
           circular (sched sd) !! i = Some (S MAX_UPDATE_COUNT) ∧
           runs_of (log sd)
             = runs_of (log st) ++ take (S (index (sched sd))) (queue (sched sd)) ∧
           warns_of (log sd) = warns_of (log st) ++ [i] ∧
           last (log sd) = Some (EvWarn i))).
Proof.
  intros Hw Hb. destruct fuel as [|f]; [done|].
  rewrite flush_unfold, flush_with_start.
  destruct (drain cfg _ _ (S f) (flush_start st)) as [[sd [|e]]|] eqn:Hd; [|done..].
  intros [= <-]. exists sd. split; [done|].
  destruct (procs_enqueue_only f) as [Hrn Hscr].
  pose proof (drain_trace _ _ (S f) (flush_start st) sd Normal Hrn Hscr Hw eq_refl Hb Hd)
    as (P1 & P2 & P3 & P4 & [(Q1 & Q2 & Q3 & Q4)|(Q0 & i & Q1 & Q2 & Q3 & Q4 & Q5 & Q6 & Q7)]).
  - left. split; [done|]. split; [|done].
    rewrite Q2. f_equal. unfold segment. simpl.
    apply take_ge. by apply lookup_ge_None.
  - right. split; [done|]. exists i. split_and!; try done.
Qed.

Lemma drain_exit (rn : nat → Proc) (scr : Script → Proc) n st :
  queue (sched st) !! index (sched st) = None →
  drain cfg rn scr (S n) st = Some (st, Normal).
Proof. intros H. simpl. by rewrite H. Qed.

Lemma drain_unfold (rn : nat → Proc) (scr : Script → Proc) n st :
  drain cfg rn scr (S n) st
  = match queue (sched st) !! index (sched st) with
    | None => Some (st, Normal)
    | Some i =>
        match watchers st !! i with
        | None => None
        | Some w =>
            match
              match before w with
              | Some b => scr b st
              | None => Some (st, Normal)
              end
            with
            | Some (st1, Normal) =>
                match rn i (emit (EvRun i) (clear_has i st1)) with
                | Some (st3, Normal) =>
                    if negb (production cfg)
                       && bool_decide (i ∈ has (sched st3)) then
                      if bool_decide
                           (MAX_UPDATE_COUNT
                            < default 0 (circular (sched st3) !! i) + 1)
                      then Some (emit (EvWarn i) (count_circular i st3), Normal)
                      else drain cfg rn scr n (next_index (count_circular i st3))
                    else drain cfg rn scr n (next_index st3)
                | r => r
                end
            | r => r
            end
        end
    end.
Proof. done. Qed.

Lemma drain_step_plain (rn : nat → Proc) (scr : Script → Proc) n st i w st3 :
  queue (sched st) !! index (sched st) = Some i →
  watchers st !! i = Some w → before w = None →
  rn i (emit (EvRun i) (clear_has i st)) = Some (st3, Normal) →
  i ∉ has (sched st3) →
  drain cfg rn scr (S n) st = drain cfg rn scr n (next_index st3).
Proof.
  intros H1 H2 H3 H4 H5. rewrite drain_unfold, H1, H2, H3, H4.
  rewrite (bool_decide_eq_false_2 _ H5). by rewrite andb_false_r.
Qed.

(** *** Batching *)

Lemma queueWatcher_has (flush : Proc) i st :
  i ∈ has (sched st) → queueWatcher_with cfg flush i st = Some (st, Normal).
Proof. intros Hi. unfold queueWatcher_with. by rewrite decide_True. Qed.

Lemma with_world_id st : with_world (world st) st = st.
Proof. by destruct st. Qed.

(** Further writes while the watcher is already queued change the data and
    nothing else. *)
Lemma writes_while_queued (rn : nat → Proc) (flush : Proc) i w d fs : ∀ st,
  watchers st !! i = Some w → lazy w = false → sync w = false →
  subs_of st d = [i] → i ∈ has (sched st) →
  script_with (notify_with (update_with rn (queueWatcher_with cfg flush)))
              (writes_script d fs) st
  = Some (with_world (foldl (λ x f, f x) (world st) fs) st, Normal).
Proof.
  induction fs as [|f fs IH]; intros st Hw Hl Hs Hsub Hin; simpl.
  - by rewrite with_world_id.
  - unfold notify_with at 1.
    change (subs_of (with_world (f (world st)) st) d) with (subs_of st d).
    rewrite Hsub. simpl. unfold update_with at 1. simpl. rewrite Hw, Hl, Hs.
    rewrite queueWatcher_has by done.
    rewrite IH by done. done.
Qed.

(** C5. Enqueueing a watcher whose id is in [has] changes nothing.  Hence a
    watcher invalidated by N >= 1 writes while the scheduler is idle is in
    the queue once, with one flush requested; that flush runs it once, and
    the run evaluates the getter on the data as the last write left it. *)
Theorem enqueue_is_deduplicated fuel i w d fs st :
  watchers st !! i = Some w →
  lazy w = false → sync w = false → active w = true → quiet w →
  subs_of st d = [i] →
  queue (sched st) = [] → has (sched st) = ∅ →
  waiting (sched st) = false → flushing (sched st) = false →
  production cfg || async cfg = true →
  fs ≠ [] → 3 ≤ fuel →
  (∀ st0 : State, i ∈ has (sched st0) →
     queueWatcher cfg deep_reads fuel i st0 = Some (st0, Normal))
  ∧
  ∃ st1 st2,
    let x := foldl (λ x f, f x) (world st) fs in
    let v := got w x in
    script cfg deep_reads fuel (writes_script d fs) st = Some (st1, Normal) ∧
    world st1 = x ∧ watchers st1 = watchers st ∧ log st1 = log st ∧
    queue (sched st1) = [i] ∧ has (sched st1) = {[i]} ∧
    waiting (sched st1) = true ∧ flushing (sched st1) = false ∧
    ticks (sched st1) = S (ticks (sched st)) ∧
    flushSchedulerQueue cfg deep_reads fuel st1 = Some (st2, Normal) ∧
    runs_of (log st2) = runs_of (log st) ++ [i] ∧
    log st2 = log st ++ [EvRun i] ++ get_errors i w x
              ++ (if fires w v then [EvCall i v (value w)] else [])
              ++ [EvHooks [i]] ∧
    value <$> watchers st2 !! i = Some (if fires w v then v else value w) ∧
    queue (sched st2) = [] ∧ has (sched st2) = ∅ ∧
    waiting (sched st2) = false ∧ flushing (sched st2) = false.
Proof.
  intros Hw Hl Hs Ha Hq Hsub Hqu Hhas Hwait Hflush Hcfg Hfs Hfuel.
  split. { intros st0 Hin. by apply queueWatcher_has. }
  destruct fs as [|f fs]; [done|].
  destruct fuel as [|[|fu]]; [lia | lia |].
  (* the first write enqueues the watcher and asks for a flush *)
  set (sta :=
         nextTick
           (with_sched
              (with_waiting true
                 (with_queue (queue (sched st) ++ [i])
                    (with_has ({[i]} ∪ has (sched st)) (sched st))))
              (with_world (f (world st)) st))).
  assert (update cfg deep_reads (S (S fu)) i (with_world (f (world st)) st)
          = Some (sta, Normal)) as Hfirst.
  { unfold update, update_with. simpl. rewrite Hw, Hl, Hs.
    unfold queueWatcher, queueWatcher_with. simpl.
    rewrite decide_False by (rewrite Hhas; set_solver).
    rewrite Hflush. simpl. rewrite Hwait.
    apply orb_true_iff in Hcfg.
    assert (negb (production cfg) && negb (async cfg) = false) as ->.
    { destruct Hcfg as [-> | ->]; simpl; [done | by rewrite andb_false_r]. }
    done. }
  assert (queue (sched sta) = [i] ∧ has (sched sta) = {[i]}) as [Hqa Hha].
  { unfold sta. simpl. rewrite Hqu, Hhas. split; [done|]. by rewrite union_empty_r_L. }
  assert (script cfg deep_reads (S (S fu)) (writes_script d (f :: fs)) st
          = Some (with_world (foldl (λ x f, f x) (f (world st)) fs) sta, Normal)) as Hscript.
  { rewrite script_unfold. cbn [writes_script script_with].
    unfold notify at 1. unfold notify_with. cbn [for_each].
    change (subs_of (with_world (f (world st)) st) d) with (subs_of st d).
    rewrite Hsub. cbn [for_each]. rewrite Hfirst.
    unfold notify, update, queueWatcher.
    rewrite (writes_while_queued _ _ i w d fs sta); try done.
    rewrite Hha. set_solver. }
  set (st1 := with_world (foldl (λ x f, f x) (f (world st)) fs) sta) in *.
  exists st1.
  (* the flush *)
  assert (queue (sched (flush_start st1)) = [i]) as Hqs.
  { change (merge_sort le (queue (sched sta)) = [i]). by rewrite Hqa. }
  destruct (run_quiet
              (notify_with
                 (update_with (run cfg deep_reads fu)
                    (queueWatcher_with cfg (flushSchedulerQueue cfg deep_reads fu))))
              i w (emit (EvRun i) (clear_has i (flush_start st1))) Hw Hq)
    as (st3 & Hrun & R1 & R2 & R3 & R4).
  rewrite Ha in R3, R4. simpl in R3, R4.
  assert (drain cfg (run cfg deep_reads (S fu)) (script cfg deep_reads (S fu))
                (S (S fu)) (flush_start st1) = Some (next_index st3, Normal)) as Hdrain.
  { rewrite (drain_step_plain _ _ _ _ i w st3); try done.
    - apply drain_exit.
      change (queue (sched st3) !! S (index (sched st3)) = None).
      rewrite R1. change (queue (sched (flush_start st1)) !! 1 = None). by rewrite Hqs.
    - change (queue (sched (flush_start st1)) !! 0 = Some i). by rewrite Hqs.
    - by destruct Hq.
    - rewrite R1. simpl. set_solver. }
  eexists. cbv zeta. split; [exact Hscript|].
  split; [done|]. split; [done|]. split; [done|]. split; [done|]. split; [done|].
  split; [done|]. split; [done|]. split; [done|].
  rewrite flush_unfold, flush_with_start, Hdrain.
  split; [done|].
  assert (queue (sched st3) = [i]) as Hq3 by (rewrite R1; exact Hqs).
  split_and!; try done.
  - rewrite runs_of_flush_end. change (log (next_index st3)) with (log st3).
    rewrite R3, !runs_of_app. simpl.
    destruct (runs_of_errors i w (foldl (λ x f, f x) (f (world st)) fs)) as [-> _].
    destruct (fires w _); simpl; by rewrite ?app_nil_r.
  - simpl. rewrite R3, Hq3. simpl. by rewrite <-!app_assoc.
Qed.

(** *** Enqueueing during a flush *)

Lemma splice_pos_spec q idx id : ∀ n,
  n ≤ length q → idx < n →
  idx < splice_pos q idx id n ≤ n ∧
  (∀ k x, splice_pos q idx id n ≤ k < n → q !! k = Some x → id < x) ∧
  (splice_pos q idx id n = S idx ∨
   ∃ x, q !! (splice_pos q idx id n - 1) = Some x ∧ x ≤ id).
Proof.
  induction n as [|n IH]; intros Hn Hi; [lia|]. simpl.
  destruct (q !! n) as [x|] eqn:E.
  2:{ apply lookup_ge_None in E. lia. }
  destruct (bool_decide (idx < n)) eqn:B1; simpl.
  - apply bool_decide_eq_true in B1.
    destruct (bool_decide (id < x)) eqn:B2.
    + apply bool_decide_eq_true in B2.
      destruct (IH ltac:(lia) B1) as (H1 & H2 & H3).
      split; [lia|]. split; [|done].
      intros k y Hk Hy. destruct (decide (k = n)) as [->|Hne].
      * congruence.
      * apply (H2 k y); [lia | done].
    + apply bool_decide_eq_false in B2.
      split; [lia|]. split; [intros; lia|]. right. exists x.
      rewrite Nat.sub_1_r. simpl. split; [done | lia].
  - apply bool_decide_eq_false in B1.
    split; [lia|]. split; [intros; lia|]. left. lia.
Qed.

Lemma Forall_lookup_range (P : nat → Prop) (q : list nat) p :
  (∀ k x, p ≤ k < length q → q !! k = Some x → P x) → Forall P (drop p q).
Proof.
  intros H. apply Forall_lookup. intros k x Hk. rewrite lookup_drop in Hk.
  apply (H (p + k) x); [|done]. apply lookup_lt_Some in Hk. lia.
Qed.

Lemma sorted_below (l : list nat) x i :
  StronglySorted le l → last l = Some x → x ≤ i → Forall (λ y, y ≤ i) l.
Proof.
  intros Hs Hl Hx. apply Forall_forall. intros y Hy.
  destruct (last_Some l x) as [[l' ->] _]; [done|].
  apply elem_of_app in Hy as [Hy|Hy%list_elem_of_singleton]; [|lia].
  assert (y ≤ x); [|lia].
  eapply (StronglySorted_app_1_elem_of le l' [x]); [done..|left].
Qed.

Lemma sorted_insert (l1 l2 : list nat) i :
  StronglySorted le (l1 ++ l2) →
  Forall (λ y, y ≤ i) l1 → Forall (λ y, i < y) l2 →
  StronglySorted le (l1 ++ i :: l2).
Proof.
  intros Hs H1 H2. apply StronglySorted_app in Hs as (Ha & Hb & Hc).
  apply StronglySorted_app. split_and!; try done.
  - intros x y Hx [->|Hy]%elem_of_cons.
    + rewrite Forall_forall in H1. by apply H1.
    + by apply Ha.
  - apply StronglySorted_cons. split; [|done].
    eapply Forall_impl; [exact H2|]. simpl. lia.
Qed.

(** C2, as the code has it.  When [queueWatcher] is called during a flush
    with a watcher that is not in [has], the watcher is marked and spliced
    into the part of the queue behind the cursor, at its sorted position,
    where it then occurs once - right behind the cursor, as the next to
    run, when every id waiting there is greater than its own.  This holds
    for any id, also one the cursor has passed.  When the loop moves on from
    there over watchers that leave the scheduler alone, it runs that part of
    the queue in order, the new watcher once. *)
Theorem enqueue_while_flushing fuel i cur st :
  flushing (sched st) = true → waiting (sched st) = true →
  queue (sched st) !! index (sched st) = Some cur →
  i ∉ has (sched st) →
  (∀ x, x ∈ drop (S (index (sched st))) (queue (sched st)) → x ∈ has (sched st)) →
  StronglySorted le (drop (S (index (sched st))) (queue (sched st))) →
  ∃ l1 l2 st',
    queueWatcher cfg deep_reads fuel i st = Some (st', Normal) ∧
    drop (S (index (sched st))) (queue (sched st)) = l1 ++ l2 ∧
    Forall (λ x, x ≤ i) l1 ∧ Forall (λ x, i < x) l2 ∧
    st' = with_sched
            (with_queue (take (S (index (sched st))) (queue (sched st))
                         ++ l1 ++ i :: l2)
                        (with_has ({[i]} ∪ has (sched st)) (sched st))) st ∧
    StronglySorted le (l1 ++ i :: l2) ∧
    occ i (l1 ++ i :: l2) = 1 ∧
    (Forall (λ x, i < x) (drop (S (index (sched st))) (queue (sched st))) →
     queue (sched st') !! S (index (sched st)) = Some i) ∧
    ((∀ x, x ∈ l1 ++ i :: l2 → ∃ w, watchers st !! x = Some w ∧ quiet w) →
     ∀ f n, length (l1 ++ i :: l2) < n →
       ∃ st'',
         drain cfg (run cfg deep_reads (S f)) (script cfg deep_reads (S f)) n
               (next_index st') = Some (st'', Normal) ∧
         runs_of (log st'') = runs_of (log st) ++ l1 ++ i :: l2).
Proof.
  intros Hf Hw Hcur Hi Hhas Hsorted.
  set (q := queue (sched st)) in *. set (idx := index (sched st)) in *.
  assert (idx < length q) as Hlt by (by eapply lookup_lt_Some).
  set (p := splice_pos q idx i (length q)).
  destruct (splice_pos_spec q idx i (length q) ltac:(lia) Hlt) as (Hp & Hafter & Hbefore).
  fold p in Hp, Hafter, Hbefore.
  exists (drop (S idx) (take p q)), (drop p q).
  assert (take p q = take (S idx) q ++ drop (S idx) (take p q)) as Etake.
  { rewrite <-(take_drop (S idx) (take p q)) at 1. f_equal.
    rewrite take_take. f_equal. lia. }
  assert (drop (S idx) q = drop (S idx) (take p q) ++ drop p q) as Edrop.
  { rewrite <-(take_drop p q) at 1. rewrite drop_app_le; [done|].
    rewrite length_take. lia. }
  assert (Forall (λ x, i < x) (drop p q)) as Hl2.
  { apply Forall_lookup_range. intros k x Hk Hx. by apply (Hafter k x). }
  assert (Forall (λ x, x ≤ i) (drop (S idx) (take p q))) as Hl1.
  { destruct Hbefore as [Hb|(x & Hx & Hxi)].
    - rewrite Hb, drop_ge; [constructor|]. rewrite length_take. lia.
    - destruct (decide (p = S idx)) as [Hb|Hb].
      { rewrite Hb, drop_ge; [constructor|]. rewrite length_take. lia. }
      apply (sorted_below _ x); [| |done].
      + rewrite Edrop in Hsorted. by apply StronglySorted_app_1_l in Hsorted.
      + rewrite last_lookup, length_drop, length_take.
        rewrite lookup_drop, lookup_take_lt by lia.
        rewrite <-Hx. f_equal. lia. }
  eexists. split.
  { unfold queueWatcher, queueWatcher_with. rewrite decide_False by done.
    cbv zeta. simpl. rewrite Hf. simpl. rewrite Hw. reflexivity. }
  split; [exact Edrop|]. split; [exact Hl1|]. split; [exact Hl2|].
  assert (splice p i q = take (S idx) q ++ drop (S idx) (take p q) ++ i :: drop p q) as Esp.
  { unfold splice. rewrite Etake at 1. by rewrite <-app_assoc. }
  split. { fold q idx p. by rewrite Esp. }
  assert (StronglySorted le (drop (S idx) (take p q) ++ i :: drop p q)) as Hs'.
  { apply sorted_insert; [by rewrite <-Edrop | done | done]. }
  split; [exact Hs'|].
  assert (i ∉ drop (S idx) q) as Hnotin by (intros Hx; by apply Hi, Hhas).
  split.
  { rewrite occ_app. change (i :: drop p q) with ([i] ++ drop p q).
    rewrite occ_app, occ_singleton.
    assert (occ i (drop (S idx) (take p q)) = 0) as ->.
    { apply occ_zero. intros Hx. apply Hnotin. rewrite Edrop, elem_of_app. by left. }
    assert (occ i (drop p q) = 0) as ->; [|done].
    apply occ_zero. intros Hx. apply Hnotin. rewrite Edrop, elem_of_app. by right. }
  split.
  { intros Hall. simpl. fold q idx p. rewrite Esp.
    rewrite lookup_app_r by (rewrite length_take; lia).
    rewrite length_take, Nat.min_l by lia.
    rewrite Nat.sub_diag.
    assert (drop (S idx) (take p q) = []) as ->; [|done].
    destruct (drop (S idx) (take p q)) as [|y l] eqn:El; [done|].
    rewrite Edrop in Hall. apply Forall_app in Hall as [Hall _].
    apply Forall_cons in Hall as [Hy _].
    apply Forall_cons in Hl1 as [Hy' _]. lia. }
  intros Hquiet f n Hn.
  destruct (drain_quiet
              (notify_with
                 (update_with (run cfg deep_reads f)
                    (queueWatcher_with cfg (flushSchedulerQueue cfg deep_reads f))))
              (script cfg deep_reads (S f))
              (drop (S idx) (take p q) ++ i :: drop p q) n
              (next_index
                 (with_sched (with_queue (splice p i q)
                                (with_has ({[i]} ∪ has (sched st)) (sched st))) st)))
    as (st'' & Hd & _ & _ & _ & _ & _ & _ & _ & D8 & _).
  { simpl. fold idx. rewrite Esp. rewrite drop_app_length'; [done|].
    rewrite length_take. lia. }
  { intros x Hx. by apply Hquiet. }
  { done. }
  exists st''. split; [exact Hd | exact D8].
Qed.

(** *** The log only grows *)

Lemma log_grows_for_each {A} (f : A → Proc) l :
  (∀ x, log_grows (f x)) → log_grows (for_each f l).
Proof.
  intros Hf. induction l as [|x l IH]; intros st st' c; simpl.
  - by intros [= <- <-].
  - destruct (f x st) as [[st1 [|e]]|] eqn:E; [| |done].
    + intros H. etrans; [by eapply Hf | by eapply IH].
    + intros [= <- <-]. by eapply Hf.
Qed.

Lemma log_grows_script (ntf : nat → Proc) (sc : Script) :
  (∀ d, log_grows (ntf d)) → log_grows (script_with ntf sc).
Proof.
  intros Hn. induction sc as [|e|a k IH]; intros st st' c; simpl.
  - by intros [= <- <-].
  - by intros [= <- <-].
  - destruct (a (world st)) as [x ds].
    destruct (for_each ntf ds (with_world x st)) as [[st1 [|e]]|] eqn:E; [| |done].
    + intros H. etrans; [|by eapply IH].
      by apply (log_grows_for_each ntf ds Hn _ _ _ E).
    + intros [= <- <-]. by apply (log_grows_for_each ntf ds Hn _ _ _ E).
Qed.

Lemma log_grows_update (rn qw : nat → Proc) i :
  log_grows (rn i) → log_grows (qw i) → log_grows (update_with rn qw i).
Proof.
  intros Hr Hq st st' c. unfold update_with.
  destruct (watchers st !! i) as [w|]; [|done].
  destruct (lazy w); [by intros [= <- <-]|].
  destruct (sync w); [apply Hr | apply Hq].
Qed.

Lemma log_grows_queueWatcher (flush : Proc) i :
  log_grows flush → log_grows (queueWatcher_with cfg flush i).
Proof.
  intros Hfl st st' c. unfold queueWatcher_with.
  case_decide; [by intros [= <- <-]|]. cbv zeta.
  match goal with |- context [waiting ?s] => destruct (waiting s) end;
    [by intros [= <- <-]|].
  destruct (negb (production cfg) && negb (async cfg)).
  - intros Hx. by apply Hfl in Hx.
  - by intros [= <- <-].
Qed.

Lemma log_grows_run (scr : Script → Proc) i :
  (∀ sc, log_grows (scr sc)) → log_grows (run_with deep_reads scr i).
Proof.
  intros Hs st st' c. unfold run_with.
  destruct (watchers st !! i) as [w0|] eqn:Ew; [|done].
  destruct (active w0); [|by intros [= <- <-]].
  destruct (get_inert deep_reads i w0 st Ew) as (st1 & Hg & _ & _ & _ & G4 & _).
  rewrite Hg.
  assert (log st `prefix_of` log st1) as H1 by (rewrite G4; by apply prefix_app_r).
  destruct (get_result w0 (world st)) as [v|e]; [|by intros [= <- <-]].
  destruct (watchers st1 !! i) as [w|]; [|done].
  destruct (negb (strict_eq v (value w)) || isObject v || deep w);
    [|by intros [= <- <-]].
  set (st3 := emit _ _).
  assert (log st `prefix_of` log st3) as H3.
  { etrans; [exact H1|]. simpl. by apply prefix_app_r. }
  destruct (user w).
  - destruct (scr (cb w v (value w)) st3) as [[st4 [|e]]|] eqn:E; [| |done].
    + intros [= <- <-]. etrans; [exact H3 | by eapply Hs].
    + intros [= <- <-]. etrans; [exact H3|]. etrans; [by eapply Hs|].
      simpl. by apply prefix_app_r.
  - intros E. etrans; [exact H3 | by eapply Hs].
Qed.

Lemma log_grows_drain (rn : nat → Proc) (scr : Script → Proc) n :
  (∀ i, log_grows (rn i)) → (∀ sc, log_grows (scr sc)) →
  log_grows (drain cfg rn scr n).
Proof.
  intros Hrn Hscr st st' c.
  apply (drain_rule rn scr (λ sx : State, log st `prefix_of` log sx)
                    (λ (sx : State) _, log st `prefix_of` log sx)); [done| |done].
  intros sx i w st1 c1 HI Hi Hw Hbefore.
  assert (log st `prefix_of` log st1) as H1.
  { etrans; [exact HI|]. destruct (before w) as [b|].
    - by eapply Hscr.
    - by injection Hbefore as <- <-. }
  destruct c1 as [|e]; [|done].
  intros st3 c3 Hrun.
  assert (log st `prefix_of` log st3) as H3.
  { etrans; [exact H1|]. etrans; [|by eapply Hrn]. simpl. by apply prefix_app_r. }
  destruct c3 as [|e]; [|done].
  destruct (negb (production cfg) && bool_decide (i ∈ has (sched st3))); [|done].
  destruct (bool_decide _); [|done].
  etrans; [exact H3|]. simpl. by apply prefix_app_r.
Qed.

Lemma log_grows_flush (rn : nat → Proc) (scr : Script → Proc) n :
  (∀ i, log_grows (rn i)) → (∀ sc, log_grows (scr sc)) →
  log_grows (flushSchedulerQueue_with cfg rn scr n).
Proof.
  intros Hrn Hscr st st' c. rewrite flush_with_start.
  destruct (drain cfg rn scr n (flush_start st)) as [[sd [|e]]|] eqn:E; [| |done].
  - intros [= <- <-]. etrans; [by apply (log_grows_drain rn scr n Hrn Hscr _ _ _ E)|].
    simpl. by apply prefix_app_r.
  - intros [= <- <-]. by apply (log_grows_drain rn scr n Hrn Hscr _ _ _ E).
Qed.

Lemma procs_log_grows fuel :
  (∀ i, log_grows (run cfg deep_reads fuel i)) ∧
  log_grows (flushSchedulerQueue cfg deep_reads fuel) ∧
  (∀ sc, log_grows (script cfg deep_reads fuel sc)).
Proof.
  assert (∀ (rn : nat → Proc) (fl : Proc),
            (∀ i, log_grows (rn i)) → log_grows fl →
            ∀ sc, log_grows
                    (script_with
                       (notify_with (update_with rn (queueWatcher_with cfg fl))) sc))
    as Hscript.
  { intros rn fl Hrn Hfl sc. apply log_grows_script. intros d.
    unfold notify_with. intros st st' c. apply log_grows_for_each.
    intros i. apply log_grows_update; [done|]. by apply log_grows_queueWatcher. }
  induction fuel as [|f (IHr & IHf & IHs)].
  - split_and!; [done | done |]. intros sc. by apply Hscript.
  - assert ((∀ i, log_grows (run cfg deep_reads (S f) i)) ∧
            log_grows (flushSchedulerQueue cfg deep_reads (S f))) as [Hr Hf].
    { split.
      - intros i. by apply log_grows_run.
      - by apply log_grows_flush. }
    split_and!; [done | done |]. intros sc. by apply Hscript.
Qed.

(** *** Watcher.run and the exceptions of user code *)

Lemma fires_skip w v :
  fires w v = negb (strict_eq v (value w) && negb (isObject v) && negb (deep w)).
Proof.
  unfold fires. destruct (strict_eq v (value w)), (isObject v), (deep w); done.
Qed.

(** [run] on an active watcher whose [get] returned [v]. *)
Lemma run_after_get (scr : Script → Proc) i w v st st1 :
  watchers st !! i = Some w → active w = true →
  get deep_reads i st = Some (st1, inl v) →
  ∃ w1, watchers st1 !! i = Some w1 ∧ value w1 = value w ∧ user w1 = user w ∧
        cb w1 = cb w ∧
    run_with deep_reads scr i st =
      if fires w v then
        let st3 := emit (EvCall i v (value w)) (set_watcher i (with_value v w1) st1) in
        match scr (cb w v (value w)) st3 with
        | Some (st4, Throws e) =>
            if user w then Some (handleError e i InCallback st4, Normal)
            else Some (st4, Throws e)
        | r => r
        end
      else Some (st1, Normal).
Proof.
  intros Hw Ha Hg. unfold run_with. rewrite Hw, Ha, Hg.
  destruct (get_inert deep_reads i w st Hw) as (st1' & Hg' & _ & _ & _ & _ & G5 & G6).
  rewrite Hg in Hg'. injection Hg' as <- _.
  pose proof (G6 i) as Hv. pose proof (G5 i) as Hc. rewrite Hw in Hv, Hc.
  destruct (watchers st1 !! i) as [w1|]; [|done].
  simpl in Hv. injection Hv as Hv.
  destruct Hc as (C1 & C2 & C3 & C4 & C5 & C6 & C7 & C8).
  exists w1. split_and!; try done.
  unfold fires. rewrite Hv, C1, C2, C8.
  destruct (negb (strict_eq v (value w)) || isObject v || deep w); [|done].
  cbv zeta. destruct (user w); [done|].
  by destruct (scr _ _) as [[? [|?]]|].
Qed.

(** C7. An active watcher's [run] evaluates the expression anew and leaves
    the callback out exactly when the new value is strictly equal to the
    previous one, is not an object or array, and the watcher is not deep:
    then [run] ends where the evaluation ended.  Otherwise it stores the
    value, and what [run] does from there is what the callback does, called
    with the new and the old value: [run] returns when the callback
    returns, in the state the callback left - for a callback that assigns
    data nobody watches, the data are as the callback wrote them -, and an
    exception of the callback goes to [handleError] for a user watcher and
    on to the caller otherwise. *)
Theorem run_calls_back_unless_unchanged fuel i w v st :
  watchers st !! i = Some w → active w = true →
  get_result w (world st) = inl v →
  let skipped := strict_eq v (value w) && negb (isObject v) && negb (deep w) in
  (∃ st1 w1,
     get deep_reads i st = Some (st1, inl v) ∧
     watchers st1 !! i = Some w1 ∧
     world st1 = world st ∧ sched st1 = sched st ∧
     log st1 = log st ++ get_errors i w (world st) ∧
     run cfg deep_reads (S fuel) i st
     = if skipped then Some (st1, Normal)
       else
         match script cfg deep_reads fuel (cb w v (value w))
                      (emit (EvCall i v (value w))
                            (set_watcher i (with_value v w1) st1)) with
         | Some (st4, Throws e) =>
             if user w then Some (handleError e i InCallback st4, Normal)
             else Some (st4, Throws e)
         | r => r
         end)
  ∧
  (skipped = false →
   ∀ a, cb w v (value w) = Act a (λ _, Done) → (a (world st)).2 = [] →
     ∃ st',
       run cfg deep_reads (S fuel) i st = Some (st', Normal) ∧
       world st' = (a (world st)).1 ∧
       log st' = log st ++ get_errors i w (world st) ++ [EvCall i v (value w)] ∧
       value <$> watchers st' !! i = Some v)
  ∧
  (∀ st' c,
     run cfg deep_reads (S fuel) i st = Some (st', c) →
     if skipped then
       c = Normal ∧ get deep_reads i st = Some (st', inl v) ∧
       log st' = log st ++ get_errors i w (world st) ∧
       value <$> watchers st' !! i = Some (value w)
     else
       ∃ rest, log st' = log st ++ get_errors i w (world st)
                         ++ EvCall i v (value w) :: rest)
  ∧
  (quiet w →
   ∃ st',
     run cfg deep_reads (S fuel) i st = Some (st', Normal) ∧
     log st' = log st ++ get_errors i w (world st)
               ++ (if skipped then [] else [EvCall i v (value w)]) ∧
     value <$> watchers st' !! i = Some (if skipped then value w else v)).
Proof.
  intros Hw Ha Hres skipped.
  destruct (get_inert deep_reads i w st Hw) as (st1 & Hg & G1 & G2 & G3 & G4 & G5 & G6).
  rewrite Hres in Hg.
  assert (fires w v = negb skipped) as Hfires by apply fires_skip.
  destruct (run_after_get
              (script_with
                 (notify_with
                    (update_with (run cfg deep_reads fuel)
                       (queueWatcher_with cfg (flushSchedulerQueue cfg deep_reads fuel)))))
              i w v st st1 Hw Ha Hg) as (w1 & Hw1 & Hv1 & Hu1 & Hcb1 & Hrun).
  rewrite <-run_unfold in Hrun. rewrite Hfires in Hrun.
  change (script_with _) with (script cfg deep_reads fuel) in Hrun.
  split; [|split; [|split]].
  - exists st1, w1. split_and!; try done.
    rewrite Hrun. by destruct skipped.
  - intros Hsk a Hcb Hquiet. rewrite Hrun, Hsk. cbn [negb].
    rewrite Hcb, script_unfold. cbn [script_with].
    destruct (a (world st)) as [x ds] eqn:Ea. simpl in Hquiet. subst ds.
    cbn [emit world set_watcher with_watchers]. rewrite G1, Ea.
    cbn [for_each script_with].
    eexists. split; [reflexivity|]. split; [done|].
    split.
    + simpl. by rewrite G4, <-app_assoc.
    + simpl. rewrite lookup_insert_eq. done.
  - intros st' c. rewrite Hrun. destruct skipped; simpl.
    + intros [= <- <-]. split_and!; try done.
      rewrite (G6 i), Hw. done.
    + set (st3 := emit _ _).
      destruct (script cfg deep_reads fuel (cb w v (value w)) st3)
        as [[st4 c4]|] eqn:E; [|done].
      destruct (procs_log_grows fuel) as (_ & _ & Hs).
      destruct (Hs _ _ _ _ E) as [rest Hrest].
      assert (log st3 = log st ++ get_errors i w (world st) ++ [EvCall i v (value w)])
        as H3 by (unfold st3; simpl; by rewrite G4, <-app_assoc).
      rewrite H3 in Hrest.
      destruct c4 as [|e]; [|destruct (user w)]; intros [= <- <-].
      * exists rest. rewrite Hrest. by rewrite <-!app_assoc.
      * exists (rest ++ [EvError e i InCallback]). simpl. rewrite Hrest.
        by rewrite <-!app_assoc.
      * exists rest. rewrite Hrest. by rewrite <-!app_assoc.
  - intros Hq. rewrite run_unfold.
    destruct (run_quiet
                (notify_with
                   (update_with (run cfg deep_reads fuel)
                      (queueWatcher_with cfg (flushSchedulerQueue cfg deep_reads fuel))))
                i w st Hw Hq) as (st' & Hrun' & R1 & R2 & R3 & R4).
    assert (got w (world st) = v) as Hgot.
    { rewrite (quiet_get_result w _ Hq) in Hres. by injection Hres. }
    rewrite Ha, Hgot, Hfires in R3, R4. simpl in R4.
    exists st'. split; [done|]. by destruct skipped.
Qed.

(** C8. An exception of the getter or of the callback is handed to
    [handleError] and not rethrown exactly when the watcher is a user
    watcher; otherwise it is rethrown by [get], and so by [run].  Either
    way [get] has popped the target and reconciled the dependencies with
    the reads made before the exception. *)
Theorem exceptions_stop_at_user_watchers fuel i w e st :
  watchers st !! i = Some w → consistent st i →
  (outcome (getter w (world st)) = inr e →
   ∃ st' w',
     get deep_reads i st
       = Some (st', if user w then inl VUndefined else inr e) ∧
     log st' = log st ++ (if user w then [EvError e i InGetter] else []) ∧
     targetStack st' = targetStack st ∧
     watchers st' !! i = Some w' ∧
     deps w' = uniq (reads (getter w (world st))) ∧
     newDeps w' = [] ∧ newDepIds w' = ∅ ∧
     consistent st' i ∧
     (user w = false → active w = true →
      run cfg deep_reads (S fuel) i st = Some (st', Throws e)))
  ∧
  (∀ v st1 w1 st4,
     active w = true →
     get deep_reads i st = Some (st1, inl v) →
     watchers st1 !! i = Some w1 →
     fires w v = true →
     script cfg deep_reads fuel (cb w v (value w))
            (emit (EvCall i v (value w)) (set_watcher i (with_value v w1) st1))
       = Some (st4, Throws e) →
     run cfg deep_reads (S fuel) i st
       = if user w then Some (handleError e i InCallback st4, Normal)
         else Some (st4, Throws e)).
Proof.
  intros Hw Hcons. split.
  - intros Hthrow.
    destruct (get_collects deep_reads i w st Hw Hcons)
      as (st' & r & w' & Hg & Hw' & Hd & _ & _ & Hn & Hni & _ & Hc' & _ & Hts).
    destruct (get_inert deep_reads i w st Hw) as (st1 & Hg1 & _ & _ & _ & G4 & _).
    rewrite Hg in Hg1. injection Hg1 as <- ->.
    exists st', w'. unfold get_result, get_errors in *. rewrite Hthrow in *.
    split. { rewrite Hg. by destruct (user w). }
    split. { rewrite G4. by destruct (user w). }
    split; [done|]. split; [done|].
    split. { rewrite Hd. unfold reads_of. rewrite Hthrow.
             destruct (deep w); by rewrite app_nil_r. }
    split; [done|]. split; [done|]. split; [done|].
    intros Hu Ha. rewrite run_unfold. unfold run_with.
    rewrite Hw, Ha, Hg, Hu. done.
  - intros v st1 w1 st4 Ha Hg Hw1 Hf Hs. rewrite run_unfold.
    destruct (run_after_get
                (script_with
                   (notify_with
                      (update_with (run cfg deep_reads fuel)
                         (queueWatcher_with cfg (flushSchedulerQueue cfg deep_reads fuel)))))
                i w v st st1 Hw Ha Hg) as (w1' & Hw1' & _ & _ & _ & ->).
    rewrite Hw1 in Hw1'. injection Hw1' as <-.
    rewrite Hf. cbv zeta.
    change (script_with _) with (script cfg deep_reads fuel).
    by rewrite Hs.
Qed.

(** *** Teardown *)

Lemma subs_of_unsubscribe i L : ∀ st d,
  subs_of (foldl (λ acc d, removeSub d i acc) st L) d =
  if decide (d ∈ L) then others i (subs_of st d) else subs_of st d.
Proof.
  induction L as [|a L IH]; intros st d; simpl.
  - destruct (decide (d ∈ [])) as [H|]; [by apply elem_of_nil in H | done].
  - rewrite IH, !subs_of_removeSub.
    destruct (decide (d ∈ L)) as [HL|HL], (decide (d = a)) as [->|Hda];
      destruct (decide _) as [Hin|Hin]; try done.
    + by rewrite others_idem.
    + exfalso. apply Hin. by left.
    + exfalso. apply Hin. by right.
    + exfalso. apply Hin. by left.
    + apply elem_of_cons in Hin as [?|?]; done.
Qed.

Lemma unsubscribe_fields i L : ∀ st,
  let st' := foldl (λ acc d, removeSub d i acc) st L in
  world st' = world st ∧ watchers st' = watchers st ∧ sched st' = sched st ∧
  targetStack st' = targetStack st ∧ log st' = log st.
Proof.
  induction L as [|a L IH]; intros st; simpl; [done|].
  destruct (IH (removeSub a i st)) as (? & ? & ? & ? & ?). done.
Qed.

Lemma teardown_spec i w st :
  watchers st !! i = Some w → active w = true → consistent st i →
  (∀ d, i ∉ subs_of (teardown i st) d) ∧
  (∀ d, subs_of (teardown i st) d = others i (subs_of st d)) ∧
  watchers (teardown i st) !! i = Some (with_active false w) ∧
  (∀ j, j ≠ i → watchers (teardown i st) !! j = watchers st !! j) ∧
  world (teardown i st) = world st ∧ sched (teardown i st) = sched st ∧
  targetStack (teardown i st) = targetStack st ∧ log (teardown i st) = log st.
Proof.
  intros Hw Ha (w0 & Hw0 & _ & _ & _ & _ & Hocc).
  assert (w0 = w) as -> by congruence.
  unfold teardown. rewrite Hw, Ha.
  set (st1 := foldl (λ acc d, removeSub d i acc) st (reverse (deps w))).
  destruct (unsubscribe_fields i (reverse (deps w)) st) as (E1 & E2 & E3 & E4 & E5).
  fold st1 in E1, E2, E3, E4, E5.
  assert (∀ d, subs_of (set_watcher i (with_active false w) st1) d
               = others i (subs_of st d)) as Hsubs.
  { intros d. change (subs_of (set_watcher i (with_active false w) st1) d)
      with (subs_of st1 d).
    unfold st1. rewrite subs_of_unsubscribe.
    destruct (decide (d ∈ reverse (deps w))) as [Hd|Hd]; [done|].
    assert (occ i (subs_of st d) = 0) as Hz.
    { rewrite Hocc. rewrite elem_of_reverse in Hd. by rewrite decide_False. }
    apply occ_zero in Hz.
    symmetry. by apply others_absent. }
  split_and!.
  - intros d. rewrite Hsubs. apply occ_zero, occ_others.
  - done.
  - simpl. by rewrite lookup_insert_eq.
  - intros j Hj. simpl. rewrite lookup_insert_ne by done. by rewrite E2.
  - done.
  - done.
  - done.
  - done.
Qed.

(** X1. [teardown] of an active watcher whose subscriptions agree with its
    dependency set removes it from the subscribers of every Dep and marks it
    inactive.  The subscribers of the Deps keep their order, the other
    watchers are as before; the watcher keeps its [deps] and its value, and
    the scheduler is not touched: a queued watcher stays queued. *)
Theorem teardown_unsubscribes i w st :
  watchers st !! i = Some w → active w = true → consistent st i →
  (∀ d, i ∉ subs_of (teardown i st) d) ∧
  (∀ d, subs_of (teardown i st) d = others i (subs_of st d)) ∧
  watchers (teardown i st) !! i = Some (with_active false w) ∧
  (∀ j, j ≠ i → watchers (teardown i st) !! j = watchers st !! j) ∧
  world (teardown i st) = world st ∧ sched (teardown i st) = sched st ∧
  targetStack (teardown i st) = targetStack st ∧ log (teardown i st) = log st.
Proof. apply teardown_spec. Qed.



(** *** Lazy watchers and computed properties *)

Lemma consistent_set_value i w v b st :
  watchers st !! i = Some w → consistent st i →
  consistent (set_watcher i (with_dirty b (with_value v w)) st) i.
Proof.
  intros Hw (w0 & Hw0 & H1 & H2 & H3 & H4 & H5).
  assert (w0 = w) as -> by congruence.
  exists (with_dirty b (with_value v w)).
  split; [simpl; by rewrite lookup_insert_eq|]. done.
Qed.



Lemma evaluate_spec i w v st :
  watchers st !! i = Some w → consistent st i →
  get_result w (world st) = inl v →
  ∃ st1 w1,
    evaluate deep_reads i st
      = Some (set_watcher i (with_dirty false (with_value v w1)) st1, Normal) ∧
    watchers st1 !! i = Some w1 ∧
    deps w1 = uniq (reads_of deep_reads w (world st)) ∧
    consistent st1 i ∧ frame i st st1 ∧
    targetStack st1 = targetStack st ∧
    log st1 = log st ++ get_errors i w (world st) ∧
    same_code w w1 ∧
    (∀ d, d ∈ reads_of deep_reads w (world st) → occ i (subs_of st1 d) = 1).
Proof.
  intros Hw Hcons Hres.
  destruct (get_collects deep_reads i w st Hw Hcons)
    as (st1 & r & w1 & Hget & Hw1 & Hdeps & Hin & _ & _ & _ & _ & Hc1 & Hf1 & Hts1).
  destruct (get_inert deep_reads i w st Hw) as (st1' & Hget' & _ & _ & _ & Hlog & Hcodes & _).
  rewrite Hget in Hget'. injection Hget' as <- ->.
  exists st1, w1. unfold evaluate. rewrite Hget, Hres, Hw1.
  split_and!; try done.
  - specialize (Hcodes i). by rewrite Hw, Hw1 in Hcodes.
  - intros d Hd. by apply Hin.
Qed.

Lemma computed_getter_evaluates i w v st :
  watchers st !! i = Some w → consistent st i → dirty w = true →
  target st = None →
  get_result w (world st) = inl v →
  ∃ st' w',
    computedGetter deep_reads (Some i) st = Some (st', inl v) ∧
    watchers st' !! i = Some w' ∧
    dirty w' = false ∧ value w' = v ∧
    deps w' = uniq (reads_of deep_reads w (world st)) ∧
    (∀ d, d ∈ reads_of deep_reads w (world st) → occ i (subs_of st' d) = 1) ∧
    consistent st' i ∧
    log st' = log st ++ get_errors i w (world st) ∧
    sched st' = sched st ∧ world st' = world st ∧
    ∀ x, computedGetter deep_reads (Some i) (with_world x st')
         = Some (with_world x st', inl v).
Proof.
  intros Hw Hcons Hd Ht Hres.
  destruct (evaluate_spec i w v st Hw Hcons Hres)
    as (st1 & w1 & Hev & Hw1 & Hdeps & Hc1 & Hf1 & Hts1 & Hlog & _ & Hocc).
  set (w' := with_dirty false (with_value v w1)).
  set (st' := set_watcher i w' st1).
  assert (watchers st' !! i = Some w') as Hw'
    by (simpl; by rewrite lookup_insert_eq).
  assert (target st' = None) as Ht'.
  { unfold target in *. change (targetStack st') with (targetStack st1).
    by rewrite Hts1. }
  exists st', w'.
  split_and!; try done.
  - unfold computedGetter. rewrite Hw, Hd, Hev. fold w' st'. by rewrite Ht', Hw'.
  - by apply consistent_set_value.
  - by destruct Hf1.
  - by destruct Hf1.
  - intros x. unfold computedGetter.
    change (watchers (with_world x st')) with (watchers st'). rewrite Hw'.
    change (dirty w') with false. cbv iota.
    change (target (with_world x st')) with (target st'). rewrite Ht'.
    change (watchers (with_world x st')) with (watchers st'). by rewrite Hw'.
Qed.

(** X3. The getter of a computed property memoizes.  Read outside any
    evaluation while its lazy watcher is dirty, and the watcher's
    subscriptions agree with its dependency set - as they do unless the
    watcher was torn down -, it evaluates the watcher's getter once,
    subscribes the watcher to every Dep read, stores the value and clears
    [dirty]; every later read returns the stored value and changes nothing,
    whatever the data have become, until the watcher is marked dirty
    again. *)
Theorem computed_getter_memoizes i w v st :
  watchers st !! i = Some w → consistent st i → dirty w = true →
  target st = None →
  get_result w (world st) = inl v →
  ∃ st' w',
    computedGetter deep_reads (Some i) st = Some (st', inl v) ∧
    watchers st' !! i = Some w' ∧
    dirty w' = false ∧ value w' = v ∧
    deps w' = uniq (reads_of deep_reads w (world st)) ∧
    (∀ d, d ∈ reads_of deep_reads w (world st) → occ i (subs_of st' d) = 1) ∧
    consistent st' i ∧
    log st' = log st ++ get_errors i w (world st) ∧
    ∀ x, computedGetter deep_reads (Some i) (with_world x st')
         = Some (with_world x st', inl v).
Proof.
  intros Hw Hcons Hd Ht Hres.
  destruct (computed_getter_evaluates i w v st Hw Hcons Hd Ht Hres)
    as (st' & w' & H1 & H2 & H3 & H4 & H5 & H6 & H7 & H8 & _ & _ & H9).
  exists st', w'. done.
Qed.

Lemma for_each_singleton {A} (f : A → Proc) x st :
  for_each f [x] st = match f x st with
                      | Some (st', Normal) => Some (st', Normal)
                      | r => r
                      end.
Proof. simpl. by destruct (f x st) as [[? [|?]]|]. Qed.

(** X4. A write to a property a lazy watcher depends on only marks the
    watcher dirty: nothing is run and nothing is queued.  The next read of
    the computed property then evaluates the getter on the data as they are
    at the time of the read. *)
Theorem lazy_watcher_recomputes_on_demand fuel i w d f v st :
  watchers st !! i = Some w → lazy w = true → consistent st i →
  subs_of st d = [i] → target st = None →
  get_result w (f (world st)) = inl v →
  ∃ st1 st2 w2,
    script cfg deep_reads (S fuel) (writes_script d [f]) st = Some (st1, Normal) ∧
    st1 = set_watcher i (with_dirty true w) (with_world (f (world st)) st) ∧
    computedGetter deep_reads (Some i) st1 = Some (st2, inl v) ∧
    watchers st2 !! i = Some w2 ∧ value w2 = v ∧ dirty w2 = false ∧
    sched st2 = sched st ∧
    log st2 = log st ++ get_errors i w (f (world st)).
Proof.
  intros Hw Hlazy Hcons Hsubs Ht Hres.
  set (st0 := with_world (f (world st)) st).
  set (st1 := set_watcher i (with_dirty true w) st0).
  assert (script cfg deep_reads (S fuel) (writes_script d [f]) st = Some (st1, Normal))
    as Hscript.
  { rewrite script_unfold. simpl. fold st0.
    unfold notify at 1. unfold notify_with.
    change (subs_of st0 d) with (subs_of st d). rewrite Hsubs.
    rewrite for_each_singleton. unfold update, update_with.
    change (watchers st0) with (watchers st). rewrite Hw, Hlazy. done. }
  assert (watchers st1 !! i = Some (with_dirty true w)) as Hw1
    by (simpl; by rewrite lookup_insert_eq).
  assert (consistent st1 i) as Hc1.
  { destruct Hcons as (w0 & Hw0 & H1 & H2 & H3 & H4 & H5).
    assert (w0 = w) as -> by congruence.
    exists (with_dirty true w). split; [done|]. done. }
  destruct (computed_getter_evaluates i (with_dirty true w) v st1)
    as (st2 & w2 & Hcg & Hw2 & Hd2 & Hv2 & _ & _ & _ & Hl2 & Hs2 & _); try done.
  exists st1, st2, w2. split_and!; done.
Qed.

Lemma consistent_ext i st st' :
  watchers st' = watchers st → subs st' = subs st →
  consistent st i → consistent st' i.
Proof.
  intros Ew Es (w & Hw & H1 & H2 & H3 & H4 & H5).
  exists w. rewrite Ew. split_and!; try done.
  intros d. unfold subs_of. rewrite Es. apply H5.
Qed.



(** *** The constructor *)

Lemma consistent_same_tracking i w w' st :
  watchers st !! i = Some w → consistent st i →
  deps w' = deps w → newDeps w' = newDeps w →
  depIds w' = depIds w → newDepIds w' = newDepIds w →
  consistent (set_watcher i w' st) i.
Proof.
  intros Hw (w0 & Hw0 & H1 & H2 & H3 & H4 & H5) E1 E2 E3 E4.
  assert (w0 = w) as -> by congruence.
  exists w'. split; [simpl; by rewrite lookup_insert_eq|].
  rewrite E1, E2, E3, E4. done.
Qed.

Lemma reads_of_same_code w w' x :
  same_code w w' → reads_of deep_reads w' x = reads_of deep_reads w x.
Proof.
  intros (Hd & _ & _ & _ & _ & _ & Hg & _). unfold reads_of. by rewrite Hd, Hg.
Qed.

Lemma get_result_same_code w w' x :
  same_code w w' →
  get_result w' x = get_result w x ∧ get_errors (W:=W) 0 w' x = get_errors 0 w x.
Proof.
  intros (_ & Hu & _ & _ & _ & _ & Hg & _). unfold get_result, get_errors.
  by rewrite Hu, Hg.
Qed.

Lemma numbered_fresh uid st :
  numbered uid st →
  watchers st !! S uid = None ∧ ∀ d, S uid ∉ subs_of st d.
Proof.
  intros [Hws Hsubs]. split.
  - destruct (watchers st !! S uid) eqn:E; [|done].
    assert (S uid ≤ uid) by (apply Hws; by rewrite E). lia.
  - intros d Hin. apply Hsubs in Hin. lia.
Qed.

Lemma newWatcher_inserted uid w st :
  numbered uid st →
  deps w = [] → newDeps w = [] → depIds w = ∅ → newDepIds w = ∅ →
  consistent (set_watcher (S uid) w st) (S uid) ∧
  numbered (S uid) (set_watcher (S uid) w st).
Proof.
  intros Hnum E1 E2 E3 E4.
  destruct (numbered_fresh uid st Hnum) as [Hnone Hsubs].
  split.
  - exists w. split; [simpl; by rewrite lookup_insert_eq|].
    rewrite E1, E2, E3, E4. split_and!; try done; [constructor|].
    intros d. change (subs_of (set_watcher (S uid) w st) d) with (subs_of st d).
    rewrite decide_False by (intros H; by apply elem_of_nil in H).
    apply occ_zero, Hsubs.
  - destruct Hnum as [Hws Hss]. split.
    + intros j. simpl. destruct (decide (j = S uid)) as [->|Hj]; [lia|].
      rewrite lookup_insert_ne by done. intros H. apply Hws in H. lia.
    + intros d j Hj. apply Hss in Hj. lia.
Qed.

Lemma numbered_frame uid st st' :
  numbered (S uid) st → frame (S uid) st st' →
  is_Some (watchers st' !! S uid) → numbered (S uid) st'.
Proof.
  intros [Hws Hss] [_ _ Fw Fs] Hsome. split.
  - intros j Hj. destruct (decide (j = S uid)) as [->|Hne]; [lia|].
    rewrite Fw in Hj by done. by apply Hws.
  - intros d j Hj. destruct (decide (j = S uid)) as [->|Hne]; [lia|].
    apply (Hss d). 
    assert (j ∈ others (S uid) (subs_of st' d)) as Hin
      by (unfold others; apply list_elem_of_filter; done).
    rewrite Fs in Hin. unfold others in Hin.
    by apply list_elem_of_filter in Hin as [_ ?].
Qed.

Lemma newWatcher_spec uid g c options st :
  numbered uid st →
  ∃ st' r w',
    newWatcher deep_reads uid g c options st = Some (S uid, st', r) ∧
    watchers st !! S uid = None ∧
    watchers st' !! S uid = Some w' ∧
    (∀ j, j ≠ S uid → watchers st' !! j = watchers st !! j) ∧
    (∀ d, others (S uid) (subs_of st' d) = subs_of st d) ∧
    numbered (S uid) st' ∧ consistent st' (S uid) ∧
    active w' = true ∧ getter w' = g ∧ cb w' = c ∧
    world st' = world st ∧ sched st' = sched st ∧
    targetStack st' = targetStack st ∧
    lazy w' = match options with Some o => o_lazy o | None => false end ∧
    user w' = match options with Some o => o_user o | None => false end ∧
    deep w' = match options with Some o => o_deep o | None => false end ∧
    sync w' = match options with Some o => o_sync o | None => false end ∧
    before w' = match options with Some o => o_before o | None => None end ∧
    (lazy w' = true →
     r = Normal ∧ dirty w' = true ∧ value w' = VUndefined ∧ deps w' = [] ∧
     subs st' = subs st ∧ log st' = log st) ∧
    (lazy w' = false →
     deps w' = uniq (reads_of deep_reads w' (world st)) ∧
     (∀ d, d ∈ reads_of deep_reads w' (world st) →
           occ (S uid) (subs_of st' d) = 1) ∧
     log st' = log st ++ get_errors (S uid) w' (world st) ∧
     match r with
     | Normal => get_result w' (world st) = inl (value w')
     | Throws e => get_result w' (world st) = inr e ∧ value w' = VUndefined
     end).
Proof.
  intros Hnum.
  destruct (numbered_fresh uid st Hnum) as [Hnone Hfresh].
  unfold newWatcher.
  set (w := match options with
            | Some o => mkWatcher (o_deep o) (o_user o) (o_lazy o) (o_sync o)
                                  (o_before o) (o_lazy o) true [] [] ∅ ∅ g c VUndefined
            | None => mkWatcher false false false false None false true [] [] ∅ ∅
                                g c VUndefined
            end).
  assert (deps w = [] ∧ newDeps w = [] ∧ depIds w = ∅ ∧ newDepIds w = ∅ ∧
          active w = true ∧ getter w = g ∧ cb w = c ∧ value w = VUndefined ∧
          dirty w = lazy w ∧
          lazy w = match options with Some o => o_lazy o | None => false end ∧
          user w = match options with Some o => o_user o | None => false end ∧
          deep w = match options with Some o => o_deep o | None => false end ∧
          sync w = match options with Some o => o_sync o | None => false end ∧
          before w = match options with Some o => o_before o | None => None end)
    as (E1 & E2 & E3 & E4 & Ea & Eg & Ec & Ev & Ed & El & Eu & Ede & Es & Eb)
    by (unfold w; destruct options; done).
  set (st0 := set_watcher (S uid) w st).
  destruct (newWatcher_inserted uid w st Hnum E1 E2 E3 E4) as [Hc0 Hn0].
  fold st0 in Hc0, Hn0.
  assert (watchers st0 !! S uid = Some w) as Hw0
    by (simpl; by rewrite lookup_insert_eq).
  assert (∀ j, j ≠ S uid → watchers st0 !! j = watchers st !! j) as Hothers0
    by (intros j Hj; simpl; by rewrite lookup_insert_ne).
  assert (∀ d, others (S uid) (subs_of st0 d) = subs_of st d) as Hsubs0
    by (intros d; apply others_absent, Hfresh).
  destruct (lazy w) eqn:Hlazy.
  - exists st0, Normal, w. rewrite Hlazy.
    split_and!; try done; try congruence.
  - destruct (get_collects deep_reads (S uid) w st0 Hw0 Hc0)
      as (st1 & r & w1 & Hget & Hw1 & Hdeps & Hin & _ & Hnd1 & Hni1 & Hids1 & Hc1
          & Hf1 & Hts1).
    destruct (get_inert deep_reads (S uid) w st0 Hw0)
      as (st1' & Hget' & Hwo & Hsc & _ & Hlog & Hcodes & Hvals).
    rewrite Hget in Hget'. injection Hget' as <- ->.
    assert (same_code w w1) as Hsame.
    { specialize (Hcodes (S uid)). by rewrite Hw0, Hw1 in Hcodes. }
    assert (value w1 = VUndefined) as Hv1.
    { specialize (Hvals (S uid)). rewrite Hw0, Hw1 in Hvals. simpl in Hvals.
      congruence. }
    destruct Hsame as (S1 & S2 & S3 & S4 & S5 & S6 & S7 & S8).
    assert (numbered (S uid) st1) as Hn1.
    { eapply numbered_frame; [exact Hn0 | exact Hf1 | by rewrite Hw1]. }
    destruct Hf1 as [F1 F2 F3 F4].
    rewrite Hget.
    change (world st0) with (world st) in *.
    destruct (get_result w (world st)) as [v|e] eqn:Hres.
    + rewrite Hw1.
      set (w' := with_value v w1).
      exists (set_watcher (S uid) w' st1), Normal, w'.
      assert (reads_of deep_reads w' (world st) = reads_of deep_reads w (world st))
        as Hreads by (unfold reads_of; simpl; by rewrite S1, S7).
      split_and!; try done; try (simpl; congruence).
      * simpl. by rewrite lookup_insert_eq.
      * intros j Hj. simpl. rewrite lookup_insert_ne by done.
        rewrite F3 by done. by apply Hothers0.
      * intros d. change (subs_of (set_watcher (S uid) w' st1) d) with (subs_of st1 d).
        by rewrite F4.
      * destruct Hn1 as [N1 N2]. split; [|done].
        intros j. simpl. destruct (decide (j = S uid)) as [->|Hj]; [lia|].
        rewrite lookup_insert_ne by done. apply N1.
      * by apply (consistent_same_tracking _ w1).
      * intros _. split_and!.
        -- simpl. by rewrite Hreads.
        -- intros d Hd. rewrite Hreads in Hd. by apply Hin.
        -- change (log (set_watcher (S uid) w' st1)) with (log st1).
           rewrite Hlog. unfold get_errors. simpl. by rewrite S2, S7.
        -- unfold get_result in *. simpl. by rewrite S2, S7.
    + exists st1, (Throws e), w1.
      assert (reads_of deep_reads w1 (world st) = reads_of deep_reads w (world st))
        as Hreads by (unfold reads_of; by rewrite S1, S7).
      split_and!; try done; try congruence.
      * intros j Hj. rewrite F3 by done. by apply Hothers0.
      * intros _. split_and!.
        -- by rewrite Hreads.
        -- intros d Hd. rewrite Hreads in Hd. by apply Hin.
        -- rewrite Hlog. unfold get_errors. by rewrite S2, S7.
        -- unfold get_result in *. by rewrite S2, S7.
        -- done.
Qed.

(** X6. The constructor gives the new watcher the next id, which no watcher
    and no subscriber list holds yet, and leaves the other watchers and the
    subscribers of every Dep as they are.  A lazy watcher is not evaluated:
    it starts dirty, without value and without dependencies.  Any other
    watcher is evaluated at once and is subscribed exactly once to every Dep
    the evaluation read, whether the constructor returns or throws. *)
Theorem new_watcher_is_fresh uid g c options st :
  numbered uid st →
  ∃ st' r w',
    newWatcher deep_reads uid g c options st = Some (S uid, st', r) ∧
    watchers st !! S uid = None ∧
    watchers st' !! S uid = Some w' ∧
    (∀ j, j ≠ S uid → watchers st' !! j = watchers st !! j) ∧
    (∀ d, others (S uid) (subs_of st' d) = subs_of st d) ∧
    numbered (S uid) st' ∧ consistent st' (S uid) ∧
    active w' = true ∧ sched st' = sched st ∧
    (lazy w' = true →
     r = Normal ∧ dirty w' = true ∧ value w' = VUndefined ∧ deps w' = [] ∧
     subs st' = subs st ∧ log st' = log st) ∧
    (lazy w' = false →
     deps w' = uniq (reads_of deep_reads w' (world st)) ∧
     (∀ d, d ∈ reads_of deep_reads w' (world st) →
           occ (S uid) (subs_of st' d) = 1) ∧
     log st' = log st ++ get_errors (S uid) w' (world st) ∧
     match r with
     | Normal => get_result w' (world st) = inl (value w')
     | Throws e => get_result w' (world st) = inr e ∧ value w' = VUndefined
     end).
Proof.
  intros Hnum.
  destruct (newWatcher_spec uid g c options st Hnum)
    as (st' & r & w' & H1 & H2 & H3 & H4 & H5 & H6 & H7 & H8 & _ & _ & _ & H9
        & _ & _ & _ & _ & _ & _ & H10 & H11).
  exists st', r, w'. done.
Qed.

(** X7. When the getter of a watcher that is neither lazy nor a user
    watcher throws, the constructor throws the same value - and the watcher,
    which the caller never received, stays active and subscribed to every
    Dep the getter read before it threw. *)
Theorem throwing_constructor_leaves_watcher_subscribed uid g c o e st :
  numbered uid st → o_lazy o = false → o_user o = false →
  outcome (g (world st)) = inr e →
  ∃ st' w',
    newWatcher deep_reads uid g c (Some o) st = Some (S uid, st', Throws e) ∧
    watchers st' !! S uid = Some w' ∧ active w' = true ∧
    ∀ d, d ∈ reads (g (world st)) →
         d ∈ deps w' ∧ occ (S uid) (subs_of st' d) = 1.
Proof.
  intros Hnum Hlazy Huser Hout.
  destruct (newWatcher_spec uid g c (Some o) st Hnum)
    as (st' & r & w' & H1 & _ & H3 & _ & _ & _ & _ & Ha & Hg & _ & _ & _ & _ & Hl
        & Hu & _ & _ & _ & _ & Heager).
  rewrite Hlazy in Hl. rewrite Huser in Hu.
  destruct (Heager Hl) as (Hdeps & Hocc & _ & Hr).
  assert (get_result w' (world st) = inr e) as Hres
    by (unfold get_result; by rewrite Hg, Hout, Hu).
  assert (r = Throws e) as ->.
  { destruct r as [|e']; rewrite Hres in Hr; [done|].
    destruct Hr as [[= ->] _]. done. }
  exists st', w'. split_and!; try done.
  intros d Hd.
  assert (d ∈ reads_of deep_reads w' (world st)) as Hin
    by (unfold reads_of; rewrite Hg; apply elem_of_app; by left).
  split; [|by apply Hocc]. rewrite Hdeps. by apply elem_of_uniq.
Qed.

(** X8. [$watch] with a function as callback never throws.  The watcher
    it makes is a user watcher: what its getter throws on the first
    evaluation goes to [handleError] and the watcher holds [undefined].
    With [immediate] the callback is called at once with the watcher's
    value, and what it throws goes to [handleError] as well.  Without
    [immediate], calling the function [$watch] returned gives every Dep the
    subscribers it had before [$watch]. *)
Theorem watch_and_unwatch fuel uid g c options st :
  numbered uid st →
  ∃ st1 w1,
    watch cfg deep_reads fuel uid g c options false st = Some (S uid, st1, Normal) ∧
    watchers st1 !! S uid = Some w1 ∧ user w1 = true ∧
    lazy w1 = match options with Some o => o_lazy o | None => false end ∧
    (lazy w1 = false →
     log st1 = log st ++ match outcome (g (world st)) with
                         | inl _ => []
                         | inr e => [EvError e (S uid) InGetter]
                         end ∧
     value w1 = match outcome (g (world st)) with
                | inl v => v
                | inr _ => VUndefined
                end) ∧
    watch cfg deep_reads fuel uid g c options true st
    = match script cfg deep_reads fuel (c (value w1) VUndefined)
                   (emit (EvCall (S uid) (value w1) VUndefined) st1) with
      | None => None
      | Some (st2, Throws e) =>
          Some (S uid, handleError e (S uid) InCallback st2, Normal)
      | Some (st2, Normal) => Some (S uid, st2, Normal)
      end ∧
    (∀ st' r,
       watch cfg deep_reads fuel uid g c options true st = Some (S uid, st', r) →
       r = Normal) ∧
    (∀ d, subs_of (teardown (S uid) st1) d = subs_of st d) ∧
    (∀ j, j ≠ S uid →
          watchers (teardown (S uid) st1) !! j = watchers st !! j) ∧
    active <$> watchers (teardown (S uid) st1) !! S uid = Some false.
Proof.
  intros Hnum.
  set (o := match options with
            | Some o => mkOptions (o_deep o) true (o_lazy o) (o_sync o) (o_before o)
            | None => mkOptions false true false false None
            end).
  destruct (newWatcher_spec uid g c (Some o) st Hnum)
    as (st1 & r & w1 & H1 & _ & H3 & H4 & H5 & _ & H7 & Ha & Hg & _ & _ & _ & _ & Hl
        & Hu & _ & _ & _ & Hlazy & Heager).
  assert (user w1 = true) as Hu' by (rewrite Hu; unfold o; by destruct options).
  assert (r = Normal) as ->.
  { destruct (lazy w1) eqn:E; [by destruct (Hlazy eq_refl)|].
    destruct (Heager eq_refl) as (_ & _ & _ & Hr).
    destruct r as [|e]; [done|]. destruct Hr as [Hr _].
    unfold get_result in Hr. rewrite Hu' in Hr.
    by destruct (outcome (getter w1 (world st))). }
  assert (watch cfg deep_reads fuel uid g c options true st
          = match script cfg deep_reads fuel (c (value w1) VUndefined)
                         (emit (EvCall (S uid) (value w1) VUndefined) st1) with
            | None => None
            | Some (st2, Throws e) =>
                Some (S uid, handleError e (S uid) InCallback st2, Normal)
            | Some (st2, Normal) => Some (S uid, st2, Normal)
            end) as Himm.
  { unfold watch. fold o. by rewrite H1, H3. }
  exists st1, w1. split_and!.
  - unfold watch. fold o. by rewrite H1.
  - done.
  - done.
  - rewrite Hl. unfold o. by destruct options.
  - intros Hlz. destruct (Heager Hlz) as (_ & _ & Hlog & Hr).
    unfold get_errors in Hlog. unfold get_result in Hr.
    rewrite Hg, Hu' in Hlog, Hr. split; [exact Hlog|].
    destruct (outcome (g (world st))); by injection Hr.
  - exact Himm.
  - intros st' r. rewrite Himm.
    destruct (script cfg deep_reads fuel _ _) as [[st2 [|e]]|]; [| |done];
      by intros [= _ <-].
  - destruct (teardown_spec (S uid) w1 st1 H3 Ha H7) as (_ & T2 & _).
    intros d. by rewrite T2, H5.
  - destruct (teardown_spec (S uid) w1 st1 H3 Ha H7) as (_ & _ & _ & T4 & _).
    intros j Hj. rewrite T4 by done. by apply H4.
  - destruct (teardown_spec (S uid) w1 st1 H3 Ha H7) as (_ & _ & T3 & _).
    by rewrite T3.
Qed.

Lemma flush_single_quiet fu i w st :
  watchers st !! i = Some w → quiet w → queue (sched st) = [i] →
  ∃ st',
    flushSchedulerQueue cfg deep_reads (S (S fu)) st = Some (st', Normal) ∧
    log st' = log st ++ [EvRun i]
              ++ (if active w then
                    get_errors i w (world st) ++
                    (if fires w (got w (world st))
                     then [EvCall i (got w (world st)) (value w)] else [])
                  else [])
              ++ [EvHooks [i]] ∧
    queue (sched st') = [] ∧ has (sched st') = ∅ ∧
    waiting (sched st') = false ∧ flushing (sched st') = false ∧
    index (sched st') = 0 ∧ ticks (sched st') = ticks (sched st) ∧
    value <$> watchers st' !! i =
      Some (if active w && fires w (got w (world st))
            then got w (world st) else value w).
Proof.
  intros Hw Hq Hqu.
  assert (queue (sched (flush_start st)) = [i]) as Hqs.
  { change (merge_sort le (queue (sched st)) = [i]). by rewrite Hqu. }
  destruct (run_quiet
              (notify_with
                 (update_with (run cfg deep_reads fu)
                    (queueWatcher_with cfg (flushSchedulerQueue cfg deep_reads fu))))
              i w (emit (EvRun i) (clear_has i (flush_start st))) Hw Hq)
    as (st3 & Hrun & R1 & R2 & R3 & R4).
  assert (drain cfg (run cfg deep_reads (S fu)) (script cfg deep_reads (S fu))
                (S (S fu)) (flush_start st) = Some (next_index st3, Normal)) as Hdrain.
  { rewrite (drain_step_plain _ _ _ _ i w st3); try done.
    - apply drain_exit.
      change (queue (sched st3) !! S (index (sched st3)) = None).
      rewrite R1. change (queue (sched (flush_start st)) !! 1 = None). by rewrite Hqs.
    - change (queue (sched (flush_start st)) !! 0 = Some i). by rewrite Hqs.
    - by destruct Hq.
    - rewrite R1. simpl. set_solver. }
  eexists. rewrite flush_unfold, flush_with_start, Hdrain.
  split; [done|].
  assert (queue (sched st3) = [i]) as Hq3 by (rewrite R1; exact Hqs).
  split_and!; try done.
  - simpl. rewrite R3, Hq3. simpl. by rewrite <-!app_assoc.
  - simpl. by rewrite R1.
Qed.

(** X9. With [config.async] switched off outside production,
    [queueWatcher] on an idle scheduler does not wait for the next tick: it
    flushes at once, so that the watcher has run when [queueWatcher]
    returns and the scheduler is idle again.  In production the switch is
    ignored: the watcher is queued and the flush is left to [nextTick]. *)
Theorem queueWatcher_in_sync_mode fu i w st :
  watchers st !! i = Some w → quiet w →
  queue (sched st) = [] → has (sched st) = ∅ →
  waiting (sched st) = false → flushing (sched st) = false →
  async cfg = false →
  ∃ st',
    queueWatcher cfg deep_reads (S (S fu)) i st = Some (st', Normal) ∧
    if production cfg then
      log st' = log st ∧ queue (sched st') = [i] ∧ has (sched st') = {[i]} ∧
      waiting (sched st') = true ∧ flushing (sched st') = false ∧
      ticks (sched st') = S (ticks (sched st))
    else
      runs_of (log st') = runs_of (log st) ++ [i] ∧
      queue (sched st') = [] ∧ has (sched st') = ∅ ∧
      waiting (sched st') = false ∧ flushing (sched st') = false ∧
      ticks (sched st') = ticks (sched st).
Proof.
  intros Hw Hq Hqu Hhas Hwait Hflush Hasync.
  unfold queueWatcher, queueWatcher_with.
  rewrite decide_False by (rewrite Hhas; set_solver).
  simpl. rewrite Hflush. simpl. rewrite Hwait, Hasync, Hqu, Hhas, union_empty_r_L.
  simpl. rewrite andb_true_r.
  destruct (production cfg) eqn:Hprod; simpl.
  - eexists. split; [reflexivity|]. done.
  - set (st3 := with_sched _ st).
    destruct (flush_single_quiet fu i w st3 Hw Hq eq_refl)
      as (st' & Hfl & Hlog & F1 & F2 & F3 & F4 & _ & F6 & _).
    exists st'. split; [exact Hfl|]. split_and!; try done.
    rewrite Hlog, !runs_of_app. simpl.
    destruct (active w); simpl; [|done].
    destruct (runs_of_errors i w (world st)) as [E _].
    change (world st3) with (world st). rewrite runs_of_app, E.
    by destruct (fires w _).
Qed.

Lemma drain_stays_busy (rn : nat → Proc) (scr : Script → Proc) n st st' c :
  (∀ i, enqueue_only (rn i)) → (∀ sc, enqueue_only (scr sc)) →
  waiting (sched st) = true → flushing (sched st) = true →
  drain cfg rn scr n st = Some (st', c) →
  waiting (sched st') = true ∧ flushing (sched st') = true.
Proof.
  intros Hrn Hscr Hw Hf.
  apply (drain_rule rn scr
           (λ st, waiting (sched st) = true ∧ flushing (sched st) = true)
           (λ st' _, waiting (sched st') = true ∧ flushing (sched st') = true));
    [done| |done].
  clear st st' c Hw Hf. intros st i w st1 c1 [Hw Hf] Hi Hwi Hbefore.
  assert (index (sched st) < length (queue (sched st))) as Hlt
    by (by eapply lookup_lt_Some).
  assert (waiting (sched st1) = true ∧ flushing (sched st1) = true ∧
          index (sched st1) < length (queue (sched st1))) as (Hw1 & Hf1 & Hlt1).
  { destruct (before w) as [b|].
    - destruct (Hscr b st st1 c1 Hw Hf Hlt Hbefore) as (R & _).
      destruct (enqueues_fields _ _ R) as (F1 & F2 & F3 & _ & _ & F6 & _).
      rewrite F1, F2, F3. split_and!; try done. lia.
    - by injection Hbefore as <- <-. }
  destruct c1 as [|e]; [|done].
  intros st3 c3 Hrun.
  destruct (Hrn i (emit (EvRun i) (clear_has i st1)) st3 c3) as (R & _); try done.
  destruct (enqueues_fields _ _ R) as (F1 & F2 & _).
  simpl in F1, F2.
  destruct c3 as [|e]; [|by rewrite F1, F2].
  repeat case_match; simpl; by rewrite F1, F2.
Qed.

(** X10. A flush that throws - a watcher that is not a user watcher, or a
    [before] hook, threw - does not reset the scheduler: [waiting] and
    [flushing] stay set.  From then on [queueWatcher] splices every new
    watcher into the abandoned queue and requests no flush. *)
Theorem flush_that_throws_leaves_scheduler_busy fuel st st' e :
  waiting (sched st) = true →
  flushSchedulerQueue cfg deep_reads fuel st = Some (st', Throws e) →
  waiting (sched st') = true ∧ flushing (sched st') = true ∧
  ∀ fuel' j, j ∉ has (sched st') →
    ∃ st'',
      queueWatcher cfg deep_reads fuel' j st' = Some (st'', Normal) ∧
      j ∈ queue (sched st'') ∧
      waiting (sched st'') = true ∧ flushing (sched st'') = true ∧
      ticks (sched st'') = ticks (sched st') ∧ log st'' = log st'.
Proof.
  intros Hw Hfl.
  destruct fuel as [|f]; [done|].
  rewrite flush_unfold, flush_with_start in Hfl.
  destruct (drain cfg _ _ _ _) as [[sd [|e']]|] eqn:Hdrain; [done| |done].
  injection Hfl as -> ->.
  destruct (procs_enqueue_only f) as [Hrn Hscr].
  destruct (drain_stays_busy _ _ _ (flush_start st) _ _ Hrn Hscr Hw eq_refl Hdrain)
    as [Hw' Hf'].
  split; [done|]. split; [done|].
  intros fuel' j Hj.
  unfold queueWatcher, queueWatcher_with.
  rewrite decide_False by done. simpl. rewrite Hf'. simpl. rewrite Hw'.
  eexists. split; [reflexivity|]. simpl. split_and!; try done.
  unfold splice. set_solver.
Qed.

(** *** The runaway-update check *)

Lemma single_occurrence i (l : list nat) :
  occ i l = 1 → others i l = [] → l = [i].
Proof.
  unfold occ, others. destruct l as [|a l]; [done|].
  destruct (decide (a = i)) as [->|Hai].
  - rewrite (filter_cons_True (λ x, x = i)) by done.
    rewrite (filter_cons_False (λ x, x ≠ i)) by (intros H; by apply H).
    intros Hocc Hoth. f_equal. destruct l as [|b l]; [done|].
    destruct (decide (b = i)) as [->|Hbi].
    + rewrite (filter_cons_True (λ x, x = i)) in Hocc by done. simpl in Hocc. lia.
    + by rewrite (filter_cons_True (λ x, x ≠ i)) in Hoth.
  - by rewrite (filter_cons_True (λ x, x ≠ i)).
Qed.

Lemma splice_pos_front q idx i :
  idx < length q → Forall (λ x, i < x) (drop (S idx) q) →
  splice_pos q idx i (length q) = S idx.
Proof.
  intros Hlt Hall.
  destruct (splice_pos_spec q idx i (length q) ltac:(lia) Hlt)
    as (Hp & _ & [Hb|(x & Hx & Hxi)]); [done|].
  destruct (decide (splice_pos q idx i (length q) = S idx)) as [|Hne]; [done|].
  exfalso. rewrite Forall_forall in Hall.
  assert (i < x); [|lia]. apply Hall.
  apply (list_elem_of_lookup_2 _ (splice_pos q idx i (length q) - 1 - S idx)).
  rewrite lookup_drop, <-Hx. f_equal. lia.
Qed.

Lemma restless_same_code d f w w' :
  restless deep_reads d f w → same_code w w' → restless deep_reads d f w'.
Proof.
  intros [R1 R2 R3 R4 R5 R6 R7 R8] Hsc.
  pose proof Hsc as (C1 & C2 & C3 & C4 & C5 & C6 & C7 & C8).
  assert (∀ x, got w' x = got w x) as Hgot by (intros x; unfold got; by rewrite C7).
  split.
  - congruence.
  - congruence.
  - congruence.
  - congruence.
  - intros x. rewrite Hgot, C7. apply R5.
  - intros x. rewrite (reads_of_same_code w w' x Hsc). apply R6.
  - intros v old. rewrite C8. apply R7.
  - intros x. rewrite !Hgot. specialize (R8 x). unfold fires in *. simpl in *.
    by rewrite C1.
Qed.

(** One run of a restless watcher during a flush: the callback assigns,
    and the watcher is spliced in right behind the cursor. *)
Lemma restless_run fu i w d f st :
  watchers st !! i = Some w → restless deep_reads d f w →
  fires w (got w (world st)) = true →
  consistent st i → subs_of st d = [i] →
  waiting (sched st) = true → flushing (sched st) = true →
  i ∉ has (sched st) →
  index (sched st) < length (queue (sched st)) →
  Forall (λ x, i < x) (drop (S (index (sched st))) (queue (sched st))) →
  ∃ st' w',
    run cfg deep_reads (S fu) i st = Some (st', Normal) ∧
    world st' = f (world st) ∧
    watchers st' !! i = Some w' ∧ same_code w w' ∧
    value w' = got w (world st) ∧
    consistent st' i ∧ subs_of st' d = [i] ∧
    sched st'
    = with_queue (take (S (index (sched st))) (queue (sched st))
                  ++ i :: drop (S (index (sched st))) (queue (sched st)))
                 (with_has ({[i]} ∪ has (sched st)) (sched st)) ∧
    log st' = log st ++ [EvCall i (got w (world st)) (value w)].
Proof.
  intros Hw Hr Hfire Hcons Hsubs Hwait Hflush Hhas Hidx Hrest.
  pose proof Hr as [R1 R2 R3 R4 R5 R6 R7 R8].
  destruct (get_collects deep_reads i w st Hw Hcons)
    as (st1 & r & w1 & Hget & Hw1 & Hdeps & Hreads & _ & _ & _ & _ & Hcons1 & Hfr & Hts).
  destruct (get_inert deep_reads i w st Hw)
    as (st1' & Hget' & G1 & G2 & G3 & G4 & G5 & G6).
  rewrite Hget in Hget'. injection Hget' as <- ->.
  assert (get_result w (world st) = inl (got w (world st))) as Hres
    by (unfold get_result; by rewrite R5).
  assert (get_errors i w (world st) = []) as Herr
    by (unfold get_errors; by rewrite R5).
  rewrite Hres in Hget. rewrite Herr, app_nil_r in G4.
  set (v := got w (world st)) in *.
  assert (subs_of st1 d = [i]) as Hsubs1.
  { apply single_occurrence.
    - by apply Hreads, R6.
    - rewrite (frame_subs _ _ _ Hfr), Hsubs. unfold others.
      rewrite filter_cons_False by (intros H; by apply H). done. }
  pose proof (G5 i) as Hsc. rewrite Hw, Hw1 in Hsc.
  pose proof (G6 i) as Hval. rewrite Hw, Hw1 in Hval. simpl in Hval.
  injection Hval as Hval.
  rewrite run_unfold.
  destruct (run_after_get
              (script_with
                 (notify_with
                    (update_with (run cfg deep_reads fu)
                       (queueWatcher_with cfg (flushSchedulerQueue cfg deep_reads fu)))))
              i w v st st1 Hw R3 Hget) as (w1' & Hw1' & _ & _ & _ & ->).
  rewrite Hw1 in Hw1'. injection Hw1' as <-.
  rewrite Hfire. cbv zeta. rewrite R7.
  set (w2 := with_value v w1).
  set (st3 := emit (EvCall i v (value w)) (set_watcher i w2 st1)).
  assert (script_with
            (notify_with
               (update_with (run cfg deep_reads fu)
                  (queueWatcher_with cfg (flushSchedulerQueue cfg deep_reads fu))))
            (writes_script d [f]) st3
          = Some (with_sched
                    (with_queue
                       (take (S (index (sched st))) (queue (sched st))
                        ++ i :: drop (S (index (sched st))) (queue (sched st)))
                       (with_has ({[i]} ∪ has (sched st)) (sched st)))
                    (with_world (f (world st)) st3), Normal)) as ->.
  { cbn [writes_script script_with].
    assert (world st3 = world st) as -> by (unfold st3; simpl; exact G1).
    cbn [for_each]. unfold notify_with at 1.
    assert (subs_of (with_world (f (world st)) st3) d = [i]) as -> by exact Hsubs1.
    cbn [for_each]. unfold update_with at 1.
    assert (watchers (with_world (f (world st)) st3) !! i = Some w2) as ->
      by (unfold st3; simpl; by rewrite lookup_insert_eq).
    destruct Hsc as (C1 & C2 & C3 & C4 & C5 & C6 & C7 & C8).
    assert (lazy w2 = false) as -> by (unfold w2; simpl; congruence).
    assert (sync w2 = false) as -> by (unfold w2; simpl; congruence).
    unfold queueWatcher_with.
    assert (sched (with_world (f (world st)) st3) = sched st) as -> by exact G2.
    rewrite decide_False by done. cbv zeta. cbn [flushing with_has].
    rewrite Hflush. cbn [queue index with_has waiting with_queue].
    rewrite Hwait. rewrite splice_pos_front by done.
    unfold splice. reflexivity. }
  eexists _, w2. split; [reflexivity|].
  destruct Hsc as (C1 & C2 & C3 & C4 & C5 & C6 & C7 & C8).
  split_and!; try done.
  - unfold st3. simpl. by rewrite lookup_insert_eq.
  - apply (consistent_ext i (set_watcher i w2 st1)); [done|done|].
    unfold w2.
    apply (consistent_same_tracking i w1 (with_value v w1) st1); done.
  - unfold st3. simpl. by rewrite G4.
Qed.

Lemma fires_same_code w w' v :
  same_code w w' → fires w' v = fires (with_value (value w') w) v.
Proof. intros (C1 & _). unfold fires. simpl. by rewrite C1. Qed.

(** One iteration of the loop on a restless watcher, up to the check. *)
Lemma spinning_step fu i d f w rest st0 k st :
  restless deep_reads d f w → fires w (got w (world st0)) = true →
  Forall (λ x, i < x) rest →
  spinning i d f w rest st0 k st →
  ∃ st3 w',
    watchers st !! i = Some w' ∧ before w' = None ∧
    queue (sched st) !! index (sched st) = Some i ∧
    run cfg deep_reads (S fu) i (emit (EvRun i) (clear_has i st))
      = Some (st3, Normal) ∧
    i ∈ has (sched st3) ∧ circular (sched st3) = circular (sched st) ∧
    world st3 = Nat.iter (S k) f (world st0) ∧
    queue (sched st3) = replicate (S (S k)) i ++ rest ∧
    index (sched st3) = k ∧ ticks (sched st3) = ticks (sched st0) ∧
    runs_of (log st3) = runs_of (log st0) ++ replicate (S k) i ∧
    warns_of (log st3) = warns_of (log st0) ∧
    (∀ st4, world st4 = world st3 → watchers st4 = watchers st3 →
            subs st4 = subs st3 → log st4 = log st3 →
            queue (sched st4) = queue (sched st3) →
            index (sched st4) = S (index (sched st3)) →
            waiting (sched st4) = waiting (sched st3) →
            flushing (sched st4) = flushing (sched st3) →
            ticks (sched st4) = ticks (sched st3) →
            spinning i d f w rest st0 (S k) st4).
Proof.
  intros Hr Hfire0 Hrest [S1 S2 S3 S4 S5 S6 (w' & Hw' & Hsc & Hval) S8 S9 S10 S11].
  pose proof (restless_same_code d f w w' Hr Hsc) as Hr'.
  assert (∀ x, got w' x = got w x) as Hgot.
  { intros x. unfold got. destruct Hsc as (_ & _ & _ & _ & _ & _ & -> & _). done. }
  assert (fires w' (got w' (world st)) = true) as Hfire.
  { rewrite Hgot, (fires_same_code w w' _ Hsc), Hval, S1.
    destruct k as [|k'].
    - simpl. assert (with_value (value w) w = w) as -> by (by destruct w). done.
    - simpl. apply (rl_fires _ _ _ _ Hr). }
  set (st1 := emit (EvRun i) (clear_has i st)).
  assert (drop (S k) (replicate (S k) i ++ rest) = rest) as Hdrop.
  { rewrite drop_app_length'; [done|]. by rewrite length_replicate. }
  assert (take (S k) (replicate (S k) i ++ rest) = replicate (S k) i) as Htake.
  { rewrite take_app_length'; [done|]. by rewrite length_replicate. }
  destruct (restless_run fu i w' d f st1) as (st3 & w3 & Hrun & R1 & R2 & R3 & R4 & R5 & R6 & R7 & R8).
  - unfold st1. simpl. exact Hw'.
  - exact Hr'.
  - exact Hfire.
  - apply (consistent_ext i st); done.
  - exact S9.
  - exact S4.
  - exact S5.
  - unfold st1. simpl. set_solver.
  - unfold st1. simpl. rewrite S2, S3, length_app, length_replicate. lia.
  - unfold st1. simpl. rewrite S2, S3, Hdrop. exact Hrest.
  - unfold st1 in R7. simpl in R7. rewrite S2, S3, Htake, Hdrop in R7.
    exists st3, w'. split; [done|].
    split; [by rewrite (rl_before _ _ _ _ Hr')|].
    split.
    { rewrite S2, S3, lookup_app_l by (rewrite length_replicate; lia).
      apply lookup_replicate_2. lia. }
    split; [done|].
    assert (queue (sched st3) = replicate (S (S k)) i ++ rest) as Hq.
    { rewrite R7. cbn [queue with_queue].
      rewrite (replicate_S_end (S k)), <-app_assoc. done. }
    assert (runs_of (log st3) = runs_of (log st0) ++ replicate (S k) i) as Hruns.
    { rewrite R8. unfold st1. simpl. rewrite !runs_of_app, S10. simpl.
      rewrite app_nil_r, <-app_assoc. f_equal. by rewrite <-replicate_S_end. }
    assert (warns_of (log st3) = warns_of (log st0)) as Hwarns.
    { rewrite R8. unfold st1. simpl. rewrite !warns_of_app, S11. simpl.
      by rewrite !app_nil_r. }
    split; [rewrite R7; simpl; set_solver|].
    split; [by rewrite R7|].
    split; [rewrite R1; unfold st1; simpl; by rewrite S1|].
    split; [done|].
    split; [rewrite R7; simpl; done|].
    split; [rewrite R7; simpl; done|].
    split; [done|]. split; [done|].
    intros st4 E1 E2 E3 E4 E5 E6 E7 E8 E9. split.
    + rewrite E1, R1. unfold st1. simpl. by rewrite S1.
    + by rewrite E5.
    + rewrite E6, R7. simpl. by rewrite S3.
    + rewrite E7, R7. simpl. done.
    + rewrite E8, R7. simpl. done.
    + rewrite E9, R7. simpl. done.
    + exists w3. rewrite E2. split; [done|]. split.
      * eapply same_code_trans; eassumption.
      * rewrite R4, Hgot. unfold st1. simpl. by rewrite S1.
    + by apply (consistent_ext i st3).
    + unfold subs_of. rewrite E3. exact R6.
    + by rewrite E4.
    + by rewrite E4.
Qed.

Lemma spinning_start i d f w rest st :
  watchers st !! i = Some w → consistent st i → subs_of st d = [i] →
  waiting (sched st) = true →
  merge_sort le (queue (sched st)) = i :: rest →
  spinning i d f w rest st 0 (flush_start st).
Proof.
  intros Hw Hcons Hsubs Hwait Hq. split; try done.
  - exists w. split; [done|]. split; [apply same_code_refl | done].
  - simpl. by rewrite app_nil_r.
Qed.

(** Outside production the loop on a restless watcher is left after the
    run in which the watcher is found queued again for the 101st time. *)
Lemma spinning_aborts fu i d f w rest st0 :
  production cfg = false →
  restless deep_reads d f w → fires w (got w (world st0)) = true →
  Forall (λ x, i < x) rest →
  ∀ j k st n,
    k + j = MAX_UPDATE_COUNT →
    spinning i d f w rest st0 k st →
    circular (sched st) !! i = match k with 0 => None | S _ => Some k end →
    j < n →
    ∃ st',
      drain cfg (run cfg deep_reads (S fu)) (script cfg deep_reads (S fu)) n st
        = Some (st', Normal) ∧
      world st' = Nat.iter (S MAX_UPDATE_COUNT) f (world st0) ∧
      queue (sched st') = replicate (S (S MAX_UPDATE_COUNT)) i ++ rest ∧
      ticks (sched st') = ticks (sched st0) ∧
      runs_of (log st') = runs_of (log st0) ++ replicate (S MAX_UPDATE_COUNT) i ∧
      warns_of (log st') = warns_of (log st0) ++ [i] ∧
      last (log st') = Some (EvWarn i).
Proof.
  intros Hprod Hr Hfire Hrest j.
  induction j as [|j IH]; intros k st n Hk Hsp Hcirc Hn.
  - destruct n as [|n]; [lia|]. rewrite drain_unfold.
    destruct (spinning_step fu i d f w rest st0 k st Hr Hfire Hrest Hsp)
      as (st3 & w' & Hw' & Hb & Hq & Hrun & Hhas & Hc & Hwo & Hqu & Hix & Hti & Hru & Hwa & _).
    rewrite Hq, Hw', Hb, Hrun, Hprod. cbn [negb andb].
    rewrite bool_decide_eq_true_2 by done. rewrite Hc.
    assert (default 0 (circular (sched st) !! i) = k) as ->
      by (rewrite Hcirc; by destruct k).
    rewrite bool_decide_eq_true_2 by lia.
    eexists. split; [reflexivity|].
    assert (k = MAX_UPDATE_COUNT) as -> by lia.
    split_and!; try done.
    + simpl. rewrite runs_of_app, Hru. simpl. by rewrite app_nil_r.
    + simpl. rewrite warns_of_app, Hwa. done.
    + apply last_snoc.
  - destruct n as [|n]; [lia|]. rewrite drain_unfold.
    destruct (spinning_step fu i d f w rest st0 k st Hr Hfire Hrest Hsp)
      as (st3 & w' & Hw' & Hb & Hq & Hrun & Hhas & Hc & Hwo & Hqu & Hix & Hti & Hru & Hwa & Hnext).
    rewrite Hq, Hw', Hb, Hrun, Hprod. cbn [negb andb].
    rewrite bool_decide_eq_true_2 by done. rewrite Hc.
    assert (default 0 (circular (sched st) !! i) = k) as ->
      by (rewrite Hcirc; by destruct k).
    rewrite bool_decide_eq_false_2 by lia.
    apply (IH (S k)); [lia| | |lia].
    + apply Hnext; done.
    + simpl. rewrite lookup_insert_eq, Hc.
      assert (default 0 (circular (sched st) !! i) = k) as ->
        by (rewrite Hcirc; by destruct k).
      f_equal. lia.
Qed.

(** In production the same loop never ends. *)
Lemma spinning_forever fu i d f w rest st0 :
  production cfg = true →
  restless deep_reads d f w → fires w (got w (world st0)) = true →
  Forall (λ x, i < x) rest →
  ∀ n k st,
    spinning i d f w rest st0 k st →
    drain cfg (run cfg deep_reads (S fu)) (script cfg deep_reads (S fu)) n st = None.
Proof.
  intros Hprod Hr Hfire Hrest n.
  induction n as [|n IH]; intros k st Hsp; [done|].
  rewrite drain_unfold.
  destruct (spinning_step fu i d f w rest st0 k st Hr Hfire Hrest Hsp)
    as (st3 & w' & Hw' & Hb & Hq & Hrun & Hhas & Hc & Hwo & Hqu & Hix & Hti & Hru & Hwa & Hnext).
  rewrite Hq, Hw', Hb, Hrun, Hprod. cbn [negb andb].
  apply (IH (S k)). apply Hnext; done.
Qed.

(** C3, as the code has it.  A flush whose queue is headed by a watcher
    that re-invalidates itself unconditionally - its callback assigns the
    property it watches, so that it is found queued again after each of its
    runs.  Outside production the flush is left after the run in which the
    watcher is found queued again for the 101st time: it has run 101 times,
    one diagnostic for it has been emitted, the watchers queued behind it
    have not been run, and the scheduler is reset.  In production the check
    is not made, and the flush never returns.  And of any flush that
    returns: it either ran every queue entry without a diagnostic, or -
    outside production only - was left at an entry found queued again for
    the 101st time, after one diagnostic for that watcher, with the entries
    behind the cursor not run. *)
Theorem runaway_update_check fuel i w d f rest st :
  watchers st !! i = Some w → restless deep_reads d f w →
  fires w (got w (world st)) = true →
  consistent st i → subs_of st d = [i] →
  waiting (sched st) = true →
  merge_sort le (queue (sched st)) = i :: rest → Forall (λ x, i < x) rest →
  circular (sched st) !! i = None →
  (production cfg = false → MAX_UPDATE_COUNT < fuel →
   ∃ st',
     flushSchedulerQueue cfg deep_reads fuel st = Some (st', Normal) ∧
     runs_of (log st') = runs_of (log st) ++ replicate (S MAX_UPDATE_COUNT) i ∧
     warns_of (log st') = warns_of (log st) ++ [i] ∧
     (∃ l, log st' = l ++ [EvWarn i;
                           EvHooks (replicate (S (S MAX_UPDATE_COUNT)) i ++ rest)]) ∧
     world st' = Nat.iter (S MAX_UPDATE_COUNT) f (world st) ∧
     queue (sched st') = [] ∧ has (sched st') = ∅ ∧
     waiting (sched st') = false ∧ flushing (sched st') = false ∧
     ticks (sched st') = ticks (sched st))
  ∧
  (production cfg = true →
   ∀ fuel', flushSchedulerQueue cfg deep_reads fuel' st = None)
  ∧
  (∀ fuel0 st0 st0',
     waiting (sched st0) = true →
     (∀ id, default 0 (circular (sched st0) !! id) ≤ MAX_UPDATE_COUNT) →
     flushSchedulerQueue cfg deep_reads fuel0 st0 = Some (st0', Normal) →
     ∃ sd,
       st0' = emit (EvHooks (queue (sched sd))) (resetSchedulerState cfg sd) ∧
       ((queue (sched sd) !! index (sched sd) = None ∧
         runs_of (log sd) = runs_of (log st0) ++ queue (sched sd) ∧
         warns_of (log sd) = warns_of (log st0))
        ∨
        (production cfg = false ∧
         ∃ j, queue (sched sd) !! index (sched sd) = Some j ∧
              j ∈ drop (S (index (sched sd))) (queue (sched sd)) ∧
              circular (sched sd) !! j = Some (S MAX_UPDATE_COUNT) ∧
              runs_of (log sd)
                = runs_of (log st0) ++ take (S (index (sched sd))) (queue (sched sd)) ∧
              warns_of (log sd) = warns_of (log st0) ++ [j] ∧
              last (log sd) = Some (EvWarn j)))).
Proof.
  intros Hw Hr Hfire Hcons Hsubs Hwait Hq Hrest Hcirc.
  pose proof (spinning_start i d f w rest st Hw Hcons Hsubs Hwait Hq) as Hsp.
  split; [|split]; [| |intros fuel0 st0 st0' Hwait0 Hcirc0 Hflush;
    destruct (flush_return_states fuel0 st0 st0' Hwait0 Hcirc0 Hflush)
      as (sd & Hsd & [(A1 & A2 & A3 & _)|Hab]);
    exists sd; (split; [exact Hsd|]); [left; done | right; exact Hab]].
  - intros Hprod Hfuel.
    destruct fuel as [|[|fu]]; [unfold MAX_UPDATE_COUNT in Hfuel; lia..|].
    rewrite flush_unfold, flush_with_start.
    destruct (spinning_aborts fu i d f w rest st Hprod Hr Hfire Hrest
                MAX_UPDATE_COUNT 0 (flush_start st) (S (S fu)))
      as (st' & Hdrain & D1 & D2 & D3 & D4 & D5 & D6); [done|done|done|lia|].
    rewrite Hdrain. eexists. split; [reflexivity|].
    split; [by rewrite runs_of_flush_end|].
    split; [simpl; rewrite warns_of_app, D5; simpl; by rewrite app_nil_r|].
    split.
    { apply last_Some in D6 as [l Hl]. exists l. simpl. rewrite Hl, D2.
      by rewrite <-app_assoc. }
    split; [done|]. split; [done|]. split; [done|]. split; [done|].
    split; [done|]. simpl. done.
  - intros Hprod fuel'.
    destruct fuel' as [|[|fu]]; [done| |].
    + rewrite flush_unfold, flush_with_start.
      destruct Hsp as [S1 S2 S3 S4 S5 S6 (w' & Hw' & Hsc & Hval) S8 S9 S10 S11].
      rewrite drain_unfold, S2, S3.
      change ((replicate 1 i ++ rest) !! 0) with (Some i). cbv beta iota.
      rewrite Hw'.
      destruct Hsc as (_ & _ & _ & _ & Hb & _).
      rewrite Hb, (rl_before _ _ _ _ Hr). done.
    + rewrite flush_unfold, flush_with_start.
      by rewrite (spinning_forever fu i d f w rest st Hprod Hr Hfire Hrest
                    (S (S fu)) 0 (flush_start st) Hsp).
Qed.

End SchedTheory.

(** ** observe, reactiveSetter and set *)

Module ObserverTheory.
Import Observer.











(** Induction on a getter through the getter it wraps. *)
Lemma GetFn_wrapped_ind (P : GetFn → Prop) :
  (∀ f, P (UserGet f)) →
  (∀ c, P (ReactiveGet c None)) →
  (∀ c g, P g → P (ReactiveGet c (Some g))) →
  ∀ g, P g.
Proof.
  intros H1 H2 H3. fix IH 1. intros [f|c [g|]].
  - apply H1.
  - apply H3, IH.
  - apply H2.
Qed.

Section Code.
Variable cfg : Config.
Variable ssr : bool.
Variable getter_sem : nat → Heap → Value.
Variable setter_sem : nat → Value → Heap → Heap.














Lemma observe_primitive fuel v r h :
  isObject v = false → observe ssr getter_sem fuel v r h = Some (h, None).
Proof. destruct v; try done; by destruct fuel. Qed.


Lemma get_replace_prop k k' p ps :
  get_prop k' (replace_prop k p ps)
  = if decide (k' = k) then (λ _, p) <$> get_prop k ps else get_prop k' ps.
Proof.
  induction ps as [|[k1 p1] ps IH]; simpl.
  - by case_decide.
  - destruct (decide (k1 = k)) as [->|Hk1]; simpl.
    + repeat case_decide; by simplify_eq.
    + rewrite IH. repeat case_decide; by simplify_eq.
Qed.

Lemma get_add_index n k k' p ps :
  get_prop k ps = None →
  get_prop k' (add_index n k p ps)
  = if decide (k = k') then Some p else get_prop k' ps.
Proof.
  induction ps as [|[k1 p1] ps IH]; [done|].
  cbn [add_index]. intros Hk. cbn [get_prop] in Hk.
  destruct (decide (k1 = k)) as [|Hk1]; [done|].
  destruct (array_index k1) as [m|]; [|done].
  destruct (m <? n)%N; [|done].
  cbn [get_prop]. rewrite (IH Hk).
  repeat case_decide; by simplify_eq.
Qed.

Lemma get_prop_snoc k k' p ps :
  get_prop k' (ps ++ [(k, p)])
  = match get_prop k' ps with
    | Some q => Some q
    | None => if decide (k = k') then Some p else None
    end.
Proof.
  induction ps as [|[k1 p1] ps IH]; simpl; [done|].
  by destruct (decide (k1 = k')).
Qed.

Lemma get_put_prop k p ps : get_prop k (put_prop k p ps) = Some p.
Proof.
  unfold put_prop. destruct (get_prop k ps) as [q|] eqn:E.
  - rewrite get_replace_prop, decide_True by done. by rewrite E.
  - destruct (array_index k) as [n|].
    + by rewrite get_add_index, decide_True.
    + by rewrite get_prop_snoc, E, decide_True.
Qed.

Lemma get_put_prop_ne k k' p ps :
  k' ≠ k → get_prop k' (put_prop k p ps) = get_prop k' ps.
Proof.
  intros Hne. unfold put_prop. destruct (get_prop k ps) as [q|] eqn:E.
  - by rewrite get_replace_prop, decide_False.
  - destruct (array_index k) as [n|].
    + by rewrite get_add_index, decide_False.
    + rewrite get_prop_snoc. destruct (get_prop k' ps); [done|].
      by rewrite decide_False.
Qed.

(** C10, as the code has it.  [set] on a plain object that carries no
    Observer and is not a Vue instance, with a key the object does not
    own - other than [__ob__] and [__proto__] -, is the assignment
    [target[key] = val] followed by [return val].
    On an extensible object it adds a data property, keeps the others and
    returns [val]; on an object that is not extensible the assignment
    throws a TypeError and the heap stays as it is.  Either way no Dep,
    closure or Observer is created and no Dep is notified. *)
Theorem set_on_unobserved_object fuel a o key val h :
  objs h !! a = Some o → kind o = KPlain → isVue o = false → ob o = None →
  unmodelled_key key = false →
  get_prop (key_name key) (props o) = None →
  set cfg ssr getter_sem setter_sem fuel (VObj a) key val h
    = match assign cfg ssr getter_sem setter_sem fuel a (key_name key) val h with
      | Some (h', Normal) => Some (h', inl val)
      | Some (h', Throws e) => Some (h', inr e)
      | None => None
      end
  ∧
  (extensible o = true →
   ∃ h',
     set cfg ssr getter_sem setter_sem fuel (VObj a) key val h = Some (h', inl val) ∧
     h' = set_obj a (with_props (put_prop (key_name key) (Data val true true) (props o)) o) h ∧
     (∃ o', objs h' !! a = Some o' ∧
            get_prop (key_name key) (props o') = Some (Data val true true) ∧
            (∀ k', k' ≠ key_name key →
                   get_prop k' (props o') = get_prop k' (props o)) ∧
            ob o' = None))
  ∧
  (extensible o = false →
   set cfg ssr getter_sem setter_sem fuel (VObj a) key val h
     = Some (h, inr TypeError))
  ∧
  (∀ h' r,
     set cfg ssr getter_sem setter_sem fuel (VObj a) key val h = Some (h', r) →
     events h' = events h ∧ cells h' = cells h ∧ next_dep h' = next_dep h ∧
     next_cell h' = next_cell h ∧ observers h' = observers h).
Proof.
  intros Ho Hk Hv Hob Hum Hkey.
  assert (set cfg ssr getter_sem setter_sem fuel (VObj a) key val h
          = match assign cfg ssr getter_sem setter_sem fuel a (key_name key) val h with
            | Some (h', Normal) => Some (h', inl val)
            | Some (h', Throws e) => Some (h', inr e)
            | None => None
            end) as Hset.
  { unfold set. rewrite Ho, Hum, Hk, Hv, Hob. simpl.
    assert (key_in key o && negb (in_Object_prototype (key_name key)) = false) as ->.
    { destruct key as [n|k]; simpl in *.
      - rewrite Hk. rewrite decide_False by done. rewrite Hkey.
        rewrite bool_decide_eq_false_2; [done|]. by intros [? ?].
      - rewrite Hkey, Hob.
        rewrite (bool_decide_eq_false_2 (is_Some None)) by (by intros [? ?]).
        rewrite (bool_decide_eq_false_2 (is_Some None)) by (by intros [? ?]).
        rewrite andb_false_r, orb_false_r. simpl.
        by destruct (in_Object_prototype k). }
    done. }
  assert (assign cfg ssr getter_sem setter_sem fuel a (key_name key) val h
          = if extensible o
            then Some (set_obj a (with_props (put_prop (key_name key) (Data val true true)
                                                       (props o)) o) h, Normal)
            else Some (h, Throws TypeError)) as Hassign.
  { unfold assign. by rewrite Ho, Hkey. }
  split; [exact Hset|]. split; [|split].
  - intros He. rewrite Hset, Hassign, He. eexists. split; [done|]. split; [done|].
    eexists. simpl. rewrite lookup_insert_eq. split; [done|]. simpl.
    split; [apply get_put_prop|]. split; [|done].
    intros k' Hk'. by apply get_put_prop_ne.
  - intros He. by rewrite Hset, Hassign, He.
  - intros h' r. rewrite Hset, Hassign.
    destruct (extensible o); intros [= <- <-]; done.
Qed.

End Code.

End ObserverTheory.

(** ** Reading, array methods and [del] *)

Module ObserverOpsTheory.
Import Observer ObserverOps.

Lemma reads_only_refl h : reads_only h h.
Proof.
  unfold reads_only. split_and!; try done. exists []. by rewrite app_nil_r.
Qed.

Lemma reads_only_trans h1 h2 h3 :
  reads_only h1 h2 → reads_only h2 h3 → reads_only h1 h3.
Proof.
  intros (A1 & A2 & A3 & A4 & A5 & A6 & A7 & A8 & ds1 & E1 & T1)
         (B1 & B2 & B3 & B4 & B5 & B6 & B7 & B8 & ds2 & E2 & T2).
  unfold reads_only. split_and!; try congruence.
  exists (ds1 ++ ds2). split.
  - by rewrite E2, E1, fmap_app, app_assoc.
  - intros Ht. rewrite T1, T2; [done | congruence | done].
Qed.

Lemma reads_only_dep_depend d h : reads_only h (dep_depend d h).
Proof.
  unfold dep_depend. destruct (tracking h) eqn:Ht; [|apply reads_only_refl].
  unfold reads_only. split_and!; try done. exists [d]. split; [done|].
  intros Hf. simpl in Hf. congruence.
Qed.

Lemma reads_only_depend_on_ob_of v h : reads_only h (depend_on_ob_of v h).
Proof.
  unfold depend_on_ob_of. destruct v; try apply reads_only_refl.
  destruct (objs h !! a) as [o|]; [|apply reads_only_refl].
  destruct (ob o) as [id|]; [|apply reads_only_refl].
  destruct (dep_of_ob id h); [apply reads_only_dep_depend | apply reads_only_refl].
Qed.

Lemma reads_only_foldl {A} (step : A → Heap → option Heap) l :
  (∀ x h h', step x h = Some h' → reads_only h h') →
  ∀ h h',
    foldl (λ acc e, match acc with None => None | Some h1 => step e h1 end)
          (Some h) l = Some h' →
    reads_only h h'.
Proof.
  intros Hstep h. induction l as [|x l IH] using rev_ind; intros h'.
  - simpl. intros [= <-]. apply reads_only_refl.
  - rewrite foldl_app. simpl.
    destruct (foldl _ (Some h) l) as [h1|] eqn:E; [|done].
    intros H. eapply reads_only_trans; [by apply IH | by eapply Hstep].
Qed.

Lemma reads_only_dependArray fuel : ∀ vs h h',
  dependArray fuel vs h = Some h' → reads_only h h'.
Proof.
  induction fuel as [|f IH]; intros vs h h'; [done|]. simpl.
  apply (reads_only_foldl
           (λ e h1, match array_items e (depend_on_ob_of e h1) with
                    | Some vs' => dependArray f vs' (depend_on_ob_of e h1)
                    | None => Some (depend_on_ob_of e h1)
                    end)).
  intros x h1 h2 H. eapply reads_only_trans; [apply reads_only_depend_on_ob_of|].
  destruct (array_items x (depend_on_ob_of x h1)) as [vs'|].
  - by eapply IH.
  - injection H as <-. apply reads_only_refl.
Qed.

Lemma reads_only_same_heap h h' :
  reads_only h h' → tracking h = false → h' = h.
Proof.
  intros (A1 & A2 & A3 & A4 & A5 & A6 & A7 & A8 & ds & E & T) Ht.
  rewrite (T Ht) in E. simpl in E. rewrite app_nil_r in E.
  destruct h, h'. simpl in *. congruence.
Qed.

Lemma depends_only_refl h : depends_only h h.
Proof. split; [done|]. exists []. by rewrite app_nil_r. Qed.

Lemma depends_only_trans h1 h2 h3 :
  depends_only h1 h2 → depends_only h2 h3 → depends_only h1 h3.
Proof.
  intros (A & ds1 & E1 & T1) (B & ds2 & E2 & T2).
  split; [congruence|]. exists (ds1 ++ ds2). split.
  - by rewrite E2, E1, fmap_app, app_assoc.
  - intros Ht. rewrite T1, T2; [done | congruence | done].
Qed.

Lemma depends_only_reads h h' : reads_only h h' → depends_only h h'.
Proof. intros (_ & _ & _ & _ & _ & _ & _ & A & B). by split. Qed.

Lemma depends_only_same h h' :
  events h' = events h → tracking h' = tracking h → depends_only h h'.
Proof. intros E T. split; [done|]. exists []. by rewrite app_nil_r. Qed.

Section Code.
Variable cfg : Config.
Variable ssr : bool.
Variable getter_sem : nat → Heap → Value.
Variable setter_sem : nat → Value → Heap → Heap.
Variable sort_sem : list Value → list Value.

Lemma no_user_getters_single a0 o0 h :
  objs h = {[a0 := o0]} →
  Forall (λ kp, match kp.2 with
                | Accessor (Some g) _ _ _ => reactive_only g = true
                | _ => True
                end) (props o0) →
  no_user_getters h.
Proof.
  intros Hobjs Hall a o k g s e c Ho Hg. rewrite Hobjs in Ho.
  apply lookup_singleton_Some in Ho as [_ <-].
  induction Hall as [|[k1 p1] ps H1 _ IH]; [done|].
  simpl in Hg. destruct (decide (k1 = k)); [|by apply IH].
  injection Hg as ->. exact H1.
Qed.

Lemma reads_only_reactive_get_tail fuel (cell : Cell) h h1 value r :
  reads_only h h1 →
  (if tracking h1 then
     let h2 := dep_depend (c_dep cell) h1 in
     match c_childOb cell with
     | Some id =>
         let h3 := match dep_of_ob id h2 with
                   | Some d => dep_depend d h2
                   | None => h2
                   end in
         match array_items value h3 with
         | Some vs =>
             match dependArray fuel vs h3 with
             | Some h4 => Some (h4, value)
             | None => None
             end
         | None => Some (h3, value)
         end
     | None => Some (h2, value)
     end
   else Some (h1, value)) = Some r →
  reads_only h r.1 ∧ r.2 = value.
Proof.
  intros Hinner.
  destruct (tracking h1); [|by intros [= <-]].
  assert (reads_only h (dep_depend (c_dep cell) h1)) as H2
    by (eapply reads_only_trans; [exact Hinner | apply reads_only_dep_depend]).
  cbv zeta.
  destruct (c_childOb cell) as [id|]; [|by intros [= <-]].
  set (h3 := match dep_of_ob id _ with Some d => _ | None => _ end).
  assert (reads_only h h3) as H3.
  { eapply reads_only_trans; [exact H2|]. unfold h3.
    destruct (dep_of_ob id _); [apply reads_only_dep_depend | apply reads_only_refl]. }
  destruct (array_items value h3) as [vs|]; [|by intros [= <-]].
  destruct (dependArray fuel vs h3) as [h4|] eqn:E; [|done].
  intros [= <-]. split; [|done].
  eapply reads_only_trans; [exact H3 | by eapply reads_only_dependArray].
Qed.

Lemma reads_only_call_get fuel g : ∀ h h' v,
  call_get getter_sem fuel g h = Some (h', v) → reads_only h h'.
Proof.
  induction g as [f|c|c g IH] using ObserverTheory.GetFn_wrapped_ind;
    intros h h' v; simpl.
  - intros [= <- _]. apply reads_only_refl.
  - destruct (cells h !! c) as [cell|]; [|done].
    intros E.
    by destruct (reads_only_reactive_get_tail fuel cell h h _ _ (reads_only_refl h) E).
  - destruct (cells h !! c) as [cell|]; [|done].
    destruct (call_get getter_sem fuel g h) as [[h1 value]|] eqn:Eg; [|done].
    intros E.
    by destruct (reads_only_reactive_get_tail fuel cell h h1 _ _ (IH _ _ _ Eg) E).
Qed.

Lemma reads_only_read_prop fuel a k h h' v :
  read_prop getter_sem fuel a k h = Some (h', v) → reads_only h h'.
Proof.
  unfold read_prop. destruct (objs h !! a) as [o|]; [|done].
  destruct (get_prop k (props o)) as [[v0 e c|[g|] s e c]|];
    try (intros [= <- _]; apply reads_only_refl).
  apply reads_only_call_get.
Qed.

(** X11. Where no property has a getter of the user's, reading a property
    never changes the data: whether it is a data property, a reactive one,
    or a reactive one wrapping another, the objects, the closure variables
    and the Observers are as before, and no Dep is notified.  With
    [Dep.target] set the read calls [depend()] on Deps; without, it leaves
    no trace at all. *)
Theorem reading_is_pure fuel a k h h' v :
  no_user_getters h →
  read_prop getter_sem fuel a k h = Some (h', v) →
  objs h' = objs h ∧ cells h' = cells h ∧ observers h' = observers h ∧
  (∃ ds, events h' = events h ++ (EDepend <$> ds)) ∧
  (tracking h = false → h' = h).
Proof.
  intros _ E. pose proof (reads_only_read_prop _ _ _ _ _ _ E) as R.
  destruct R as (A1 & A2 & A3 & A4 & A5 & A6 & A7 & A8 & ds & Ev & T).
  split_and!; try done.
  - by exists ds.
  - apply reads_only_same_heap. unfold reads_only. split_and!; try done.
    by exists ds.
Qed.

Lemma depends_only_each {A} (f : A → Heap → option Heap) l :
  (∀ x h h', f x h = Some h' → depends_only h h') →
  ∀ h h', each f l h = Some h' → depends_only h h'.
Proof.
  intros Hf. induction l as [|x l IH]; intros h h'; simpl.
  - intros [= <-]. apply depends_only_refl.
  - destruct (f x h) as [h1|] eqn:E; [|done].
    intros H. eapply depends_only_trans; [by eapply Hf | by apply IH].
Qed.

Lemma depends_only_defineReactive_with
    (obs : Value → Heap → option (Heap * option nat)) fuel a k val cs sh h h' :
  (∀ v h1 h2 r, obs v h1 = Some (h2, r) → depends_only h1 h2) →
  defineReactive_with getter_sem obs fuel a k val cs sh h = Some h' →
  depends_only h h'.
Proof.
  intros Hobs. unfold defineReactive_with.
  destruct (new_dep h) as [h0 dep] eqn:Enew.
  assert (depends_only h h0) as H0.
  { replace h0 with (new_dep h).1 by (by rewrite Enew). by apply depends_only_same. }
  destruct (objs h0 !! a) as [o|] eqn:Eo; [|done].
  destruct (match get_prop k (props o) with
            | Some p => negb (is_configurable p)
            | None => false
            end); [by intros [= <-]|].
  set (getter := match get_prop k (props o) with
                 | Some (Accessor g _ _ _) => g | _ => None end).
  set (setter := match get_prop k (props o) with
                 | Some (Accessor _ s _ _) => s | _ => None end).
  destruct (match val with
            | Some v => Some (h0, v)
            | None => match getter, setter with
                      | Some _, None => Some (h0, VUndefined)
                      | _, _ => read_prop getter_sem fuel a k h0
                      end
            end) as [[h1 v]|] eqn:Eval; [|done].
  assert (depends_only h0 h1) as H1.
  { destruct val as [v0|].
    - injection Eval as <- _. apply depends_only_refl.
    - destruct getter as [g|], setter as [s'|];
        try (by eapply depends_only_reads, reads_only_read_prop).
      injection Eval as <- _. apply depends_only_refl. }
  destruct (if sh then Some (h1, None) else obs v h1) as [[h2 childOb]|] eqn:Eobs; [|done].
  assert (depends_only h1 h2) as H2.
  { destruct sh.
    - injection Eobs as <- _. apply depends_only_refl.
    - by eapply Hobs. }
  destruct (new_cell (mkCell dep v childOb) h2) as [h3 c] eqn:Ecell.
  assert (depends_only h2 h3) as H3.
  { replace h3 with (new_cell (mkCell dep v childOb) h2).1 by (by rewrite Ecell).
    by apply depends_only_same. }
  destruct (objs h3 !! a) as [o3|] eqn:Eo3; [|done].
  intros [= <-].
  eapply depends_only_trans; [exact H0|]. eapply depends_only_trans; [exact H1|].
  eapply depends_only_trans; [exact H2|]. eapply depends_only_trans; [exact H3|].
  by apply depends_only_same.
Qed.

Lemma depends_only_observe fuel : ∀ v r h h' res,
  observe ssr getter_sem fuel v r h = Some (h', res) → depends_only h h'.
Proof.
  induction fuel as [|f IH]; intros v r h h' res.
  - destruct v; simpl; try (intros [= <- _]; apply depends_only_refl).
    destruct (objs h !! a) as [o|]; [|done].
    case_decide; [intros [= <- _]; apply depends_only_refl|].
    destruct (ob o) as [id|].
    + destruct r; [|intros [= <- _]; apply depends_only_refl].
      destruct (observers h !! id) as [rec|] eqn:E; [|done].
      intros [= <- _]. by apply depends_only_same.
    + destruct (_ && _); [done|]. intros [= <- _]. apply depends_only_refl.
  - destruct v; simpl; try (intros [= <- _]; apply depends_only_refl).
    destruct (objs h !! a) as [o|] eqn:Eo; [|done].
    case_decide; [intros [= <- _]; apply depends_only_refl|].
    assert (∀ h1 id, depends_only h h1 →
              (if r then
                 match observers h1 !! id with
                 | Some rec =>
                     Some (with_observers
                             (<[id := mkObRec (ob_value rec) (ob_dep rec)
                                              (S (vmCount rec))]> (observers h1)) h1,
                           Some id)
                 | None => None
                 end
               else Some (h1, Some id)) = Some (h', res) → depends_only h h') as Hroot.
    { intros h1 id H1. destruct r; [|by intros [= <- _]].
      destruct (observers h1 !! id) as [rec|] eqn:E; [|done].
      intros [= <- _]. eapply depends_only_trans; [exact H1 |]. by apply depends_only_same. }
    destruct (ob o) as [id|] eqn:Eob.
    + apply Hroot, depends_only_refl.
    + destruct (_ && _); [|intros [= <- _]; apply depends_only_refl].
      set (h3 := set_obj a _ _).
      assert (depends_only h h3) as H3 by (by apply depends_only_same).
      destruct (if bool_decide (kind o = KArray) then _ else _) as [h4|] eqn:Eloop; [|done].
      assert (depends_only h3 h4) as H4.
      { destruct (bool_decide (kind o = KArray)).
        - eapply depends_only_each; [|exact Eloop]. intros x h1 h2 E. cbv beta in E.
          destruct (observe ssr getter_sem f x false h1) as [[h2' r2]|] eqn:Ex;
            simpl in E; [|done].
          injection E as <-. by eapply IH.
        - eapply depends_only_each; [|exact Eloop]. intros x h1 h2 E.
          eapply depends_only_defineReactive_with; [|exact E].
          intros v h5 h6 r6 E6. cbv beta in E6. by apply (IH _ _ _ _ _ E6). }
      apply Hroot. eapply depends_only_trans; [exact H3 | exact H4].
Qed.

(** X12. Where no property has a getter of the user's, making data
    reactive notifies nobody: the only events [observe] adds - walking
    nested objects and arrays, calling the reactive getters of the
    properties it converts - are calls of [depend()], and without
    [Dep.target] it adds none. *)
Theorem observe_never_notifies fuel v r h h' res :
  no_user_getters h →
  observe ssr getter_sem fuel v r h = Some (h', res) →
  (∃ ds, events h' = events h ++ (EDepend <$> ds)) ∧
  (∀ d, ENotify d ∈ events h' → ENotify d ∈ events h) ∧
  (tracking h = false → events h' = events h).
Proof.
  intros _ E. destruct (depends_only_observe _ _ _ _ _ _ E) as (_ & ds & Ev & T).
  split_and!.
  - by exists ds.
  - intros d. rewrite Ev, elem_of_app, list_elem_of_fmap.
    intros [?|(x & ? & _)]; done.
  - intros Ht. rewrite Ev, (T Ht). simpl. apply app_nil_r.
Qed.

(** *** The array methods *)

Lemma observeArray_primitives fuel xs : ∀ h,
  (∀ x, x ∈ xs → isObject x = false) →
  observeArray ssr getter_sem fuel xs h = Some h.
Proof.
  unfold observeArray. induction xs as [|x xs IH]; intros h Hp; [done|].
  simpl. rewrite (ObserverTheory.observe_primitive ssr getter_sem fuel x false h)
    by (apply Hp; by left).
  simpl. apply IH. intros y Hy. apply Hp. by right.
Qed.

Lemma set_obj_twice a o1 o2 h : set_obj a o2 (set_obj a o1 h) = set_obj a o2 h.
Proof. unfold set_obj, with_objs. simpl. by rewrite insert_insert_eq. Qed.

Lemma set_obj_same a o h : objs h !! a = Some o → set_obj a o h = h.
Proof.
  intros Ho. unfold set_obj, with_objs. rewrite insert_id by done. by destruct h.
Qed.

Lemma with_items_same o : with_items (items o) o = o.
Proof. by destruct o. Qed.

Lemma callMethod_observed fuel a o id r m h :
  objs h !! a = Some o → kind o = KArray → patched o = true →
  ob o = Some id → observers h !! id = Some r →
  (∀ xs x, inserted m = Some xs → x ∈ xs → isObject x = false) →
  (Z.of_nat (length (native sort_sem (extensible o) m (items o)).1) < 2 ^ 32)%Z →
  callMethod ssr getter_sem sort_sem fuel a m h
  = let h1 := set_obj a (with_items (native sort_sem (extensible o) m (items o)).1 o) h in
    match (native sort_sem (extensible o) m (items o)).2 with
    | inl result => Some (dep_notify (ob_dep r) h1, inl result)
    | inr e => Some (h1, inr e)
    end.
Proof.
  intros Ho Hk Hp Hob Hr Hprim Hlen.
  unfold callMethod. rewrite Ho, decide_True by done.
  destruct (native sort_sem (extensible o) m (items o)) as [vs res] eqn:En.
  simpl in Hlen. rewrite bool_decide_eq_false_2 by lia.
  cbv zeta. simpl. destruct res as [result|e]; [|done].
  rewrite Hp, Hob.
  assert (match inserted m with
          | Some xs => observeArray ssr getter_sem fuel xs
                         (set_obj a (with_items vs o) h)
          | None => Some (set_obj a (with_items vs o) h)
          end = Some (set_obj a (with_items vs o) h)) as ->.
  { destruct (inserted m) as [xs|] eqn:Ei; [|done].
    apply observeArray_primitives. intros x Hx. by apply (Hprim xs). }
  unfold dep_of_ob. simpl. by rewrite Hr.
Qed.

Lemma native_extensible m vs :
  ∃ result, (native sort_sem true m vs).2 = inl result.
Proof.
  destruct m; simpl; eauto.
  - destruct (last vs); simpl; eauto.
  - destruct vs; simpl; eauto.
Qed.

(** X13. A call of a patched array method on an observed array, with
    primitive values as arguments, calls [notify()] on the array's Dep
    exactly once when the native method returns, after that method has done
    its work - also when the work changed nothing, as for [pop] on an empty
    array - and returns what the native method returned; on an extensible
    array the native method always returns.  When the native method throws,
    as [push] of a value does on an array that is not extensible, the call
    throws the same and notifies nobody. *)
Theorem mutator_notifies_once fuel a o id r m h :
  objs h !! a = Some o → kind o = KArray → patched o = true →
  ob o = Some id → observers h !! id = Some r →
  (∀ xs x, inserted m = Some xs → x ∈ xs → isObject x = false) →
  (Z.of_nat (length (items o)) < 2 ^ 32)%Z →
  (Z.of_nat (length (native sort_sem (extensible o) m (items o)).1) < 2 ^ 32)%Z →
  callMethod ssr getter_sem sort_sem fuel a m h
  = (let h1 := set_obj a (with_items (native sort_sem (extensible o) m (items o)).1 o) h in
     match (native sort_sem (extensible o) m (items o)).2 with
     | inl result => Some (dep_notify (ob_dep r) h1, inl result)
     | inr e => Some (h1, inr e)
     end)
  ∧ (extensible o = true →
     ∃ result, (native sort_sem (extensible o) m (items o)).2 = inl result)
  ∧ (items o = [] →
     callMethod ssr getter_sem sort_sem fuel a MPop h
       = Some (dep_notify (ob_dep r) h, inl (RValue VUndefined)))
  ∧ (extensible o = false → ∀ x xs,
     callMethod ssr getter_sem sort_sem fuel a (MPush (x :: xs)) h
       = Some (h, inr TypeError)).
Proof.
  intros Ho Hk Hp Hob Hr Hprim Hlen0 Hlen.
  split_and!.
  - by apply (callMethod_observed fuel a o id r).
  - intros ->. apply native_extensible.
  - intros Hitems.
    rewrite (callMethod_observed fuel a o id r MPop h); try done.
    + simpl. rewrite Hitems. simpl. rewrite <-Hitems, with_items_same.
      by rewrite set_obj_same.
    + simpl. by rewrite Hitems.
  - intros Hext x xs. unfold callMethod. rewrite Ho, decide_True by done.
    rewrite Hext. simpl. rewrite bool_decide_eq_false_2 by lia.
    by rewrite with_items_same, set_obj_same.
Qed.


Lemma splice_in_native n val vs :
  (native sort_sem true (MSplice (Z.of_nat n) (Some 1%Z) [val]) (extend_length n vs)).1
  = splice_in n val vs.
Proof.
  unfold native, splice_in, extend_length, splice_start, splice_count. simpl.
  destruct (decide (n < length vs)) as [Hlt|Hge].
  - replace (n - length vs) with 0 by lia. simpl. rewrite app_nil_r.
    assert ((Z.of_nat n <? 0)%Z = false) as -> by lia.
    replace (Z.to_nat (Z.min (Z.of_nat n) (Z.of_nat (length vs)))) with n by lia.
    replace (Z.to_nat (Z.min (Z.max 1 0) (Z.of_nat (length vs - n)))) with 1 by lia.
    rewrite Nat.add_1_r. by rewrite insert_take_drop.
  - rewrite length_app, length_replicate.
    assert ((Z.of_nat n <? 0)%Z = false) as -> by lia.
    replace (length vs + (n - length vs)) with n by lia.
    replace (Z.to_nat (Z.min (Z.of_nat n) (Z.of_nat n))) with n by lia.
    replace (n - n) with 0 by lia.
    replace (Z.to_nat (Z.min (Z.max 1 0) (Z.of_nat 0))) with 0 by lia.
    rewrite Nat.add_0_r.
    rewrite take_ge, drop_ge by (rewrite length_app, length_replicate; lia).
    by rewrite <-app_assoc.
Qed.

Lemma length_splice_in n val vs :
  length (splice_in n val vs) = if decide (n < length vs) then length vs else S n.
Proof.
  unfold splice_in. destruct (decide (n < length vs)).
  - by rewrite length_insert.
  - rewrite !length_app, length_replicate. simpl. lia.
Qed.

(** What [target.splice(key, 1, val)] does on the elements of an array made
    [key] long at least, when the key is an element's index or the array is
    extensible, and when it is neither. *)
Lemma native_splice_one ext n val vs :
  native sort_sem ext (MSplice (Z.of_nat n) (Some 1%Z) [val]) (extend_length n vs)
  = if bool_decide (n < length vs) || ext
    then (splice_in n val vs,
          inl (RArray (if decide (n < length vs)
                       then [default VUndefined (vs !! n)] else [])))
    else (extend_length n vs, inr TypeError).
Proof.
  assert ((Z.of_nat n <? 0)%Z = false) as Hn by (apply Z.ltb_ge; lia).
  unfold native, splice_in, extend_length, splice_start, splice_count.
  rewrite Hn. cbn [length].
  destruct (decide (n < length vs)) as [Hlt|Hge].
  - rewrite (bool_decide_eq_true_2 (n < length vs)) by done. cbn [orb].
    replace (n - length vs) with 0 by lia. cbn [replicate].
    rewrite app_nil_r.
    replace (Z.to_nat (Z.min (Z.of_nat n) (Z.of_nat (length vs)))) with n by lia.
    replace (Z.to_nat (Z.min (Z.max 1 0) (Z.of_nat (length vs - n)))) with 1 by lia.
    rewrite (bool_decide_eq_true_2 (1 ≤ 1)) by lia. rewrite orb_true_r.
    destruct (lookup_lt_is_Some_2 vs n Hlt) as [x Hx]. rewrite Hx.
    rewrite (drop_S _ _ _ Hx). cbn [take default].
    rewrite Nat.add_1_r. by rewrite insert_take_drop, take_0.
  - rewrite (bool_decide_eq_false_2 (n < length vs)) by done. cbn [orb].
    rewrite length_app, length_replicate.
    replace (length vs + (n - length vs)) with n by lia.
    replace (Z.to_nat (Z.min (Z.of_nat n) (Z.of_nat n))) with n by lia.
    replace (n - n) with 0 by lia.
    replace (Z.to_nat (Z.min (Z.max 1 0) (Z.of_nat 0))) with 0 by lia.
    rewrite (bool_decide_eq_false_2 (1 ≤ 0)) by lia. rewrite orb_false_r.
    rewrite Nat.add_0_r.
    rewrite take_ge, drop_ge by (rewrite length_app, length_replicate; lia).
    destruct ext; cbn [take].
    + by rewrite <-app_assoc.
    + rewrite bool_decide_eq_false_2 by lia. by rewrite app_nil_r.
Qed.

(** X15. [set] on an array with an index as key is [splice]: for an index
    below 2^32 - 1 that is an element's, or the end of the array, or any
    when the array is extensible, it makes the array long enough and then
    calls [target.splice(key, 1, val)] - the patched method, which observes
    [val] and notifies, on an observed array, and the native one otherwise -
    and returns [val], or throws what [splice] throws: a TypeError at the
    end of an array that is not extensible.  For an index of 2^32 or more
    making the array long enough throws a RangeError. *)
Theorem set_on_array_is_splice fuel a o n val h :
  objs h !! a = Some o → kind o = KArray →
  (patched o = true → is_Some (ob o)) →
  (Z.of_nat (length (items o)) < 2 ^ 32)%Z →
  ((Z.of_nat n < 2 ^ 32 - 1)%Z →
   n ≤ length (items o) ∨ extensible o = true →
   set cfg ssr getter_sem setter_sem fuel (VObj a) (KIdx n) val h
   = match callMethod ssr getter_sem sort_sem fuel a
             (MSplice (Z.of_nat n) (Some 1%Z) [val])
             (set_obj a (with_items (extend_length n (items o)) o) h) with
     | Some (h', inl _) => Some (h', inl val)
     | Some (h', inr e) => Some (h', inr e)
     | None => None
     end)
  ∧ ((Z.of_nat n < 2 ^ 32 - 1)%Z → extensible o = false → n = length (items o) →
     set cfg ssr getter_sem setter_sem fuel (VObj a) (KIdx n) val h
     = Some (h, inr TypeError))
  ∧ ((2 ^ 32 ≤ Z.of_nat n)%Z →
     set cfg ssr getter_sem setter_sem fuel (VObj a) (KIdx n) val h
     = Some (h, inr RangeError)).
Proof.
  intros Ho Hk Hpo Hlen.
  assert (∀ P : bool, set cfg ssr getter_sem setter_sem fuel (VObj a) (KIdx n) val h
          = if bool_decide (2 ^ 32 ≤ Z.of_nat n)%Z then Some (h, inr RangeError)
            else if bool_decide (Z.of_nat n = 2 ^ 32 - 1)%Z
                    || bool_decide (2 ^ 32 ≤ Z.of_nat (length (items o)))%Z then None
            else if bool_decide (n < length (items o)) || extensible o then
              let h1 := set_obj a (with_items (splice_in n val (items o)) o) h in
              if patched o then
                match ob o with
                | Some id =>
                    match observe ssr getter_sem fuel val false h1 with
                    | Some (h2, _) =>
                        match dep_of_ob id h2 with
                        | Some d => Some (dep_notify d h2, inl val)
                        | None => None
                        end
                    | None => None
                    end
                | None => Some (h1, inr TypeError)
                end
              else Some (h1, inl val)
            else if bool_decide (n = length (items o)) then Some (h, inr TypeError)
            else None) as Hset.
  { intros _. unfold set. rewrite Ho. simpl.
    by rewrite (bool_decide_eq_true_2 (kind o = KArray)) by done. }
  specialize (Hset true).
  split_and!.
  - intros Hn Hcase. rewrite Hset.
    rewrite (bool_decide_eq_false_2 (2 ^ 32 ≤ Z.of_nat n)%Z) by lia.
    rewrite (bool_decide_eq_false_2 (Z.of_nat n = 2 ^ 32 - 1)%Z) by lia.
    rewrite (bool_decide_eq_false_2 (2 ^ 32 ≤ Z.of_nat (length (items o)))%Z) by lia.
    cbn [orb].
    set (o0 := with_items (extend_length n (items o)) o).
    unfold callMethod.
    change (objs (set_obj a o0 h) !! a) with (<[a := o0]> (objs h) !! a).
    rewrite lookup_insert_eq.
    change (kind o0) with (kind o). rewrite decide_True by done.
    change (items o0) with (extend_length n (items o)).
    change (extensible o0) with (extensible o).
    rewrite native_splice_one.
    destruct (bool_decide (n < length (items o)) || extensible o) eqn:Eok.
    + rewrite bool_decide_eq_false_2
        by (rewrite length_splice_in; destruct (decide (n < length (items o))); lia).
      rewrite set_obj_twice.
      change (patched o0) with (patched o). change (ob o0) with (ob o).
      change (with_items (splice_in n val (items o)) o0)
        with (with_items (splice_in n val (items o)) o).
      cbv zeta.
      destruct (patched o) eqn:Hp; [|done].
      destruct (Hpo eq_refl) as [id Hid]. rewrite Hid.
      cbn [inserted]. unfold observeArray. cbn [each].
      destruct (observe ssr getter_sem fuel val false _) as [[h2 res]|]; [|done].
      simpl. by destruct (dep_of_ob id h2).
    + apply orb_false_iff in Eok as [Elt Eext].
      apply bool_decide_eq_false in Elt.
      destruct Hcase as [Hle|Hext]; [|congruence].
      assert (n = length (items o)) as Hnl by lia.
      rewrite (bool_decide_eq_true_2 _ Hnl).
      unfold extend_length. rewrite Hnl.
      replace (length (items o) - length (items o)) with 0 by lia. simpl.
      rewrite app_nil_r. rewrite bool_decide_eq_false_2 by lia.
      rewrite set_obj_twice.
      replace (with_items (items o) o0) with o.
      * by rewrite set_obj_same.
      * unfold o0. by destruct o.
  - intros Hn Hext Hnl. rewrite Hset.
    rewrite (bool_decide_eq_false_2 (2 ^ 32 ≤ Z.of_nat n)%Z) by lia.
    rewrite (bool_decide_eq_false_2 (Z.of_nat n = 2 ^ 32 - 1)%Z) by lia.
    rewrite (bool_decide_eq_false_2 (2 ^ 32 ≤ Z.of_nat (length (items o)))%Z) by lia.
    rewrite (bool_decide_eq_false_2 (n < length (items o))) by lia.
    rewrite Hext. simpl. by rewrite bool_decide_eq_true_2.
  - intros Hn. rewrite Hset. by rewrite bool_decide_eq_true_2.
Qed.

(** *** [del], and [set] on an observed object *)

Lemma get_remove_prop k ps : get_prop k (remove_prop k ps) = None.
Proof.
  unfold remove_prop. induction ps as [|[k' p'] ps IH]; [done|].
  destruct (decide (k' = k)) as [->|Hne].
  - by rewrite filter_cons_False by (simpl; intros H; by apply H).
  - rewrite filter_cons_True by done. simpl. by rewrite decide_False.
Qed.

Lemma get_remove_prop_ne k k' ps :
  k' ≠ k → get_prop k' (remove_prop k ps) = get_prop k' ps.
Proof.
  intros Hne. unfold remove_prop. induction ps as [|[k1 p1] ps IH]; [done|].
  destruct (decide (k1 = k)) as [->|Hk].
  - rewrite filter_cons_False by (simpl; intros H; by apply H).
    simpl. by rewrite decide_False.
  - rewrite filter_cons_True by done. simpl. by rewrite IH.
Qed.






Lemma del_plain fuel a o key h :
  objs h !! a = Some o → kind o = KPlain →
  isVue o = false → is_root (ob o) h = false →
  key_name key ≠ "__ob__" →
  (∀ id, ob o = Some id → is_Some (observers h !! id)) →
  match get_prop (key_name key) (props o) with
  | None =>
      del cfg ssr getter_sem sort_sem fuel (VObj a) key h = Some (h, Normal, None)
  | Some p =>
      if is_configurable p then
        ∃ h',
          let o' := with_props (remove_prop (key_name key) (props o)) o in
          del cfg ssr getter_sem sort_sem fuel (VObj a) key h
            = Some (h', Normal, None) ∧
          objs h' = <[a := o']> (objs h) ∧
          get_prop (key_name key) (props o') = None ∧
          (∀ k', k' ≠ key_name key →
                 get_prop k' (props o') = get_prop k' (props o)) ∧
          cells h' = cells h ∧ observers h' = observers h ∧
          next_dep h' = next_dep h ∧ next_cell h' = next_cell h ∧
          next_ob h' = next_ob h ∧ shouldObserve h' = shouldObserve h ∧
          tracking h' = tracking h ∧
          events h' = events h ++
                      match ob o with
                      | Some id =>
                          match observers h !! id with
                          | Some r => [ENotify (ob_dep r)]
                          | None => []
                          end
                      | None => []
                      end
      else
        del cfg ssr getter_sem sort_sem fuel (VObj a) key h
          = Some (h, Throws TypeError, None)
  end.
Proof.
  intros Ho Hk Hv Hroot Hkey Hobs.
  set (k := key_name key) in *.
  set (after :=
         (match match get_prop k (props o) with
               | None => None
               | Some p =>
                   if is_configurable p
                   then Some (inl (with_props (remove_prop k (props o)) o))
                   else Some (inr TypeError)
               end
         with
         | None => Some (h, Normal, None)
         | Some (inr e) => Some (h, Throws e, None)
         | Some (inl o') =>
             match ob o with
             | None => Some (set_obj a o' h, Normal, None)
             | Some id =>
                 match dep_of_ob id (set_obj a o' h) with
                 | Some d => Some (dep_notify d (set_obj a o' h), Normal, None)
                 | None => None
                 end
             end
         end : option (Heap * Completion * option DelWarning))).
  assert (del cfg ssr getter_sem sort_sem fuel (VObj a) key h = after) as ->.
  { unfold del. rewrite Ho.
    rewrite (bool_decide_eq_false_2 (kind o = KArray)) by (by rewrite Hk).
    unfold after.
    destruct key as [n|s0]; rewrite Hv, Hroot; cbn [orb andb];
      fold k; rewrite decide_False by done; done. }
  unfold after.
  destruct (get_prop k (props o)) as [p|] eqn:Hp; [|done].
  destruct (is_configurable p); [|done].
  set (o' := with_props (remove_prop k (props o)) o).
  destruct (ob o) as [id|] eqn:Hob.
  - destruct (Hobs id eq_refl) as [r Hr].
    unfold dep_of_ob. simpl. rewrite Hr. simpl.
    eexists. cbv zeta. split; [reflexivity|]. simpl.
    split_and!; try done.
    + apply get_remove_prop.
    + intros k' Hk'. by apply get_remove_prop_ne.
  - eexists. cbv zeta. split; [reflexivity|]. simpl.
    split_and!; try done.
    + apply get_remove_prop.
    + intros k' Hk'. by apply get_remove_prop_ne.
    + by rewrite app_nil_r.
Qed.

(** X16. [del] on a plain object that is neither a Vue instance nor root
    data.  A key the object does not own: nothing happens.  An own property
    that is configurable: it is removed, the other properties stay, and the
    object's Dep - if the object is observed - is notified once.  An own
    property that is not configurable: [delete] throws a TypeError and
    nobody is notified. *)
Theorem del_removes_and_notifies fuel a o key h :
  objs h !! a = Some o → kind o = KPlain →
  isVue o = false → is_root (ob o) h = false →
  key_name key ≠ "__ob__" →
  (∀ id, ob o = Some id → is_Some (observers h !! id)) →
  match get_prop (key_name key) (props o) with
  | None =>
      del cfg ssr getter_sem sort_sem fuel (VObj a) key h = Some (h, Normal, None)
  | Some p =>
      if is_configurable p then
        ∃ h',
          let o' := with_props (remove_prop (key_name key) (props o)) o in
          del cfg ssr getter_sem sort_sem fuel (VObj a) key h
            = Some (h', Normal, None) ∧
          objs h' = <[a := o']> (objs h) ∧
          get_prop (key_name key) (props o') = None ∧
          (∀ k', k' ≠ key_name key →
                 get_prop k' (props o') = get_prop k' (props o)) ∧
          cells h' = cells h ∧ observers h' = observers h ∧
          next_dep h' = next_dep h ∧ next_cell h' = next_cell h ∧
          next_ob h' = next_ob h ∧ shouldObserve h' = shouldObserve h ∧
          tracking h' = tracking h ∧
          events h' = events h ++
                      match ob o with
                      | Some id =>
                          match observers h !! id with
                          | Some r => [ENotify (ob_dep r)]
                          | None => []
                          end
                      | None => []
                      end
      else
        del cfg ssr getter_sem sort_sem fuel (VObj a) key h
          = Some (h, Throws TypeError, None)
  end.
Proof. apply del_plain. Qed.

Lemma strict_eq_true a b : strict_eq a b = true → a = b.
Proof.
  destruct a, b; simpl; try done; intros H; apply bool_decide_eq_true in H;
    by subst.
Qed.

Lemma set_observed fuel a o id r key val h :
  objs h !! a = Some o → kind o = KPlain → isVue o = false →
  ob o = Some id → observers h !! id = Some r →
  ob_value r = a → vmCount r = 0 → extensible o = true →
  get_prop (key_name key) (props o) = None →
  unmodelled_key key = false →
  isObject val = false →
  ∃ h' o',
    set cfg ssr getter_sem setter_sem fuel (VObj a) key val h = Some (h', inl val) ∧
    objs h' !! a = Some o' ∧
    props o' = put_prop (key_name key) (reactive_accessor (next_cell h)) (props o) ∧
    cells h' = <[next_cell h := mkCell (next_dep h) val None]> (cells h) ∧
    events h' = events h ++ [ENotify (ob_dep r)] ∧
    observers h' = observers h ∧ ob o' = ob o ∧ kind o' = kind o ∧
    isVue o' = isVue o ∧ next_dep h' = S (next_dep h) ∧
    objs h' = <[a := o']> (objs h) ∧ with_props (props o) o' = o ∧
    read_prop getter_sem fuel a (key_name key) h'
      = Some (dep_depend (next_dep h) h', val).
Proof.
  intros Ho Hk Hv Hob Hr Hval Hcount Hext Hget Hkey Hprim.
  assert (key_in key o && negb (in_Object_prototype (key_name key)) = false) as Hin.
  { destruct key as [n|s0]; simpl in *.
    - rewrite Hk. rewrite decide_False by done. rewrite Hget.
      by rewrite bool_decide_eq_false_2 by (intros [? ?]; done).
    - rewrite Hget. rewrite (bool_decide_eq_false_2 (is_Some None))
        by (intros [? ?]; done).
      apply orb_false_iff in Hkey as [-> _].
      simpl. by destruct (in_Object_prototype s0). }
  assert (is_root (Some id) h = false) as Hroot.
  { unfold is_root. rewrite Hr, Hcount. done. }
  unfold set. rewrite Ho, Hkey.
  rewrite (bool_decide_eq_false_2 (kind o = KArray)) by (rewrite Hk; done).
  cbn [andb]. rewrite Hin, Hv, Hob, Hroot. cbn [orb]. rewrite Hr, Hval, Ho, Hext.
  cbn [negb andb].
  unfold defineReactive, defineReactive_with. simpl. rewrite Ho, Hget. simpl.
  rewrite (ObserverTheory.observe_primitive ssr getter_sem fuel val false) by done.
  simpl. rewrite Ho.
  eexists _, _. split; [reflexivity|]. simpl. rewrite lookup_insert_eq.
  split; [reflexivity|]. split; [done|]. split; [done|]. split; [done|].
  split; [done|]. split; [done|]. split; [done|]. split; [done|].
  split; [done|]. split; [done|]. split; [by destruct o|].
  unfold read_prop. simpl. rewrite lookup_insert_eq. simpl.
  rewrite ObserverTheory.get_put_prop.
  simpl. rewrite lookup_insert_eq. simpl.
  unfold dep_depend. simpl. by destruct (tracking h).
Qed.

(** X17. [set] on an observed plain object that is extensible, with a key
    the object does not own - other than [__ob__] and [__proto__] - and a
    primitive value, defines a reactive property: the property gets a Dep
    and closure variables of its own, the object's Dep is notified once,
    and the property reads as the value.  The other properties stay; in the
    order of [Object.keys] the new one is the last, unless its name is an
    array index, which goes among the array indices in front. *)
Theorem set_adds_reactive_property fuel a o id r key val h :
  objs h !! a = Some o → kind o = KPlain → isVue o = false →
  ob o = Some id → observers h !! id = Some r →
  ob_value r = a → vmCount r = 0 → extensible o = true →
  get_prop (key_name key) (props o) = None →
  unmodelled_key key = false →
  isObject val = false →
  ∃ h' o',
    set cfg ssr getter_sem setter_sem fuel (VObj a) key val h = Some (h', inl val) ∧
    objs h' !! a = Some o' ∧
    props o' = put_prop (key_name key) (reactive_accessor (next_cell h)) (props o) ∧
    get_prop (key_name key) (props o') = Some (reactive_accessor (next_cell h)) ∧
    (∀ k, k ≠ key_name key → get_prop k (props o') = get_prop k (props o)) ∧
    (array_index (key_name key) = None →
     props o' = props o ++ [(key_name key, reactive_accessor (next_cell h))]) ∧
    cells h' = <[next_cell h := mkCell (next_dep h) val None]> (cells h) ∧
    events h' = events h ++ [ENotify (ob_dep r)] ∧
    read_prop getter_sem fuel a (key_name key) h'
      = Some (dep_depend (next_dep h) h', val).
Proof.
  intros Ho Hk Hv Hob Hr Hval Hcount Hext Hget Hkey Hprim.
  destruct (set_observed fuel a o id r key val h) as (h' & o' & H); try done.
  exists h', o'.
  destruct H as (? & ? & Hp & ? & ? & _ & _ & _ & _ & _ & _ & _ & ?).
  split_and!; try done.
  - rewrite Hp. apply ObserverTheory.get_put_prop.
  - intros k Hne. rewrite Hp. by apply ObserverTheory.get_put_prop_ne.
  - intros Hidx. rewrite Hp. unfold put_prop. by rewrite Hget, Hidx.
Qed.




(** X19. A reactive property reads what was last written to it: after
    [obj[key] = newVal] with a primitive value, the property's closure
    holds [newVal] and [obj[key]] returns it - also when the write was
    dropped because the value was the same, and for NaN.  The property's
    Dep is notified exactly when the value changed. *)
Theorem reactive_property_reads_last_write fuel a o k c cell sh cu e cf newVal h :
  objs h !! a = Some o →
  get_prop k (props o)
    = Some (Accessor (Some (ReactiveGet c None))
                     (Some (ReactiveSet c None None sh cu)) e cf) →
  cells h !! c = Some cell →
  isObject newVal = false →
  ∃ h',
    assign cfg ssr getter_sem setter_sem fuel a k newVal h = Some (h', Normal) ∧
    objs h' = objs h ∧
    (∃ cell', cells h' !! c = Some cell' ∧ c_val cell' = newVal ∧
              c_dep cell' = c_dep cell) ∧
    (tracking h = false → read_prop getter_sem fuel a k h' = Some (h', newVal)) ∧
    events h' = events h ++
      (if strict_eq newVal (c_val cell) || (is_nan newVal && is_nan (c_val cell))
       then []
       else (if negb (production cfg) && cu then [ECustomSetter c] else [])
            ++ [ENotify (c_dep cell)]).
Proof.
  intros Ho Hp Hc Hprim.
  assert (∀ h', objs h' = objs h → tracking h' = false →
            ∀ cell', cells h' !! c = Some cell' →
            read_prop getter_sem fuel a k h' = Some (h', c_val cell')) as Hread.
  { intros h' Hobjs Ht cell' Hc'. unfold read_prop. rewrite Hobjs, Ho, Hp.
    simpl. by rewrite Hc', Ht. }
  unfold assign. rewrite Ho, Hp. simpl. rewrite Hc.
  destruct (strict_eq newVal (c_val cell) || is_nan newVal && is_nan (c_val cell))
    eqn:Hsame.
  - assert (c_val cell = newVal) as Hv.
    { apply orb_true_iff in Hsame as [H|H].
      - symmetry. by apply strict_eq_true.
      - apply andb_true_iff in H as [H1 H2].
        destruct newVal; try done. by destruct (c_val cell). }
    exists h. split; [done|]. split; [done|]. split; [by exists cell|].
    split; [|by rewrite app_nil_r].
    intros Ht. rewrite <-Hv. by apply Hread.
  - set (h2 := if negb (production cfg) && cu then emit (ECustomSetter c) h else h).
    assert (cells h2 = cells h ∧ objs h2 = objs h ∧ tracking h2 = tracking h ∧
            events h2 = events h ++
                        (if negb (production cfg) && cu then [ECustomSetter c] else []))
      as (C2 & O2 & T2 & E2).
    { unfold h2. destruct (negb (production cfg) && cu); simpl; [done|].
      by rewrite app_nil_r. }
    rewrite C2, Hc.
    set (h3 := set_cell c (mkCell (c_dep cell) newVal (c_childOb cell)) h2).
    assert ((if sh then Some (h3, None)
             else observe ssr getter_sem fuel newVal false h3) = Some (h3, None)) as ->.
    { destruct sh; [done|]. by apply ObserverTheory.observe_primitive. }
    simpl. rewrite lookup_insert_eq. simpl.
    eexists. split; [reflexivity|]. simpl.
    split; [done|]. split.
    { eexists. rewrite lookup_insert_eq. done. }
    split.
    + intros Ht. 
      match goal with |- read_prop _ _ _ _ ?hh = _ =>
        rewrite (Hread hh O2 ltac:(simpl; congruence) (mkCell (c_dep cell) newVal None))
      end; [done|].
      simpl. by rewrite lookup_insert_eq.
    + by rewrite E2, <-app_assoc.
Qed.

(** *** [observe] on an object of primitive values *)

Lemma get_prop_app_absent k ps qs :
  k ∉ ps.*1 → get_prop k (ps ++ qs) = get_prop k qs.
Proof.
  induction ps as [|[k1 p1] ps IH]; simpl; [done|].
  intros Hk. apply not_elem_of_cons in Hk as [Hne Hk].
  rewrite decide_False by done. by apply IH.
Qed.

Lemma replace_prop_app_absent k p ps qs :
  k ∉ ps.*1 → replace_prop k p (ps ++ qs) = ps ++ replace_prop k p qs.
Proof.
  induction ps as [|[k1 p1] ps IH]; simpl; [done|].
  intros Hk. apply not_elem_of_cons in Hk as [Hne Hk].
  rewrite decide_False by done. by rewrite IH.
Qed.

Lemma get_prop_lookup ps i k p :
  NoDup ps.*1 → ps !! i = Some (k, p) → get_prop k ps = Some p.
Proof.
  revert i. induction ps as [|[k1 p1] ps IH]; intros i Hnd Hi; [done|].
  simpl in Hnd. apply NoDup_cons in Hnd as [Hk1 Hnd].
  destruct i as [|i]; simpl in *.
  - injection Hi as -> ->. by rewrite decide_True.
  - rewrite decide_False; [by eapply IH|].
    intros ->. apply Hk1. apply list_elem_of_fmap. exists (k, p).
    split; [done|]. by eapply list_elem_of_lookup_2.
Qed.

Lemma reactive_props_cons c0 k p ps :
  reactive_props c0 ((k, p) :: ps)
  = (k, reactive_accessor c0) :: reactive_props (S c0) ps.
Proof.
  unfold reactive_props. simpl. rewrite Nat.add_0_r. f_equal.
  apply imap_ext. intros i x _. simpl. do 2 f_equal. lia.
Qed.

Lemma reactive_props_keys c0 ps : (reactive_props c0 ps).*1 = ps.*1.
Proof.
  revert c0. induction ps as [|[k p] ps IH]; intros c0; [done|].
  rewrite reactive_props_cons. simpl. by rewrite IH.
Qed.

Lemma reactive_props_lookup c0 ps i k p :
  ps !! i = Some (k, p) →
  reactive_props c0 ps !! i = Some (k, reactive_accessor (c0 + i)).
Proof.
  intros Hi. unfold reactive_props. rewrite list_lookup_imap, Hi. done.
Qed.

Lemma defineReactive_data
    (obs : Value → Heap → option (Heap * option nat)) f a k v o h :
  objs h !! a = Some o →
  get_prop k (props o) = Some (Data v true true) →
  obs v (new_dep h).1 = Some ((new_dep h).1, None) →
  defineReactive_with getter_sem obs f a k None false false h
  = Some (set_obj a
            (with_props (put_prop k (reactive_accessor (next_cell h)) (props o)) o)
            (new_cell (mkCell (next_dep h) v None) (new_dep h).1).1).
Proof.
  intros Ho Hp Hobs. unfold defineReactive_with. simpl.
  rewrite Ho, Hp. simpl. unfold read_prop. simpl. rewrite Ho, Hp.
  simpl in Hobs. rewrite Hobs. simpl. by rewrite Ho.
Qed.

Lemma walk_data (obs : Value → Heap → option (Heap * option nat)) f a :
  (∀ x h1, isObject x = false → obs x h1 = Some (h1, None)) →
  ∀ rest done o h,
    objs h !! a = Some o → props o = done ++ rest →
    NoDup (done ++ rest).*1 → Forall plain_data rest →
    ∃ h',
      each (λ k h1, defineReactive_with getter_sem obs f a k None false false h1)
           (rest.*1) h = Some h' ∧
      objs h' = <[a := with_props (done ++ reactive_props (next_cell h) rest) o]>
                  (objs h) ∧
      next_dep h' = next_dep h + length rest ∧
      next_cell h' = next_cell h + length rest ∧
      next_ob h' = next_ob h ∧
      observers h' = observers h ∧ events h' = events h ∧
      shouldObserve h' = shouldObserve h ∧ tracking h' = tracking h ∧
      (∀ j, j < next_cell h → cells h' !! j = cells h !! j) ∧
      (∀ i k v, rest !! i = Some (k, Data v true true) →
                cells h' !! (next_cell h + i)
                = Some (mkCell (next_dep h + i) v None)).
Proof.
  intros Hobs rest. induction rest as [|[k p] rest IH]; intros done o h Ho Hps Hnd Hall.
  - exists h. simpl. split; [done|]. rewrite !Nat.add_0_r.
    split_and!; try done.
    rewrite app_nil_r in *. rewrite <-Hps. symmetry. apply insert_id.
    rewrite Ho. f_equal. by destruct o.
  - apply Forall_cons in Hall as [(v & Hv & Hprim) Hall]. simpl in Hv. subst p.
    assert (k ∉ done.*1 ∧ k ∉ rest.*1) as [Hkd Hkr].
    { rewrite fmap_app in Hnd. apply NoDup_app in Hnd as (_ & Hdisj & Hnr).
      simpl in Hnr. apply NoDup_cons in Hnr as [Hkr _]. split; [|done].
      intros Hin. apply (Hdisj k Hin). by left. }
    assert (get_prop k (props o) = Some (Data v true true)) as Hget.
    { rewrite Hps, get_prop_app_absent by done. simpl. by rewrite decide_True. }
    simpl.
    rewrite (defineReactive_data obs f a k v o h Ho Hget) by (by apply Hobs).
    set (o1 := with_props (put_prop k (reactive_accessor (next_cell h)) (props o)) o).
    set (h1 := set_obj a o1 _).
    assert (props o1 = (done ++ [(k, reactive_accessor (next_cell h))]) ++ rest) as Hps1.
    { unfold o1. cbn [props with_props]. unfold put_prop. rewrite Hget, Hps.
      rewrite replace_prop_app_absent by done. simpl.
      rewrite decide_True by done. by rewrite <-app_assoc. }
    assert (objs h1 !! a = Some o1) as Ho1 by (simpl; by rewrite lookup_insert_eq).
    destruct (IH (done ++ [(k, reactive_accessor (next_cell h))]) o1 h1 Ho1 Hps1)
      as (h' & Heach & Hobjs & Hnd' & Hnc' & Hno' & Hobs' & Hev' & Hso' & Htr' & Hold'
          & Hcells'); [|done|].
    { rewrite <-app_assoc. simpl. rewrite !fmap_app in *. simpl in *. done. }
    exists h'. split; [exact Heach|].
    change (next_cell h1) with (S (next_cell h)) in *.
    change (next_dep h1) with (S (next_dep h)) in *.
    split_and!; try done.
    + rewrite Hobjs. simpl. rewrite insert_insert_eq. f_equal.
      rewrite reactive_props_cons, <-app_assoc. done.
    + rewrite Hnd'. simpl. lia.
    + rewrite Hnc'. simpl. lia.
    + intros j Hj. rewrite Hold' by lia. simpl.
      rewrite lookup_insert_ne by lia. done.
    + intros i k' v' Hi. destruct i as [|i]; simpl in Hi.
      * injection Hi as <- <-. rewrite !Nat.add_0_r.
        rewrite Hold' by lia. simpl. by rewrite lookup_insert_eq.
      * replace (next_cell h + S i) with (S (next_cell h) + i) by lia.
        replace (next_dep h + S i) with (S (next_dep h) + i) by lia.
        by apply (Hcells' i k').
Qed.

Lemma keys_plain_data o : Forall plain_data (props o) → keys o = (props o).*1.
Proof.
  unfold keys. intros Hall. f_equal.
  induction Hall as [|kp ps (v & Hv & _) _ IH]; [done|].
  rewrite filter_cons_True; [by rewrite IH|].
  destruct kp as [k p]. simpl in *. by subst.
Qed.

Lemma observe_plain_data f a o h :
  objs h !! a = Some o → kind o = KPlain → ob o = None →
  extensible o = true → isVue o = false →
  shouldObserve h = true → ssr = false →
  NoDup (props o).*1 → Forall plain_data (props o) →
  ∃ h' o',
    observe ssr getter_sem (S f) (VObj a) false h = Some (h', Some (next_ob h)) ∧
    objs h' !! a = Some o' ∧ ob o' = Some (next_ob h) ∧
    observers h' !! next_ob h = Some (mkObRec a (next_dep h) 0) ∧
    props o' = reactive_props (next_cell h) (props o) ∧
    events h' = events h ∧
    (∀ j, j < next_cell h → cells h' !! j = cells h !! j) ∧
    ∀ i k v, props o !! i = Some (k, Data v true true) →
      cells h' !! (next_cell h + i) = Some (mkCell (S (next_dep h) + i) v None) ∧
      (tracking h = false → read_prop getter_sem (S f) a k h' = Some (h', v)).
Proof.
  intros Ho Hk Hob Hext Hv Hso Hssr Hnd Hall.
  set (id := next_ob h).
  set (o3 := with_ob (Some id) false o).
  set (h3 := set_obj a o3 (new_observer (mkObRec a (next_dep h) 0) (new_dep h).1).1).
  assert (objs h3 !! a = Some o3) as Ho3 by (simpl; by rewrite lookup_insert_eq).
  destruct (walk_data (λ x h'', observe ssr getter_sem f x false h'') f a
              (λ x h1 Hx, ObserverTheory.observe_primitive ssr getter_sem f x false h1 Hx)
              (props o) [] o3 h3 Ho3 eq_refl Hnd Hall)
    as (h' & Heach & Hobjs & _ & _ & _ & Hobs & Hev & _ & Htr & Hold & Hcells).
  set (o' := with_props ([] ++ reactive_props (next_cell h3) (props o)) o3) in *.
  exists h', o'.
  assert (objs h' !! a = Some o') as Ho'
    by (rewrite Hobjs; by rewrite lookup_insert_eq).
  split.
  { cbn [observe]. rewrite Ho, decide_False by (rewrite Hk; done).
    rewrite Hob, Hso, Hext, Hv.
    replace (negb ssr) with true by (by rewrite Hssr).
    rewrite (bool_decide_eq_false_2 (kind o = KArray)) by (rewrite Hk; done).
    rewrite (bool_decide_eq_true_2 (kind o = KPlain)) by done.
    cbn [andb negb orb].
    rewrite (keys_plain_data o Hall).
    change (match
              match
                each (λ k h1,
                        defineReactive_with getter_sem
                          (λ x h'', observe ssr getter_sem f x false h'')
                          f a k None false false h1) (props o).*1 h3
              with
              | Some h4 => Some (h4, Some id)
              | None => None
              end
            with
            | Some (h0, Some id0) => Some (h0, Some id0)
            | Some (h0, None) => Some (h0, None)
            | None => None
            end = Some (h', Some id)).
    by rewrite Heach. }
  split; [done|]. split; [done|].
  split; [rewrite Hobs; simpl; by rewrite lookup_insert_eq|].
  split; [done|]. split; [done|]. split; [exact Hold|].
  intros i k v Hi.
  pose proof (Hcells i k v Hi) as Hc. simpl in Hc.
  split; [exact Hc|].
  intros Ht. unfold read_prop. rewrite Ho'.
  assert (get_prop k (props o') = Some (reactive_accessor (next_cell h + i))) as ->.
  { apply (get_prop_lookup _ i).
    - simpl. by rewrite reactive_props_keys.
    - simpl. by apply (reactive_props_lookup _ _ _ _ (Data v true true)). }
  unfold reactive_accessor. cbn [call_get]. simpl in Hc |- *. rewrite Hc.
  rewrite Htr. simpl. by rewrite Ht.
Qed.

(** *** traverse *)

(** X20. [observe] on a plain object whose properties hold primitive
    values gives the object a new Observer and turns every property into a
    reactive one, in their order, each with a Dep and closure variables of
    its own; every property still reads the value it held, and nobody is
    notified. *)
Theorem observe_makes_properties_reactive f a o h :
  objs h !! a = Some o → kind o = KPlain → ob o = None →
  extensible o = true → isVue o = false →
  shouldObserve h = true → ssr = false →
  NoDup (props o).*1 → Forall plain_data (props o) →
  ∃ h' o',
    observe ssr getter_sem (S f) (VObj a) false h = Some (h', Some (next_ob h)) ∧
    objs h' !! a = Some o' ∧ ob o' = Some (next_ob h) ∧
    observers h' !! next_ob h = Some (mkObRec a (next_dep h) 0) ∧
    props o' = reactive_props (next_cell h) (props o) ∧
    events h' = events h ∧
    ∀ i k v, props o !! i = Some (k, Data v true true) →
      cells h' !! (next_cell h + i) = Some (mkCell (S (next_dep h) + i) v None) ∧
      (tracking h = false → read_prop getter_sem (S f) a k h' = Some (h', v)).
Proof.
  intros Ho Hk Hob Hext Hv Hso Hssr Hnd Hall.
  destruct (observe_plain_data f a o h) as (h' & o' & H); try done.
  exists h', o'. by destruct H as (? & ? & ? & ? & ? & ? & _ & ?).
Qed.

(** *** Writing to a reactive property *)



Lemma reads_only_each_seen {A} (f : A → gset nat → Heap → option (Heap * gset nat)) l :
  (∀ x s h h' s', f x s h = Some (h', s') → reads_only h h') →
  ∀ s h h' s', each_seen f l s h = Some (h', s') → reads_only h h'.
Proof.
  intros Hf. induction l as [|x l IH]; intros s h h' s'; simpl.
  - intros [= <- _]. apply reads_only_refl.
  - destruct (f x s h) as [[h1 s1]|] eqn:E; [|done].
    intros H. eapply reads_only_trans; [by eapply Hf | by eapply IH].
Qed.

Lemma reads_only__traverse fuel : ∀ val seen h h' seen',
  _traverse getter_sem fuel val seen h = Some (h', seen') → reads_only h h'.
Proof.
  induction fuel as [|f IH]; intros val seen h h' seen'.
  - destruct val; simpl; try done; intros [= <- _]; apply reads_only_refl.
  - destruct val; simpl; try (intros [= <- _]; apply reads_only_refl).
    destruct (objs h !! a) as [o|]; [|done].
    destruct (isFrozen o || bool_decide (kind o = KVNode));
      [intros [= <- _]; apply reads_only_refl|].
    assert (∀ s,
              (if decide (kind o = KArray)
               then each_seen (λ x s0 h'0, _traverse getter_sem f x s0 h'0)
                              (reverse (items o)) s h
               else each_seen
                      (λ k s0 h'0,
                         match read_prop getter_sem f a k h'0 with
                         | Some (h'', v) => _traverse getter_sem f v s0 h''
                         | None => None
                         end) (reverse (keys o)) s h) = Some (h', seen') →
              reads_only h h') as Hchildren.
    { intros s. destruct (decide (kind o = KArray)).
      - apply reads_only_each_seen. intros x s0 h0 h1 s1. apply IH.
      - apply reads_only_each_seen. intros k s0 h0 h1 s1.
        destruct (read_prop getter_sem f a k h0) as [[h2 v]|] eqn:Er; [|done].
        intros Ht. eapply reads_only_trans;
          [by eapply reads_only_read_prop | by eapply IH]. }
    destruct (ob o) as [id|]; [|by apply Hchildren].
    destruct (dep_of_ob id h) as [d|]; [|done].
    destruct (decide (d ∈ seen)); [intros [= <- _]; apply reads_only_refl|].
    by apply Hchildren.
Qed.

(** X21. Where no property has a getter of the user's, [traverse] only
    reads: however deep it goes into the value, the objects, the closure
    variables and the Observers are as before and no Dep is notified; what
    it leaves behind are the [depend()] calls of the reactive getters it
    went through, and nothing at all without [Dep.target]. *)
Theorem traverse_only_reads fuel val h h' :
  no_user_getters h →
  traverse getter_sem fuel val h = Some h' →
  objs h' = objs h ∧ cells h' = cells h ∧ observers h' = observers h ∧
  (∃ ds, events h' = events h ++ (EDepend <$> ds)) ∧
  (tracking h = false → h' = h).
Proof.
  intros _. unfold traverse.
  destruct (_traverse getter_sem fuel val ∅ h) as [[h1 s1]|] eqn:E; [|done].
  intros [= <-]. pose proof (reads_only__traverse _ _ _ _ _ _ E) as R.
  pose proof (reads_only_same_heap _ _ R) as Hsame.
  destruct R as (A1 & A2 & A3 & _ & _ & _ & _ & _ & ds & Ev & _).
  split_and!; try done. by exists ds.
Qed.

(** *** parsePath *)

Lemma bail_app p q : bail (p +:+ q) = bail p || bail q.
Proof.
  induction p as [|c p IH]; [done|].
  change (bail (String c (p +:+ q)) = bail (String c p) || bail q).
  cbn [bail]. by rewrite IH, orb_assoc.
Qed.

Lemma split_dots_nonempty p : split_dots p ≠ [].
Proof.
  destruct p as [|c p]; simpl; [done|].
  destruct (decide (c = dot)); [done|]. by destruct (split_dots p).
Qed.

Lemma split_dots_app p q :
  split_dots (p +:+ String dot q) = split_dots p ++ split_dots q.
Proof.
  induction p as [|c p IH].
  - change (split_dots (String dot q) = [EmptyString] ++ split_dots q).
    cbn [split_dots]. by rewrite decide_True.
  - change (split_dots (String c (p +:+ String dot q))
            = split_dots (String c p) ++ split_dots q).
    cbn [split_dots].
    destruct (decide (c = dot)); [by rewrite IH|].
    rewrite IH. pose proof (split_dots_nonempty p).
    by destruct (split_dots p).
Qed.

Lemma walk_path_undefined fuel segs h :
  segs ≠ [] → walk_path getter_sem fuel segs VUndefined h = Some (h, VUndefined).
Proof. by destruct segs. Qed.

Lemma walk_path_app fuel s1 s2 : ∀ obj h,
  s2 ≠ [] →
  walk_path getter_sem fuel (s1 ++ s2) obj h
  = match walk_path getter_sem fuel s1 obj h with
    | Some (h', v) => walk_path getter_sem fuel s2 v h'
    | None => None
    end.
Proof.
  induction s1 as [|seg s1 IH]; intros obj h Hs2; [done|]. simpl.
  destruct (falsy obj); [by rewrite walk_path_undefined|].
  destruct obj;
    try (destruct (read_primitive _ seg) as [v|]; [by apply IH | done]).
  destruct (read_member getter_sem fuel a seg h) as [[h' v]|]; [|done].
  by apply IH.
Qed.

(** X22. Paths compose.  [parsePath] gives a function for [p.q] exactly
    when it gives one for [p] and one for [q], and then the function for
    [p.q] is the function for [q] applied to what the function for [p]
    returns - which also covers a path that runs into [undefined], [null]
    or another falsy value on its way: the result is [undefined]. *)
Theorem parsePath_composes fuel p q :
  match parsePath getter_sem fuel (p +:+ String dot q) with
  | Some f =>
      ∃ fp fq,
        parsePath getter_sem fuel p = Some fp ∧
        parsePath getter_sem fuel q = Some fq ∧
        ∀ obj h, f obj h = match fp obj h with
                           | Some (h', v) => fq v h'
                           | None => None
                           end
  | None =>
      parsePath getter_sem fuel p = None ∨ parsePath getter_sem fuel q = None
  end.
Proof.
  unfold parsePath.
  assert (bail (p +:+ String dot q) = bail p || bail q) as ->.
  { rewrite bail_app. simpl. done. }
  destruct (bail p); simpl; [by left|].
  destruct (bail q); simpl; [by right|].
  eexists _, _. split; [done|]. split; [done|].
  intros obj h. rewrite split_dots_app.
  apply walk_path_app, split_dots_nonempty.
Qed.



(** *** traverse on an observed object *)

Lemma indexed_keys_fst j (ps : list (string * Property)) :
  (imap (λ i kp, (j + i, kp.1)) ps).*1 = seq j (length ps).
Proof.
  revert j. induction ps as [|kp ps IH]; intros j; [done|].
  rewrite imap_cons, !fmap_cons. cbn [fst length seq]. rewrite Nat.add_0_r.
  f_equal. rewrite <-(IH (S j)). f_equal.
  apply imap_ext. intros i x _. simpl. f_equal. lia.
Qed.

Lemma indexed_keys_snd j (ps : list (string * Property)) :
  (imap (λ i kp, (j + i, kp.1)) ps).*2 = ps.*1.
Proof.
  revert j. induction ps as [|kp ps IH]; intros j; [done|].
  rewrite imap_cons, !fmap_cons. f_equal. rewrite <-(IH (S j)). f_equal.
  apply imap_ext. intros i x _. simpl. f_equal. lia.
Qed.

Lemma indexed_keys_lookup (ps : list (string * Property)) i k :
  (i, k) ∈ imap (λ i kp, (0 + i, kp.1)) ps → ∃ p, ps !! i = Some (k, p).
Proof.
  intros Hin. apply list_elem_of_lookup in Hin as [n Hn].
  rewrite list_lookup_imap in Hn.
  destruct (ps !! n) as [[k' p]|] eqn:E; [|done].
  simpl in Hn. injection Hn as <- <-. by exists p.
Qed.

Lemma keys_reactive_props o c0 ps :
  props o = reactive_props c0 ps → keys o = ps.*1.
Proof.
  intros Hp. unfold keys. rewrite Hp. clear Hp. revert c0.
  induction ps as [|[k p] ps IH]; intros c0; [done|].
  rewrite reactive_props_cons, filter_cons_True by done.
  rewrite !fmap_cons. by rewrite IH.
Qed.

Lemma isFrozen_observed o id : ob o = Some id → isFrozen o = false.
Proof.
  intros Hob. unfold isFrozen. rewrite Hob.
  rewrite (bool_decide_eq_false_2 (Some id = None)) by done.
  by rewrite andb_false_r.
Qed.

Lemma traverse_touches f a o c0 ps (dep_of : nat → nat) seen h :
  objs h !! a = Some o →
  props o = reactive_props c0 ps →
  NoDup ps.*1 →
  (∀ i, i < length ps →
        ∃ v, cells h !! (c0 + i) = Some (mkCell (dep_of i) v None)
             ∧ isObject v = false) →
  ∀ (l : list (nat * string)),
    (∀ i k, (i, k) ∈ l → ∃ p, ps !! i = Some (k, p)) →
    ∀ h1, objs h1 = objs h → cells h1 = cells h → tracking h1 = true →
    ∃ h2,
      each_seen (λ k s h',
                   match read_prop getter_sem (S f) a k h' with
                   | Some (h'', v) => _traverse getter_sem (S f) v s h''
                   | None => None
                   end) l.*2 seen h1 = Some (h2, seen)
      ∧ objs h2 = objs h ∧ cells h2 = cells h
      ∧ observers h2 = observers h1
      ∧ events h2 = events h1 ++ (EDepend <$> (dep_of <$> l.*1)).
Proof.
  intros Ha Hp Hnd Hcells l. induction l as [|[i k] l IH]; intros Hl h1 Ho Hc Ht.
  - exists h1. simpl. by rewrite app_nil_r.
  - destruct (Hl i k) as [p Hi]; [by left|].
    destruct (Hcells i) as (v & Hcell & Hv); [by eapply lookup_lt_Some|].
    assert (read_prop getter_sem (S f) a k h1
            = Some (emit (EDepend (dep_of i)) h1, v)) as Hread.
    { unfold read_prop. rewrite Ho, Ha, Hp.
      rewrite (get_prop_lookup _ i k (reactive_accessor (c0 + i))).
      - unfold reactive_accessor. cbn [call_get]. rewrite Hc, Hcell.
        cbn [c_dep c_val c_childOb]. rewrite Ht. unfold dep_depend.
        by rewrite Ht.
      - by rewrite reactive_props_keys.
      - by eapply reactive_props_lookup. }
    destruct (IH (λ i' k' Hin, Hl i' k' (list_elem_of_further _ _ _ Hin))
                 (emit (EDepend (dep_of i)) h1))
      as (h2 & Hloop & Ho2 & Hc2 & Hr2 & Hev2); [done..|].
    exists h2. rewrite !fmap_cons. cbn [each_seen fst snd]. rewrite Hread.
    assert (_traverse getter_sem (S f) v seen (emit (EDepend (dep_of i)) h1)
            = Some (emit (EDepend (dep_of i)) h1, seen)) as ->
      by (by destruct v).
    split_and!; try done.
    rewrite Hev2. cbn [emit events]. by rewrite <-app_assoc.
Qed.

Lemma _traverse_observed n a o id r seen h :
  objs h !! a = Some o → kind o = KPlain →
  ob o = Some id → observers h !! id = Some r → ob_dep r ∉ seen →
  _traverse getter_sem (S n) (VObj a) seen h
  = each_seen (λ k s h',
                 match read_prop getter_sem n a k h' with
                 | Some (h'', v) => _traverse getter_sem n v s h''
                 | None => None
                 end) (reverse (keys o)) ({[ob_dep r]} ∪ seen) h.
Proof.
  intros Ha Hk Hob Hr Hseen. cbn [_traverse]. rewrite Ha.
  rewrite (isFrozen_observed o id Hob), Hk.
  rewrite bool_decide_eq_false_2 by done. cbn [orb].
  rewrite decide_False by done. rewrite Hob.
  unfold dep_of_ob. rewrite Hr. cbn [fmap option_fmap option_map].
  by rewrite decide_False.
Qed.

(** X24. With [Dep.target] set, [traverse] on an observed plain object
    whose reactive properties hold primitive values reads every property
    once, from the last key to the first: what it leaves behind is one
    [depend()] call on each property's Dep, in that order, and nothing
    else changes. *)
Theorem traverse_depends_on_every_property
    f a o id r c0 ps (dep_of : nat → nat) h :
  objs h !! a = Some o → kind o = KPlain →
  ob o = Some id → observers h !! id = Some r →
  props o = reactive_props c0 ps →
  NoDup ps.*1 →
  (∀ i, i < length ps →
        ∃ v, cells h !! (c0 + i) = Some (mkCell (dep_of i) v None)
             ∧ isObject v = false) →
  tracking h = true →
  ∃ h', traverse getter_sem (S (S f)) (VObj a) h = Some h'
        ∧ objs h' = objs h ∧ cells h' = cells h ∧ observers h' = observers h
        ∧ events h'
          = events h ++ (EDepend <$> reverse (dep_of <$> seq 0 (length ps))).
Proof.
  intros Ha Hk Hob Hr Hp Hnd Hcells Ht.
  set (L := imap (λ i (kp : string * Property), (0 + i, kp.1)) ps).
  destruct (traverse_touches f a o c0 ps dep_of ({[ob_dep r]} ∪ ∅) h
              Ha Hp Hnd Hcells (reverse L)) with (h1 := h)
    as (h' & Hloop & Ho' & Hc' & Hr' & Hev'); try done.
  { intros i k Hin. rewrite elem_of_reverse in Hin. unfold L in Hin.
    by apply indexed_keys_lookup in Hin. }
  exists h'. split_and!; try done.
  - unfold traverse.
    rewrite (_traverse_observed (S f) a o id r ∅ h) by (done || set_solver).
    rewrite (keys_reactive_props o c0 ps Hp).
    rewrite <-(indexed_keys_snd 0 ps). fold L. rewrite <-fmap_reverse.
    by rewrite Hloop.
  - rewrite Hev', !fmap_reverse. unfold L. by rewrite indexed_keys_fst.
Qed.

End Code.

End ObserverOpsTheory.

(** ** The theorems at work on the concrete systems *)

Module Witnesses.
Import Examples.

Lemma consistent_resubscribing : consistent resubscribing 7.
Proof.
  exists stale. split; [reflexivity|]. split; [reflexivity|].
  split; [reflexivity|]. split; [apply NoDup_singleton|].
  split; [vm_compute; reflexivity|].
  intros d. destruct (decide (d = 3)) as [->|Hd].
  - reflexivity.
  - unfold subs_of, resubscribing; simpl.
    rewrite lookup_singleton_ne by done. simpl.
    destruct (decide (d ∈ [3])) as [Hin|]; [|done].
    apply list_elem_of_singleton in Hin. done.
Qed.

(** Watcher 7 of [resubscribing], which read Dep 3 before, evaluates a
    getter that reads [a], [b] and [a]: it is subscribed to Deps 1 and 2
    afterwards, once to each, and no longer to Dep 3. *)
Lemma get_reconciles_subscriptions_witness :
  ∃ st' w',
    get no_deep 7 resubscribing = Some (st', inl (VNum 2)) ∧
    watchers st' !! 7 = Some w' ∧
    deps w' = uniq (reads_of no_deep stale (world resubscribing)) ∧
    (∀ d, d ∈ reads_of no_deep stale (world resubscribing) →
          d ∈ deps w' ∧ occ d (deps w') = 1 ∧ occ 7 (subs_of st' d) = 1) ∧
    (∀ d, d ∈ deps stale → d ∉ reads_of no_deep stale (world resubscribing) →
          7 ∉ subs_of st' d) ∧
    newDeps w' = [] ∧ newDepIds w' = ∅ ∧
    depIds w' = list_to_set (deps w') ∧
    consistent st' 7 ∧
    frame 7 resubscribing st' ∧ targetStack st' = targetStack resubscribing.
Proof.
  destruct (get_reconciles_subscriptions no_deep 7 stale resubscribing
              eq_refl eq_refl eq_refl)
    as (st' & w' & Hget & Hw' & Hd' & Hin & Hn' & Hni' & Hids' & Hts & _ & Hcons & _).
  { vm_compute. reflexivity. }
  destruct (Hcons consistent_resubscribing) as (Hread & Hgone & Hc' & Hf').
  exists st', w'. split; [exact Hget|]. split; [exact Hw'|]. split; [exact Hd'|].
  split.
  { intros d Hd. destruct (Hin d Hd) as [H1 H2].
    split; [exact H1|]. split; [exact H2|]. exact (Hread d Hd). }
  split; [exact Hgone|]. split; [exact Hn'|]. split; [exact Hni'|].
  split; [exact Hids'|]. split; [exact Hc'|]. split; [exact Hf'|]. exact Hts.
Defined.

(** The dependency set and the subscribers after that evaluation. *)
Lemma resubscribing_reconciled :
  ∃ st', get no_deep 7 resubscribing = Some (st', inl (VNum 2)) ∧
         deps <$> watchers st' !! 7 = Some [1; 2] ∧
         subs_of st' 1 = [7] ∧ subs_of st' 2 = [7] ∧ subs_of st' 3 = [].
Proof.
  eexists. split; [vm_compute; reflexivity|].
  split_and!; vm_compute; reflexivity.
Qed.

(** C1, as stated, fails for a watcher that was torn down.  The lazy
    watcher 7 of a computed property over [a] has been evaluated and is
    subscribed to Dep 1; [a] is written, which marks it dirty; it is torn
    down, which removes it from the subscribers of Dep 1 and leaves [deps]
    and [depIds] as they are; then the computed property is read.  The
    evaluation reads Dep 1, which is in the dependency set afterwards - and
    has no subscriber. *)
Lemma torn_down_watcher_is_not_resubscribed :
  ∃ st1 st2 st3 w2,
    script dev_cfg no_deep 3 (writes_script 1 [LifecycleExamples.write_a 5])
           LifecycleExamples.memoized = Some (st1, Normal) ∧
    subs_of st1 1 = [7] ∧ subs_of (teardown 7 st1) 1 = [] ∧
    get no_deep 7 (teardown 7 st1) = Some (st2, inl (VNum 5)) ∧
    reads_of no_deep LifecycleExamples.memo (world (teardown 7 st1)) = [1] ∧
    watchers st2 !! 7 = Some w2 ∧ deps w2 = [1] ∧
    subs_of st2 1 = [] ∧ occ 7 (subs_of st2 1) = 0 ∧
    computedGetter no_deep (Some 7) (teardown 7 st1) = Some (st3, inl (VNum 5)) ∧
    subs_of st3 1 = [] ∧
    ¬ consistent (teardown 7 st1) 7.
Proof.
  eexists _, _, _, _.
  split; [vm_compute; reflexivity|].
  split; [vm_compute; reflexivity|].
  split; [vm_compute; reflexivity|].
  split; [vm_compute; reflexivity|].
  split; [vm_compute; reflexivity|].
  split; [vm_compute; reflexivity|].
  split; [vm_compute; reflexivity|].
  split; [vm_compute; reflexivity|].
  split; [vm_compute; reflexivity|].
  split; [vm_compute; reflexivity|].
  split; [vm_compute; reflexivity|].
  intros (w & Hw & _ & _ & _ & _ & Hocc).
  specialize (Hocc 1). vm_compute in Hw. injection Hw as <-.
  vm_compute in Hocc. discriminate.
Qed.

(** C3, as stated, fails in production: watcher 1 is found queued again 150
    times in one flush, yet the flush is not aborted - watcher 2 behind it
    is run - and no diagnostic is emitted. *)
Lemma production_flush_is_not_aborted :
  flushSchedulerQueue prod_cfg no_deep 400 runaway_start
    = Some (runaway_end prod_cfg, Normal) ∧
  runs_of (log (runaway_end prod_cfg)) = replicate 151 1 ++ [2] ∧
  warns_of (log (runaway_end prod_cfg)) = [] ∧
  MAX_UPDATE_COUNT < 150.
Proof.
  split; [vm_compute; reflexivity|].
  split; [vm_compute; reflexivity|].
  split; [vm_compute; reflexivity|].
  unfold MAX_UPDATE_COUNT. lia.
Qed.

(** Outside production the same flush is left after the 101st run of
    watcher 1, with one diagnostic; watcher 2 is not run. *)
Lemma dev_flush_is_aborted :
  flushSchedulerQueue dev_cfg no_deep 400 runaway_start
    = Some (runaway_end dev_cfg, Normal) ∧
  runs_of (log (runaway_end dev_cfg)) = replicate 101 1 ∧
  warns_of (log (runaway_end dev_cfg)) = [1].
Proof. split_and!; vm_compute; reflexivity. Qed.

Lemma restless_insatiable : restless no_deep 1 one_more insatiable.
Proof.
  split; try reflexivity.
  - intros x. unfold reads_of. simpl. set_solver.
  - intros x. unfold fires, got. simpl.
    rewrite bool_decide_eq_false_2 by lia. done.
Qed.

Lemma consistent_endless_start : consistent endless_start 1.
Proof.
  exists insatiable. split; [reflexivity|]. split; [reflexivity|].
  split; [reflexivity|]. split; [apply NoDup_singleton|].
  split; [vm_compute; reflexivity|].
  intros d. destruct (decide (d = 1)) as [->|Hd1]; [reflexivity|].
  destruct (decide (d = 2)) as [->|Hd2]; [reflexivity|].
  unfold subs_of, endless_start, queued; simpl.
  rewrite lookup_insert_ne, lookup_singleton_ne by done. simpl.
  destruct (decide (d ∈ [1])) as [Hin|]; [|done].
  apply list_elem_of_singleton in Hin. done.
Qed.

(** The flush of [endless_start], outside production and in production. *)
Lemma runaway_update_check_witness :
  watchers endless_start !! 1 = Some insatiable ∧
  restless no_deep 1 one_more insatiable ∧
  fires insatiable (got insatiable (world endless_start)) = true ∧
  consistent endless_start 1 ∧ subs_of endless_start 1 = [1] ∧
  waiting (sched endless_start) = true ∧
  merge_sort le (queue (sched endless_start)) = 1 :: [2] ∧
  Forall (λ x, 1 < x) [2] ∧
  circular (sched endless_start) !! 1 = None ∧
  production dev_cfg = false ∧ MAX_UPDATE_COUNT < 120 ∧
  production prod_cfg = true ∧
  (∃ st',
     flushSchedulerQueue dev_cfg no_deep 120 endless_start = Some (st', Normal) ∧
     runs_of (log st')
       = runs_of (log endless_start) ++ replicate (S MAX_UPDATE_COUNT) 1 ∧
     warns_of (log st') = warns_of (log endless_start) ++ [1] ∧
     (∃ l, log st' = l ++ [EvWarn 1;
                           EvHooks (replicate (S (S MAX_UPDATE_COUNT)) 1 ++ [2])]) ∧
     world st' = Nat.iter (S MAX_UPDATE_COUNT) one_more (world endless_start) ∧
     queue (sched st') = [] ∧ has (sched st') = ∅ ∧
     waiting (sched st') = false ∧ flushing (sched st') = false ∧
     ticks (sched st') = ticks (sched endless_start))
  ∧
  (∀ fuel', flushSchedulerQueue prod_cfg no_deep fuel' endless_start = None).
Proof.
  assert (Forall (λ x, 1 < x) [2]) as H8 by (repeat constructor).
  assert (MAX_UPDATE_COUNT < 120) as H11 by (unfold MAX_UPDATE_COUNT; lia).
  split; [reflexivity|]. split; [exact restless_insatiable|].
  split; [reflexivity|]. split; [exact consistent_endless_start|].
  split; [reflexivity|]. split; [reflexivity|]. split; [reflexivity|].
  split; [exact H8|]. split; [reflexivity|]. split; [reflexivity|].
  split; [exact H11|]. split; [reflexivity|].
  split.
  - exact (proj1 (runaway_update_check dev_cfg no_deep 120 1 insatiable 1 one_more
                    [2] endless_start eq_refl restless_insatiable eq_refl
                    consistent_endless_start eq_refl eq_refl eq_refl H8 eq_refl)
                 eq_refl H11).
  - exact (proj1 (proj2 (runaway_update_check prod_cfg no_deep 0 1 insatiable 1
                           one_more [2] endless_start eq_refl restless_insatiable
                           eq_refl consistent_endless_start eq_refl eq_refl
                           eq_refl H8 eq_refl))
                 eq_refl).
Defined.

(** Outside production the flush of [endless_start] ends after 101 runs of
    watcher 1; watcher 2 is not run. *)
Lemma endless_flush_is_aborted :
  ∃ st', flushSchedulerQueue dev_cfg no_deep 120 endless_start = Some (st', Normal) ∧
         runs_of (log st') = replicate 101 1 ∧ warns_of (log st') = [1] ∧
         world st' = (102, 1).
Proof.
  eexists. split; [vm_compute; reflexivity|].
  split; [vm_compute; reflexivity|]. split; vm_compute; reflexivity.
Qed.

(** C2, as stated, fails for a watcher the cursor has passed: when the
    callback of watcher 2 assigns [a], watcher 1 - which has run already -
    is spliced in right behind the cursor, and the same flush runs it a
    second time. *)
Lemma passed_watcher_runs_again :
  queueWatcher dev_cfg no_deep 5 1 mid_flush
    = Some (with_sched (with_queue [1; 2; 1] (with_has {[1]} (sched mid_flush)))
                       mid_flush, Normal) ∧
  flushSchedulerQueue dev_cfg no_deep 10 reentrant_start
    = Some (reentrant_end, Normal) ∧
  runs_of (log reentrant_end) = [1; 2; 1] ∧
  occ 1 (runs_of (log reentrant_end)) = 2.
Proof.
  split; [vm_compute; reflexivity|].
  split; [vm_compute; reflexivity|].
  split; vm_compute; reflexivity.
Qed.

Lemma quiet_reader : quiet reader.
Proof.
  split; [reflexivity|]. split; [intros v old; constructor|].
  left. reflexivity.
Qed.

(** Watcher 5, which has run already, is enqueued in [busy_flush], where
    the cursor is on watcher 3 and watchers 4 and 7 wait. *)
Lemma enqueue_while_flushing_witness :
  flushing (sched busy_flush) = true ∧ waiting (sched busy_flush) = true ∧
  queue (sched busy_flush) !! index (sched busy_flush) = Some 3 ∧
  5 ∉ has (sched busy_flush) ∧
  (∀ x, x ∈ drop (S (index (sched busy_flush))) (queue (sched busy_flush)) →
        x ∈ has (sched busy_flush)) ∧
  StronglySorted le (drop (S (index (sched busy_flush))) (queue (sched busy_flush))) ∧
  ∃ l1 l2 st',
    queueWatcher dev_cfg no_deep 5 5 busy_flush = Some (st', Normal) ∧
    drop (S (index (sched busy_flush))) (queue (sched busy_flush)) = l1 ++ l2 ∧
    Forall (λ x, x ≤ 5) l1 ∧ Forall (λ x, 5 < x) l2 ∧
    st' = with_sched
            (with_queue (take (S (index (sched busy_flush))) (queue (sched busy_flush))
                         ++ l1 ++ 5 :: l2)
                        (with_has ({[5]} ∪ has (sched busy_flush)) (sched busy_flush)))
            busy_flush ∧
    StronglySorted le (l1 ++ 5 :: l2) ∧
    occ 5 (l1 ++ 5 :: l2) = 1 ∧
    (Forall (λ x, 5 < x)
            (drop (S (index (sched busy_flush))) (queue (sched busy_flush))) →
     queue (sched st') !! S (index (sched busy_flush)) = Some 5) ∧
    ((∀ x, x ∈ l1 ++ 5 :: l2 → ∃ w, watchers busy_flush !! x = Some w ∧ quiet w) →
     ∀ f n, length (l1 ++ 5 :: l2) < n →
       ∃ st'',
         drain dev_cfg (run dev_cfg no_deep (S f)) (script dev_cfg no_deep (S f)) n
               (next_index st') = Some (st'', Normal) ∧
         runs_of (log st'') = runs_of (log busy_flush) ++ l1 ++ 5 :: l2).
Proof.
  assert (5 ∉ has (sched busy_flush)) as H4 by (simpl; set_solver).
  assert (∀ x, x ∈ drop (S (index (sched busy_flush))) (queue (sched busy_flush)) →
               x ∈ has (sched busy_flush)) as H5.
  { intros x Hx. simpl in Hx. simpl. set_solver. }
  assert (StronglySorted le (drop (S (index (sched busy_flush)))
                                  (queue (sched busy_flush)))) as H6.
  { simpl. repeat constructor. }
  split; [reflexivity|]. split; [reflexivity|]. split; [reflexivity|].
  split; [exact H4|]. split; [exact H5|]. split; [exact H6|].
  exact (enqueue_while_flushing dev_cfg no_deep 5 5 3 busy_flush
           eq_refl eq_refl eq_refl H4 H5 H6).
Defined.

(** In [busy_flush] the passed watcher 5 is placed behind the waiting
    watcher 4 and before 7 - not directly behind the cursor -, and the
    rest of the loop runs 4, 5 and 7. *)
Lemma late_enqueue_keeps_the_order :
  ∃ st' st'',
    queueWatcher dev_cfg no_deep 5 5 busy_flush = Some (st', Normal) ∧
    queue (sched st') = [5; 3; 4; 5; 7] ∧ has (sched st') = {[4; 5; 7]} ∧
    drain dev_cfg (run dev_cfg no_deep 3) (script dev_cfg no_deep 3) 5
          (next_index st') = Some (st'', Normal) ∧
    runs_of (log st'') = [5; 3; 4; 5; 7].
Proof.
  eexists _, _.
  split; [vm_compute; reflexivity|].
  split; [vm_compute; reflexivity|].
  split; [apply set_eq; intros x; vm_compute; set_solver|].
  split; [vm_compute; reflexivity|].
  vm_compute. reflexivity.
Qed.

Lemma quiet_idle : quiet idle.
Proof.
  split; [reflexivity|]. split; [intros v old; constructor|].
  left. reflexivity.
Qed.

Lemma quiet_unsorted x :
  x ∈ queue (sched unsorted) → ∃ w, watchers unsorted !! x = Some w ∧ quiet w.
Proof.
  simpl. intros Hx.
  apply elem_of_cons in Hx as [->|Hx]; [exists idle; split; [reflexivity|apply quiet_idle]|].
  apply list_elem_of_singleton in Hx as ->.
  exists reader; split; [reflexivity|apply quiet_reader].
Qed.


(** The flush of [unsorted] runs watcher 1 before watcher 2. *)
Lemma unsorted_flush_runs :
  ∃ st', flushSchedulerQueue dev_cfg no_deep 10 unsorted = Some (st', Normal) ∧
         runs_of (log st') = [1; 2].
Proof.
  eexists. split; [vm_compute; reflexivity|]. vm_compute. reflexivity.
Qed.

Lemma quiet_subscriber : quiet subscriber.
Proof.
  split; [reflexivity|]. split; [intros v old; constructor|].
  left. reflexivity.
Qed.

(** Three writes to [a] while watcher 7 is subscribed and the scheduler is
    idle. *)
Lemma enqueue_is_deduplicated_witness :
  watchers subscribed !! 7 = Some subscriber ∧
  lazy subscriber = false ∧ sync subscriber = false ∧ active subscriber = true ∧
  quiet subscriber ∧
  subs_of subscribed 1 = [7] ∧
  queue (sched subscribed) = [] ∧ has (sched subscribed) = ∅ ∧
  waiting (sched subscribed) = false ∧ flushing (sched subscribed) = false ∧
  production dev_cfg || async dev_cfg = true ∧
  three_writes ≠ [] ∧ 3 ≤ 5 ∧
  (∀ st0 : @State Data, 7 ∈ has (sched st0) →
     queueWatcher dev_cfg no_deep 5 7 st0 = Some (st0, Normal))
  ∧
  ∃ st1 st2,
    let x := foldl (λ x f, f x) (world subscribed) three_writes in
    let v := got subscriber x in
    script dev_cfg no_deep 5 (writes_script 1 three_writes) subscribed
      = Some (st1, Normal) ∧
    world st1 = x ∧ watchers st1 = watchers subscribed ∧ log st1 = log subscribed ∧
    queue (sched st1) = [7] ∧ has (sched st1) = {[7]} ∧
    waiting (sched st1) = true ∧ flushing (sched st1) = false ∧
    ticks (sched st1) = S (ticks (sched subscribed)) ∧
    flushSchedulerQueue dev_cfg no_deep 5 st1 = Some (st2, Normal) ∧
    runs_of (log st2) = runs_of (log subscribed) ++ [7] ∧
    log st2 = log subscribed ++ [EvRun 7] ++ get_errors 7 subscriber x
              ++ (if fires subscriber v then [EvCall 7 v (value subscriber)] else [])
              ++ [EvHooks [7]] ∧
    value <$> watchers st2 !! 7
      = Some (if fires subscriber v then v else value subscriber) ∧
    queue (sched st2) = [] ∧ has (sched st2) = ∅ ∧
    waiting (sched st2) = false ∧ flushing (sched st2) = false.
Proof.
  assert (three_writes ≠ []) as H12 by discriminate.
  assert (3 ≤ 5) as H13 by lia.
  split; [reflexivity|]. split; [reflexivity|]. split; [reflexivity|].
  split; [reflexivity|]. split; [exact quiet_subscriber|].
  split; [reflexivity|]. split; [reflexivity|]. split; [reflexivity|].
  split; [reflexivity|]. split; [reflexivity|]. split; [reflexivity|].
  split; [exact H12|]. split; [exact H13|].
  exact (enqueue_is_deduplicated dev_cfg no_deep 5 7 subscriber 1 three_writes
           subscribed eq_refl eq_refl eq_refl eq_refl quiet_subscriber eq_refl
           eq_refl eq_refl eq_refl eq_refl eq_refl H12 H13).
Defined.

(** Three assignments, one run, with the value written last. *)
Lemma three_writes_one_run :
  ∃ st1 st2,
    script dev_cfg no_deep 5 (writes_script 1 three_writes) subscribed
      = Some (st1, Normal) ∧
    flushSchedulerQueue dev_cfg no_deep 5 st1 = Some (st2, Normal) ∧
    log st2 = [EvRun 7; EvCall 7 (VNum 4) (VNum 1); EvHooks [7]].
Proof.
  do 2 eexists. split; [vm_compute; reflexivity|].
  split; [vm_compute; reflexivity|]. vm_compute. reflexivity.
Qed.

(** Watcher 7 of [lone recording], which has no value yet, is run: its
    callback is called and assigns [b]. *)
Lemma run_calls_back_unless_unchanged_witness :
  watchers (lone recording) !! 7 = Some recording ∧ active recording = true ∧
  get_result recording (world (lone recording)) = inl (VNum 1) ∧
  let skipped := strict_eq (VNum 1) (value recording) && negb (isObject (VNum 1))
                 && negb (deep recording) in
  (∃ st1 w1,
     get no_deep 7 (lone recording) = Some (st1, inl (VNum 1)) ∧
     watchers st1 !! 7 = Some w1 ∧
     world st1 = world (lone recording) ∧ sched st1 = sched (lone recording) ∧
     log st1 = log (lone recording)
               ++ get_errors 7 recording (world (lone recording)) ∧
     run dev_cfg no_deep 3 7 (lone recording)
     = if skipped then Some (st1, Normal)
       else
         match script dev_cfg no_deep 2 (cb recording (VNum 1) (value recording))
                      (emit (EvCall 7 (VNum 1) (value recording))
                            (set_watcher 7 (with_value (VNum 1) w1) st1)) with
         | Some (st4, Throws e) =>
             if user recording then Some (handleError e 7 InCallback st4, Normal)
             else Some (st4, Throws e)
         | r => r
         end)
  ∧
  (skipped = false →
   ∀ a, cb recording (VNum 1) (value recording) = Act a (λ _, Done) →
        (a (world (lone recording))).2 = [] →
     ∃ st',
       run dev_cfg no_deep 3 7 (lone recording) = Some (st', Normal) ∧
       world st' = (a (world (lone recording))).1 ∧
       log st' = log (lone recording)
                 ++ get_errors 7 recording (world (lone recording))
                 ++ [EvCall 7 (VNum 1) (value recording)] ∧
       value <$> watchers st' !! 7 = Some (VNum 1))
  ∧
  (∀ st' c,
     run dev_cfg no_deep 3 7 (lone recording) = Some (st', c) →
     if skipped then
       c = Normal ∧ get no_deep 7 (lone recording) = Some (st', inl (VNum 1)) ∧
       log st' = log (lone recording)
                 ++ get_errors 7 recording (world (lone recording)) ∧
       value <$> watchers st' !! 7 = Some (value recording)
     else
       ∃ rest, log st' = log (lone recording)
                         ++ get_errors 7 recording (world (lone recording))
                         ++ EvCall 7 (VNum 1) (value recording) :: rest)
  ∧
  (quiet recording →
   ∃ st',
     run dev_cfg no_deep 3 7 (lone recording) = Some (st', Normal) ∧
     log st' = log (lone recording)
               ++ get_errors 7 recording (world (lone recording))
               ++ (if skipped then [] else [EvCall 7 (VNum 1) (value recording)]) ∧
     value <$> watchers st' !! 7
       = Some (if skipped then value recording else VNum 1)).
Proof.
  split; [reflexivity|]. split; [reflexivity|]. split; [reflexivity|].
  exact (run_calls_back_unless_unchanged dev_cfg no_deep 2 7 recording (VNum 1)
           (lone recording) eq_refl eq_refl eq_refl).
Defined.

(** The callback has run: [b] is 5 afterwards.  With the value unchanged
    the callback is left out and the data stay as they are. *)
Lemma callback_is_executed :
  (∃ st', run dev_cfg no_deep 3 7 (lone recording) = Some (st', Normal) ∧
          world st' = (1, 5) ∧ log st' = [EvCall 7 (VNum 1) VUndefined] ∧
          value <$> watchers st' !! 7 = Some (VNum 1)) ∧
  (∃ st', run dev_cfg no_deep 3 7 (lone (with_value (VNum 1) recording))
            = Some (st', Normal) ∧
          world st' = (1, 1) ∧ log st' = []).
Proof.
  split.
  - eexists. split; [vm_compute; reflexivity|].
    split; [vm_compute; reflexivity|]. split; vm_compute; reflexivity.
  - eexists. split; [vm_compute; reflexivity|].
    split; vm_compute; reflexivity.
Qed.

(** An unchanged number is not reported; a changed one is. *)
Lemma run_reports_changes_only :
  (∃ st', run dev_cfg no_deep 3 7 subscribed = Some (st', Normal) ∧ log st' = []) ∧
  (∃ st', run dev_cfg no_deep 3 7 resubscribing = Some (st', Normal) ∧
          log st' = [EvCall 7 (VNum 2) (VNum 0)]).
Proof.
  split; eexists; (split; [vm_compute; reflexivity|]); vm_compute; reflexivity.
Qed.

Lemma consistent_lone user getter cb : consistent (lone (fresh user getter cb)) 7.
Proof.
  exists (fresh user getter cb). split; [reflexivity|]. split; [reflexivity|].
  split; [reflexivity|]. split; [constructor|]. split; [reflexivity|].
  intros d. unfold subs_of, lone; simpl. rewrite lookup_empty. simpl.
  destruct (decide (d ∈ [])) as [Hin|]; [|done].
  by apply elem_of_nil in Hin.
Qed.

(** A watcher that is not a user watcher evaluates a getter that throws. *)
Lemma exceptions_stop_at_user_watchers_witness :
  watchers (lone broken) !! 7 = Some broken ∧ consistent (lone broken) 7 ∧
  (outcome (getter broken (world (lone broken))) = inr (VStr "boom") →
   ∃ st' w',
     get no_deep 7 (lone broken)
       = Some (st', if user broken then inl VUndefined else inr (VStr "boom")) ∧
     log st' = log (lone broken)
               ++ (if user broken then [EvError (VStr "boom") 7 InGetter] else []) ∧
     targetStack st' = targetStack (lone broken) ∧
     watchers st' !! 7 = Some w' ∧
     deps w' = uniq (reads (getter broken (world (lone broken)))) ∧
     newDeps w' = [] ∧ newDepIds w' = ∅ ∧
     consistent st' 7 ∧
     (user broken = false → active broken = true →
      run dev_cfg no_deep 3 7 (lone broken) = Some (st', Throws (VStr "boom"))))
  ∧
  (∀ v st1 w1 st4,
     active broken = true →
     get no_deep 7 (lone broken) = Some (st1, inl v) →
     watchers st1 !! 7 = Some w1 →
     fires broken v = true →
     script dev_cfg no_deep 2 (cb broken v (value broken))
            (emit (EvCall 7 v (value broken)) (set_watcher 7 (with_value v w1) st1))
       = Some (st4, Throws (VStr "boom")) →
     run dev_cfg no_deep 3 7 (lone broken)
       = if user broken then Some (handleError (VStr "boom") 7 InCallback st4, Normal)
         else Some (st4, Throws (VStr "boom"))).
Proof.
  split; [reflexivity|]. split; [exact (consistent_lone false throwing (λ _ _, Done))|].
  exact (exceptions_stop_at_user_watchers dev_cfg no_deep 2 7 broken (VStr "boom")
           (lone broken) eq_refl (consistent_lone false throwing (λ _ _, Done))).
Defined.

(** The same getter in a user watcher and in one that is not, and a
    throwing callback in both. *)
Lemma errors_by_kind_of_watcher :
  (∃ st', run dev_cfg no_deep 3 7 (lone broken) = Some (st', Throws (VStr "boom")) ∧
          log st' = [] ∧ targetStack st' = [] ∧
          deps <$> watchers st' !! 7 = Some [1] ∧ subs_of st' 1 = [7]) ∧
  (∃ st', run dev_cfg no_deep 3 7 (lone (fresh true throwing (λ _ _, Done)))
            = Some (st', Normal) ∧
          log st' = [EvError (VStr "boom") 7 InGetter] ∧ targetStack st' = [] ∧
          deps <$> watchers st' !! 7 = Some [1] ∧ subs_of st' 1 = [7]) ∧
  (∃ st', run dev_cfg no_deep 3 7 (lone (fresh true read_a (λ _ _, Throw (VStr "boom"))))
            = Some (st', Normal) ∧
          log st' = [EvCall 7 (VNum 1) VUndefined; EvError (VStr "boom") 7 InCallback]) ∧
  (∃ st', run dev_cfg no_deep 3 7 (lone (fresh false read_a (λ _ _, Throw (VStr "boom"))))
            = Some (st', Throws (VStr "boom")) ∧
          log st' = [EvCall 7 (VNum 1) VUndefined]).
Proof.
  split_and!; eexists; (split; [vm_compute; reflexivity|]);
    split_and?; vm_compute; reflexivity.
Qed.

End Witnesses.

Module ObserverWitnesses.
Import Observer ObserverTheory ObserverExamples.


(** Writing 2 over 1 stores it and notifies the field's Dep; writing 1 over
    1, or NaN over NaN, changes nothing. *)
Lemma counter_writes :
  (∃ h', call_set Examples.dev_cfg false const_getter no_setter 5 counter_set (VNum 2)
                  (observed counter) = Some h' ∧
         cells h' !! 0 = Some (mkCell 1 (VNum 2) None) ∧
         events h' = [ENotify 1]) ∧
  call_set Examples.dev_cfg false const_getter no_setter 5 counter_set (VNum 1)
           (observed counter) = Some (observed counter) ∧
  call_set Examples.dev_cfg false const_getter no_setter 5 counter_set VNaN
           (set_cell 0 (mkCell 1 VNaN None) (observed counter))
    = Some (set_cell 0 (mkCell 1 VNaN None) (observed counter)).
Proof.
  split.
  { eexists. split; [vm_compute; reflexivity|]. split; vm_compute; reflexivity. }
  split; vm_compute; reflexivity.
Qed.

(** [set(target, "b", 2)] on [{ a: 1 }], which is not observed: the object
    is [{ a: 1, b: 2 }] afterwards. *)
Lemma set_on_unobserved_object_witness :
  ∃ h',
    set Examples.dev_cfg false const_getter no_setter 5 (VObj 0) (KStr "b") (VNum 2) counter
      = Some (h', inl (VNum 2)) ∧
    objs h' !! 0
      = Some (with_props [("a", Data (VNum 1) true true); ("b", Data (VNum 2) true true)]
                         counter_obj) ∧
    events h' = [] ∧ cells h' = ∅ ∧ observers h' = ∅.
Proof.
  destruct (set_on_unobserved_object Examples.dev_cfg false const_getter no_setter 5 0
              counter_obj (KStr "b") (VNum 2) counter
              eq_refl eq_refl eq_refl eq_refl eq_refl eq_refl)
    as (_ & Hadd & _ & Hquiet).
  destruct (Hadd eq_refl) as (h' & Hset & Hh' & _).
  exists h'. split; [exact Hset|].
  destruct (Hquiet h' _ Hset) as (Hev & Hcells & _ & _ & Hobs).
  split; [by rewrite Hh'|]. by split_and!.
Defined.

(** C10, as stated, fails for an object that is not extensible:
    [set(target, "b", 2)] on [Object.preventExtensions({ a: 1 })] throws a
    TypeError, returns nothing and leaves the object as it is. *)
Lemma set_on_closed_object_throws :
  objs closed_counter !! 0 = Some closed_counter_obj ∧
  kind closed_counter_obj = KPlain ∧ isVue closed_counter_obj = false ∧
  ob closed_counter_obj = None ∧
  get_prop "b" (props closed_counter_obj) = None ∧
  set Examples.dev_cfg false const_getter no_setter 5 (VObj 0) (KStr "b") (VNum 2)
      closed_counter
    = Some (closed_counter, inr TypeError) ∧
  set Examples.prod_cfg false const_getter no_setter 5 (VObj 0) (KStr "b") (VNum 2)
      closed_counter
    = Some (closed_counter, inr TypeError) ∧
  ¬ ∃ h', set Examples.dev_cfg false const_getter no_setter 5 (VObj 0) (KStr "b")
              (VNum 2) closed_counter = Some (h', inl (VNum 2)).
Proof.
  split_and!; try (vm_compute; reflexivity).
  intros (h' & H). vm_compute in H. discriminate H.
Qed.

(** Observing [{ a: 1 }] a second time returns its Observer and changes
    nothing. *)
Lemma counter_observed_twice :
  observe false const_getter 5 (VObj 0) false counter
    = Some (observed counter, Some 0) ∧
  observe false const_getter 5 (VObj 0) false (observed counter)
    = Some (observed counter, Some 0) ∧
  dom (observers (observed counter)) = {[0]}.
Proof. split_and!; vm_compute; reflexivity. Qed.

End ObserverWitnesses.


(** ** The life cycle of watchers on the concrete systems *)

Module LifecycleWitnesses.
Import Examples LifecycleExamples.

Lemma consistent_subscribed : consistent subscribed 7.
Proof.
  exists subscriber. split; [reflexivity|]. split; [reflexivity|].
  split; [reflexivity|]. split; [apply NoDup_singleton|].
  split; [vm_compute; reflexivity|].
  intros d. destruct (decide (d = 1)) as [->|Hd].
  - reflexivity.
  - unfold subs_of, subscribed; simpl.
    rewrite lookup_singleton_ne by done. simpl.
    destruct (decide (d ∈ [1])) as [Hin|]; [|done].
    apply list_elem_of_singleton in Hin. done.
Qed.

Lemma consistent_memoized : consistent memoized 7.
Proof.
  exists memo. split; [reflexivity|]. split; [reflexivity|].
  split; [reflexivity|]. split; [apply NoDup_singleton|].
  split; [vm_compute; reflexivity|].
  intros d. destruct (decide (d = 1)) as [->|Hd].
  - reflexivity.
  - unfold subs_of, memoized; simpl.
    rewrite lookup_singleton_ne by done. simpl.
    destruct (decide (d ∈ [1])) as [Hin|]; [|done].
    apply list_elem_of_singleton in Hin. done.
Qed.

Lemma consistent_unsubscribed (st : @State Data) i w :
  watchers st !! i = Some w → subs st = ∅ →
  deps w = [] → newDeps w = [] → depIds w = ∅ → newDepIds w = ∅ →
  consistent st i.
Proof.
  intros Hw Hs Hd Hn Hdi Hni. exists w. rewrite Hd.
  split; [done|]. split; [done|]. split; [done|]. split; [constructor|].
  split; [done|].
  intros d. unfold subs_of. rewrite Hs, lookup_empty. simpl.
  destruct (decide (d ∈ [])) as [Hin|]; [|done].
  by apply elem_of_nil in Hin.
Qed.

Lemma consistent_cached : consistent (lone cached) 7.
Proof. by apply (consistent_unsubscribed _ 7 cached). Qed.



Lemma numbered_subscribed : numbered 7 subscribed.
Proof.
  split.
  - intros j [w Hj]. destruct (decide (j = 7)) as [->|Hne]; [done|].
    unfold subscribed in Hj; simpl in Hj.
    by rewrite lookup_singleton_ne in Hj.
  - intros d j. unfold subs_of, subscribed; simpl.
    destruct (decide (d = 1)) as [->|Hd].
    + intros Hin. apply list_elem_of_singleton in Hin as ->. done.
    + rewrite lookup_singleton_ne by done. simpl. intros Hin.
      by apply elem_of_nil in Hin.
Qed.

Lemma subscriber_is_quiet : quiet subscriber.
Proof.
  split; [reflexivity|]. split; [intros v old; constructor|].
  left. reflexivity.
Qed.

(** Watcher 7 of [subscribed], which is subscribed to Dep 1, is torn
    down. *)
Lemma teardown_unsubscribes_witness :
  watchers subscribed !! 7 = Some subscriber ∧ active subscriber = true ∧
  consistent subscribed 7 ∧
  (∀ d, 7 ∉ subs_of (teardown 7 subscribed) d) ∧
  (∀ d, subs_of (teardown 7 subscribed) d = others 7 (subs_of subscribed d)) ∧
  watchers (teardown 7 subscribed) !! 7 = Some (with_active false subscriber) ∧
  (∀ j, j ≠ 7 → watchers (teardown 7 subscribed) !! j = watchers subscribed !! j) ∧
  world (teardown 7 subscribed) = world subscribed ∧
  sched (teardown 7 subscribed) = sched subscribed ∧
  targetStack (teardown 7 subscribed) = targetStack subscribed ∧
  log (teardown 7 subscribed) = log subscribed.
Proof.
  split; [reflexivity|]. split; [reflexivity|].
  split; [exact consistent_subscribed|].
  exact (teardown_unsubscribes 7 subscriber subscribed
           eq_refl eq_refl consistent_subscribed).
Defined.

(** After its teardown watcher 7 has left Dep 1. *)
Lemma subscribed_torn_down :
  subs_of subscribed 1 = [7] ∧ subs_of (teardown 7 subscribed) 1 = [] ∧
  active <$> watchers (teardown 7 subscribed) !! 7 = Some false.
Proof. split_and!; vm_compute; reflexivity. Qed.


(** The computed property over [a] is read for the first time. *)
Lemma computed_getter_memoizes_witness :
  watchers (lone cached) !! 7 = Some cached ∧ consistent (lone cached) 7 ∧
  dirty cached = true ∧ target (lone cached) = None ∧
  get_result cached (world (lone cached)) = inl (VNum 1) ∧
  ∃ st' w',
    computedGetter no_deep (Some 7) (lone cached) = Some (st', inl (VNum 1)) ∧
    watchers st' !! 7 = Some w' ∧
    dirty w' = false ∧ value w' = VNum 1 ∧
    deps w' = uniq (reads_of no_deep cached (world (lone cached))) ∧
    (∀ d, d ∈ reads_of no_deep cached (world (lone cached)) →
          occ 7 (subs_of st' d) = 1) ∧
    consistent st' 7 ∧
    log st' = log (lone cached) ++ get_errors 7 cached (world (lone cached)) ∧
    ∀ x, computedGetter no_deep (Some 7) (with_world x st')
         = Some (with_world x st', inl (VNum 1)).
Proof.
  split; [reflexivity|]. split; [exact consistent_cached|].
  split; [reflexivity|]. split; [reflexivity|]. split; [reflexivity|].
  exact (computed_getter_memoizes no_deep 7 cached (VNum 1) (lone cached)
           eq_refl consistent_cached eq_refl eq_refl eq_refl).
Defined.

(** [a = 5] while the computed property over [a] holds 1, and the next
    read of the property. *)
Lemma lazy_watcher_recomputes_on_demand_witness :
  watchers memoized !! 7 = Some memo ∧ lazy memo = true ∧
  consistent memoized 7 ∧ subs_of memoized 1 = [7] ∧ target memoized = None ∧
  get_result memo (write_a 5 (world memoized)) = inl (VNum 5) ∧
  ∃ st1 st2 w2,
    script dev_cfg no_deep 3 (writes_script 1 [write_a 5]) memoized
      = Some (st1, Normal) ∧
    st1 = set_watcher 7 (with_dirty true memo)
                      (with_world (write_a 5 (world memoized)) memoized) ∧
    computedGetter no_deep (Some 7) st1 = Some (st2, inl (VNum 5)) ∧
    watchers st2 !! 7 = Some w2 ∧ value w2 = VNum 5 ∧ dirty w2 = false ∧
    sched st2 = sched memoized ∧
    log st2 = log memoized ++ get_errors 7 memo (write_a 5 (world memoized)).
Proof.
  split; [reflexivity|]. split; [reflexivity|].
  split; [exact consistent_memoized|].
  split; [reflexivity|]. split; [reflexivity|]. split; [reflexivity|].
  exact (lazy_watcher_recomputes_on_demand dev_cfg no_deep 2 7 memo 1 (write_a 5)
           (VNum 5) memoized eq_refl eq_refl consistent_memoized
           eq_refl eq_refl eq_refl).
Defined.



(** Watcher 8 has collected Dep 2 and then Dep 1. *)
Lemma nested_read_collects_behind :
  ∃ st', computedGetter no_deep (Some 7) reading = Some (st', inl (VNum 1)) ∧
         newDeps <$> watchers st' !! 8 = Some [2; 1] ∧
         deps <$> watchers st' !! 7 = Some [1] ∧
         subs_of st' 1 = [7; 8] ∧ subs_of st' 2 = [8].
Proof.
  eexists. split; [vm_compute; reflexivity|].
  split_and!; vm_compute; reflexivity.
Qed.

(** Both watchers end up in the subscribers of Dep 1. *)
Lemma nested_read_subscribes_both :
  ∃ st', computedGetter no_deep (Some 7) (pushTarget (Some 8) nested)
           = Some (st', inl (VNum 1)) ∧
         subs_of st' 1 = [7; 8].
Proof.
  eexists. split; [vm_compute; reflexivity|]. vm_compute. reflexivity.
Qed.

(** A watcher on [b] is made beside watcher 7 of [subscribed]. *)
Lemma new_watcher_is_fresh_witness :
  numbered 7 subscribed ∧
  ∃ st' r w',
    newWatcher no_deep 7 read_b still None subscribed = Some (8, st', r) ∧
    watchers subscribed !! 8 = None ∧
    watchers st' !! 8 = Some w' ∧
    (∀ j, j ≠ 8 → watchers st' !! j = watchers subscribed !! j) ∧
    (∀ d, others 8 (subs_of st' d) = subs_of subscribed d) ∧
    numbered 8 st' ∧ consistent st' 8 ∧
    active w' = true ∧ sched st' = sched subscribed ∧
    (lazy w' = true →
     r = Normal ∧ dirty w' = true ∧ value w' = VUndefined ∧ deps w' = [] ∧
     subs st' = subs subscribed ∧ log st' = log subscribed) ∧
    (lazy w' = false →
     deps w' = uniq (reads_of no_deep w' (world subscribed)) ∧
     (∀ d, d ∈ reads_of no_deep w' (world subscribed) →
           occ 8 (subs_of st' d) = 1) ∧
     log st' = log subscribed ++ get_errors 8 w' (world subscribed) ∧
     match r with
     | Normal => get_result w' (world subscribed) = inl (value w')
     | Throws e => get_result w' (world subscribed) = inr e ∧ value w' = VUndefined
     end).
Proof.
  split; [exact numbered_subscribed|].
  exact (new_watcher_is_fresh no_deep 7 read_b still None subscribed
           numbered_subscribed).
Defined.

(** A watcher whose getter reads [a] and throws is made. *)
Lemma throwing_constructor_leaves_watcher_subscribed_witness :
  numbered 7 subscribed ∧ o_lazy plain_options = false ∧
  o_user plain_options = false ∧
  outcome (throwing (world subscribed)) = inr (VStr "boom") ∧
  ∃ st' w',
    newWatcher no_deep 7 throwing still (Some plain_options) subscribed
      = Some (8, st', Throws (VStr "boom")) ∧
    watchers st' !! 8 = Some w' ∧ active w' = true ∧
    ∀ d, d ∈ reads (throwing (world subscribed)) →
         d ∈ deps w' ∧ occ 8 (subs_of st' d) = 1.
Proof.
  split; [exact numbered_subscribed|].
  split; [reflexivity|]. split; [reflexivity|]. split; [reflexivity|].
  exact (throwing_constructor_leaves_watcher_subscribed no_deep 7 throwing still
           plain_options (VStr "boom") subscribed
           numbered_subscribed eq_refl eq_refl eq_refl).
Defined.

(** The watcher nobody holds is the second subscriber of Dep 1. *)
Lemma thrown_watcher_stays :
  ∃ st', newWatcher no_deep 7 throwing still (Some plain_options) subscribed
           = Some (8, st', Throws (VStr "boom")) ∧
         subs_of st' 1 = [7; 8].
Proof.
  eexists. split; [vm_compute; reflexivity|]. vm_compute. reflexivity.
Qed.

(** [$watch] of a getter that throws beside watcher 7 of [subscribed],
    with a callback that throws, and the call of the function it
    returns. *)
Lemma watch_and_unwatch_witness :
  ∃ st1 w1,
    watch dev_cfg no_deep 3 7 throwing (λ _ _, Throw (VStr "bang")) None false
          subscribed = Some (8, st1, Normal) ∧
    watchers st1 !! 8 = Some w1 ∧ user w1 = true ∧ lazy w1 = false ∧
    (lazy w1 = false →
     log st1 = log subscribed ++ [EvError (VStr "boom") 8 InGetter] ∧
     value w1 = VUndefined) ∧
    watch dev_cfg no_deep 3 7 throwing (λ _ _, Throw (VStr "bang")) None true
          subscribed
    = match script dev_cfg no_deep 3 (Throw (VStr "bang"))
                   (emit (EvCall 8 (value w1) VUndefined) st1) with
      | None => None
      | Some (st2, Throws e) => Some (8, handleError e 8 InCallback st2, Normal)
      | Some (st2, Normal) => Some (8, st2, Normal)
      end ∧
    (∀ st' r,
       watch dev_cfg no_deep 3 7 throwing (λ _ _, Throw (VStr "bang")) None true
             subscribed = Some (8, st', r) →
       r = Normal) ∧
    (∀ d, subs_of (teardown 8 st1) d = subs_of subscribed d) ∧
    (∀ j, j ≠ 8 → watchers (teardown 8 st1) !! j = watchers subscribed !! j) ∧
    active <$> watchers (teardown 8 st1) !! 8 = Some false.
Proof.
  exact (watch_and_unwatch dev_cfg no_deep 3 7 throwing
           (λ _ _, Throw (VStr "bang")) None subscribed numbered_subscribed).
Defined.

(** Both errors are handled: the log of [$watch] with [immediate]. *)
Lemma watch_errors_are_handled :
  ∃ st', watch dev_cfg no_deep 3 7 throwing (λ _ _, Throw (VStr "bang")) None true
               subscribed = Some (8, st', Normal) ∧
         log st' = [EvError (VStr "boom") 8 InGetter;
                    EvCall 8 VUndefined VUndefined;
                    EvError (VStr "bang") 8 InCallback].
Proof.
  eexists. split; [vm_compute; reflexivity|]. vm_compute. reflexivity.
Qed.

(** [$watch] with [immediate] and a callback that throws. *)
Lemma immediate_callback_error_is_handled :
  ∃ st', watch dev_cfg no_deep 3 7 read_a (λ _ _, Throw (VStr "boom")) None true
               subscribed = Some (8, st', Normal) ∧
         log st' = [EvCall 8 (VNum 1) VUndefined;
                    EvError (VStr "boom") 8 InCallback].
Proof.
  eexists. split; [vm_compute; reflexivity|]. vm_compute. reflexivity.
Qed.

(** Watcher 7 is enqueued on the idle scheduler with [config.async]
    off. *)
Lemma queueWatcher_in_sync_mode_witness :
  watchers subscribed !! 7 = Some subscriber ∧ quiet subscriber ∧
  queue (sched subscribed) = [] ∧ has (sched subscribed) = ∅ ∧
  waiting (sched subscribed) = false ∧ flushing (sched subscribed) = false ∧
  async sync_cfg = false ∧
  ∃ st',
    queueWatcher sync_cfg no_deep 5 7 subscribed = Some (st', Normal) ∧
    runs_of (log st') = runs_of (log subscribed) ++ [7] ∧
    queue (sched st') = [] ∧ has (sched st') = ∅ ∧
    waiting (sched st') = false ∧ flushing (sched st') = false ∧
    ticks (sched st') = ticks (sched subscribed).
Proof.
  split; [reflexivity|]. split; [exact subscriber_is_quiet|].
  split; [reflexivity|]. split; [reflexivity|]. split; [reflexivity|].
  split; [reflexivity|]. split; [reflexivity|].
  exact (queueWatcher_in_sync_mode sync_cfg no_deep 3 7 subscriber subscribed
           eq_refl subscriber_is_quiet eq_refl eq_refl eq_refl eq_refl eq_refl).
Defined.

(** The flush of [failing_start], whose first watcher throws. *)
Lemma flush_that_throws_leaves_scheduler_busy_witness :
  waiting (sched failing_start) = true ∧
  flushSchedulerQueue dev_cfg no_deep 10 failing_start
    = Some (failing_end, Throws (VStr "boom")) ∧
  waiting (sched failing_end) = true ∧ flushing (sched failing_end) = true ∧
  ∀ fuel' j, j ∉ has (sched failing_end) →
    ∃ st'',
      queueWatcher dev_cfg no_deep fuel' j failing_end = Some (st'', Normal) ∧
      j ∈ queue (sched st'') ∧
      waiting (sched st'') = true ∧ flushing (sched st'') = true ∧
      ticks (sched st'') = ticks (sched failing_end) ∧ log st'' = log failing_end.
Proof.
  assert (flushSchedulerQueue dev_cfg no_deep 10 failing_start
          = Some (failing_end, Throws (VStr "boom"))) as H2
    by (vm_compute; reflexivity).
  split; [reflexivity|]. split; [exact H2|].
  exact (flush_that_throws_leaves_scheduler_busy dev_cfg no_deep 10 failing_start
           failing_end (VStr "boom") eq_refl H2).
Defined.

(** Watcher 2, behind the one that threw, was not run and is still
    queued. *)
Lemma failed_flush_strands_the_queue :
  runs_of (log failing_end) = [1] ∧ queue (sched failing_end) = [1; 2] ∧
  2 ∈ has (sched failing_end).
Proof.
  split; [vm_compute; reflexivity|]. split; [vm_compute; reflexivity|].
  vm_compute. set_solver.
Qed.

End LifecycleWitnesses.

(** ** The operations on observed data on concrete heaps *)

Module ObserverOpsWitnesses.
Import Observer ObserverOps ObserverOpsTheory ObserverExamples ObserverOpsExamples.

Lemma observed_point_is : objs (observed point) !! 0 = Some observed_point_obj.
Proof. vm_compute. reflexivity. Qed.

Lemma observed_counter_is : objs (observed counter) !! 0 = Some observed_counter_obj.
Proof. vm_compute. reflexivity. Qed.

Lemma observed_numbers_is : objs (observed numbers) !! 0 = Some observed_numbers_obj.
Proof. vm_compute. reflexivity. Qed.

Lemma observed_nothing_is : objs (observed nothing) !! 0 = Some observed_nothing_obj.
Proof. vm_compute. reflexivity. Qed.

Lemma point_keys_distinct : NoDup (props point_obj).*1.
Proof.
  simpl. apply NoDup_cons. split; [|apply NoDup_singleton].
  intros Hin. apply list_elem_of_singleton in Hin. discriminate.
Qed.

Lemma point_is_plain_data : Forall plain_data (props point_obj).
Proof.
  repeat constructor; [exists (VNum 1)|exists (VNum 2)]; by split.
Qed.

Lemma point_cells i :
  i < length (props point_obj) →
  ∃ v, cells watched_point !! (0 + i) = Some (mkCell (S i) v None)
       ∧ isObject v = false.
Proof.
  intros Hi. destruct i as [|[|i]]; [exists (VNum 1)|exists (VNum 2)|simpl in Hi; lia];
    split; vm_compute; reflexivity.
Qed.

Lemma watched_point_has_no_user_getters : no_user_getters watched_point.
Proof.
  apply (no_user_getters_single 0 observed_point_obj).
  - vm_compute. reflexivity.
  - repeat constructor.
Qed.

Lemma point_has_no_user_getters : no_user_getters point.
Proof.
  apply (no_user_getters_single 0 point_obj); [reflexivity | repeat constructor].
Qed.

(** [point.x] is read while a watcher evaluates. *)
Lemma reading_is_pure_witness :
  no_user_getters watched_point ∧
  read_prop const_getter 5 0 "x" watched_point
    = Some (emit (EDepend 1) watched_point, VNum 1) ∧
  objs (emit (EDepend 1) watched_point) = objs watched_point ∧
  cells (emit (EDepend 1) watched_point) = cells watched_point ∧
  observers (emit (EDepend 1) watched_point) = observers watched_point ∧
  (∃ ds, events (emit (EDepend 1) watched_point)
         = events watched_point ++ (EDepend <$> ds)) ∧
  (tracking watched_point = false → emit (EDepend 1) watched_point = watched_point).
Proof.
  assert (read_prop const_getter 5 0 "x" watched_point
          = Some (emit (EDepend 1) watched_point, VNum 1)) as H1
    by (vm_compute; reflexivity).
  split; [exact watched_point_has_no_user_getters|]. split; [exact H1|].
  exact (reading_is_pure const_getter 5 0 "x" watched_point
           (emit (EDepend 1) watched_point) (VNum 1)
           watched_point_has_no_user_getters H1).
Defined.

(** [{ x: 1, y: 2 }] is observed. *)
Lemma observe_never_notifies_witness :
  no_user_getters point ∧
  observe false const_getter 5 (VObj 0) false point
    = Some (observed point, Some 0) ∧
  (∃ ds, events (observed point) = events point ++ (EDepend <$> ds)) ∧
  (∀ d, ENotify d ∈ events (observed point) → ENotify d ∈ events point) ∧
  (tracking point = false → events (observed point) = events point).
Proof.
  assert (observe false const_getter 5 (VObj 0) false point
          = Some (observed point, Some 0)) as H1 by (vm_compute; reflexivity).
  split; [exact point_has_no_user_getters|]. split; [exact H1|].
  exact (observe_never_notifies false const_getter 5 (VObj 0) false point
           (observed point) (Some 0) point_has_no_user_getters H1).
Defined.

Lemma pushed_is_primitive xs x :
  inserted (MPush [VNum 3]) = Some xs → x ∈ xs → isObject x = false.
Proof.
  intros [= <-] Hx. apply list_elem_of_singleton in Hx as ->. reflexivity.
Qed.

Lemma popped_inserts_nothing xs x :
  inserted MPop = Some xs → x ∈ xs → isObject x = false.
Proof. intros [=]. Qed.

Lemma push_is_short :
  (Z.of_nat (length (native no_sort (extensible observed_numbers_obj)
                            (MPush [VNum 3]) (items observed_numbers_obj)).1)
   < 2 ^ 32)%Z.
Proof. vm_compute. reflexivity. Qed.

Lemma numbers_are_few : (Z.of_nat (length (items observed_numbers_obj)) < 2 ^ 32)%Z.
Proof. vm_compute. reflexivity. Qed.

(** [push(3)] on the observed [[1, 2]]. *)
Lemma mutator_notifies_once_witness :
  ∃ h',
    callMethod false const_getter no_sort 5 0 (MPush [VNum 3]) (observed numbers)
      = Some (h', inl (RValue (VNum 3))) ∧
    h' = dep_notify 0 (set_obj 0 (with_items [VNum 1; VNum 2; VNum 3]
                                             observed_numbers_obj)
                               (observed numbers)).
Proof.
  assert (observers (observed numbers) !! 0 = Some first_observer) as H5
    by (vm_compute; reflexivity).
  eexists. split; [|reflexivity].
  exact (proj1 (mutator_notifies_once false const_getter no_sort 5 0
                  observed_numbers_obj 0 first_observer (MPush [VNum 3])
                  (observed numbers) observed_numbers_is eq_refl eq_refl
                  eq_refl H5 pushed_is_primitive numbers_are_few push_is_short)).
Defined.

(** [pop()] on the observed empty array changes nothing and notifies;
    [push(3)] on [[1, 2]] that is observed and not extensible throws and
    notifies nobody. *)
Lemma idle_and_failing_mutators :
  callMethod false const_getter no_sort 5 0 MPop (observed nothing)
    = Some (dep_notify 0 (observed nothing), inl (RValue VUndefined)) ∧
  callMethod false const_getter no_sort 5 0 (MPush [VNum 3]) closed_numbers
    = Some (closed_numbers, inr TypeError) ∧
  callMethod false const_getter no_sort 5 0 (MUnshift [VNum 3]) closed_numbers
    = Some (closed_numbers, inr TypeError) ∧
  callMethod false const_getter no_sort 5 0 (MSplice 1 (Some 0%Z) [VNum 3])
             closed_numbers
    = Some (closed_numbers, inr TypeError) ∧
  (∃ h', callMethod false const_getter no_sort 5 0 (MSplice 1 (Some 1%Z) [VNum 3])
                    closed_numbers = Some (h', inl (RArray [VNum 2])) ∧
         items <$> objs h' !! 0 = Some [VNum 1; VNum 3] ∧
         events h' = [ENotify 0]).
Proof.
  split; [vm_compute; reflexivity|]. split; [vm_compute; reflexivity|].
  split; [vm_compute; reflexivity|]. split; [vm_compute; reflexivity|].
  eexists. split; [vm_compute; reflexivity|].
  split; vm_compute; reflexivity.
Qed.

(** The array after [push(3)], the value returned and the events. *)
Lemma numbers_pushed :
  ∃ h', callMethod false const_getter no_sort 5 0 (MPush [VNum 3]) (observed numbers)
          = Some (h', inl (RValue (VNum 3))) ∧
        items <$> objs h' !! 0 = Some [VNum 1; VNum 2; VNum 3] ∧
        events h' = [ENotify 0].
Proof.
  eexists. split; [vm_compute; reflexivity|].
  split; [vm_compute; reflexivity|]. vm_compute. reflexivity.
Qed.


(** [set(arr, 1, 9)] on the observed [[1, 2]], and [set(arr, n, 9)] for
    [n] of 2^32 or more. *)
Lemma set_on_array_is_splice_witness :
  set Examples.dev_cfg false const_getter no_setter 5 (VObj 0) (KIdx 1) (VNum 9)
      (observed numbers)
  = match callMethod false const_getter no_sort 5 0
            (MSplice (Z.of_nat 1) (Some 1%Z) [VNum 9])
            (set_obj 0 (with_items (extend_length 1 (items observed_numbers_obj))
                                   observed_numbers_obj) (observed numbers)) with
    | Some (h', inl _) => Some (h', inl (VNum 9))
    | Some (h', inr e) => Some (h', inr e)
    | None => None
    end
  ∧ ∀ n, (2 ^ 32 ≤ Z.of_nat n)%Z →
      set Examples.dev_cfg false const_getter no_setter 5 (VObj 0) (KIdx n) (VNum 9)
          (observed numbers)
      = Some (observed numbers, inr RangeError).
Proof.
  assert (patched observed_numbers_obj = true → is_Some (ob observed_numbers_obj))
    as H3 by (intros _; exists 0; reflexivity).
  assert ((Z.of_nat 1 < 2 ^ 32 - 1)%Z) as Hn by (vm_compute; reflexivity).
  assert (1 ≤ length (items observed_numbers_obj)
          ∨ extensible observed_numbers_obj = true) as Hin by (right; reflexivity).
  split.
  - exact (proj1 (set_on_array_is_splice Examples.dev_cfg false const_getter
                    no_setter no_sort 5 0 observed_numbers_obj 1 (VNum 9)
                    (observed numbers) observed_numbers_is eq_refl H3
                    numbers_are_few) Hn Hin).
  - intros n.
    exact (proj2 (proj2 (set_on_array_is_splice Examples.dev_cfg false const_getter
                           no_setter no_sort 5 0 observed_numbers_obj n (VNum 9)
                           (observed numbers) observed_numbers_is eq_refl H3
                           numbers_are_few))).
Defined.

(** The array after [set(arr, 1, 9)], and after [set(arr, 3, 9)], which
    is past its end; [set(arr, 2, 9)] on [[1, 2]] that is not
    extensible. *)
Lemma numbers_set :
  (∃ h', set Examples.dev_cfg false const_getter no_setter 5 (VObj 0) (KIdx 1)
             (VNum 9) (observed numbers) = Some (h', inl (VNum 9)) ∧
         items <$> objs h' !! 0 = Some [VNum 1; VNum 9] ∧
         events h' = [ENotify 0]) ∧
  (∃ h', set Examples.dev_cfg false const_getter no_setter 5 (VObj 0) (KIdx 3)
             (VNum 9) (observed numbers) = Some (h', inl (VNum 9)) ∧
         items <$> objs h' !! 0
           = Some [VNum 1; VNum 2; VUndefined; VNum 9] ∧
         events h' = [ENotify 0]) ∧
  set Examples.dev_cfg false const_getter no_setter 5 (VObj 0) (KIdx 2) (VNum 9)
      closed_numbers = Some (closed_numbers, inr TypeError).
Proof.
  split; [|split].
  - eexists. split; [vm_compute; reflexivity|].
    split; vm_compute; reflexivity.
  - eexists. split; [vm_compute; reflexivity|].
    split; vm_compute; reflexivity.
  - vm_compute. reflexivity.
Qed.

Lemma counter_observer_exists id :
  ob observed_counter_obj = Some id → is_Some (observers (observed counter) !! id).
Proof. intros [= <-]. exists first_observer. vm_compute. reflexivity. Qed.

(** [del(obj, "a")] on the observed [{ a: 1 }]. *)
Lemma del_removes_and_notifies_witness :
  objs (observed counter) !! 0 = Some observed_counter_obj ∧
  kind observed_counter_obj = KPlain ∧ isVue observed_counter_obj = false ∧
  is_root (ob observed_counter_obj) (observed counter) = false ∧
  key_name (KStr "a") ≠ "__ob__" ∧
  (∀ id, ob observed_counter_obj = Some id →
         is_Some (observers (observed counter) !! id)) ∧
  ∃ h',
    let o' := with_props (remove_prop (key_name (KStr "a"))
                                      (props observed_counter_obj))
                         observed_counter_obj in
    del Examples.dev_cfg false const_getter no_sort 5 (VObj 0) (KStr "a")
        (observed counter) = Some (h', Normal, None) ∧
    objs h' = <[0 := o']> (objs (observed counter)) ∧
    get_prop (key_name (KStr "a")) (props o') = None ∧
    (∀ k', k' ≠ key_name (KStr "a") →
           get_prop k' (props o') = get_prop k' (props observed_counter_obj)) ∧
    cells h' = cells (observed counter) ∧
    observers h' = observers (observed counter) ∧
    next_dep h' = next_dep (observed counter) ∧
    next_cell h' = next_cell (observed counter) ∧
    next_ob h' = next_ob (observed counter) ∧
    shouldObserve h' = shouldObserve (observed counter) ∧
    tracking h' = tracking (observed counter) ∧
    events h' = events (observed counter) ++ [ENotify (ob_dep first_observer)].
Proof.
  assert (is_root (ob observed_counter_obj) (observed counter) = false) as H4
    by (vm_compute; reflexivity).
  assert (key_name (KStr "a") ≠ "__ob__") as H5 by discriminate.
  split; [exact observed_counter_is|]. split; [reflexivity|].
  split; [reflexivity|]. split; [exact H4|]. split; [exact H5|].
  split; [exact counter_observer_exists|].
  exact (del_removes_and_notifies Examples.dev_cfg false const_getter no_sort 5 0
           observed_counter_obj (KStr "a") (observed counter)
           observed_counter_is eq_refl eq_refl H4 H5 counter_observer_exists).
Defined.

(** [set(obj, "b", 2)] on the observed [{ a: 1 }]. *)
Lemma set_adds_reactive_property_witness :
  objs (observed counter) !! 0 = Some observed_counter_obj ∧
  kind observed_counter_obj = KPlain ∧ isVue observed_counter_obj = false ∧
  ob observed_counter_obj = Some 0 ∧
  observers (observed counter) !! 0 = Some first_observer ∧
  ob_value first_observer = 0 ∧ vmCount first_observer = 0 ∧
  extensible observed_counter_obj = true ∧
  get_prop (key_name (KStr "b")) (props observed_counter_obj) = None ∧
  unmodelled_key (KStr "b") = false ∧
  isObject (VNum 2) = false ∧
  ∃ h' o',
    set Examples.dev_cfg false const_getter no_setter 5 (VObj 0) (KStr "b") (VNum 2)
        (observed counter) = Some (h', inl (VNum 2)) ∧
    objs h' !! 0 = Some o' ∧
    props o' = put_prop (key_name (KStr "b"))
                        (reactive_accessor (next_cell (observed counter)))
                        (props observed_counter_obj) ∧
    get_prop (key_name (KStr "b")) (props o')
      = Some (reactive_accessor (next_cell (observed counter))) ∧
    (∀ k, k ≠ key_name (KStr "b") →
          get_prop k (props o') = get_prop k (props observed_counter_obj)) ∧
    (array_index (key_name (KStr "b")) = None →
     props o' = props observed_counter_obj
                ++ [(key_name (KStr "b"),
                     reactive_accessor (next_cell (observed counter)))]) ∧
    cells h' = <[next_cell (observed counter)
                 := mkCell (next_dep (observed counter)) (VNum 2) None]>
                 (cells (observed counter)) ∧
    events h' = events (observed counter) ++ [ENotify (ob_dep first_observer)] ∧
    read_prop const_getter 5 0 (key_name (KStr "b")) h'
      = Some (dep_depend (next_dep (observed counter)) h', VNum 2).
Proof.
  assert (observers (observed counter) !! 0 = Some first_observer) as H5
    by (vm_compute; reflexivity).
  split; [exact observed_counter_is|]. split; [reflexivity|].
  split; [reflexivity|]. split; [reflexivity|]. split; [exact H5|].
  split; [reflexivity|]. split; [reflexivity|]. split; [reflexivity|].
  split; [reflexivity|]. split; [reflexivity|]. split; [reflexivity|].
  exact (set_adds_reactive_property Examples.dev_cfg false const_getter no_setter
           5 0 observed_counter_obj 0 first_observer (KStr "b") (VNum 2)
           (observed counter) observed_counter_is eq_refl eq_refl eq_refl H5
           eq_refl eq_refl eq_refl eq_refl eq_refl eq_refl).
Defined.


(** [obj.a = 2] on the observed [{ a: 1 }]. *)
Lemma reactive_property_reads_last_write_witness :
  objs (observed counter) !! 0 = Some observed_counter_obj ∧
  get_prop "a" (props observed_counter_obj)
    = Some (Accessor (Some (ReactiveGet 0 None))
                     (Some (ReactiveSet 0 None None false false)) true true) ∧
  cells (observed counter) !! 0 = Some counter_cell ∧
  isObject (VNum 2) = false ∧
  ∃ h',
    assign Examples.dev_cfg false const_getter no_setter 5 0 "a" (VNum 2)
           (observed counter) = Some (h', Normal) ∧
    objs h' = objs (observed counter) ∧
    (∃ cell', cells h' !! 0 = Some cell' ∧ c_val cell' = VNum 2 ∧
              c_dep cell' = c_dep counter_cell) ∧
    (tracking (observed counter) = false →
     read_prop const_getter 5 0 "a" h' = Some (h', VNum 2)) ∧
    events h' = events (observed counter) ++ [ENotify (c_dep counter_cell)].
Proof.
  assert (cells (observed counter) !! 0 = Some counter_cell) as H3
    by (vm_compute; reflexivity).
  split; [exact observed_counter_is|]. split; [reflexivity|].
  split; [exact H3|]. split; [reflexivity|].
  exact (reactive_property_reads_last_write Examples.dev_cfg false const_getter
           no_setter 5 0 observed_counter_obj "a" 0 counter_cell false false
           true true (VNum 2) (observed counter)
           observed_counter_is eq_refl H3 eq_refl).
Defined.




(** The heap after [outer.a = inner]: the closure of [a] holds [inner] and
    its Observer, [inner.b] reads 2, and the one event is the notify() of
    the Dep of [a]. *)
Lemma container_is_wrapped :
  ∃ h', call_set Examples.dev_cfg false const_getter no_setter 5 counter_set (VObj 1)
                 (observed pair) = Some h' ∧
        cells h' !! 0 = Some (mkCell 1 (VObj 1) (Some 1)) ∧
        ob <$> objs h' !! 1 = Some (Some 1) ∧
        read_prop const_getter 5 1 "b" h' = Some (h', VNum 2) ∧
        events h' = [ENotify 1].
Proof.
  eexists. split; [vm_compute; reflexivity|].
  split_and!; vm_compute; reflexivity.
Qed.

(** [obj.x = 2] on the observed [{ get x () { return 1 }, set x (v) { } }]:
    the value goes to the setter the field was defined over, the closure's
    own value stays, and the Dep of [x] is notified. *)
Lemma write_goes_to_original_setter :
  (∃ o, objs (observed accessor_heap) !! 0 = Some o ∧
        get_prop "x" (props o)
          = Some (Accessor (Some (ReactiveGet 0 (Some (UserGet 0))))
                           (Some accessor_set) true true)) ∧
  cells (observed accessor_heap) !! 0 = Some (mkCell 1 (VNum 1) None) ∧
  ∃ h', call_set Examples.dev_cfg false const_getter no_setter 5 accessor_set (VNum 2)
                 (observed accessor_heap) = Some h' ∧
        cells h' !! 0 = Some (mkCell 1 (VNum 1) None) ∧
        events h' = [ENotify 1].
Proof.
  split; [eexists; split; vm_compute; reflexivity|].
  split; [vm_compute; reflexivity|].
  eexists. split; [vm_compute; reflexivity|].
  split; vm_compute; reflexivity.
Qed.

(** [set(obj, 0, 2)] on the observed [{ a: 1 }]: in the order of
    [Object.keys] the new property comes first. *)
Lemma index_key_goes_first :
  ∃ h' o', set Examples.dev_cfg false const_getter no_setter 5 (VObj 0) (KIdx 0)
               (VNum 2) (observed counter) = Some (h', inl (VNum 2)) ∧
           objs h' !! 0 = Some o' ∧ keys o' = ["0"; "a"] ∧
           events h' = [ENotify 0].
Proof.
  eexists _, _. split; [vm_compute; reflexivity|].
  split; [vm_compute; reflexivity|]. split; vm_compute; reflexivity.
Qed.

(** [{ x: 1, y: 2 }] is observed. *)
Lemma observe_makes_properties_reactive_witness :
  objs point !! 0 = Some point_obj ∧ kind point_obj = KPlain ∧
  ob point_obj = None ∧ extensible point_obj = true ∧ isVue point_obj = false ∧
  shouldObserve point = true ∧ false = false ∧
  NoDup (props point_obj).*1 ∧ Forall plain_data (props point_obj) ∧
  ∃ h' o',
    observe false const_getter 5 (VObj 0) false point
      = Some (h', Some (next_ob point)) ∧
    objs h' !! 0 = Some o' ∧ ob o' = Some (next_ob point) ∧
    observers h' !! next_ob point = Some (mkObRec 0 (next_dep point) 0) ∧
    props o' = reactive_props (next_cell point) (props point_obj) ∧
    events h' = events point ∧
    ∀ i k v, props point_obj !! i = Some (k, Data v true true) →
      cells h' !! (next_cell point + i)
        = Some (mkCell (S (next_dep point) + i) v None) ∧
      (tracking point = false → read_prop const_getter 5 0 k h' = Some (h', v)).
Proof.
  split; [reflexivity|]. split; [reflexivity|]. split; [reflexivity|].
  split; [reflexivity|]. split; [reflexivity|]. split; [reflexivity|].
  split; [reflexivity|]. split; [exact point_keys_distinct|].
  split; [exact point_is_plain_data|].
  exact (observe_makes_properties_reactive false const_getter 4 0 point_obj point
           eq_refl eq_refl eq_refl eq_refl eq_refl eq_refl eq_refl
           point_keys_distinct point_is_plain_data).
Defined.

(** A deep watcher traverses the observed [{ x: 1, y: 2 }]. *)
Lemma traverse_only_reads_witness :
  no_user_getters watched_point ∧
  traverse const_getter 5 (VObj 0) watched_point
    = Some (emit (EDepend 1) (emit (EDepend 2) watched_point)) ∧
  objs (emit (EDepend 1) (emit (EDepend 2) watched_point)) = objs watched_point ∧
  cells (emit (EDepend 1) (emit (EDepend 2) watched_point)) = cells watched_point ∧
  observers (emit (EDepend 1) (emit (EDepend 2) watched_point))
    = observers watched_point ∧
  (∃ ds, events (emit (EDepend 1) (emit (EDepend 2) watched_point))
         = events watched_point ++ (EDepend <$> ds)) ∧
  (tracking watched_point = false →
   emit (EDepend 1) (emit (EDepend 2) watched_point) = watched_point).
Proof.
  assert (traverse const_getter 5 (VObj 0) watched_point
          = Some (emit (EDepend 1) (emit (EDepend 2) watched_point))) as H1
    by (vm_compute; reflexivity).
  split; [exact watched_point_has_no_user_getters|]. split; [exact H1|].
  exact (traverse_only_reads const_getter 5 (VObj 0) watched_point
           (emit (EDepend 1) (emit (EDepend 2) watched_point))
           watched_point_has_no_user_getters H1).
Defined.

(** The paths a watcher may be given. *)
Lemma parsed_paths :
  is_Some (parsePath const_getter 5 "a.b.c") ∧
  is_Some (parsePath const_getter 5 "items.0.$name_1") ∧
  parsePath const_getter 5 "a[0]" = None ∧
  parsePath const_getter 5 "a b" = None ∧
  parsePath const_getter 5 "a-b" = None ∧
  split_dots "a.b.c" = ["a"; "b"; "c"] ∧ split_dots "a." = ["a"; ""].
Proof.
  split; [by eexists|]. split; [by eexists|].
  split_and!; vm_compute; reflexivity.
Qed.

(** The path [aaa.bbb.ccc] on [{ aaa: { bbb: 1 } }]: the function for
    [aaa.bbb] returns 1, and the function for [ccc] makes [undefined] of
    it. *)
Lemma parsePath_composes_witness :
  ∃ f fp fq,
    parsePath const_getter 5 "aaa.bbb.ccc" = Some f ∧
    parsePath const_getter 5 "aaa.bbb" = Some fp ∧
    parsePath const_getter 5 "ccc" = Some fq ∧
    fp (VObj 0) nested_heap = Some (nested_heap, VNum 1) ∧
    fq (VNum 1) nested_heap = Some (nested_heap, VUndefined) ∧
    f (VObj 0) nested_heap = Some (nested_heap, VUndefined).
Proof.
  pose proof (parsePath_composes const_getter 5 "aaa.bbb" "ccc") as H.
  change ("aaa.bbb" +:+ String dot "ccc")%string with "aaa.bbb.ccc"%string in H.
  assert (bail "aaa.bbb.ccc" = false) as Hb by (vm_compute; reflexivity).
  assert (parsePath const_getter 5 "aaa.bbb.ccc"
          = Some (walk_path const_getter 5 (split_dots "aaa.bbb.ccc"))) as Ef
    by (unfold parsePath; by rewrite Hb).
  rewrite Ef in H. destruct H as (fp & fq & Hp & Hq & Hf).
  exists (walk_path const_getter 5 (split_dots "aaa.bbb.ccc")), fp, fq.
  split; [exact Ef|]. split; [exact Hp|]. split; [exact Hq|].
  assert (bail "aaa.bbb" = false) as Hbp by (vm_compute; reflexivity).
  assert (bail "ccc" = false) as Hbq by (vm_compute; reflexivity).
  unfold parsePath in Hp, Hq. rewrite Hbp in Hp. rewrite Hbq in Hq.
  assert (fp (VObj 0) nested_heap = Some (nested_heap, VNum 1)) as H1.
  { injection Hp as <-. vm_compute. reflexivity. }
  assert (fq (VNum 1) nested_heap = Some (nested_heap, VUndefined)) as H2.
  { injection Hq as <-. vm_compute. reflexivity. }
  split; [exact H1|]. split; [exact H2|].
  rewrite Hf, H1. exact H2.
Defined.

(** Paths that run into a primitive or into a missing member give
    [undefined]; a member that comes from a prototype is not a value of the
    model. *)
Lemma paths_into_primitives :
  walk_path const_getter 5 ["aaa"; "bbb"; "ccc"] (VObj 0) nested_heap
    = Some (nested_heap, VUndefined) ∧
  walk_path const_getter 5 ["aaa"; "zzz"; "ccc"] (VObj 0) nested_heap
    = Some (nested_heap, VUndefined) ∧
  walk_path const_getter 5 ["aaa"; "bbb"] (VObj 0) nested_heap
    = Some (nested_heap, VNum 1) ∧
  walk_path const_getter 5 ["aaa"; "bbb"; "toFixed"] (VObj 0) nested_heap = None ∧
  walk_path const_getter 5 ["aaa"; "toString"] (VObj 0) nested_heap = None.
Proof. split_and!; vm_compute; reflexivity. Qed.


(** A deep watcher traverses the observed [{ x: 1, y: 2 }]: [y] is read
    before [x]. *)
Lemma traverse_depends_on_every_property_witness :
  objs watched_point !! 0 = Some observed_point_obj ∧
  kind observed_point_obj = KPlain ∧ ob observed_point_obj = Some 0 ∧
  observers watched_point !! 0 = Some first_observer ∧
  props observed_point_obj = reactive_props 0 (props point_obj) ∧
  NoDup (props point_obj).*1 ∧
  (∀ i, i < length (props point_obj) →
        ∃ v, cells watched_point !! (0 + i) = Some (mkCell (S i) v None)
             ∧ isObject v = false) ∧
  tracking watched_point = true ∧
  ∃ h', traverse const_getter 5 (VObj 0) watched_point = Some h'
        ∧ objs h' = objs watched_point ∧ cells h' = cells watched_point
        ∧ observers h' = observers watched_point
        ∧ events h' = events watched_point ++ [EDepend 2; EDepend 1].
Proof.
  assert (objs watched_point !! 0 = Some observed_point_obj) as H1
    by (vm_compute; reflexivity).
  assert (observers watched_point !! 0 = Some first_observer) as H4
    by (vm_compute; reflexivity).
  split; [exact H1|]. split; [reflexivity|]. split; [reflexivity|].
  split; [exact H4|]. split; [reflexivity|].
  split; [exact point_keys_distinct|]. split; [exact point_cells|].
  split; [reflexivity|].
  exact (traverse_depends_on_every_property const_getter 3 0 observed_point_obj 0
           first_observer 0 (props point_obj) S watched_point
           H1 eq_refl eq_refl H4 eq_refl point_keys_distinct point_cells
           eq_refl).
Defined.

End ObserverOpsWitnesses.
